(* ===== verification/_CoqProject ===== *)
-Q . S2P
Prelude.v
ApiTypes.v
PortAllocator.v
WebRtcApi.v
ConductorState.v
Conductor.v
Observers.v
ConductorLemmas.v
System.v
SystemLemmas.v
SampleLibrary.v
SystemTheorems.v
ConductorTheorems.v
RefCounting.v
Buffer.v
BufferTheorems.v
Units.v
UnitsTheorems.v
CircularDeque.v
CircularDequeLemmas.v
CircularDequeOps.v
CircularDequeTheorems.v
CopyOnWriteBuffer.v
CopyOnWriteBufferLemmas.v
CopyOnWriteBufferTheorems.v
SafeConversions.v
SafeConversionsTheorems.v
CheckedMath.v
CheckedMathLemmas.v
CheckedMathTheorems.v
ClampedMath.v
ClampedMathTheorems.v
Time.v
TimeTheorems.v
SequenceNumbers.v
SequenceNumbersTheorems.v
SwapQueue.v
SwapQueueTheorems.v
LinkedList.v
LinkedListTheorems.v
NodeLists.v
MruCache.v
MruCacheTheorems.v
RingBuffer.v
StdAlgorithms.v
FlatTree.v
FlatTreeLemmas.v
FlatTreeTheorems.v
SampleFilters.v
SampleFiltersTheorems.v
IdMap.v
IdMapLemmas.v
IdMapTheorems.v
IntrusiveHeap.v
IntrusiveHeapLemmas.v
IntrusiveHeapTheorems.v
Managed.v
SpitfireRtc.v
CallbackTyping.v
SpitfireSystem.v
SpitfireTheorems.v
