(* ===== verification/Prelude.v ===== *)
(** * Spitfire, a WebRTC data channel library: a verification of its code

    Spitfire wraps the native WebRTC library for managed (.NET) programs.  Its own
    code is C++/CLI under src/Spitfire/; it is compiled against the WebRTC and
    Chromium headers under src/include/, of which it uses both the interfaces
    (whose implementations are not in the repository) and the inline code.

    ** The parts and how they interact

    - [RtcConductor] (RtcConductor.h, RtcConductor.cpp) owns one peer connection,
      three threads, the factory, the data channels by label, and a function pointer
      per kind of event.  A client calls it; it calls the library.
    - The observers (DataChannelObserver.h, PeerConnectionObserver.h and .cpp,
      CreateSessionDescriptionObserver.h and .cpp, SetSessionDescriptionObserver.h)
      are called by the library and call back into the conductor.
    - [SpitfireRtc] (SpitfireRtc.cpp) is the managed class: it drives a conductor,
      converts arguments and results, turns the conductor's function pointers into
      managed events, and ties the life of the native object to its own through
      garbage collector handles.
    - Below them is header code: reference counting and [scoped_refptr], the growable
      array [BufferT], the byte strings of a message, [CopyOnWriteBuffer], on top of
      both, quantities with units, wrapping sequence numbers, statistics over
      a moving window, the queue between two
      threads [SwapQueue], Chromium's checked and clamped arithmetic (base/numerics), time
      in microseconds on top of it, and Chromium's containers [circular_deque], [IntrusiveHeap], [flat_tree] and [flat_map],
      [LinkedList], [MRUCache], [RingBuffer] and [IDMap].

    ** Files

    - Prelude.v: machine integers, faults, the state-and-fault monad [M], [wp] and the
      rules and tactics of symbolic execution.
    - ApiTypes.v: the structures, enumerations and default values of
      api/data_channel_interface.h, api/peer_connection_interface.h, ...;
      PortAllocator.v: the inline part of p2p/base/port_allocator.h.
    - WebRtcApi.v: the boundary to the library.  The library is a parameter: the class
      [WebRtc] has one operation per function Spitfire calls, on a type of worlds;
      [Call] is the alphabet of what Spitfire does to it.  The laws used, each a class
      of its own, are that [std::unordered_map] visits every element once
      ([UnorderedMapLaws]) and the widths of counters ([DataChannelWidths]).  Nothing is
      assumed of whether threads start or objects are delivered, and a description may be
      freed by the library once it took it over.
      SampleLibrary.v is an instance of all of them, on which the theorems are run.
    - ConductorState.v, Conductor.v, Observers.v: the members of the conductor and
      observers as records, one definition per member function.  The state [Sys] has
      the conductor, the world, the calls made so far, and the addresses handed out to
      observers.  ConductorLemmas.v: what each operation does, exactly.
    - System.v: the events of a conductor as [op]s, reachability, the invariant, the
      abstractions [phase] (where in its life it is) and [registry] (channels by label);
      SystemLemmas.v, SystemTheorems.v, ConductorTheorems.v: its properties.
    - Managed.v, SpitfireRtc.v: the managed data and class.  CallbackTyping.v: callbacks
      arrive with the arguments their handlers expect.  SpitfireSystem.v: the managed
      object as a state machine on top of the conductor's; SpitfireTheorems.v.
    - RefCounting.v: rtc_base/ref_counter.h, ref_counted_object.h, the hand-written
      AddRef/Release of the session observers and api/scoped_refptr.h.  The smart
      pointer is proved against the class [RefCountInterface], of which both counters
      are instances; concurrent releases are step relations.
    - Buffer.v, BufferTheorems.v: rtc_base/buffer.h.
    - CopyOnWriteBuffer.v, with CopyOnWriteBufferLemmas.v and
      CopyOnWriteBufferTheorems.v: rtc_base/copy_on_write_buffer.h, on the smart
      pointers of RefCounting.v and the buffers of Buffer.v.  The functions the header
      only declares are the class [CopyOnWriteImpl] with [CopyOnWriteLaws], and an
      instance of them closes the theorems.
    - Units.v, UnitsTheorems.v: rtc_base/units/unit_base.h and api/units/.
    - CircularDeque.v, with CircularDequeLemmas.v, CircularDequeOps.v and
      CircularDequeTheorems.v: base/containers/circular_deque.h and vector_buffer.h.
    - SequenceNumbers.v, SequenceNumbersTheorems.v: rtc_base/numerics/mod_ops.h and
      sequence_number_util.h, modules/include/module_common_types_public.h.
    - SampleFilters.v, SampleFiltersTheorems.v: rtc_base/numerics/moving_max_counter.h,
      percentile_filter.h and moving_median_filter.h.
    - StdAlgorithms.v: the algorithms of the C++ library the containers call (binary
      search, stable sort, unique, merge) and strict weak orders, as the class
      [StrictWeakOrder] against which the ordered containers are proved.
    - IntrusiveHeap.v, with IntrusiveHeapLemmas.v and IntrusiveHeapTheorems.v:
      base/containers/intrusive_heap.h.
    - FlatTree.v, with FlatTreeLemmas.v and FlatTreeTheorems.v:
      base/containers/flat_tree.h and flat_map.h.
    - SafeConversions.v, CheckedMath.v, ClampedMath.v, with CheckedMathLemmas.v and a file
      of theorems each: base/numerics/ (safe_conversions_impl.h, safe_conversions.h,
      checked_math_impl.h, checked_math.h, clamped_math_impl.h, clamped_math.h,
      safe_math_shared_impl.h).  An [int_type] is a width and a signedness; the platform's
      [intptr_t] is the class [Platform].
    - Time.v, TimeTheorems.v: base/time/time.h, on the checked and clamped arithmetic.
    - SwapQueue.v, SwapQueueTheorems.v: rtc_base/swap_queue.h.  A call is a sequence of
      pieces; the two threads are a step relation over the same pieces.
    - LinkedList.v, LinkedListTheorems.v: base/containers/linked_list.h, nodes in memory by
      address.
    - NodeLists.v: containers whose elements stay where they are in memory.
    - MruCache.v, MruCacheTheorems.v: base/containers/mru_cache.h.
    - RingBuffer.v: base/containers/ring_buffer.h.
    - IdMap.v, with IdMapLemmas.v and IdMapTheorems.v: base/containers/id_map.h, on the
      flat_set of FlatTree.v.  Where [std::unordered_map] puts a new element is the class
      [UnorderedMap] with the law [UnorderedMapPlaces].

    ** How code becomes definitions

    A member function is a computation of [M S A]: it takes the state of the objects it
    works on and returns a result and the new state, or stops with a [fault], which says
    how the program would stop: a null or dangling pointer, a failed check, undefined
    behaviour, an exception.  [wp m Q s] says that [m] returns, and with what, so every
    theorem in terms of [wp] is also one of termination and of the absence of faults;
    [wpf] says for both outcomes what they are, the fault included.
    [RTC_DCHECK] and [DCHECK] are [dcheck], which a [BuildConfig] turns on or off: the
    theorems hold for both builds, unless they say which one they are about.
    Integers of a fixed width are [Z] with the wrap-around written out ([wrap_u],
    [wrap_s]); signed overflow is a fault.  Container sizes are [nat].

    ** What is proved

    - The conductor: an invariant of every reachable state; every completed event is a
      move of the abstract life cycle and of the map of channels; for
      every event exactly when it returns and with which fault it stops otherwise, without
      assumptions on the library; channels are unregistered and closed before their observers are
      destroyed, once; what each operation and callback does on every branch; and which
      operations dereference null after [DeletePeerConnection].
    - The managed class: whatever the library makes happen raises the managed event that
      stands for it, the events raised are those of the native callbacks, in order, and the untyped function pointers are type safe; disposal frees the handles and
      the conductor once, and until then they keep
      the object alive; argument handling, error branches and conversions.
    - Reference counting: under any sequence of smart pointer statements an object lives
      exactly while it is referred to.  Concurrent releases by any number of threads are safe
      for [RefCountedObject]; two can leak a hand-counted session observer.
    - [BufferT], [circular_deque]: every operation returns and does to the contents what
      the list operation does; storage bounds; stale iterators; what is given back.
    - [CopyOnWriteBuffer]: value semantics; whatever is shared, an operation on one
      object changes its bytes and nobody else's; the cases without bytes in which an object
      is left inconsistent.
    - Units: the arithmetic is that of the integers with two infinities, and what happens in
      either build where the unit cannot hold the result; rounding,
      conversion, and how rates, sizes and durations fit together.
    - Sequence numbers: differences modulo the range, an order that agrees with the
      integers within half of it, and unwrapping that recovers what was wrapped.
    - Moving windows: the maximum, a percentile and the median are those of the samples in
      the window; where the rounding of floats goes wrong.
    - [IntrusiveHeap]: every operation keeps the order and the handles and changes the
      contents as a multiset; draining a heap sorts.
    - [flat_tree]: operations keep the body sorted without equivalent keys and refine a map
      from keys to values; inserting many is inserting one after the other; [flat_map] is
      a finite map.
    - Numerics: range checks, casts and comparisons between any two integer types are
      exact; checked operations succeed exactly when the result can be represented, with
      the cases in which they do not; expressions either give the value over the integers
      or stop, except for unsigned negation and one remainder; clamped operations give the nearest number, with the one that does not.
    - Time: sums, products and quotients saturate, with the limits as infinities on the
      right and the exceptions for a divisor of zero and [uint64_t]; points and spans fit together; on which arguments the code overflows.
    - [SwapQueue]: under every interleaving a first-in first-out queue; no two accesses to
      a slot at the same time; nothing lost or duplicated.
    - [LinkedList]: the rings in memory are the lists of nodes the operations say.
    - [MRUCache]: a list without equal keys that holds the keys used last; [Put] with a
      reference to a key of its own.  [RingBuffer]: the last values saved.
    - [IDMap]: a finite map, whatever is removed while iterators run over it; an iteration
      ends and visits everything that stays, once.

    ** Loop bounds

    Loops over a sequence are structural.  The loops of the deque run through [while_]
    with the capacity, or the number of elements to be added, as the bound; those of the
    heap with the logarithm of its size; a binary search with the length of its range;
    decimal digits of a 16-bit port with five; an iteration over a ring buffer with its
    size, over a list with the number of its nodes, over the table of an [IDMap] with its
    length, and over the samples of a moving maximum with their number.  A
    loop that reached its bound would stop with a fault, so that the theorems, which show
    that the operations return, show that the bounds are enough.

    ** Not modelled

    - The implementation of WebRTC behind the headers: it is not in the repository.
    - Logging text, InitializeSSL and CleanupSSL, which only call the library.
    - Real concurrency of the conductor: the library delivers callbacks from its signalling
      thread; here an event runs to its end before the next one starts.  Concurrent
      reference counting is modelled.
    - Floating-point overloads and printing of the units; [Erase] and [EraseIf] of the
      deque (algorithms of the C++ library); reverse iterators of the heap, and copies
      of elements inside it (elements are moved).
    - Floating point and the compiler's built-ins in base/numerics, limits of one's own for
      saturation, [StrictNumeric]; the capacity of the vector in a [flat_tree], whose
      comparison object is fixed.
    - The clocks, calendar time and conversions to other units of base/time/time.h, which
      the header only declares, and its conversions from floating point.
    - Running statistics in rtc_base/numerics that are computed in floating point.
    - Memory orders: the accesses of the two threads of a [SwapQueue] interleave, as the
      acquire and release orders of the source and the proved absence of races allow.
    - SpitfireUtils and the example program, which are C#; other vendored headers.

    ** Plan

    base/containers/small_map.h and the views api/array_view.h and base/containers/span.h
    come next; then [EraseIf] of the deque on StdAlgorithms.v. *)
From Stdlib Require Import ZArith Lia.
From stdpp Require Import base tactics numbers strings gmap list.

Open Scope Z_scope.

#[export] Set Warnings "-clear-no-such-hyp".

(** * Machine integers *)

(** Conversion to a [w]-bit unsigned integer: reduction modulo [2^w]. *)
Definition wrap_u (w z : Z) : Z := z mod 2 ^ w.

(** Conversion to a [w]-bit two's complement integer. *)
Definition wrap_s (w z : Z) : Z :=
  (z + 2 ^ (w - 1)) mod 2 ^ w - 2 ^ (w - 1).

Definition in_u (w z : Z) : Prop := 0 ≤ z < 2 ^ w.
Definition in_s (w z : Z) : Prop := - 2 ^ (w - 1) ≤ z < 2 ^ (w - 1).

(** * Faults and results *)

(** The ways in which the modelled code stops instead of returning: a
    dereferenced null or dangling pointer, a failed [RTC_CHECK] (or
    [RTC_DCHECK] where those are compiled in), the invalid-parameter handler
    of the secure C runtime, what the C++ standard leaves undefined (signed
    overflow, division by zero, a read outside an array), and a managed
    exception. *)
Inductive fault :=
  | NullDeref (what : string)
  | UseAfterFree (what : string)
  | CheckFailed (what : string)
  | InvalidParameter (what : string)
  | UndefinedBehaviour (what : string)
  | ArgumentException (what : string).

Inductive outcome (A : Type) :=
  | Ok (a : A)
  | Fault (f : fault).
Arguments Ok {A} a.
Arguments Fault {A} f.

#[global] Instance fault_eq_dec : EqDecision fault.
Proof. solve_decision. Defined.

(** * The state monad with faults *)

Definition M (S A : Type) : Type := S → outcome (A * S).

#[global] Instance M_ret {S} : MRet (M S) := λ A a s, Ok (a, s).
#[global] Instance M_bind {S} : MBind (M S) := λ A B f m s,
  match m s with
  | Ok (a, s') => f a s'
  | Fault e => Fault e
  end.

Definition get {S} : M S S := λ s, Ok (s, s).
Definition put {S} (s : S) : M S unit := λ _, Ok (tt, s).
Definition modify {S} (f : S → S) : M S unit := λ s, Ok (tt, f s).
Definition fail {S A} (f : fault) : M S A := λ _, Fault f.

(** Dereferencing a pointer: the null pointer is [None]. *)
Definition deref {S A} (what : string) (p : option A) : M S A :=
  match p with
  | Some a => mret a
  | None => fail (NullDeref what)
  end.

(** [RTC_CHECK]: always compiled in. *)
Definition check {S} (b : bool) (what : string) : M S unit :=
  if b then mret tt else fail (CheckFailed what).

(** [RTC_DCHECK_IS_ON] is a compile-time constant of the build. *)
Class BuildConfig := RTC_DCHECK_IS_ON : bool.

(** [RTC_DCHECK]: an [RTC_CHECK] in builds that have it on, nothing else. *)
Definition dcheck `{BuildConfig} {S} (b : bool) (what : string) : M S unit :=
  if RTC_DCHECK_IS_ON then check b what else mret tt.

(** Runs code that works on a local object of its own. *)
Definition on_local {L S A} (l : L) (m : M L A) : M S (A * L) := λ s,
  match m l with
  | Ok (a, l') => Ok ((a, l'), s)
  | Fault e => Fault e
  end.

(** Loops over a sequence, first element first. *)
Fixpoint for_each {S A} (f : A → M S unit) (l : list A) : M S unit :=
  match l with
  | [] => mret tt
  | x :: l' => _ ← f x; for_each f l'
  end.

(** [while (cond(a)) a = body(a)], at most [fuel] times round.  A loop that is
    still going then stops the model, so a proof that it returns is a proof that
    the fuel is enough. *)
Fixpoint while_ {S A} (fuel : nat) (cond : A → M S bool) (body : A → M S A) (a : A) : M S A :=
  b ← cond a;
  if b : bool then
    match fuel with
    | O => fail (UndefinedBehaviour "loop bound of the model")
    | Datatypes.S n => a' ← body a; while_ n cond body a'
    end
  else mret a.

(** ** Total-correctness weakest precondition

    [wp m Q s] says that [m] started in [s] stops without a fault in a state
    and with a result that satisfy [Q]. *)
Definition wp {S A} (m : M S A) (Q : A → S → Prop) (s : S) : Prop :=
  match m s with
  | Ok (a, s') => Q a s'
  | Fault _ => False
  end.

(** The partial version: [m] may also stop with a fault. *)
Definition wlp {S A} (m : M S A) (Q : A → S → Prop) (s : S) : Prop :=
  match m s with
  | Ok (a, s') => Q a s'
  | Fault _ => True
  end.

(** [m] stops with a fault when started in [s]. *)
Definition faults {S A} (m : M S A) (s : S) : Prop :=
  match m s with Ok _ => False | Fault _ => True end.

(** The exact version: [m] returns as [Q] says, or stops with a fault [E] admits. *)
Definition wpf {S A} (m : M S A) (Q : A → S → Prop) (E : fault → Prop) (s : S) : Prop :=
  match m s with
  | Ok (a, s') => Q a s'
  | Fault e => E e
  end.

Create HintDb spitfire.

Lemma wp_ret {S A} (a : A) (Q : A → S → Prop) s : Q a s → wp (mret a) Q s.
Proof. done. Qed.

Lemma wp_bind {S A B} (m : M S A) (f : A → M S B) Q s :
  wp m (λ a s', wp (f a) Q s') s → wp (m ≫= f) Q s.
Proof. unfold wp, mbind, M_bind. by destruct (m s) as [[a s']|]. Qed.

Lemma wp_mono {S A} (m : M S A) (Q Q' : A → S → Prop) s :
  wp m Q s → (∀ a s', Q a s' → Q' a s') → wp m Q' s.
Proof. unfold wp. destruct (m s) as [[a s']|]; eauto. Qed.

Lemma wp_get {S} (Q : S → S → Prop) s : Q s s → wp get Q s.
Proof. done. Qed.

Lemma wp_put {S} (s' : S) (Q : unit → S → Prop) s : Q tt s' → wp (put s') Q s.
Proof. done. Qed.

Lemma wp_modify {S} (f : S → S) (Q : unit → S → Prop) s :
  Q tt (f s) → wp (modify f) Q s.
Proof. done. Qed.

Lemma wp_deref {S A} what (p : option A) (a : A) (Q : A → S → Prop) s :
  p = Some a → Q a s → wp (deref what p) Q s.
Proof. by intros ->. Qed.

Lemma wp_check {S} b what (Q : unit → S → Prop) s :
  b = true → Q tt s → wp (check b what) Q s.
Proof. by intros ->. Qed.

Lemma wp_dcheck `{BuildConfig} {S} b what (Q : unit → S → Prop) s :
  (RTC_DCHECK_IS_ON = true → b = true) → Q tt s → wp (dcheck b what) Q s.
Proof.
  intros Hb HQ. unfold dcheck. destruct RTC_DCHECK_IS_ON; [|done].
  by rewrite Hb.
Qed.

Lemma wp_on_local {L S A} (l : L) (m : M L A) (Q : A * L → S → Prop) s :
  wp m (λ a l', Q (a, l') s) l → wp (on_local l m) Q s.
Proof. unfold wp, on_local. by destruct (m l) as [[a l']|]. Qed.

(** The loop rule: an invariant indexed by the elements already handled. *)
Lemma wp_for_each {S A} (f : A → M S unit) (I : list A → S → Prop) l s :
  I [] s →
  (∀ done x rest s', l = done ++ x :: rest → I done s' →
     wp (f x) (λ _ s'', I (done ++ [x]) s'') s') →
  wp (for_each f l) (λ _ s', I l s') s.
Proof.
  intros HI Hstep.
  assert (∀ rest done s', l = done ++ rest → I done s' →
    wp (for_each f rest) (λ _ s'', I l s'') s') as Hgen; [|by apply (Hgen l [])].
  induction rest as [|x rest IH]; intros done s' Hl Hd; simpl.
  - apply wp_ret. rewrite app_nil_r in Hl. by subst.
  - apply wp_bind. eapply wp_mono; [by eapply Hstep|].
    intros [] s'' Hx. eapply (IH (done ++ [x])); [|done].
    by rewrite Hl, <-app_assoc.
Qed.

(** The [while] rule: an invariant indexed by the rounds left. *)
Lemma wp_while {S A} fuel (cond : A → M S bool) (body : A → M S A)
    (I : nat → A → S → Prop) (Q : A → S → Prop) n a s :
  I n a s → (n ≤ fuel)%nat →
  (∀ n a s, I n a s → wp (cond a) (λ b s',
     if b : bool then ∃ n', n = Datatypes.S n' ∧ wp (body a) (λ a' s'', I n' a' s'') s'
     else Q a s') s) →
  wp (while_ fuel cond body a) Q s.
Proof.
  intros HI Hn Hstep. revert n a s HI Hn.
  induction fuel as [|fuel IH]; intros n a s HI Hn; simpl;
    apply wp_bind; (eapply wp_mono; [by apply Hstep|]); intros [] s' Hb;
    try (by apply wp_ret); destruct Hb as (n'&->&Hbody); [lia|].
  apply wp_bind. eapply wp_mono; [exact Hbody|]. intros a' s'' HI'. apply (IH n'); [done|lia].
Qed.

Lemma wp_ok {S A} (m : M S A) Q s a s' : m s = Ok (a, s') → wp m Q s ↔ Q a s'.
Proof. unfold wp. by intros ->. Qed.

Lemma wp_ok_inv {S A} (m : M S A) Q s :
  wp m Q s → ∃ a s', m s = Ok (a, s') ∧ Q a s'.
Proof. unfold wp. destruct (m s) as [[a s']|]; [by eauto|done]. Qed.

Lemma wp_wlp {S A} (m : M S A) Q s : wp m Q s → wlp m Q s.
Proof. unfold wp, wlp. by destruct (m s) as [[a s']|]. Qed.

Lemma faults_wlp {S A} (m : M S A) Q s : faults m s → wlp m Q s.
Proof. unfold faults, wlp. by destruct (m s) as [[a s']|]. Qed.

Lemma wlp_bind {S A B} (m : M S A) (f : A → M S B) Q s :
  wlp m (λ a s', wlp (f a) Q s') s → wlp (m ≫= f) Q s.
Proof. unfold wlp, mbind, M_bind. by destruct (m s) as [[a s']|]. Qed.

Lemma wp_wlp_bind {S A B} (m : M S A) (f : A → M S B) Q s :
  wp m (λ a s', wlp (f a) Q s') s → wlp (m ≫= f) Q s.
Proof. intros Hm. apply wlp_bind. by apply wp_wlp. Qed.

Lemma wlp_ok {S A} (m : M S A) (Q : A → S → Prop) s a s' :
  wlp m Q s → m s = Ok (a, s') → Q a s'.
Proof. unfold wlp. intros HQ Heq. by rewrite Heq in HQ. Qed.

Lemma wpf_bind {S A B} (m : M S A) (f : A → M S B) Q E s :
  wpf m (λ a s', wpf (f a) Q E s') E s → wpf (m ≫= f) Q E s.
Proof. unfold wpf, mbind, M_bind. by destruct (m s) as [[a s']|]. Qed.

Lemma wp_wpf {S A} (m : M S A) Q E s : wp m Q s → wpf m Q E s.
Proof. unfold wp, wpf. by destruct (m s) as [[a s']|]. Qed.

Lemma wp_wpf_bind {S A B} (m : M S A) (f : A → M S B) Q E s :
  wp m (λ a s', wpf (f a) Q E s') s → wpf (m ≫= f) Q E s.
Proof. intros Hm. apply wpf_bind. by apply wp_wpf. Qed.

Lemma wpf_mono {S A} (m : M S A) (Q Q' : A → S → Prop) (E E' : fault → Prop) s :
  wpf m Q E s → (∀ a s', Q a s' → Q' a s') → (∀ e, E e → E' e) → wpf m Q' E' s.
Proof. unfold wpf. destruct (m s) as [[a s']|]; eauto. Qed.

Lemma wpf_wlp {S A} (m : M S A) Q E s : wpf m Q E s → wlp m Q s.
Proof. unfold wpf, wlp. by destruct (m s) as [[a s']|]. Qed.

Lemma wpf_wp {S A} (m : M S A) (Q : A → S → Prop) (E : fault → Prop) s :
  wpf m Q E s → (∀ e, E e → False) → wp m Q s.
Proof. unfold wpf, wp. destruct (m s) as [[a s']|]; eauto. Qed.

Lemma wpf_check {S} (b : bool) what (Q : unit → S → Prop) (E : fault → Prop) s :
  (if b then Q tt s else E (CheckFailed what)) → wpf (check b what) Q E s.
Proof. by destruct b. Qed.

Lemma wpf_dcheck `{BuildConfig} {S} (b : bool) what (Q : unit → S → Prop) (E : fault → Prop) s :
  (if negb RTC_DCHECK_IS_ON || b then Q tt s else E (CheckFailed what)) →
  wpf (dcheck b what) Q E s.
Proof. unfold dcheck. destruct RTC_DCHECK_IS_ON; [apply wpf_check|done]. Qed.

Lemma wpf_deref {S A} what (p : option A) (Q : A → S → Prop) (E : fault → Prop) s :
  match p with Some a => Q a s | None => E (NullDeref what) end → wpf (deref what p) Q E s.
Proof. by destruct p. Qed.

Lemma wpf_on_local {L S A} (l : L) (m : M L A) (Q : A * L → S → Prop) E s :
  wpf m (λ a l', Q (a, l') s) E l → wpf (on_local l m) Q E s.
Proof. unfold wpf, on_local. by destruct (m l) as [[a l']|]. Qed.

(** [m] stops with the fault [e]. *)
Lemma wpf_fault {S A} (m : M S A) e s : wpf m (λ _ _, False) (eq e) s ↔ m s = Fault e.
Proof. unfold wpf. destruct (m s) as [[a s']|e']; split; [done..|by intros ->|by intros [= ->]]. Qed.

Lemma fault_bind {S A B} (m : M S A) (f : A → M S B) s e : m s = Fault e → (m ≫= f) s = Fault e.
Proof. unfold mbind, M_bind. by intros ->. Qed.

Lemma wp_fault_bind {S A B} (m : M S A) (f : A → M S B) s e :
  wp m (λ a s', f a s' = Fault e) s → (m ≫= f) s = Fault e.
Proof. unfold wp, mbind, M_bind. by destruct (m s) as [[a s']|]. Qed.

Lemma faults_bind {S A B} (m : M S A) (f : A → M S B) s :
  faults m s → faults (m ≫= f) s.
Proof. unfold faults, mbind, M_bind. by destruct (m s) as [[a s']|]. Qed.

Lemma wp_faults_bind {S A B} (m : M S A) (f : A → M S B) s :
  wp m (λ a s', faults (f a) s') s → faults (m ≫= f) s.
Proof. unfold wp, faults, mbind, M_bind. by destruct (m s) as [[a s']|]. Qed.

Lemma faults_deref {S A} what (p : option A) (s : S) : p = None → faults (deref what p) s.
Proof. by intros ->. Qed.

Lemma faults_dcheck `{BuildConfig} {S} b what (s : S) :
  RTC_DCHECK_IS_ON = true → b = false → faults (dcheck b what) s.
Proof. unfold dcheck. by intros -> ->. Qed.

Lemma dcheck_ok `{BuildConfig} {S} b what (s s' : S) u :
  dcheck b what s = Ok (u, s') → s' = s.
Proof.
  unfold dcheck, check, fail, mret, M_ret. destruct RTC_DCHECK_IS_ON, b; by intros; simplify_eq.
Qed.

Lemma bind_ok {S A B} (m : M S A) (f : A → M S B) s b s'' :
  (m ≫= f) s = Ok (b, s'') ↔
  ∃ a s', m s = Ok (a, s') ∧ f a s' = Ok (b, s'').
Proof.
  unfold mbind, M_bind. destruct (m s) as [[a s']|e].
  - split; [by eauto|]. intros (?&?&?&?). by simplify_eq.
  - split; [done|]. intros (?&?&?&?). done.
Qed.

Lemma wp_ok_eq {S A} (m : M S A) s a s' : wp m (λ a0 s0, a0 = a ∧ s0 = s') s → m s = Ok (a, s').
Proof. unfold wp. destruct (m s) as [[??]|]; [|done]. by intros [-> ->]. Qed.

(** Rewriting a computation whose first step is known. *)
Lemma bind_run {S A B} (m : M S A) (f : A → M S B) s a s' :
  m s = Ok (a, s') → (m ≫= f) s = f a s'.
Proof. unfold mbind, M_bind. by intros ->. Qed.

Lemma faults_not_ok {S A} (m : M S A) s :
  faults m s ↔ ∀ a s', m s ≠ Ok (a, s').
Proof.
  unfold faults. destruct (m s) as [[a s']|e]; [|done].
  split; [done|]. intros H. by apply (H a s').
Qed.

(** * Arithmetic of the fixed widths *)

Lemma pow2_pos w : 0 ≤ w → 0 < 2 ^ w.
Proof. intros. by apply Z.pow_pos_nonneg. Qed.

Lemma wrap_u_range w z : 0 ≤ w → in_u w (wrap_u w z).
Proof. intros. apply Z.mod_pos_bound, pow2_pos; lia. Qed.

Lemma wrap_u_id w z : in_u w z → wrap_u w z = z.
Proof. unfold in_u, wrap_u. intros. by apply Z.mod_small. Qed.

Lemma pow2_half w : 0 < w → 2 ^ w = 2 * 2 ^ (w - 1).
Proof. intros. rewrite <-Z.pow_succ_r by lia. f_equal; lia. Qed.

Lemma wrap_s_range w z : 0 < w → in_s w (wrap_s w z).
Proof.
  intros Hw. unfold in_s, wrap_s.
  pose proof (Z.mod_pos_bound (z + 2 ^ (w - 1)) (2 ^ w) (pow2_pos w ltac:(lia))).
  pose proof (pow2_half w Hw). lia.
Qed.

Lemma wrap_s_id w z : 0 < w → in_s w z → wrap_s w z = z.
Proof.
  intros Hw Hz. unfold in_s, wrap_s in *. pose proof (pow2_half w Hw).
  rewrite Z.mod_small; lia.
Qed.

Lemma wrap_s_mod w z : 0 ≤ w → wrap_s w z mod 2 ^ w = z mod 2 ^ w.
Proof.
  intros Hw. unfold wrap_s. rewrite Zminus_mod_idemp_l. f_equal. lia.
Qed.

(** * Loops that fill a map *)

Lemma foldl_insert_lookup {A B} (f : A → B) (l : list (string * A)) (m : gmap string B) k :
  NoDup l.*1 →
  foldl (λ m e, <[e.1 := f e.2]> m) m l !! k =
  match (list_to_map l : gmap string A) !! k with
  | Some a => Some (f a)
  | None => m !! k
  end.
Proof.
  revert m. induction l as [|[j a] l IH]; intros m; simpl; [done|].
  intros [Hj Hl]%NoDup_cons. rewrite IH by done.
  destruct (decide (j = k)) as [->|Hne].
  - rewrite lookup_insert_eq.
    replace ((list_to_map l : gmap string A) !! k) with (@None A).
    + by rewrite lookup_insert_eq.
    + symmetry. by apply not_elem_of_list_to_map_1.
  - by rewrite !lookup_insert_ne by done.
Qed.

(** Rewriting every element of a map, in any order, maps the function. *)
Lemma foldl_insert_fmap {A} (f : A → A) (l : list (string * A)) (m : gmap string A) :
  l ≡ₚ map_to_list m →
  foldl (λ m e, <[e.1 := f e.2]> m) m l = f <$> m.
Proof.
  intros Hl. assert (NoDup l.*1) as Hnd.
  { rewrite Hl. apply NoDup_fst_map_to_list. }
  apply map_eq. intros k. rewrite foldl_insert_lookup by done.
  rewrite (list_to_map_proper l (map_to_list m)) by done.
  rewrite list_to_map_to_list, lookup_fmap. by destruct (m !! k).
Qed.

#[export] Hint Resolve wp_ret wp_get wp_put wp_modify : spitfire.
#[export] Hint Resolve wrap_u_range wrap_s_range wrap_u_id wrap_s_id : spitfire.

(** Runs the monadic code symbolically as far as it is deterministic. *)
Ltac wp_step :=
  lazymatch goal with
  | |- wp (mbind _ _) _ _ => apply wp_bind
  | |- wp (mret _) _ _ => apply wp_ret
  | |- wp get _ _ => apply wp_get
  | |- wp (put _) _ _ => apply wp_put
  | |- wp (modify _) _ _ => apply wp_modify
  | |- wp (deref _ _) _ _ => eapply wp_deref; [first [eassumption | reflexivity]|]
  | |- wp (check _ _) _ _ => apply wp_check; [done|]
  | |- wp (dcheck _ _) _ _ => apply wp_dcheck; [done|]
  end.
Ltac wp_run := repeat (wp_step; cbn beta).
