(* ===== verification/ApiTypes.v ===== *)
(** Data types of the WebRTC interface that the conductor and the managed
    wrapper exchange with the library: the enumerations and structures of
    [api/data_channel_interface.h], [api/peer_connection_interface.h],
    [api/jsep.h], [media/base/media_config.h], [api/crypto/crypto_options.h],
    [rtc_base/network_constants.h] and [rtc_base/logging.h].

    C++ default member initialisers are the [default_...] values.  Handles of
    objects that live inside the library (peer connections, data channels,
    session descriptions, candidates) are opaque numbers. *)
From S2P Require Import Prelude.
From Stdlib Require Import ZArith Lia.
From stdpp Require Import base tactics numbers strings gmap list.

Open Scope Z_scope.

(** * Handles *)

(** Pointers into the library: an object is named by a number. *)
Definition chan := nat.
Definition pc := nat.
Definition sdesc := nat.
Definition icecand := nat.

(** * api/data_channel_interface.h *)

Module DataChannelInterface.

Inductive DataState := kConnecting | kOpen | kClosing | kClosed.

(** The underlying values of the unscoped enumeration. *)
Definition DataState_to_Z (s : DataState) : Z :=
  match s with kConnecting => 0 | kOpen => 1 | kClosing => 2 | kClosed => 3 end.

Definition DataStateString (s : DataState) : string :=
  match s with
  | kConnecting => "connecting"
  | kOpen => "open"
  | kClosing => "closing"
  | kClosed => "closed"
  end.

End DataChannelInterface.

#[global] Instance DataState_eq_dec : EqDecision DataChannelInterface.DataState.
Proof. solve_decision. Defined.

Record DataChannelInit := mkDataChannelInit {
  dci_reliable : bool;
  dci_ordered : bool;
  dci_maxRetransmitTime : option Z;
  dci_maxRetransmits : option Z;
  dci_protocol : string;
  dci_negotiated : bool;
  dci_id : Z
}.

Definition default_DataChannelInit : DataChannelInit := {|
  dci_reliable := false;
  dci_ordered := true;
  dci_maxRetransmitTime := None;
  dci_maxRetransmits := None;
  dci_protocol := "";
  dci_negotiated := false;
  dci_id := -1
|}.

(** [webrtc::DataBuffer]: the bytes its copy-on-write buffer shows (see
    CopyOnWriteBuffer for the sharing behind them) and the text/binary flag. *)
Record DataBuffer := mkDataBuffer {
  db_data : list Z;
  db_binary : bool
}.

Definition DataBuffer_size (b : DataBuffer) : Z := Z.of_nat (length (db_data b)).

(** [DataBuffer(const std::string& text)]. *)
Definition DataBuffer_of_text (text : string) : DataBuffer := {|
  db_data := (λ a, Z.of_nat (Ascii.nat_of_ascii a)) <$> String.list_ascii_of_string text;
  db_binary := false
|}.

(** * api/peer_connection_interface.h *)

Module PeerConnectionInterface.

Inductive SignalingState :=
  | kStable
  | kHaveLocalOffer
  | kHaveLocalPrAnswer
  | kHaveRemoteOffer
  | kHaveRemotePrAnswer
  | kSignalingClosed.

Inductive IceGatheringState :=
  | kIceGatheringNew
  | kIceGatheringGathering
  | kIceGatheringComplete.

Inductive PeerConnectionState :=
  | kNew
  | kPeerConnecting
  | kConnected
  | kDisconnected
  | kFailed
  | kPeerClosed.

Inductive IceConnectionState :=
  | kIceConnectionNew
  | kIceConnectionChecking
  | kIceConnectionConnected
  | kIceConnectionCompleted
  | kIceConnectionFailed
  | kIceConnectionDisconnected
  | kIceConnectionClosed
  | kIceConnectionMax.

Definition IceGatheringState_to_Z (s : IceGatheringState) : Z :=
  match s with
  | kIceGatheringNew => 0
  | kIceGatheringGathering => 1
  | kIceGatheringComplete => 2
  end.

Definition IceConnectionState_to_Z (s : IceConnectionState) : Z :=
  match s with
  | kIceConnectionNew => 0
  | kIceConnectionChecking => 1
  | kIceConnectionConnected => 2
  | kIceConnectionCompleted => 3
  | kIceConnectionFailed => 4
  | kIceConnectionDisconnected => 5
  | kIceConnectionClosed => 6
  | kIceConnectionMax => 7
  end.

Inductive TlsCertPolicy := kTlsCertPolicySecure | kTlsCertPolicyInsecureNoCheck.

Record IceServer := mkIceServer {
  uri : string;
  urls : list string;
  username : string;
  password : string;
  tls_cert_policy : TlsCertPolicy;
  hostname : string;
  tls_alpn_protocols : list string;
  tls_elliptic_curves : list string
}.

Definition default_IceServer : IceServer := {|
  uri := "";
  urls := [];
  username := "";
  password := "";
  tls_cert_policy := kTlsCertPolicySecure;
  hostname := "";
  tls_alpn_protocols := [];
  tls_elliptic_curves := []
|}.

Inductive IceTransportsType := kNone | kRelay | kNoHost | kAll.
Inductive BundlePolicy :=
  kBundlePolicyBalanced | kBundlePolicyMaxBundle | kBundlePolicyMaxCompat.
Inductive RtcpMuxPolicy := kRtcpMuxPolicyNegotiate | kRtcpMuxPolicyRequire.
Inductive TcpCandidatePolicy :=
  kTcpCandidatePolicyEnabled | kTcpCandidatePolicyDisabled.
Inductive CandidateNetworkPolicy :=
  kCandidateNetworkPolicyAll | kCandidateNetworkPolicyLowCost.
Inductive ContinualGatheringPolicy := GATHER_ONCE | GATHER_CONTINUALLY.
Inductive PortPrunePolicy := NO_PRUNE | PRUNE_BASED_ON_PRIORITY | KEEP_FIRST_READY.
Inductive SdpSemantics := kPlanB | kUnifiedPlan.

(** [rtc::AdapterType], the values are single bits. *)
Inductive AdapterType :=
  | ADAPTER_TYPE_UNKNOWN
  | ADAPTER_TYPE_ETHERNET
  | ADAPTER_TYPE_WIFI
  | ADAPTER_TYPE_CELLULAR
  | ADAPTER_TYPE_VPN
  | ADAPTER_TYPE_LOOPBACK
  | ADAPTER_TYPE_ANY
  | ADAPTER_TYPE_CELLULAR_2G
  | ADAPTER_TYPE_CELLULAR_3G
  | ADAPTER_TYPE_CELLULAR_4G
  | ADAPTER_TYPE_CELLULAR_5G.

Record MediaConfig := mkMediaConfig {
  enable_dscp : bool;
  video_enable_cpu_adaptation : bool;
  video_suspend_below_min_bitrate : bool;
  video_enable_prerenderer_smoothing : bool;
  video_periodic_alr_bandwidth_probing : bool;
  video_experiment_cpu_load_estimator : bool;
  video_rtcp_report_interval_ms : Z;
  audio_rtcp_report_interval_ms : Z
}.

Definition default_MediaConfig : MediaConfig := {|
  enable_dscp := false;
  video_enable_cpu_adaptation := true;
  video_suspend_below_min_bitrate := false;
  video_enable_prerenderer_smoothing := true;
  video_periodic_alr_bandwidth_probing := false;
  video_experiment_cpu_load_estimator := false;
  video_rtcp_report_interval_ms := 1000;
  audio_rtcp_report_interval_ms := 5000
|}.

Record CryptoOptions := mkCryptoOptions {
  enable_gcm_crypto_suites : bool;
  enable_aes128_sha1_32_crypto_cipher : bool;
  enable_aes128_sha1_80_crypto_cipher : bool;
  enable_encrypted_rtp_header_extensions : bool;
  require_frame_encryption : bool
}.

(** [cricket::kDefaultMaxIPv6Networks] of p2p/base/port_allocator.h. *)
Definition kDefaultMaxIPv6Networks : Z := 5.
Definition kUndefined : Z := -1.
Definition kAudioJitterBufferMaxPackets : Z := 200.

Record RTCConfiguration := mkRTCConfiguration {
  servers : list IceServer;
  type_ : IceTransportsType;
  bundle_policy : BundlePolicy;
  rtcp_mux_policy : RtcpMuxPolicy;
  certificates : list nat;
  ice_candidate_pool_size : Z;
  disable_ipv6 : bool;
  disable_ipv6_on_wifi : bool;
  max_ipv6_networks : Z;
  disable_link_local_networks : bool;
  enable_rtp_data_channel : bool;
  screencast_min_bitrate : option Z;
  combined_audio_video_bwe : option bool;
  enable_dtls_srtp : option bool;
  tcp_candidate_policy : TcpCandidatePolicy;
  candidate_network_policy : CandidateNetworkPolicy;
  audio_jitter_buffer_max_packets : Z;
  audio_jitter_buffer_fast_accelerate : bool;
  audio_jitter_buffer_min_delay_ms : Z;
  audio_jitter_buffer_enable_rtx_handling : bool;
  ice_connection_receiving_timeout : Z;
  ice_backup_candidate_pair_ping_interval : Z;
  continual_gathering_policy : ContinualGatheringPolicy;
  prioritize_most_likely_ice_candidate_pairs : bool;
  media_config : MediaConfig;
  prune_turn_ports : bool;
  turn_port_prune_policy : PortPrunePolicy;
  presume_writable_when_fully_relayed : bool;
  enable_ice_renomination : bool;
  redetermine_role_on_ice_restart : bool;
  surface_ice_candidates_on_ice_transport_type_changed : bool;
  ice_check_interval_strong_connectivity : option Z;
  ice_check_interval_weak_connectivity : option Z;
  ice_check_min_interval : option Z;
  ice_unwritable_timeout : option Z;
  ice_unwritable_min_checks : option Z;
  ice_inactive_timeout : option Z;
  stun_candidate_keepalive_interval : option Z;
  turn_customizer : option nat;
  network_preference : option AdapterType;
  sdp_semantics : SdpSemantics;
  active_reset_srtp_params : bool;
  use_media_transport : bool;
  use_media_transport_for_data_channels : bool;
  use_datagram_transport : option bool;
  use_datagram_transport_for_data_channels : option bool;
  use_datagram_transport_for_data_channels_receive_only : option bool;
  crypto_options : option CryptoOptions;
  offer_extmap_allow_mixed : bool;
  turn_logging_id : string;
  enable_implicit_rollback : bool;
  allow_codec_switching : option bool
}.

Definition default_RTCConfiguration : RTCConfiguration := {|
  servers := [];
  type_ := kAll;
  bundle_policy := kBundlePolicyBalanced;
  rtcp_mux_policy := kRtcpMuxPolicyRequire;
  certificates := [];
  ice_candidate_pool_size := 0;
  disable_ipv6 := false;
  disable_ipv6_on_wifi := false;
  max_ipv6_networks := kDefaultMaxIPv6Networks;
  disable_link_local_networks := false;
  enable_rtp_data_channel := false;
  screencast_min_bitrate := None;
  combined_audio_video_bwe := None;
  enable_dtls_srtp := None;
  tcp_candidate_policy := kTcpCandidatePolicyEnabled;
  candidate_network_policy := kCandidateNetworkPolicyAll;
  audio_jitter_buffer_max_packets := kAudioJitterBufferMaxPackets;
  audio_jitter_buffer_fast_accelerate := false;
  audio_jitter_buffer_min_delay_ms := 0;
  audio_jitter_buffer_enable_rtx_handling := false;
  ice_connection_receiving_timeout := kUndefined;
  ice_backup_candidate_pair_ping_interval := kUndefined;
  continual_gathering_policy := GATHER_ONCE;
  prioritize_most_likely_ice_candidate_pairs := false;
  media_config := default_MediaConfig;
  prune_turn_ports := false;
  turn_port_prune_policy := NO_PRUNE;
  presume_writable_when_fully_relayed := false;
  enable_ice_renomination := false;
  redetermine_role_on_ice_restart := true;
  surface_ice_candidates_on_ice_transport_type_changed := false;
  ice_check_interval_strong_connectivity := None;
  ice_check_interval_weak_connectivity := None;
  ice_check_min_interval := None;
  ice_unwritable_timeout := None;
  ice_unwritable_min_checks := None;
  ice_inactive_timeout := None;
  stun_candidate_keepalive_interval := None;
  turn_customizer := None;
  network_preference := None;
  sdp_semantics := kPlanB;
  active_reset_srtp_params := false;
  use_media_transport := false;
  use_media_transport_for_data_channels := false;
  use_datagram_transport := None;
  use_datagram_transport_for_data_channels := None;
  use_datagram_transport_for_data_channels_receive_only := None;
  crypto_options := None;
  offer_extmap_allow_mixed := false;
  turn_logging_id := "";
  enable_implicit_rollback := false;
  allow_codec_switching := None
|}.

Definition GetTurnPortPrunePolicy (c : RTCConfiguration) : PortPrunePolicy :=
  if prune_turn_ports c then PRUNE_BASED_ON_PRIORITY else turn_port_prune_policy c.

(** What a factory is made from.  Threads are named as the code names them; the
    rest are owned objects, null by default. *)
Record PeerConnectionFactoryDependencies := mkPeerConnectionFactoryDependencies {
  network_thread : option string;
  worker_thread : option string;
  signaling_thread : option string;
  task_queue_factory : option nat;
  media_engine : option nat;
  call_factory : option nat;
  event_log_factory : option nat;
  fec_controller_factory : option nat;
  network_state_predictor_factory : option nat;
  network_controller_factory : option nat;
  media_transport_factory : option nat;
  neteq_factory : option nat;
  trials : option nat
}.

Definition default_PeerConnectionFactoryDependencies : PeerConnectionFactoryDependencies :=
  mkPeerConnectionFactoryDependencies None None None None None None None None None None None
    None None.

Record RTCOfferAnswerOptions := mkRTCOfferAnswerOptions {
  offer_to_receive_video : Z;
  offer_to_receive_audio : Z;
  voice_activity_detection : bool;
  ice_restart : bool;
  use_rtp_mux : bool;
  raw_packetization_for_video : bool;
  num_simulcast_layers : Z;
  use_obsolete_sctp_sdp : bool
}.

Definition default_RTCOfferAnswerOptions : RTCOfferAnswerOptions := {|
  offer_to_receive_video := kUndefined;
  offer_to_receive_audio := kUndefined;
  voice_activity_detection := true;
  ice_restart := false;
  use_rtp_mux := true;
  raw_packetization_for_video := false;
  num_simulcast_layers := 1;
  use_obsolete_sctp_sdp := false
|}.

End PeerConnectionInterface.
Export PeerConnectionInterface.

(** * rtc_base/logging.h *)

Inductive LoggingSeverity := LS_VERBOSE | LS_INFO | LS_WARNING | LS_ERROR | LS_NONE.

Definition LoggingSeverity_to_Z (s : LoggingSeverity) : Z :=
  match s with
  | LS_VERBOSE => 0 | LS_INFO => 1 | LS_WARNING => 2 | LS_ERROR => 3 | LS_NONE => 4
  end.

#[global] Instance TlsCertPolicy_eq_dec : EqDecision TlsCertPolicy.
Proof. solve_decision. Defined.
#[global] Instance IceServer_eq_dec : EqDecision IceServer.
Proof. solve_decision. Defined.

(** [IceServer::operator==]. *)
Definition IceServer_eqb (a o : IceServer) : bool :=
  bool_decide (uri a = uri o) && bool_decide (urls a = urls o) &&
  bool_decide (username a = username o) && bool_decide (password a = password o) &&
  bool_decide (tls_cert_policy a = tls_cert_policy o) &&
  bool_decide (hostname a = hostname o) &&
  bool_decide (tls_alpn_protocols a = tls_alpn_protocols o) &&
  bool_decide (tls_elliptic_curves a = tls_elliptic_curves o).
