(* ===== verification/PortAllocator.v ===== *)
(** [cricket::PortAllocator] (p2p/base/port_allocator.h): the configuration
    object the conductor fills in before it hands it to the peer connection.

    The out-of-line constructor is not part of the header, so a freshly
    constructed allocator is a parameter of the code that creates one; the
    members whose types are library objects (server lists, pooled sessions,
    proxy) are left out because no inline member function changes them. *)
From S2P Require Import Prelude ApiTypes.
From Stdlib Require Import ZArith Lia.
From stdpp Require Import base tactics numbers strings list.
From coqutil Require Import Datatypes.RecordSetters.
Import TriangleBracketNotations.

Open Scope Z_scope.

(** * Flags *)

Definition PORTALLOCATOR_DISABLE_UDP : Z := 0x01.
Definition PORTALLOCATOR_DISABLE_STUN : Z := 0x02.
Definition PORTALLOCATOR_DISABLE_RELAY : Z := 0x04.
Definition PORTALLOCATOR_DISABLE_TCP : Z := 0x08.
Definition PORTALLOCATOR_ENABLE_IPV6 : Z := 0x40.
Definition PORTALLOCATOR_ENABLE_SHARED_SOCKET : Z := 0x100.
Definition PORTALLOCATOR_ENABLE_STUN_RETRANSMIT_ATTRIBUTE : Z := 0x200.
Definition PORTALLOCATOR_DISABLE_ADAPTER_ENUMERATION : Z := 0x400.
Definition PORTALLOCATOR_DISABLE_DEFAULT_LOCAL_CANDIDATE : Z := 0x800.
Definition PORTALLOCATOR_DISABLE_UDP_RELAY : Z := 0x1000.
Definition PORTALLOCATOR_DISABLE_COSTLY_NETWORKS : Z := 0x2000.
Definition PORTALLOCATOR_ENABLE_IPV6_ON_WIFI : Z := 0x4000.
Definition PORTALLOCATOR_ENABLE_ANY_ADDRESS_PORTS : Z := 0x8000.
Definition PORTALLOCATOR_DISABLE_LINK_LOCAL_NETWORKS : Z := 0x10000.

(** Every flag of the enumeration, in the order of the header. *)
Definition portallocator_flags : list Z :=
  [PORTALLOCATOR_DISABLE_UDP; PORTALLOCATOR_DISABLE_STUN;
   PORTALLOCATOR_DISABLE_RELAY; PORTALLOCATOR_DISABLE_TCP;
   PORTALLOCATOR_ENABLE_IPV6; PORTALLOCATOR_ENABLE_SHARED_SOCKET;
   PORTALLOCATOR_ENABLE_STUN_RETRANSMIT_ATTRIBUTE;
   PORTALLOCATOR_DISABLE_ADAPTER_ENUMERATION;
   PORTALLOCATOR_DISABLE_DEFAULT_LOCAL_CANDIDATE;
   PORTALLOCATOR_DISABLE_UDP_RELAY; PORTALLOCATOR_DISABLE_COSTLY_NETWORKS;
   PORTALLOCATOR_ENABLE_IPV6_ON_WIFI; PORTALLOCATOR_ENABLE_ANY_ADDRESS_PORTS;
   PORTALLOCATOR_DISABLE_LINK_LOCAL_NETWORKS].

Definition kDefaultPortAllocatorFlags : Z := 0.
Definition kDefaultStepDelay : Z := 1000.
Definition kMinimumStepDelay : Z := 50.

(** * State *)

Record PortAllocator := mkPortAllocator {
  initialized_ : bool;
  flags_ : Z;
  agent_ : string;
  pa_min_port_ : Z;
  pa_max_port_ : Z;
  max_ipv6_networks_ : Z;
  step_delay_ : Z;
  allow_tcp_listen_ : bool;
  candidate_filter_ : Z;
  origin_ : string;
  (** what [thread_checker_.IsCurrent()] answers to the calling thread *)
  thread_checker_is_current : bool;
  candidate_pool_size_ : Z;
  turn_port_prune_policy_ : PortPrunePolicy;
  turn_customizer_ : option nat;
  stun_candidate_keepalive_interval_ : option Z
}.

(** * Operations *)

Section Operations.
Context `{BuildConfig}.

Definition CheckRunOnValidThreadIfInitialized : M PortAllocator unit :=
  a ← get;
  dcheck (negb (initialized_ a) || thread_checker_is_current a)
         "!initialized_ || thread_checker_.IsCurrent()".

Definition CheckRunOnValidThreadAndInitialized : M PortAllocator unit :=
  a ← get;
  dcheck (initialized_ a && thread_checker_is_current a)
         "initialized_ && thread_checker_.IsCurrent()".

(** An accessor: the thread check, then the member. *)
Definition accessor {A} (f : PortAllocator → A) : M PortAllocator A :=
  _ ← CheckRunOnValidThreadIfInitialized;
  a ← get;
  mret (f a).

(** A setter: the thread check, then the assignment. *)
Definition setter (f : PortAllocator → PortAllocator) : M PortAllocator unit :=
  _ ← CheckRunOnValidThreadIfInitialized;
  modify f.

Definition flags : M PortAllocator Z := accessor flags_.
Definition set_flags (v : Z) : M PortAllocator unit :=
  setter (λ a, a <| flags_ := wrap_u 32 v |>).

Definition candidate_pool_size : M PortAllocator Z := accessor candidate_pool_size_.
Definition user_agent : M PortAllocator string := accessor agent_.

Definition min_port : M PortAllocator Z := accessor pa_min_port_.
Definition max_port : M PortAllocator Z := accessor pa_max_port_.

Definition SetPortRange (min_port max_port : Z) : M PortAllocator bool :=
  _ ← CheckRunOnValidThreadIfInitialized;
  if max_port <? min_port then mret false
  else
    _ ← modify (λ a, a <| pa_min_port_ := min_port |>);
    _ ← modify (λ a, a <| pa_max_port_ := max_port |>);
    mret true.

Definition set_max_ipv6_networks (networks : Z) : M PortAllocator unit :=
  setter (λ a, a <| max_ipv6_networks_ := networks |>).
Definition max_ipv6_networks : M PortAllocator Z := accessor max_ipv6_networks_.

Definition step_delay : M PortAllocator Z := accessor step_delay_.
Definition set_step_delay (delay : Z) : M PortAllocator unit :=
  setter (λ a, a <| step_delay_ := wrap_u 32 delay |>).

Definition allow_tcp_listen : M PortAllocator bool := accessor allow_tcp_listen_.
Definition set_allow_tcp_listen (b : bool) : M PortAllocator unit :=
  setter (λ a, a <| allow_tcp_listen_ := b |>).

Definition candidate_filter : M PortAllocator Z := accessor candidate_filter_.

Definition prune_turn_ports : M PortAllocator bool :=
  accessor (λ a, match turn_port_prune_policy_ a with
                 | PRUNE_BASED_ON_PRIORITY => true | _ => false end).
Definition turn_port_prune_policy : M PortAllocator PortPrunePolicy :=
  accessor turn_port_prune_policy_.

Definition origin : M PortAllocator string := accessor origin_.
Definition set_origin (o : string) : M PortAllocator unit :=
  setter (λ a, a <| origin_ := o |>).

Definition turn_customizer : M PortAllocator (option nat) := accessor turn_customizer_.

End Operations.

(** * Lemmas *)

(** An allocator may be configured freely until it is initialised, and on its
    own thread afterwards. *)
Definition usable (a : PortAllocator) : bool :=
  negb (initialized_ a) || thread_checker_is_current a.

Section Lemmas.
Context `{BuildConfig}.

Lemma wp_CheckRunOnValidThreadIfInitialized Q a :
  (RTC_DCHECK_IS_ON = true → usable a = true) → Q tt a → wp CheckRunOnValidThreadIfInitialized Q a.
Proof. intros Hu HQ. unfold CheckRunOnValidThreadIfInitialized. by wp_run. Qed.

Lemma wp_accessor {A} (f : PortAllocator → A) Q a :
  (RTC_DCHECK_IS_ON = true → usable a = true) → Q (f a) a → wp (accessor f) Q a.
Proof.
  intros Hu HQ. unfold accessor. wp_run.
  apply wp_CheckRunOnValidThreadIfInitialized; [done|]. by wp_run.
Qed.

Lemma wp_setter f Q a :
  (RTC_DCHECK_IS_ON = true → usable a = true) → Q tt (f a) → wp (setter f) Q a.
Proof.
  intros Hu HQ. unfold setter. wp_run.
  apply wp_CheckRunOnValidThreadIfInitialized; [done|]. by wp_run.
Qed.

Lemma wp_SetPortRange mn mx Q a :
  (RTC_DCHECK_IS_ON = true → usable a = true) →
  (mx < mn → Q false a) →
  (mn ≤ mx → Q true (a <| pa_min_port_ := mn |> <| pa_max_port_ := mx |>)) →
  wp (SetPortRange mn mx) Q a.
Proof.
  intros Hu Hbad Hgood. unfold SetPortRange. wp_run.
  apply wp_CheckRunOnValidThreadIfInitialized; [done|].
  destruct (Z.ltb_spec mx mn); wp_run; eauto.
Qed.

End Lemmas.
