(* ===== verification/WebRtcApi.v ===== *)
(** The boundary between Spitfire and the WebRTC library.

    The library's implementation files are not part of the repository, so the
    library is a parameter: a type of worlds [W] and, per function Spitfire
    calls, what the function answers and how it changes the world (class
    [WebRtc]).  Everything Spitfire does to the outside is also recorded, in
    order, as a list of [Call]s, which is what the theorems on ordering,
    ownership and delivery talk about. *)
From S2P Require Import Prelude ApiTypes PortAllocator.
From Stdlib Require Import ZArith Lia.
From stdpp Require Import base tactics numbers strings gmap list.

Open Scope Z_scope.

(** * What Spitfire's native callbacks carry

    The eight function pointer types of RtcConductor.h.  [const char*]
    arguments are C strings, see [c_str]. *)
Inductive NativeEvent :=
  | NOnSuccess (type sdp : string)
  | NOnFailure (error : string)
  | NOnIceCandidate (sdpMid : string) (sdpIndex : Z) (sdp : string)
  | NOnMessage (label : string) (msg : list Z) (size : Z) (is_binary : bool)
  | NOnIceStateChange (state : IceConnectionState)
  | NOnIceGatheringState (state : IceGatheringState)
  | NOnDataChannelState (label : string) (state : DataChannelInterface.DataState)
  | NOnBufferAmount (label : string)
      (previousAmount currentAmount bytesSent bytesReceived : Z).

(** * Calls into the library, deletions of Spitfire's own objects, and
      invocations of the native callbacks, in the order they happen *)
Inductive Call :=
  | CWrapCurrentThread
  | CThreadCreate (thread : string) (with_socket_server : bool)
  | CThreadSetName (thread name : string)
  | CThreadStart (name : string)
  | CThreadQuit (name : string)
  | CThreadDestroy (name : string)
  | CCreateModularPeerConnectionFactory (deps : PeerConnectionFactoryDependencies)
  | CNewPacketSocketFactory (thread : option string)
  | CFactorySetOptions
  | CFactoryRelease
  | CCreatePeerConnection (config : RTCConfiguration) (allocator : PortAllocator)
      (observer : option nat)
  | CClose (p : pc)
  | CCreateOffer (p : pc) (observer : option nat) (options : RTCOfferAnswerOptions)
  | CCreateAnswer (p : pc) (observer : option nat) (options : RTCOfferAnswerOptions)
  | CSetLocalDescription (p : pc) (observer : option nat) (desc : sdesc)
  | CSetRemoteDescription (p : pc) (observer : option nat) (desc : sdesc)
  | CCreateSessionDescription (type sdp : string)
  | CCreateIceCandidate (sdp_mid : string) (sdp_mlineindex : Z) (sdp : string)
  | CAddIceCandidate (p : pc) (c : icecand)
  | CCreateDataChannel (p : pc) (label : string) (config : DataChannelInit)
  | CDcRegisterObserver (c : chan) (observer : nat)
  | CDcUnregisterObserver (c : chan)
  | CDcClose (c : chan)
  | CDcSend (c : chan) (buffer : DataBuffer)
  | CDeleteDataObserver (observer : nat)
  | CDeletePeerObserver (observer : nat)
  | CCurrentThreadQuit
  | CProcessMessages (delay : Z)
  | CNative (callback : nat) (e : NativeEvent).

(** * The library *)
Class WebRtc (W : Type) := {
  (** a call that returns nothing only changes the world *)
  api_void : Call → W → W;
  Thread_Start : string → W → bool * W;
  CreateModularPeerConnectionFactory :
    PeerConnectionFactoryDependencies → W → option nat * W;
  (** network manager, socket factory, turn customizer, relay port factory *)
  BasicPortAllocator_new :
    option nat → option nat → option nat → option nat → W → PortAllocator * W;
  Factory_CreatePeerConnection :
    RTCConfiguration → PortAllocator → option nat → W → option pc * W;
  Pc_CreateDataChannel : pc → string → DataChannelInit → W → option chan * W;
  CreateSessionDescription : string → string → W → option sdesc * W;
  CreateIceCandidate : string → Z → string → W → option icecand * W;
  Pc_AddIceCandidate : pc → icecand → W → bool * W;
  Dc_Send : chan → DataBuffer → W → bool * W;
  ThreadManager_CurrentThread : W → bool;
  Thread_ProcessMessages : Z → W → bool * W;
  (** const accessors of a data channel *)
  dc_label : W → chan → string;
  dc_id : W → chan → Z;
  dc_state : W → chan → DataChannelInterface.DataState;
  dc_buffered_amount : W → chan → Z;
  dc_bytes_sent : W → chan → Z;
  dc_bytes_received : W → chan → Z;
  dc_messages_sent : W → chan → Z;
  dc_messages_received : W → chan → Z;
  dc_reliable : W → chan → bool;
  dc_ordered : W → chan → bool;
  dc_negotiated : W → chan → bool;
  dc_maxRetransmits : W → chan → Z;
  dc_maxRetransmitTime : W → chan → Z;
  dc_protocol : W → chan → string;
  (** const accessors of a session description and of a candidate;
      [ToString] answers [None] where it returns false *)
  sd_type : W → sdesc → string;
  (** whether a description the library took over still exists: it may free it at any time *)
  sd_alive : W → sdesc → bool;
  sd_ToString : W → sdesc → option string;
  ic_ToString : W → icecand → option string;
  ic_sdp_mid : W → icecand → string;
  ic_sdp_mline_index : W → icecand → Z;
  (** [std::unordered_map] leaves the order of an iteration open *)
  bucket_order : ∀ {A : Type}, W → list (string * A) → list (string * A)
}.

(** The only thing the standard promises about that order: every element is
    visited once. *)
Class UnorderedMapLaws (W : Type) `{WebRtc W} : Prop :=
  bucket_order_perm : ∀ (A : Type) (w : W) (l : list (string * A)),
    bucket_order w l ≡ₚ l.

(** The widths of the counters in [DataChannelInterface]. *)
Class DataChannelWidths (W : Type) `{WebRtc W} : Prop := {
  dc_id_width : ∀ w c, in_s 32 (dc_id w c);
  dc_maxRetransmits_width : ∀ w c, in_u 16 (dc_maxRetransmits w c);
  dc_maxRetransmitTime_width : ∀ w c, in_u 16 (dc_maxRetransmitTime w c);
  dc_messages_sent_width : ∀ w c, in_u 32 (dc_messages_sent w c);
  dc_messages_received_width : ∀ w c, in_u 32 (dc_messages_received w c);
  dc_bytes_sent_width : ∀ w c, in_u 64 (dc_bytes_sent w c);
  dc_bytes_received_width : ∀ w c, in_u 64 (dc_bytes_received w c);
  dc_buffered_amount_width : ∀ w c, in_u 64 (dc_buffered_amount w c)
}.

(** * C strings *)

(** What a callee that takes a [const char*] sees of [s.c_str()]: the
    characters before the first NUL. *)
Fixpoint c_str (s : string) : string :=
  match s with
  | EmptyString => EmptyString
  | String a s' => if bool_decide (a = Ascii.zero) then EmptyString else String a (c_str s')
  end.

Fixpoint no_nul (s : string) : bool :=
  match s with
  | EmptyString => true
  | String a s' => negb (bool_decide (a = Ascii.zero)) && no_nul s'
  end.

Lemma c_str_id s : no_nul s = true → c_str s = s.
Proof.
  induction s as [|a s IH]; simpl; [done|].
  case_bool_decide; simpl; [done|]. intros Hs. by rewrite IH.
Qed.

Lemma c_str_no_nul s : no_nul (c_str s) = true.
Proof.
  induction s as [|a s IH]; simpl; [done|].
  case_bool_decide; simpl; [done|]. by rewrite bool_decide_eq_false_2.
Qed.

Lemma c_str_id_iff s : c_str s = s ↔ no_nul s = true.
Proof. split; [intros <-; apply c_str_no_nul|apply c_str_id]. Qed.
