(* ===== verification/ConductorState.v ===== *)
(** The objects of the native half of Spitfire and the system they form with
    the library: [RtcConductor] (RtcConductor.h), the two observers it owns
    (DataChannelObserver.h, PeerConnectionObserver.h), and the basic steps all
    operations are made of.

    The conductor lives on the heap for as long as the managed wrapper holds
    it; here it is the [conductor] component of the system state [Sys]. *)
From S2P Require Import Prelude ApiTypes PortAllocator WebRtcApi.
From Stdlib Require Import ZArith Lia.
From stdpp Require Import base tactics numbers strings gmap list.
From coqutil Require Import Datatypes.RecordSetters.
Import TriangleBracketNotations.

Open Scope Z_scope.

(** * State *)

(** [Observers::DataChannelObserver].  [do_addr] is the address of the object;
    [registered_] exists where [RTC_DCHECK]s do and keeps its initial value
    elsewhere. *)
Record DataChannelObserver := mkDataChannelObserver {
  do_addr : nat;
  data_channel_ : option chan;
  registered_ : bool
}.

(** [Observers::PeerConnectionObserver]. *)
Record PeerConnectionObserver := mkPeerConnectionObserver {
  po_addr : nat;
  peer_connection_ : option pc
}.

(** [RtcConductor].  Function pointers and owned library objects are [None]
    where the C++ member is null; threads are named as the code names them. *)
Record RtcConductor := mkRtcConductor {
  on_success_ : option nat;
  on_failure_ : option nat;
  on_message_ : option nat;
  on_ice_state_change_ : option nat;
  on_ice_gathering_state_change_ : option nat;
  on_ice_candidate_ : option nat;
  on_data_channel_state_change_ : option nat;
  on_buffer_amount_change_ : option nat;
  peer_observer_ : option PeerConnectionObserver;
  session_observer_ : option nat;
  set_session_observer_ : option nat;
  data_observers_ : gmap string DataChannelObserver;
  worker_thread_ : option string;
  signaling_thread_ : option string;
  network_thread_ : option string;
  network_manager_ : option nat;
  socket_factory_ : option nat;
  pc_factory_ : option nat;
  servers_ : list IceServer;
  relay_port_factory_ : option nat
}.

(** The conductor, the library, what happened so far and the next unused
    address. *)
Record Sys (W : Type) := mkSys {
  conductor : RtcConductor;
  world : W;
  trace : list Call;
  next_addr : nat
}.
Arguments mkSys {W} _ _ _ _.
Arguments conductor {W} _.
Arguments world {W} _.
Arguments trace {W} _.
Arguments next_addr {W} _.

(** * Basic steps *)

Section Steps.
Context {W : Type} `{WebRtc W}.

(** Reads and writes of the conductor's members. *)
Definition self {A} (f : RtcConductor → A) : M (Sys W) A :=
  s ← get; mret (f (conductor s)).

Definition upd (f : RtcConductor → RtcConductor) : M (Sys W) unit :=
  modify (λ s, mkSys (f (conductor s)) (world s) (trace s) (next_addr s)).

(** [new]: an address nobody uses. *)
Definition alloc : M (Sys W) nat :=
  s ← get;
  _ ← put (mkSys (conductor s) (world s) (trace s) (S (next_addr s)));
  mret (next_addr s).

(** Something observable happens that the library does not take part in. *)
Definition emit (c : Call) : M (Sys W) unit :=
  modify (λ s, mkSys (conductor s) (world s) (trace s ++ [c]) (next_addr s)).

(** A call of a library function without a result. *)
Definition call (c : Call) : M (Sys W) unit :=
  modify (λ s, mkSys (conductor s) (api_void c (world s)) (trace s ++ [c]) (next_addr s)).

(** A call of a library function with a result. *)
Definition call_r {A} (c : Call) (f : W → A * W) : M (Sys W) A :=
  s ← get;
  let '(a, w') := f (world s) in
  _ ← put (mkSys (conductor s) w' (trace s ++ [c]) (next_addr s));
  mret a.

(** A const accessor of a library object. *)
Definition read {A} (f : W → A) : M (Sys W) A :=
  s ← get; mret (f (world s)).

(** [if(conductor->on_xxx_) conductor->on_xxx_(...)] *)
Definition invoke (callback : option nat) (e : NativeEvent) : M (Sys W) unit :=
  match callback with
  | Some cb => emit (CNative cb e)
  | None => mret tt
  end.

(** ** Rules *)

Lemma wp_self {A} (f : RtcConductor → A) Q (s : Sys W) :
  Q (f (conductor s)) s → wp (self f) Q s.
Proof. done. Qed.

Lemma wp_upd f Q (s : Sys W) :
  Q tt (mkSys (f (conductor s)) (world s) (trace s) (next_addr s)) → wp (upd f) Q s.
Proof. done. Qed.

Lemma wp_alloc Q (s : Sys W) :
  Q (next_addr s) (mkSys (conductor s) (world s) (trace s) (S (next_addr s))) →
  wp alloc Q s.
Proof. done. Qed.

Lemma wp_emit c Q (s : Sys W) :
  Q tt (mkSys (conductor s) (world s) (trace s ++ [c]) (next_addr s)) → wp (emit c) Q s.
Proof. done. Qed.

Lemma wp_call c Q (s : Sys W) :
  Q tt (mkSys (conductor s) (api_void c (world s)) (trace s ++ [c]) (next_addr s)) →
  wp (call c) Q s.
Proof. done. Qed.

Lemma wp_call_r {A} c (f : W → A * W) Q (s : Sys W) :
  Q (f (world s)).1 (mkSys (conductor s) (f (world s)).2 (trace s ++ [c]) (next_addr s)) →
  wp (call_r c f) Q s.
Proof. unfold call_r, wp, mbind, M_bind, get. by destruct (f (world s)). Qed.

Lemma wp_read {A} (f : W → A) Q (s : Sys W) : Q (f (world s)) s → wp (read f) Q s.
Proof. done. Qed.

Lemma wp_invoke cb e Q (s : Sys W) :
  Q tt (mkSys (conductor s) (world s)
          (trace s ++ match cb with Some a => [CNative a e] | None => [] end) (next_addr s)) →
  wp (invoke cb e) Q s.
Proof.
  destruct cb; [apply wp_emit|]. destruct s; simpl. by rewrite app_nil_r.
Qed.

End Steps.

(** Symbolic execution of the conductor's code. *)
Ltac sys_step :=
  lazymatch goal with
  | |- wp (self _) _ _ => apply wp_self
  | |- wp (upd _) _ _ => apply wp_upd
  | |- wp alloc _ _ => apply wp_alloc
  | |- wp (emit _) _ _ => apply wp_emit
  | |- wp (call _) _ _ => apply wp_call
  | |- wp (call_r _ _) _ _ => apply wp_call_r
  | |- wp (read _) _ _ => apply wp_read
  | |- wp (invoke _ _) _ _ => apply wp_invoke
  | _ => wp_step
  end.
Ltac sys_run := repeat (sys_step; cbn beta; cbn [conductor world trace next_addr]).
