(* ===== verification/Conductor.v ===== *)
(** The operations of [RtcConductor] (RtcConductor.h and RtcConductor.cpp) and
    of the [DataChannelObserver] objects it owns (DataChannelObserver.h), one
    definition per member function, statement by statement.

    Logging is left out; a [RTC_DCHECK] is a [dcheck], so that the same
    definitions are the debug and the release build. *)
From S2P Require Import Prelude ApiTypes PortAllocator WebRtcApi ConductorState.
From Stdlib Require Import ZArith Lia.
From stdpp Require Import base tactics numbers strings gmap list.
From coqutil Require Import Datatypes.RecordSetters.
Import TriangleBracketNotations.

Open Scope Z_scope.

(** [RtcDataChannelInfo] of RtcConductor.h. *)
Record RtcDataChannelInfo := mkRtcDataChannelInfo {
  currentBuffer : Z;
  bytesSent : Z;
  bytesReceived : Z;
  reliable : bool;
  ordered : bool;
  negotiated : bool;
  id : Z;
  messagesSent : Z;
  messagesReceived : Z;
  maxRetransmits : Z;
  maxRetransmitTime : Z;
  protocol : string;
  state : DataChannelInterface.DataState
}.

(** The eight callback members of [RtcConductor]. *)
Inductive callback_slot :=
  | SOnSuccess | SOnFailure | SOnMessage | SOnIceStateChange | SOnIceGatheringStateChange
  | SOnIceCandidate | SOnDataChannelStateChange | SOnBufferAmountChange.

Section Conductor.
Context {W : Type} `{!WebRtc W} `{!BuildConfig}.

(** * DataChannelObserver.h *)

(** The constructor. *)
Definition DataChannelObserver_new (data_channel : option chan) :
    M (Sys W) DataChannelObserver :=
  addr ← alloc;
  _ ← dcheck (bool_decide (is_Some data_channel)) "conductor && data_channel";
  mret (mkDataChannelObserver addr data_channel false).

(** The destructor. *)
Definition DataChannelObserver_delete (o : DataChannelObserver) : M (Sys W) unit :=
  _ ← dcheck (negb (registered_ o)) "!registered_";
  emit (CDeleteDataObserver (do_addr o)).

(** [#if RTC_DCHECK_IS_ON registered_ = b; #endif] *)
Definition set_registered (b : bool) (o : DataChannelObserver) : DataChannelObserver :=
  if RTC_DCHECK_IS_ON then o <| registered_ := b |> else o.

Definition RegisterObserver (o : DataChannelObserver) : M (Sys W) DataChannelObserver :=
  _ ← dcheck (bool_decide (is_Some (data_channel_ o))) "data_channel_";
  c ← deref "data_channel_" (data_channel_ o);
  _ ← call (CDcRegisterObserver c (do_addr o));
  _ ← dcheck (negb (registered_ o)) "!registered_";
  mret (set_registered true o).

Definition UnregisterObserver (o : DataChannelObserver) : M (Sys W) DataChannelObserver :=
  _ ← dcheck (bool_decide (is_Some (data_channel_ o))) "data_channel_";
  c ← deref "data_channel_" (data_channel_ o);
  _ ← call (CDcClose c);
  _ ← call (CDcUnregisterObserver c);
  _ ← dcheck (registered_ o) "registered_";
  mret (set_registered false o).

(** * RtcConductor.cpp *)

(** The three dereferences [peer_observer_->peer_connection_]. *)
Definition peer_connection : M (Sys W) (option pc) :=
  p ← self peer_observer_;
  po ← deref "peer_observer_" p;
  mret (peer_connection_ po).

(** The constructor. *)
Definition RtcConductor_new : M (Sys W) unit :=
  a ← alloc;
  _ ← upd (λ c, c <| peer_observer_ := Some (mkPeerConnectionObserver a None) |>);
  b ← alloc;
  _ ← upd (λ c, c <| session_observer_ := Some b |>);
  d ← alloc;
  upd (λ c, c <| set_session_observer_ := Some d |>).

(** [conductor->on_xxx_ = p]: the callbacks are public members that the owner
    of the conductor assigns. *)
Definition install (slot : callback_slot) (p : option nat) : M (Sys W) unit :=
  upd (λ c, match slot with
            | SOnSuccess => c <| on_success_ := p |>
            | SOnFailure => c <| on_failure_ := p |>
            | SOnMessage => c <| on_message_ := p |>
            | SOnIceStateChange => c <| on_ice_state_change_ := p |>
            | SOnIceGatheringStateChange => c <| on_ice_gathering_state_change_ := p |>
            | SOnIceCandidate => c <| on_ice_candidate_ := p |>
            | SOnDataChannelStateChange => c <| on_data_channel_state_change_ := p |>
            | SOnBufferAmountChange => c <| on_buffer_amount_change_ := p |>
            end).

(** [QuitThread(thread)] for the thread member [get]/[set]. *)
Definition QuitThread (get : RtcConductor → option string)
    (clear : RtcConductor → RtcConductor) : M (Sys W) unit :=
  t ← self get;
  match t with
  | None => mret tt
  | Some name =>
    _ ← call (CThreadQuit name);
    _ ← call (CThreadDestroy name);
    upd clear
  end.

(** [element.second->UnregisterObserver()] for one element of the map. *)
Definition unregister_element (element : string * DataChannelObserver) : M (Sys W) unit :=
  o' ← UnregisterObserver element.2;
  upd (λ c, c <| data_observers_ ::= <[element.1 := o']> |>).

(** The elements of the map in the order an iteration visits them. *)
Definition data_observers_elements : M (Sys W) (list (string * DataChannelObserver)) :=
  m ← self data_observers_;
  read (λ w, bucket_order w (map_to_list m)).

(** [data_observers_.clear()]: every observer is destroyed. *)
Definition data_observers_clear : M (Sys W) unit :=
  l ← data_observers_elements;
  _ ← for_each (λ e, DataChannelObserver_delete e.2) l;
  upd (λ c, c <| data_observers_ := ∅ |>).

(** [peer_observer_.reset()], and the peer connection closed before it. *)
Definition close_and_reset_peer_observer : M (Sys W) unit :=
  p ← self peer_observer_;
  match p with
  | None => mret tt
  | Some po =>
    _ ← match peer_connection_ po with
        | Some p => call (CClose p)
        | None => mret tt
        end;
    _ ← upd (λ c, c <| peer_observer_ := None |>);
    emit (CDeletePeerObserver (po_addr po))
  end.

(** [pc_factory_ = nullptr]. *)
Definition release_factory : M (Sys W) unit :=
  f ← self pc_factory_;
  _ ← match f with Some _ => call CFactoryRelease | None => mret tt end;
  upd (λ c, c <| pc_factory_ := None |>).

Definition DeletePeerConnection : M (Sys W) unit :=
  _ ← close_and_reset_peer_observer;
  _ ← release_factory;
  _ ← upd (λ c, c <| socket_factory_ := None |>);
  _ ← upd (λ c, c <| network_manager_ := None |>);
  l ← data_observers_elements;
  _ ← for_each unregister_element l;
  _ ← data_observers_clear;
  _ ← upd (λ c, c <| servers_ := [] |>);
  _ ← QuitThread signaling_thread_ (λ c, c <| signaling_thread_ := None |>);
  _ ← QuitThread worker_thread_ (λ c, c <| worker_thread_ := None |>);
  _ ← QuitThread network_thread_ (λ c, c <| network_thread_ := None |>);
  _ ← upd (λ c, c <| session_observer_ := None |>);
  _ ← upd (λ c, c <| set_session_observer_ := None |>);
  current_thread ← read ThreadManager_CurrentThread;
  if (current_thread : bool) then call CCurrentThreadQuit else mret tt.

(** The destructor. *)
Definition RtcConductor_delete : M (Sys W) unit :=
  _ ← DeletePeerConnection;
  p ← self peer_observer_;
  dcheck (match p with
          | None => true
          | Some po => bool_decide (peer_connection_ po = None)
          end) "!peer_observer_ || !peer_observer_->peer_connection_".

(** The [RTCConfiguration] that [CreatePeerConnection] assembles. *)
Definition peer_configuration (servers_ : list IceServer) : RTCConfiguration :=
  let config := default_RTCConfiguration in
  let config := config <| tcp_candidate_policy := kTcpCandidatePolicyDisabled |> in
  let config := config <| disable_ipv6 := false |> in
  let config := config <| disable_ipv6_on_wifi := false |> in
  let config := config <| candidate_network_policy := kCandidateNetworkPolicyLowCost |> in
  let config := config <| network_preference := Some ADAPTER_TYPE_ETHERNET |> in
  let config := config <| rtcp_mux_policy := kRtcpMuxPolicyRequire |> in
  foldl (λ config server, config <| servers ::= (λ l, l ++ [server]) |>) config servers_.

(** What [CreatePeerConnection] does to the allocator it made. *)
Definition configure_allocator (minPort maxPort : Z) : M PortAllocator bool :=
  f ← PortAllocator.flags;
  _ ← set_flags (Z.lor f PORTALLOCATOR_DISABLE_TCP);
  _ ← set_allow_tcp_listen false;
  SetPortRange minPort maxPort.

(** [std::make_unique<cricket::BasicPortAllocator>(...)]. *)
Definition new_allocator (config : RTCConfiguration) : M (Sys W) PortAllocator :=
  s ← get;
  let c := conductor s in
  let '(allocator, w') :=
    BasicPortAllocator_new (network_manager_ c) (socket_factory_ c)
      (PeerConnectionInterface.turn_customizer config) (relay_port_factory_ c) (world s) in
  _ ← put (mkSys c w' (trace s) (next_addr s));
  mret allocator.

Definition CreatePeerConnection (minPort maxPort : Z) : M (Sys W) bool :=
  f ← self pc_factory_;
  _ ← dcheck (bool_decide (is_Some f)) "pc_factory_";
  p ← self peer_observer_;
  _ ← dcheck (match p with
              | Some po => bool_decide (peer_connection_ po = None)
              | None => false
              end) "peer_observer_ && !peer_observer_->peer_connection_";
  srv ← self servers_;
  let config := peer_configuration srv in
  allocator ← new_allocator config;
  '(_, allocator) ← on_local allocator (configure_allocator minPort maxPort);
  _ ← deref "pc_factory_" f;
  peer_connection ←
    call_r (CCreatePeerConnection config allocator (po_addr <$> p))
           (Factory_CreatePeerConnection config allocator (po_addr <$> p));
  _ ← dcheck (bool_decide (is_Some peer_connection)) "peer_connection";
  po ← deref "peer_observer_" p;
  _ ← upd (λ c, c <| peer_observer_ := Some (po <| peer_connection_ := peer_connection |>) |>);
  mret true.

(** One of the three "create, name, start" sequences, with [CreateWithSocketServer()]
    or [Create()]; assigning to the member destroys a thread it held. *)
Definition start_thread (get : RtcConductor → option string)
    (set : option string → RtcConductor → RtcConductor) (with_socket_server : bool)
    (name failure : string) : M (Sys W) unit :=
  _ ← call (CThreadCreate name with_socket_server);
  old ← self get;
  _ ← match old with Some n => call (CThreadDestroy n) | None => mret tt end;
  _ ← upd (set (Some name));
  _ ← call (CThreadSetName name name);
  ok ← call_r (CThreadStart name) (Thread_Start name);
  check ok failure.

(** The nested [if]s of [InitializePeerConnection] after the factory call:
    whether the peer connection came up. *)
Definition initialize_with_factory (min_port max_port : Z) : M (Sys W) bool :=
  f ← self pc_factory_;
  match f with
  | None => mret false
  | Some _ =>
    a ← alloc;
    _ ← upd (λ c, c <| network_manager_ := Some a |>);
    t ← self network_thread_;
    b ← alloc;
    _ ← call (CNewPacketSocketFactory t);
    _ ← upd (λ c, c <| socket_factory_ := Some b |>);
    r ← alloc;
    _ ← upd (λ c, c <| relay_port_factory_ := Some r |>);
    _ ← call CFactorySetOptions;
    created ← CreatePeerConnection min_port max_port;
    if (created : bool) then
      p ← peer_connection;
      _ ← dcheck (bool_decide (is_Some p)) "peer_observer_->peer_connection_";
      mret (bool_decide (is_Some p))
    else mret false
  end.

Definition InitializePeerConnection (min_port max_port : Z) : M (Sys W) bool :=
  _ ← call CWrapCurrentThread;
  f ← self pc_factory_;
  _ ← dcheck (bool_decide (f = None)) "!pc_factory_";
  p ← self peer_observer_;
  _ ← dcheck (match p with
              | Some po => bool_decide (peer_connection_ po = None)
              | None => false
              end) "peer_observer_ && !peer_observer_->peer_connection_";
  n ← self network_thread_;
  w ← self worker_thread_;
  g ← self signaling_thread_;
  _ ← dcheck (bool_decide (n = None) && bool_decide (w = None) && bool_decide (g = None))
             "!network_thread_ && !worker_thread_ && !signaling_thread_";
  _ ← start_thread network_thread_ (λ t c, c <| network_thread_ := t |>) true
                   "network_thread" "Failed to start network thread";
  _ ← start_thread worker_thread_ (λ t c, c <| worker_thread_ := t |>) false
                   "worker_thread" "Failed to start worker thread";
  _ ← start_thread signaling_thread_ (λ t c, c <| signaling_thread_ := t |>) false
                   "signaling_thread" "Failed to start signaling thread";
  let factory_deps := default_PeerConnectionFactoryDependencies in
  n ← self network_thread_;
  let factory_deps := factory_deps <| network_thread := n |> in
  w ← self worker_thread_;
  let factory_deps := factory_deps <| worker_thread := w |> in
  g ← self signaling_thread_;
  let factory_deps := factory_deps <| signaling_thread := g |> in
  factory ← call_r (CCreateModularPeerConnectionFactory factory_deps)
                   (CreateModularPeerConnectionFactory factory_deps);
  _ ← upd (λ c, c <| pc_factory_ := factory |>);
  ok ← initialize_with_factory min_port max_port;
  if (ok : bool) then mret true
  else
    _ ← DeletePeerConnection;
    mret false.

Definition AddServerConfig (uri_ username_ password_ : string) : M (Sys W) unit :=
  let server := default_IceServer in
  let server := server <| uri := uri_ |> in
  let server := server <| username := username_ |> in
  let server := server <| password := password_ |> in
  upd (λ c, c <| servers_ ::= (λ l, l ++ [server]) |>).

Definition CreateOffer : M (Sys W) unit :=
  p ← peer_connection;
  match p with
  | None => mret tt
  | Some p =>
    let options := default_RTCOfferAnswerOptions in
    let options := options <| offer_to_receive_audio := 0 |> in
    let options := options <| offer_to_receive_video := 0 |> in
    o ← self session_observer_;
    call (CCreateOffer p o options)
  end.

Definition OnOfferReply (type sdp : string) : M (Sys W) unit :=
  p ← peer_connection;
  match p with
  | None => mret tt
  | Some p =>
    session_description ←
      call_r (CCreateSessionDescription type sdp) (CreateSessionDescription type sdp);
    match session_description with
    | None => mret tt
    | Some d =>
      o ← self set_session_observer_;
      call (CSetRemoteDescription p o d)
    end
  end.

Definition OnOfferRequest (sdp : string) : M (Sys W) unit :=
  p ← peer_connection;
  match p with
  | None => mret tt
  | Some p =>
    session_description ←
      call_r (CCreateSessionDescription "offer" sdp) (CreateSessionDescription "offer" sdp);
    match session_description with
    | None => mret tt
    | Some d =>
      o ← self set_session_observer_;
      _ ← call (CSetRemoteDescription p o d);
      let options := default_RTCOfferAnswerOptions in
      let options := options <| voice_activity_detection := false |> in
      let options := options <| offer_to_receive_audio := 0 |> in
      let options := options <| offer_to_receive_video := 0 |> in
      so ← self session_observer_;
      call (CCreateAnswer p so options)
    end
  end.

Definition AddIceCandidate (sdp_mid : string) (sdp_mlineindex : Z) (sdp : string) :
    M (Sys W) bool :=
  candidate ←
    call_r (CCreateIceCandidate sdp_mid sdp_mlineindex sdp)
           (CreateIceCandidate sdp_mid sdp_mlineindex sdp);
  match candidate with
  | None => mret false
  | Some cand =>
    p ← peer_connection;
    match p with
    | None => mret false
    | Some p =>
      ok ← call_r (CAddIceCandidate p cand) (Pc_AddIceCandidate p cand);
      if (ok : bool) then mret true else mret false
    end
  end.

Definition ProcessMessages (delay : Z) : M (Sys W) bool :=
  _ ← call CWrapCurrentThread;
  call_r (CProcessMessages delay) (Thread_ProcessMessages delay).

Definition CreateDataChannel (label : string) (config : DataChannelInit) : M (Sys W) unit :=
  p ← peer_connection;
  match p with
  | None => mret tt
  | Some p =>
    m ← self data_observers_;
    match m !! label with
    | Some _ => mret tt
    | None =>
      ch ← call_r (CCreateDataChannel p label config) (Pc_CreateDataChannel p label config);
      data_observer ← DataChannelObserver_new ch;
      data_observer ← RegisterObserver data_observer;
      upd (λ c, c <| data_observers_ ::= <[label := data_observer]> |>)
    end
  end.

Definition CloseDataChannel (label : string) : M (Sys W) unit :=
  m ← self data_observers_;
  match m !! label with
  | None => mret tt
  | Some o =>
    o' ← UnregisterObserver o;
    _ ← upd (λ c, c <| data_observers_ ::= delete label |>);
    DataChannelObserver_delete o'
  end.

Definition GetDataChannelInfo (label : string) : M (Sys W) (option RtcDataChannelInfo) :=
  m ← self data_observers_;
  match m !! label with
  | None => mret None
  | Some o =>
    c ← deref "data_channel" (data_channel_ o);
    w ← read (λ w, w);
    mret (Some {|
      id := wrap_s 32 (dc_id w c);
      currentBuffer := dc_buffered_amount w c;
      bytesSent := dc_bytes_sent w c;
      bytesReceived := dc_bytes_received w c;
      reliable := dc_reliable w c;
      ordered := dc_ordered w c;
      negotiated := dc_negotiated w c;
      messagesSent := dc_messages_sent w c;
      messagesReceived := dc_messages_received w c;
      maxRetransmits := wrap_s 16 (dc_maxRetransmits w c);
      maxRetransmitTime := wrap_s 16 (dc_maxRetransmitTime w c);
      protocol := dc_protocol w c;
      state := dc_state w c
    |})
  end.

Definition GetDataChannelState (label : string) :
    M (Sys W) (option DataChannelInterface.DataState) :=
  m ← self data_observers_;
  match m !! label with
  | None => mret None
  | Some o =>
    c ← deref "data_channel_" (data_channel_ o);
    st ← read (λ w, dc_state w c);
    mret (Some st)
  end.

Definition SendToDataChannel (label : string) (buffer : DataBuffer) : M (Sys W) unit :=
  m ← self data_observers_;
  match m !! label with
  | None => mret tt
  | Some o =>
    c ← deref "data_channel_" (data_channel_ o);
    _ ← call_r (CDcSend c buffer) (Dc_Send c buffer);
    mret tt
  end.

Definition HandleDataChannel (channel : option chan) : M (Sys W) unit :=
  _ ← dcheck (bool_decide (is_Some channel)) "channel";
  c ← deref "channel" channel;
  label ← read (λ w, dc_label w c);
  m ← self data_observers_;
  match m !! label with
  | Some _ => mret tt
  | None =>
    observer ← DataChannelObserver_new channel;
    observer ← RegisterObserver observer;
    upd (λ c, c <| data_observers_ ::= <[label := observer]> |>)
  end.

Definition HandleIceCandidate (candidate : option icecand) : M (Sys W) unit :=
  _ ← dcheck (bool_decide (is_Some candidate)) "candidate";
  cb ← self on_ice_candidate_;
  match cb with
  | None => mret tt
  | Some _ =>
    cand ← deref "candidate" candidate;
    str ← read (λ w, ic_ToString w cand);
    match str with
    | None => mret tt
    | Some sdp =>
      sdp_mid ← read (λ w, ic_sdp_mid w cand);
      sdp_mline_index ← read (λ w, ic_sdp_mline_index w cand);
      invoke cb (NOnIceCandidate (c_str sdp_mid) (wrap_s 32 sdp_mline_index) (c_str sdp))
    end
  end.

End Conductor.
