(* ===== verification/Observers.v ===== *)
(** The callbacks through which the library reaches Spitfire: the virtual
    functions of [DataChannelObserver], [PeerConnectionObserver],
    [CreateSessionDescriptionObserver] and [SetSessionDescriptionObserver].
    Each runs on an object that holds a pointer to the conductor, so each is a
    step of the same system as the conductor's own operations. *)
From S2P Require Import Prelude ApiTypes PortAllocator WebRtcApi ConductorState Conductor.
From Stdlib Require Import ZArith Lia.
From stdpp Require Import base tactics numbers strings gmap list.

Open Scope Z_scope.

(** Everything [webrtc::PeerConnectionObserver] can be told, one constructor
    per virtual function that PeerConnectionObserver.h overrides. *)
Inductive PeerEvent :=
  | OnSignalingChange (new_state : SignalingState)
  | OnAddStream (stream : nat)
  | OnRemoveStream (stream : nat)
  | OnDataChannel (channel : option chan)
  | OnRenegotiationNeeded
  | OnIceConnectionChange (new_state : IceConnectionState)
  | OnStandardizedIceConnectionChange (new_state : IceConnectionState)
  | OnConnectionChange (new_state : PeerConnectionState)
  | OnIceGatheringChange (new_state : IceGatheringState)
  | OnIceCandidate (candidate : option icecand)
  | OnIceCandidateError (host_candidate url : string) (error_code : Z) (error_text : string)
  | OnIceCandidateErrorPort (address : string) (port : Z) (url : string)
      (error_code : Z) (error_text : string)
  | OnIceCandidatesRemoved (candidates : list icecand)
  | OnIceConnectionReceivingChange (receiving : bool)
  | OnIceSelectedCandidatePairChanged
  | OnAddTrack (receiver : nat) (streams : list nat)
  | OnTrack (transceiver : nat)
  | OnRemoveTrack (receiver : nat)
  | OnInterestingUsage (usage_pattern : Z).

(** What [webrtc::DataChannelObserver] can be told. *)
Inductive ChannelEvent :=
  | OnStateChange
  | OnMessage (buffer : DataBuffer)
  | OnBufferedAmountChange (previous_amount : Z).

Section Observers.
Context {W : Type} `{!WebRtc W} `{!BuildConfig}.

(** * DataChannelObserver.cpp *)

Definition DataChannelObserver_OnStateChange (o : DataChannelObserver) : M (Sys W) unit :=
  _ ← dcheck (bool_decide (is_Some (data_channel_ o))) "data_channel_";
  c ← deref "data_channel_" (data_channel_ o);
  state ← read (λ w, dc_state w c);
  cb ← self on_data_channel_state_change_;
  match cb with
  | None => mret tt
  | Some _ =>
    label ← read (λ w, dc_label w c);
    invoke cb (NOnDataChannelState (c_str label) state)
  end.

Definition DataChannelObserver_OnMessage (o : DataChannelObserver) (buffer : DataBuffer) :
    M (Sys W) unit :=
  cb ← self on_message_;
  match cb with
  | None => mret tt
  | Some _ =>
    c ← deref "data_channel_" (data_channel_ o);
    label ← read (λ w, dc_label w c);
    invoke cb (NOnMessage (c_str label) (db_data buffer)
                 (wrap_u 32 (DataBuffer_size buffer)) (db_binary buffer))
  end.

Definition DataChannelObserver_OnBufferedAmountChange (o : DataChannelObserver)
    (previous_amount : Z) : M (Sys W) unit :=
  cb ← self on_buffer_amount_change_;
  match cb with
  | None => mret tt
  | Some _ =>
    c ← deref "data_channel_" (data_channel_ o);
    w ← read (λ w, w);
    invoke cb (NOnBufferAmount (c_str (dc_label w c)) previous_amount
                 (dc_buffered_amount w c) (dc_bytes_sent w c) (dc_bytes_received w c))
  end.

Definition channel_callback (o : DataChannelObserver) (e : ChannelEvent) : M (Sys W) unit :=
  match e with
  | OnStateChange => DataChannelObserver_OnStateChange o
  | OnMessage b => DataChannelObserver_OnMessage o b
  | OnBufferedAmountChange n => DataChannelObserver_OnBufferedAmountChange o n
  end.

(** * PeerConnectionObserver.cpp and PeerConnectionObserver.h *)

Definition PeerConnectionObserver_OnDataChannel (channel : option chan) : M (Sys W) unit :=
  _ ← dcheck (bool_decide (is_Some channel)) "channel";
  HandleDataChannel channel.

Definition PeerConnectionObserver_OnIceConnectionChange (new_state : IceConnectionState) :
    M (Sys W) unit :=
  cb ← self on_ice_state_change_;
  invoke cb (NOnIceStateChange new_state).

Definition PeerConnectionObserver_OnIceGatheringChange (new_state : IceGatheringState) :
    M (Sys W) unit :=
  cb ← self on_ice_gathering_state_change_;
  invoke cb (NOnIceGatheringState new_state).

Definition PeerConnectionObserver_OnIceCandidate (candidate : option icecand) :
    M (Sys W) unit :=
  _ ← dcheck (bool_decide (is_Some candidate)) "candidate";
  HandleIceCandidate candidate.

(** The remaining functions only write a log line. *)
Definition peer_callback (e : PeerEvent) : M (Sys W) unit :=
  match e with
  | OnDataChannel c => PeerConnectionObserver_OnDataChannel c
  | OnIceConnectionChange st => PeerConnectionObserver_OnIceConnectionChange st
  | OnIceGatheringChange st => PeerConnectionObserver_OnIceGatheringChange st
  | OnIceCandidate c => PeerConnectionObserver_OnIceCandidate c
  | OnSignalingChange _ | OnAddStream _ | OnRemoveStream _ | OnRenegotiationNeeded
  | OnStandardizedIceConnectionChange _ | OnConnectionChange _
  | OnIceCandidateError _ _ _ _ | OnIceCandidateErrorPort _ _ _ _ _
  | OnIceCandidatesRemoved _ | OnIceConnectionReceivingChange _
  | OnIceSelectedCandidatePairChanged | OnAddTrack _ _ | OnTrack _ | OnRemoveTrack _
  | OnInterestingUsage _ => mret tt
  end.

(** * CreateSessionDescriptionObserver.cpp *)

(** A read of a description after the library took it over ("takes the ownership
    of |desc| even if it fails"): the object may be gone. *)
Definition read_desc {A} (f : W → sdesc → A) (d : sdesc) : M (Sys W) A :=
  alive ← read (λ w, sd_alive w d);
  if (alive : bool) then read (λ w, f w d) else fail (UseAfterFree "desc").

Definition CreateSessionDescriptionObserver_OnSuccess (desc : option sdesc) :
    M (Sys W) unit :=
  _ ← dcheck (bool_decide (is_Some desc)) "desc";
  p ← peer_connection;
  match p with
  | None => mret tt
  | Some p =>
    o ← self set_session_observer_;
    d ← deref "desc" desc;
    _ ← call (CSetLocalDescription p o d);
    str ← read_desc sd_ToString d;
    let sdp := default "" str in
    cb ← self on_success_;
    match cb with
    | None => mret tt
    | Some _ =>
      type ← read_desc sd_type d;
      invoke cb (NOnSuccess (c_str type) (c_str sdp))
    end
  end.

Definition CreateSessionDescriptionObserver_OnFailure (message : string) : M (Sys W) unit :=
  cb ← self on_failure_;
  invoke cb (NOnFailure (c_str message)).

(** * SetSessionDescriptionObserver.h: both callbacks only write a log line. *)

Definition SetSessionDescriptionObserver_OnSuccess : M (Sys W) unit := mret tt.
Definition SetSessionDescriptionObserver_OnFailure (message : string) : M (Sys W) unit :=
  mret tt.

End Observers.
