(* ===== verification/ConductorLemmas.v ===== *)
(** What each operation of the conductor does, as symbolic-execution rules:
    the exact state, world and call sequence it ends with.  The properties of
    the conductor (ConductorTheorems.v) follow from these rules. *)
From S2P Require Import Prelude ApiTypes PortAllocator WebRtcApi ConductorState Conductor Observers.
From Stdlib Require Import ZArith Lia.
From stdpp Require Import base tactics numbers strings gmap list.
From coqutil Require Import Datatypes.RecordSetters.
Import TriangleBracketNotations.

Open Scope Z_scope.

(** * Call sequences *)

(** The two calls of [UnregisterObserver]. *)
Definition closing_calls (o : DataChannelObserver) : list Call :=
  match data_channel_ o with
  | Some c => [CDcClose c; CDcUnregisterObserver c]
  | None => []
  end.

(** The calls [DeletePeerConnection] makes, for the orders [l] and [l'] in
    which its two loops visit the observers. *)
Definition quit_calls (t : option string) : list Call :=
  match t with Some n => [CThreadQuit n; CThreadDestroy n] | None => [] end.

Definition peer_observer_calls (p : option PeerConnectionObserver) : list Call :=
  match p with
  | None => []
  | Some po =>
    match peer_connection_ po with Some q => [CClose q] | None => [] end ++
    [CDeletePeerObserver (po_addr po)]
  end.

Definition delete_calls (c : RtcConductor) (l l' : list (string * DataChannelObserver))
    (current_thread : bool) : list Call :=
  peer_observer_calls (peer_observer_ c) ++
  match pc_factory_ c with Some _ => [CFactoryRelease] | None => [] end ++
  (l ≫= λ e, closing_calls e.2) ++
  ((λ e, CDeleteDataObserver (do_addr e.2)) <$> l') ++
  quit_calls (signaling_thread_ c) ++ quit_calls (worker_thread_ c) ++
  quit_calls (network_thread_ c) ++
  (if current_thread then [CCurrentThreadQuit] else []).

(** The members [DeletePeerConnection] resets; the callbacks and the relay
    port factory stay. *)
Definition deleted_conductor (c : RtcConductor) : RtcConductor :=
  c <| peer_observer_ := None |> <| pc_factory_ := None |>
    <| socket_factory_ := None |> <| network_manager_ := None |>
    <| data_observers_ := ∅ |> <| servers_ := [] |>
    <| signaling_thread_ := None |> <| worker_thread_ := None |>
    <| network_thread_ := None |>
    <| session_observer_ := None |> <| set_session_observer_ := None |>.

(** Calls that neither register nor destroy a data channel observer. *)
Definition quiet (c : Call) : bool :=
  match c with
  | CDcRegisterObserver _ _ | CDeleteDataObserver _ => false
  | _ => true
  end.

(** A longer history in which only quiet calls were added. *)
Definition extends (tr tr' : list Call) : Prop :=
  ∃ d, tr' = tr ++ d ∧ forallb quiet d = true.

#[export] Instance extends_preorder : PreOrder extends.
Proof.
  split.
  - intros tr. exists []. by rewrite app_nil_r.
  - intros tr1 tr2 tr3 (d1&->&H1) (d2&->&H2). exists (d1 ++ d2).
    rewrite app_assoc, forallb_app. by rewrite H1, H2.
Qed.

Lemma extends_app tr tr' d : forallb quiet d = true → extends tr tr' → extends tr (tr' ++ d).
Proof. intros Hd He. etransitivity; [exact He|]. by exists d. Qed.

Ltac ext := repeat (apply extends_app; [done|]); first [reflexivity | assumption].

(** The allocator [CreatePeerConnection] hands over, from the one it made. *)
Definition configured_allocator (minPort maxPort : Z) (a : PortAllocator) : PortAllocator :=
  let a := a <| flags_ := wrap_u 32 (Z.lor (flags_ a) PORTALLOCATOR_DISABLE_TCP) |> in
  let a := a <| allow_tcp_listen_ := false |> in
  if maxPort <? minPort then a
  else a <| pa_min_port_ := minPort |> <| pa_max_port_ := maxPort |>.

(** The members [InitializePeerConnection] has set when it succeeds: the
    observer with its peer connection, the factory, the threads. *)
Definition connected (c : RtcConductor) : Prop :=
  (∃ po, peer_observer_ c = Some po ∧ is_Some (peer_connection_ po)) ∧
  is_Some (pc_factory_ c) ∧ is_Some (network_manager_ c) ∧ is_Some (socket_factory_ c) ∧
  network_thread_ c = Some "network_thread" ∧ worker_thread_ c = Some "worker_thread" ∧
  signaling_thread_ c = Some "signaling_thread".

(** A constructed conductor that was not initialised yet. *)
Definition constructed (c : RtcConductor) : Prop :=
  (∃ po, peer_observer_ c = Some po ∧ peer_connection_ po = None) ∧
  pc_factory_ c = None ∧ network_thread_ c = None ∧ worker_thread_ c = None ∧
  signaling_thread_ c = None ∧ data_observers_ c = ∅.

Section Rules.
Context {W : Type} `{!WebRtc W} `{!UnorderedMapLaws W} `{!BuildConfig}.
Implicit Types s : Sys W.

(** The library after a sequence of calls without results. *)
Definition void_calls (cs : list Call) (w : W) : W := foldl (λ w c, api_void c w) w cs.

Lemma void_calls_app cs1 cs2 w : void_calls (cs1 ++ cs2) w = void_calls cs2 (void_calls cs1 w).
Proof. apply foldl_app. Qed.

(** An observer that is in the conductor's map: it has a channel and, where
    the build tracks it, is registered with it. *)
Definition observer_ok (o : DataChannelObserver) : Prop :=
  is_Some (data_channel_ o) ∧ (RTC_DCHECK_IS_ON = true → registered_ o = true).

Definition observers_ok (m : gmap string DataChannelObserver) : Prop :=
  map_Forall (λ _ o, observer_ok o) m.

(** ** Observers *)

Lemma set_registered_channel b o : data_channel_ (set_registered b o) = data_channel_ o.
Proof. unfold set_registered. by destruct RTC_DCHECK_IS_ON, o. Qed.

Lemma set_registered_addr b o : do_addr (set_registered b o) = do_addr o.
Proof. unfold set_registered. by destruct RTC_DCHECK_IS_ON, o. Qed.

Lemma set_registered_registered b o :
  RTC_DCHECK_IS_ON = true → registered_ (set_registered b o) = b.
Proof. unfold set_registered. intros ->. by destruct o. Qed.

Lemma wp_UnregisterObserver o Q s :
  observer_ok o →
  Q (set_registered false o)
    (mkSys (conductor s) (void_calls (closing_calls o) (world s))
           (trace s ++ closing_calls o) (next_addr s)) →
  wp (UnregisterObserver o) Q s.
Proof.
  intros [[c Hc] Hr]. unfold UnregisterObserver, closing_calls. rewrite Hc. simpl.
  intros HQ. sys_run. rewrite <-app_assoc. exact HQ.
Qed.

Lemma wp_RegisterObserver o c Q s :
  data_channel_ o = Some c → registered_ o = false →
  Q (set_registered true o)
    (mkSys (conductor s) (api_void (CDcRegisterObserver c (do_addr o)) (world s))
           (trace s ++ [CDcRegisterObserver c (do_addr o)]) (next_addr s)) →
  wp (RegisterObserver o) Q s.
Proof.
  intros Hc Hr HQ. unfold RegisterObserver. rewrite Hc, Hr. by sys_run.
Qed.

Lemma wp_DataChannelObserver_new c Q s :
  Q (mkDataChannelObserver (next_addr s) (Some c) false)
    (mkSys (conductor s) (world s) (trace s) (S (next_addr s))) →
  wp (DataChannelObserver_new (Some c)) Q s.
Proof. intros HQ. unfold DataChannelObserver_new. by sys_run. Qed.

Lemma wp_DataChannelObserver_delete o Q s :
  (RTC_DCHECK_IS_ON = true → registered_ o = false) →
  Q tt (mkSys (conductor s) (world s) (trace s ++ [CDeleteDataObserver (do_addr o)])
              (next_addr s)) →
  wp (DataChannelObserver_delete o) Q s.
Proof.
  intros Hr HQ. unfold DataChannelObserver_delete. sys_step.
  apply wp_dcheck; [by intros ->%Hr|]. by sys_run.
Qed.

(** ** The loops of [DeletePeerConnection] *)

Lemma wp_unregister_all l Q s :
  Forall (λ e, observer_ok e.2) l →
  Q tt (mkSys ((conductor s) <| data_observers_ ::=
                 λ m, foldl (λ m e, <[e.1 := set_registered false e.2]> m) m l |>)
              (void_calls (l ≫= λ e, closing_calls e.2) (world s))
              (trace s ++ (l ≫= λ e, closing_calls e.2)) (next_addr s)) →
  wp (for_each unregister_element l) Q s.
Proof.
  revert s. induction l as [|[k o] l IH]; intros s Hl HQ; cbn [for_each].
  - sys_run. destruct s as [[]]; simpl in *. by rewrite app_nil_r in HQ.
  - inversion Hl as [|?? Ho Hl']; subst. sys_run. unfold unregister_element. sys_run.
    apply wp_UnregisterObserver; [done|]. sys_run. apply IH; [done|].
    destruct s as [[]]; simpl in *.
    by rewrite <-app_assoc, <-void_calls_app.
Qed.

Lemma wp_delete_all (l : list (string * DataChannelObserver)) Q s :
  Forall (λ e, RTC_DCHECK_IS_ON = true → registered_ e.2 = false) l →
  Q tt (mkSys (conductor s) (world s)
              (trace s ++ ((λ e, CDeleteDataObserver (do_addr e.2)) <$> l)) (next_addr s)) →
  wp (for_each (λ e, DataChannelObserver_delete e.2) l) Q s.
Proof.
  revert s. induction l as [|[k o] l IH]; intros s Hl HQ; cbn [for_each].
  - sys_run. destruct s; simpl in *. by rewrite app_nil_r in HQ.
  - inversion Hl as [|?? Ho Hl']; subst. sys_run.
    apply wp_DataChannelObserver_delete; [done|]. apply IH; [done|]. simpl in *.
    by rewrite <-app_assoc.
Qed.

Lemma wp_data_observers_elements Q s :
  (∀ l, l ≡ₚ map_to_list (data_observers_ (conductor s)) → Q l s) →
  wp data_observers_elements Q s.
Proof.
  intros HQ. unfold data_observers_elements. sys_run. apply HQ, bucket_order_perm.
Qed.

Lemma map_elements_Forall {A} (P : A → Prop) (m : gmap string A) l :
  l ≡ₚ map_to_list m → map_Forall (λ _ o, P o) m → Forall (λ e, P e.2) l.
Proof.
  intros -> Hm. apply Forall_forall. intros [k o] Hin%elem_of_map_to_list. by eapply Hm.
Qed.

(** ** DeletePeerConnection *)

Lemma wp_close_and_reset_peer_observer Q s :
  (∀ w', Q tt (mkSys ((conductor s) <| peer_observer_ := None |>) w'
            (trace s ++ peer_observer_calls (peer_observer_ (conductor s))) (next_addr s))) →
  wp close_and_reset_peer_observer Q s.
Proof.
  intros HQ. unfold close_and_reset_peer_observer. sys_run.
  destruct s as [[] w tr na]; simpl in *.
  match goal with |- context [match ?p with _ => _ end] => destruct p as [[a [q|]]|] end;
    simpl in *; sys_run; simpl; rewrite <-?app_assoc; try apply HQ.
  specialize (HQ w). by rewrite app_nil_r in HQ.
Qed.

Lemma wp_release_factory Q s :
  (∀ w', Q tt (mkSys ((conductor s) <| pc_factory_ := None |>) w'
            (trace s ++ match pc_factory_ (conductor s) with
                        | Some _ => [CFactoryRelease] | None => [] end) (next_addr s))) →
  wp release_factory Q s.
Proof.
  intros HQ. unfold release_factory. sys_run.
  destruct (pc_factory_ (conductor s)); sys_run; [apply HQ|].
  specialize (HQ (world s)). by rewrite app_nil_r in HQ.
Qed.

Lemma wp_QuitThread get clear Q s :
  (get (conductor s) = None → clear (conductor s) = conductor s) →
  (∀ w', Q tt (mkSys (clear (conductor s)) w'
                 (trace s ++ quit_calls (get (conductor s))) (next_addr s))) →
  wp (QuitThread get clear) Q s.
Proof.
  intros Hn HQ. unfold QuitThread. sys_run.
  destruct (get (conductor s)) as [n|]; sys_run.
  - rewrite <-app_assoc. apply HQ.
  - specialize (HQ (world s)). rewrite Hn, app_nil_r in HQ by done. by destruct s.
Qed.

Lemma wp_DeletePeerConnection Q s :
  observers_ok (data_observers_ (conductor s)) →
  (∀ l l' b w',
     l ≡ₚ map_to_list (data_observers_ (conductor s)) →
     l' ≡ₚ map_to_list (set_registered false <$> data_observers_ (conductor s)) →
     Q tt (mkSys (deleted_conductor (conductor s)) w'
                 (trace s ++ delete_calls (conductor s) l l' b) (next_addr s))) →
  wp DeletePeerConnection Q s.
Proof.
  intros Hok HQ. unfold DeletePeerConnection. sys_step.
  apply wp_close_and_reset_peer_observer. intros w1. sys_step.
  apply wp_release_factory. intros w2. sys_run.
  apply wp_data_observers_elements. intros l Hl. sys_run.
  apply wp_unregister_all.
  { eapply (map_elements_Forall observer_ok); [exact Hl|]. by destruct s as [[]]. }
  sys_run. unfold data_observers_clear. sys_step.
  apply wp_data_observers_elements. intros l' Hl'. sys_run.
  destruct s as [[] w tr na]; simpl in *.
  rewrite foldl_insert_fmap in Hl' by done.
  apply wp_delete_all.
  { eapply (map_elements_Forall (λ o, RTC_DCHECK_IS_ON = true → registered_ o = false));
      [exact Hl'|].
    intros k o. rewrite lookup_fmap. intros (o'&_&->)%fmap_Some.
    apply set_registered_registered. }
  sys_run. apply wp_QuitThread; [by intros; simplify_eq/=|]. intros w3. sys_run.
  apply wp_QuitThread; [by intros; simplify_eq/=|]. intros w4. sys_run.
  apply wp_QuitThread; [by intros; simplify_eq/=|]. intros w5. sys_run.
  pose proof (λ b w', HQ l l' b w' Hl Hl') as HQ'.
  unfold delete_calls, deleted_conductor in HQ'. simpl in HQ'.
  destruct (ThreadManager_CurrentThread w5); sys_run; simpl;
    rewrite <-?app_assoc; [apply (HQ' true)|].
  specialize (HQ' false w5). by rewrite ?app_nil_r in HQ'.
Qed.

(** ** Data channels *)

(** The observer [CreateDataChannel] and [HandleDataChannel] put in the map. *)
Definition registered_observer (a : nat) (c : chan) : DataChannelObserver :=
  set_registered true (mkDataChannelObserver a (Some c) false).

Lemma registered_observer_ok a c : observer_ok (registered_observer a c).
Proof.
  split; [|by apply set_registered_registered].
  unfold registered_observer. rewrite set_registered_channel. by eexists.
Qed.

Lemma registered_observer_channel a c : data_channel_ (registered_observer a c) = Some c.
Proof. apply set_registered_channel. Qed.

Lemma registered_observer_addr a c : do_addr (registered_observer a c) = a.
Proof. apply set_registered_addr. Qed.

(** The system after a new channel [c] got its observer under [label]. *)
Definition channel_added (label : string) (c : chan) (calls : list Call) (w : W) s : Sys W :=
  mkSys ((conductor s) <| data_observers_ ::= <[label := registered_observer (next_addr s) c]> |>)
        (api_void (CDcRegisterObserver c (next_addr s)) w)
        (trace s ++ calls ++ [CDcRegisterObserver c (next_addr s)]) (S (next_addr s)).

(** The system after the channel of [o] under [label] was closed. *)
Definition channel_closed (label : string) (o : DataChannelObserver) s : Sys W :=
  mkSys ((conductor s) <| data_observers_ ::= delete label |>)
        (void_calls (closing_calls o) (world s))
        (trace s ++ closing_calls o ++ [CDeleteDataObserver (do_addr o)]) (next_addr s).

Lemma wp_peer_connection po Q s :
  peer_observer_ (conductor s) = Some po → Q (peer_connection_ po) s →
  wp peer_connection Q s.
Proof. intros Hpo HQ. unfold peer_connection. by sys_run. Qed.

Lemma wp_CreateDataChannel label config po Q s :
  peer_observer_ (conductor s) = Some po →
  (peer_connection_ po = None ∨ is_Some (data_observers_ (conductor s) !! label) → Q tt s) →
  (∀ p, peer_connection_ po = Some p → data_observers_ (conductor s) !! label = None →
     ∃ c w', Pc_CreateDataChannel p label config (world s) = (Some c, w') ∧
             Q tt (channel_added label c [CCreateDataChannel p label config] w' s)) →
  wp (CreateDataChannel label config) Q s.
Proof.
  intros Hpo Hskip Hadd. unfold CreateDataChannel. sys_step.
  eapply wp_peer_connection; [exact Hpo|].
  destruct (peer_connection_ po) as [p|] eqn:Hpc; [|sys_run; by eauto].
  sys_run. destruct (data_observers_ (conductor s) !! label) as [o|] eqn:Hm.
  { sys_run. apply Hskip. right. by eexists. }
  destruct (Hadd p) as (c&w'&Hc&HQ); [done..|]. sys_run. rewrite Hc. simpl.
  apply wp_DataChannelObserver_new. sys_run.
  eapply wp_RegisterObserver; [done..|]. sys_run. simpl.
  rewrite <-app_assoc. exact HQ.
Qed.

Lemma wp_HandleDataChannel c Q s :
  (is_Some (data_observers_ (conductor s) !! dc_label (world s) c) → Q tt s) →
  (data_observers_ (conductor s) !! dc_label (world s) c = None →
   Q tt (channel_added (dc_label (world s) c) c [] (world s) s)) →
  wp (HandleDataChannel (Some c)) Q s.
Proof.
  intros Hskip Hadd. unfold HandleDataChannel. sys_run.
  destruct (data_observers_ (conductor s) !! dc_label (world s) c) as [o|] eqn:Hm.
  { sys_run. apply Hskip. by eexists. }
  sys_run. apply wp_DataChannelObserver_new. sys_run.
  eapply wp_RegisterObserver; [done..|]. sys_run. by apply Hadd.
Qed.

Lemma wp_CloseDataChannel label Q s :
  observers_ok (data_observers_ (conductor s)) →
  (data_observers_ (conductor s) !! label = None → Q tt s) →
  (∀ o, data_observers_ (conductor s) !! label = Some o → Q tt (channel_closed label o s)) →
  wp (CloseDataChannel label) Q s.
Proof.
  intros Hok Hno Hyes. unfold CloseDataChannel. sys_run.
  destruct (data_observers_ (conductor s) !! label) as [o|] eqn:Hm; [|by sys_run; auto].
  sys_run. apply wp_UnregisterObserver; [by eapply Hok|]. sys_run.
  apply wp_DataChannelObserver_delete; [by apply set_registered_registered|].
  rewrite set_registered_addr. simpl. rewrite <-app_assoc. by apply Hyes.
Qed.

(** ** InitializePeerConnection *)

(** The calls of a "create, name, start" sequence before the start. *)
Definition thread_setup (old : option string) (with_socket_server : bool) (name : string) :
    list Call :=
  [CThreadCreate name with_socket_server] ++
  match old with Some n => [CThreadDestroy n] | None => [] end ++ [CThreadSetName name name].

Definition thread_calls (old : option string) (with_socket_server : bool) (name : string) :
    list Call := thread_setup old with_socket_server name ++ [CThreadStart name].

(** Whether the new thread starts, and the library afterwards. *)
Definition start_answer (old : option string) (with_socket_server : bool) (name : string)
    (w : W) : bool * W :=
  Thread_Start name (void_calls (thread_setup old with_socket_server name) w).

Lemma wpf_start_thread get set ss name failure Q (E : fault → Prop) s :
  ((start_answer (get (conductor s)) ss name (world s)).1 = true →
   Q tt (mkSys (set (Some name) (conductor s)) (start_answer (get (conductor s)) ss name (world s)).2
           (trace s ++ thread_calls (get (conductor s)) ss name) (next_addr s))) →
  ((start_answer (get (conductor s)) ss name (world s)).1 = false → E (CheckFailed failure)) →
  wpf (start_thread get set ss name failure) Q E s.
Proof.
  unfold start_thread, start_answer, thread_calls, thread_setup.
  destruct (get (conductor s)) as [n|] eqn:Hget; cbn [app void_calls foldl]; intros HQ HE;
    repeat (apply wp_wpf_bind; sys_run); rewrite ?Hget; sys_run;
    repeat (apply wp_wpf_bind; sys_run); apply wpf_check;
    destruct (Thread_Start name _).1; auto; rewrite <-?app_assoc in *; by apply HQ.
Qed.

(** What the factory is made from: the three new threads. *)
Definition startup_deps : PeerConnectionFactoryDependencies :=
  default_PeerConnectionFactoryDependencies <| network_thread := Some "network_thread" |>
    <| worker_thread := Some "worker_thread" |> <| signaling_thread := Some "signaling_thread" |>.

(** The calls of [InitializePeerConnection] before it looks at the factory. *)
Definition startup_calls (c : RtcConductor) : list Call :=
  [CWrapCurrentThread] ++ thread_calls (network_thread_ c) true "network_thread" ++
  thread_calls (worker_thread_ c) false "worker_thread" ++
  thread_calls (signaling_thread_ c) false "signaling_thread" ++
  [CCreateModularPeerConnectionFactory startup_deps].

(** The calls it makes on a factory. *)
Definition connect_calls (c : RtcConductor) (mn mx : Z) (al : PortAllocator)
    (observer : nat) : list Call :=
  [CNewPacketSocketFactory (Some "network_thread"); CFactorySetOptions;
   CCreatePeerConnection (peer_configuration (servers_ c))
     (configured_allocator mn mx al) (Some observer)].

(** The members when the factory was asked for, when the network objects were made, and
    when the peer connection was stored. *)
Definition started_conductor (f : option nat) (c : RtcConductor) : RtcConductor :=
  c <| network_thread_ := Some "network_thread" |> <| worker_thread_ := Some "worker_thread" |>
    <| signaling_thread_ := Some "signaling_thread" |> <| pc_factory_ := f |>.

Definition equipped_conductor (f na : nat) (c : RtcConductor) : RtcConductor :=
  (started_conductor (Some f) c) <| network_manager_ := Some na |>
    <| socket_factory_ := Some (S na) |> <| relay_port_factory_ := Some (S (S na)) |>.

Definition with_connection (po : PeerConnectionObserver) (r : option pc) (c : RtcConductor) :
    RtcConductor := c <| peer_observer_ := Some (po <| peer_connection_ := r |>) |>.

(** *** Why it may stop instead of returning *)

(** Starting the threads: the library afterwards, or the check that failed. *)
Definition start_threads (c : RtcConductor) (w : W) : fault + W :=
  let '(ok, w) := start_answer (network_thread_ c) true "network_thread"
                    (api_void CWrapCurrentThread w) in
  if negb ok then inl (CheckFailed "Failed to start network thread") else
  let '(ok, w) := start_answer (worker_thread_ c) false "worker_thread" w in
  if negb ok then inl (CheckFailed "Failed to start worker thread") else
  let '(ok, w) := start_answer (signaling_thread_ c) false "signaling_thread" w in
  if negb ok then inl (CheckFailed "Failed to start signaling thread") else inr w.

(** Creating the peer connection: a new allocator of another thread, a factory that delivers
    nothing (both only in builds that check it), or no observer to store the connection in. *)
Definition connection_stop (mn mx : Z) (c : RtcConductor) (w : W) : option fault :=
  let config := peer_configuration (servers_ c) in
  let '(al, w) := BasicPortAllocator_new (network_manager_ c) (socket_factory_ c)
    (PeerConnectionInterface.turn_customizer config) (relay_port_factory_ c) w in
  if RTC_DCHECK_IS_ON && negb (usable al) then
    Some (CheckFailed "!initialized_ || thread_checker_.IsCurrent()")
  else if RTC_DCHECK_IS_ON && bool_decide ((Factory_CreatePeerConnection config
    (configured_allocator mn mx al) (po_addr <$> peer_observer_ c) w).1 = None) then
    Some (CheckFailed "peer_connection")
  else match peer_observer_ c with None => Some (NullDeref "peer_observer_") | Some _ => None end.

(** The whole of [InitializePeerConnection] on members the checks at its start accept. *)
Definition startup_stop (mn mx : Z) s : option fault :=
  match start_threads (conductor s) (world s) with
  | inl e => Some e
  | inr w =>
    let '(f, w) := CreateModularPeerConnectionFactory startup_deps w in
    match f with
    | None => None
    | Some f =>
      connection_stop mn mx (equipped_conductor f (next_addr s) (conductor s))
        (void_calls [CNewPacketSocketFactory (Some "network_thread"); CFactorySetOptions] w)
    end
  end.

(** *** What it does *)

Lemma wpf_configure_allocator mn mx Q (E : fault → Prop) a :
  (negb RTC_DCHECK_IS_ON || usable a = true → ∀ b, Q b (configured_allocator mn mx a)) →
  (RTC_DCHECK_IS_ON && negb (usable a) = true →
   E (CheckFailed "!initialized_ || thread_checker_.IsCurrent()")) →
  wpf (configure_allocator mn mx) Q E a.
Proof.
  intros HQ HE. destruct (RTC_DCHECK_IS_ON && negb (usable a)) eqn:Hb.
  - apply andb_true_iff in Hb as [Hon Hu]. unfold configure_allocator, PortAllocator.flags, accessor.
    unfold CheckRunOnValidThreadIfInitialized, dcheck, usable in *. rewrite Hon.
    apply negb_true_iff in Hu. unfold wpf, mbind, M_bind, get. rewrite Hu. simpl. by apply HE.
  - apply wp_wpf. assert (RTC_DCHECK_IS_ON = true → usable a = true) as Hu.
    { intros Hon. rewrite Hon in Hb. by apply negb_false_iff. }
    unfold configure_allocator. wp_run. apply wp_accessor; [done|]. wp_run.
    apply wp_setter; [done|]. wp_run. apply wp_setter; [by destruct a|].
    unfold configured_allocator in HQ.
    assert (negb RTC_DCHECK_IS_ON || usable a = true) as Hor by (by destruct RTC_DCHECK_IS_ON, (usable a)).
    apply wp_SetPortRange; [by destruct a|..]; intros Hle.
    + specialize (HQ Hor false). destruct (Z.ltb_spec mx mn); [exact HQ|lia].
    + specialize (HQ Hor true). destruct (Z.ltb_spec mx mn); [lia|exact HQ].
Qed.

(** An allocator as the library makes it. *)
Definition new_from_library (al : PortAllocator) : Prop :=
  ∃ nm sf tc rf (w : W), al = (BasicPortAllocator_new nm sf tc rf w).1.

Lemma wp_new_allocator config Q s :
  let r := BasicPortAllocator_new (network_manager_ (conductor s)) (socket_factory_ (conductor s))
    (PeerConnectionInterface.turn_customizer config) (relay_port_factory_ (conductor s)) (world s) in
  Q r.1 (mkSys (conductor s) r.2 (trace s) (next_addr s)) →
  wp (new_allocator config) Q s.
Proof.
  intros r HQ. unfold new_allocator, wp, mbind, M_bind, get, put, mret, M_ret. subst r.
  by destruct (BasicPortAllocator_new _ _ _ _ _) as [al w'].
Qed.

Lemma wpf_CreatePeerConnection mn mx f Q s :
  pc_factory_ (conductor s) = Some f →
  (RTC_DCHECK_IS_ON = true →
   ∃ po, peer_observer_ (conductor s) = Some po ∧ peer_connection_ po = None) →
  (∀ po al r w', connection_stop mn mx (conductor s) (world s) = None →
     peer_observer_ (conductor s) = Some po → new_from_library al →
     (RTC_DCHECK_IS_ON = true → is_Some r) →
     Q true (mkSys (with_connection po r (conductor s)) w'
       (trace s ++ [CCreatePeerConnection (peer_configuration (servers_ (conductor s)))
                      (configured_allocator mn mx al) (Some (po_addr po))]) (next_addr s))) →
  wpf (CreatePeerConnection mn mx) Q
    (λ e, connection_stop mn mx (conductor s) (world s) = Some e) s.
Proof.
  intros Hf Hpo HQ. unfold CreatePeerConnection. apply wp_wpf_bind. sys_run. rewrite Hf.
  apply wp_wpf_bind. sys_run. apply wp_wpf_bind. sys_run.
  apply wp_wpf_bind, wp_dcheck; [by intros (po&->&->)%Hpo|].
  apply wp_wpf_bind. sys_run. apply wp_wpf_bind, wp_new_allocator. cbn zeta.
  unfold connection_stop in *. destruct (BasicPortAllocator_new _ _ _ _ _) as [al w1] eqn:Hal.
  assert (new_from_library al) as Hnew by (repeat eexists; by rewrite Hal). cbn [fst snd].
  apply wpf_bind, wpf_on_local, wpf_configure_allocator; intros Hu; [intros b|by rewrite Hu].
  replace (RTC_DCHECK_IS_ON && negb (usable al)) with false in *
    by (symmetry; destruct RTC_DCHECK_IS_ON, (usable al); done).
  apply wp_wpf_bind. sys_run. apply wp_wpf_bind. sys_run.
  destruct (Factory_CreatePeerConnection _ _ _ _) as [r w2] eqn:Hr; cbn [fst snd] in *.
  apply wpf_bind, wpf_dcheck.
  destruct (negb RTC_DCHECK_IS_ON || bool_decide (is_Some r)) eqn:Hor.
  - replace (RTC_DCHECK_IS_ON && bool_decide (r = None)) with false in *
      by (symmetry; destruct RTC_DCHECK_IS_ON, r; done).
    apply wpf_bind, wpf_deref. destruct (peer_observer_ (conductor s)) as [po|] eqn:Ho; [|done].
    apply wp_wpf. sys_run. apply (HQ po al r); try done.
    intros Hon. rewrite Hon in Hor. by apply bool_decide_eq_true in Hor.
  - by destruct RTC_DCHECK_IS_ON, r.
Qed.

(** What a run of [InitializePeerConnection] leaves alone. *)
Definition same_channels (c c' : RtcConductor) : Prop :=
  data_observers_ c' = data_observers_ c ∧ servers_ c' = servers_ c ∧
  session_observer_ c' = session_observer_ c ∧
  set_session_observer_ c' = set_session_observer_ c ∧
  on_success_ c' = on_success_ c ∧ on_failure_ c' = on_failure_ c ∧
  on_message_ c' = on_message_ c ∧ on_ice_candidate_ c' = on_ice_candidate_ c ∧
  on_ice_state_change_ c' = on_ice_state_change_ c ∧
  on_ice_gathering_state_change_ c' = on_ice_gathering_state_change_ c ∧
  on_data_channel_state_change_ c' = on_data_channel_state_change_ c ∧
  on_buffer_amount_change_ c' = on_buffer_amount_change_ c.

Lemma startup_calls_quiet c : forallb quiet (startup_calls c) = true.
Proof.
  unfold startup_calls, thread_calls, thread_setup.
  by destruct (network_thread_ c), (worker_thread_ c), (signaling_thread_ c).
Qed.

Lemma startup_trace c tr :
  ((((tr ++ [CWrapCurrentThread]) ++ thread_calls (network_thread_ c) true "network_thread") ++
    thread_calls (worker_thread_ c) false "worker_thread") ++
    thread_calls (signaling_thread_ c) false "signaling_thread") ++
    [CCreateModularPeerConnectionFactory startup_deps] = tr ++ startup_calls c.
Proof. unfold startup_calls. by rewrite <-!app_assoc. Qed.

(** The cleaning up after a start that failed, from the members [c]. *)
Definition cleaned_up (c : RtcConductor) (tr : list Call) (na : nat) (s' : Sys W) : Prop :=
  ∃ l l' b w', l ≡ₚ map_to_list (data_observers_ c) ∧
    l' ≡ₚ map_to_list (set_registered false <$> data_observers_ c) ∧
    s' = mkSys (deleted_conductor c) w' (tr ++ delete_calls c l l' b) na.

Lemma wp_clean_up (Q : bool → Sys W → Prop) s :
  observers_ok (data_observers_ (conductor s)) →
  (∀ s', cleaned_up (conductor s) (trace s) (next_addr s) s' → Q false s') →
  wp (_ ← DeletePeerConnection; mret false) Q s.
Proof.
  intros Hok HQ. sys_step. apply wp_DeletePeerConnection; [done|].
  intros l l' b w' Hl Hl'. sys_run. apply HQ. by exists l, l', b, w'.
Qed.

Lemma wpf_initialize_with_factory mn mx f Q s :
  pc_factory_ (conductor s) = Some f → network_thread_ (conductor s) = Some "network_thread" →
  (RTC_DCHECK_IS_ON = true →
   ∃ po, peer_observer_ (conductor s) = Some po ∧ peer_connection_ po = None) →
  let c1 := (conductor s) <| network_manager_ := Some (next_addr s) |>
    <| socket_factory_ := Some (S (next_addr s)) |>
    <| relay_port_factory_ := Some (S (S (next_addr s))) |> in
  let w1 := void_calls [CNewPacketSocketFactory (Some "network_thread"); CFactorySetOptions] (world s) in
  (∀ po al r w', connection_stop mn mx c1 w1 = None → peer_observer_ (conductor s) = Some po →
     new_from_library al →
     Q (bool_decide (is_Some r)) (mkSys (with_connection po r c1) w'
       (trace s ++ connect_calls (conductor s) mn mx al (po_addr po)) (S (S (S (next_addr s)))))) →
  wpf (initialize_with_factory mn mx) Q (λ e, connection_stop mn mx c1 w1 = Some e) s.
Proof.
  intros Hf Hn Hpo c1 w1 HQ. unfold initialize_with_factory. apply wp_wpf_bind. sys_run. rewrite Hf.
  destruct s as [c w tr na]; cbn [conductor world trace next_addr] in *.
  do 3 (apply wp_wpf_bind; sys_run).
  replace (network_thread_ _) with (Some "network_thread") by (by destruct c).
  do 6 (apply wp_wpf_bind; sys_run). apply wpf_bind.
  refine (wpf_CreatePeerConnection mn mx f _ _ _ _ _); cbn [conductor world trace next_addr].
  - by destruct c.
  - by destruct c.
  - intros po al r w' Hs Ho Hal Hr. apply wp_wpf_bind.
    eapply wp_peer_connection; [by destruct c|].
    apply wp_wpf. sys_run. apply wp_dcheck; [intros Hon; by apply bool_decide_eq_true_2; destruct po; apply Hr|].
    sys_run. destruct c, po as [a q]; simpl in *. unfold connect_calls.
    rewrite <-!app_assoc. simpl. by apply (HQ (mkPeerConnectionObserver a q) al r).
Qed.

Lemma wpf_InitializePeerConnection mn mx Q s :
  observers_ok (data_observers_ (conductor s)) →
  (RTC_DCHECK_IS_ON = true → constructed (conductor s)) →
  (∀ f po al q w', startup_stop mn mx s = None → peer_observer_ (conductor s) = Some po →
     new_from_library al →
     Q true (mkSys (with_connection po (Some q) (equipped_conductor f (next_addr s) (conductor s))) w'
       (trace s ++ startup_calls (conductor s) ++ connect_calls (conductor s) mn mx al (po_addr po))
       (S (S (S (next_addr s)))))) →
  (∀ f po al s', startup_stop mn mx s = None → peer_observer_ (conductor s) = Some po →
     new_from_library al →
     cleaned_up (with_connection po None (equipped_conductor f (next_addr s) (conductor s)))
       (trace s ++ startup_calls (conductor s) ++ connect_calls (conductor s) mn mx al (po_addr po))
       (S (S (S (next_addr s)))) s' → Q false s') →
  (∀ s', startup_stop mn mx s = None →
     cleaned_up (started_conductor None (conductor s)) (trace s ++ startup_calls (conductor s))
       (next_addr s) s' → Q false s') →
  wpf (InitializePeerConnection mn mx) Q (λ e, startup_stop mn mx s = Some e) s.
Proof.
  intros Hok Hfresh Hyes Hno Hnof. unfold InitializePeerConnection.
  do 2 (apply wp_wpf_bind; sys_run).
  apply wp_wpf_bind, wp_dcheck; [by intros (_&->&_)%Hfresh|]. apply wp_wpf_bind. sys_run.
  assert (RTC_DCHECK_IS_ON = true →
    ∃ po, peer_observer_ (conductor s) = Some po ∧ peer_connection_ po = None) as Hnone.
  { by intros (Hpo&_)%Hfresh. }
  apply wp_wpf_bind, wp_dcheck; [by intros (po&->&->)%Hnone|].
  do 3 (apply wp_wpf_bind; sys_run).
  apply wp_wpf_bind, wp_dcheck; [by intros (_&_&->&->&->&_)%Hfresh|].
  destruct s as [c w tr na]; cbn [conductor world trace next_addr] in *.
  unfold startup_stop, start_threads in *; cbn [conductor world trace next_addr] in *.
  apply wpf_bind, wpf_start_thread; cbn [conductor world trace next_addr];
    destruct (start_answer (network_thread_ c) _ _ _) as [k1 w1]; cbn [fst snd] in *; intros ->; [|done].
  apply wpf_bind, wpf_start_thread; cbn [conductor world trace next_addr];
    replace (worker_thread_ (c <| network_thread_ := _ |>)) with (worker_thread_ c) by (by destruct c);
    destruct (start_answer (worker_thread_ c) _ _ _) as [k2 w2]; cbn [fst snd] in *; intros ->; [|done].
  apply wpf_bind, wpf_start_thread; cbn [conductor world trace next_addr];
    replace (signaling_thread_ (c <| network_thread_ := _ |> <| worker_thread_ := _ |>))
      with (signaling_thread_ c) by (by destruct c);
    destruct (start_answer (signaling_thread_ c) _ _ _) as [k3 w3]; cbn [fst snd] in *; intros ->; [|done].
  do 3 (apply wp_wpf_bind; sys_run). apply wp_wpf_bind. sys_run.
  replace (default_PeerConnectionFactoryDependencies <| network_thread := _ |>
    <| worker_thread := _ |> <| signaling_thread := _ |>) with startup_deps by (by destruct c).
  cbn [negb] in *.
  destruct (CreateModularPeerConnectionFactory startup_deps w3) as [[f|] w4]; cbn [fst snd] in *;
    apply wp_wpf_bind; sys_run; apply wpf_bind.
  - refine (wpf_initialize_with_factory mn mx f _ _ _ _ _ _);
      cbn [conductor world trace next_addr]; [by destruct c|by destruct c|by destruct c|].
    cbn zeta. intros po al r w' Hs Ho Hal. unfold equipped_conductor, started_conductor in *.
    replace (peer_observer_ _) with (peer_observer_ c) in Ho by (by destruct c).
    replace (connect_calls _ mn mx al (po_addr po)) with (connect_calls c mn mx al (po_addr po)) by (by destruct c).
    rewrite startup_trace, <-app_assoc. destruct r as [q|].
    + rewrite bool_decide_true by done. apply wp_wpf. sys_run. by eapply Hyes.
    + rewrite bool_decide_false by (by intros []). apply wp_wpf, wp_clean_up; [by destruct c|].
      intros s' Hs'. by eapply Hno.
  - unfold initialize_with_factory. apply wp_wpf. sys_run.
    replace (pc_factory_ (_ <| pc_factory_ := None |>)) with (@None nat) by (by destruct c). sys_run.
    apply wp_wpf, wp_clean_up; [by destruct c|]. intros s' Hs'. cbn [trace] in Hs'.
    rewrite startup_trace in Hs'. by apply Hnof.
Qed.

End Rules.
