(* ===== verification/System.v ===== *)
(** The conductor as a state machine.

    [op] is everything that can happen to a conductor: a call of one of its
    public functions, or a callback of the library into one of its observers.
    [step] is one such event (or an autonomous step of the library);
    [inv] is the invariant of every reachable state; [phase] and [registry] are
    the two abstractions a client reasons with: where in its life the conductor
    is, and which channel is open under which label. *)
From S2P Require Import Prelude ApiTypes PortAllocator WebRtcApi ConductorState Conductor Observers.
From S2P Require Import ConductorLemmas.
From Stdlib Require Import ZArith Lia.
From stdpp Require Import base tactics relations numbers strings gmap list.
From coqutil Require Import Datatypes.RecordSetters.
Import TriangleBracketNotations.

Open Scope Z_scope.

(** * Events *)

Inductive op :=
  | OInstall (slot : callback_slot) (p : option nat)
  | OAddServerConfig (uri username password : string)
  | OInitializePeerConnection (min_port max_port : Z)
  | ODeletePeerConnection
  | OCreateOffer
  | OOnOfferReply (type sdp : string)
  | OOnOfferRequest (sdp : string)
  | OAddIceCandidate (sdp_mid : string) (sdp_mlineindex : Z) (sdp : string)
  | OProcessMessages (delay : Z)
  | OCreateDataChannel (label : string) (config : DataChannelInit)
  | OCloseDataChannel (label : string)
  | OGetDataChannelInfo (label : string)
  | OGetDataChannelState (label : string)
  | OSendToDataChannel (label : string) (buffer : DataBuffer)
  | EPeer (e : PeerEvent)
  | EChannel (label : string) (e : ChannelEvent)
  | ESdpSuccess (desc : option sdesc)
  | ESdpFailure (message : string)
  | ESetSdpSuccess
  | ESetSdpFailure (message : string).

(** The three stages of a conductor's life. *)
Inductive phase := Constructed | Connected | Deleted.

Definition phase_of (c : RtcConductor) : phase :=
  match peer_observer_ c with
  | None => Deleted
  | Some po => match peer_connection_ po with None => Constructed | Some _ => Connected end
  end.

(** The abstract view of the data channels: which channel has which label. *)
Definition registry (c : RtcConductor) : gmap string chan :=
  omap data_channel_ (data_observers_ c).

(** The phases an event can lead to. *)
Inductive phase_step : op → phase → phase → Prop :=
  | phase_init mn mx p p' : p' ≠ Constructed → (p = Deleted → p' = Deleted) →
      phase_step (OInitializePeerConnection mn mx) p p'
  | phase_delete p : phase_step ODeletePeerConnection p Deleted
  | phase_other o p :
      match o with
      | OInitializePeerConnection _ _ | ODeletePeerConnection => False
      | _ => True
      end → phase_step o p p.

Section System.
Context {W : Type} `{!WebRtc W} `{!UnorderedMapLaws W} `{!BuildConfig}.
Implicit Types s : Sys W.

(** Runs an event; results are dropped, they do not matter to the state. *)
Definition run (o : op) : M (Sys W) unit :=
  match o with
  | OInstall slot p => install slot p
  | OAddServerConfig u n p => AddServerConfig u n p
  | OInitializePeerConnection mn mx => _ ← InitializePeerConnection mn mx; mret tt
  | ODeletePeerConnection => DeletePeerConnection
  | OCreateOffer => CreateOffer
  | OOnOfferReply t d => OnOfferReply t d
  | OOnOfferRequest d => OnOfferRequest d
  | OAddIceCandidate m i d => _ ← AddIceCandidate m i d; mret tt
  | OProcessMessages d => _ ← ProcessMessages d; mret tt
  | OCreateDataChannel l c => CreateDataChannel l c
  | OCloseDataChannel l => CloseDataChannel l
  | OGetDataChannelInfo l => _ ← GetDataChannelInfo l; mret tt
  | OGetDataChannelState l => _ ← GetDataChannelState l; mret tt
  | OSendToDataChannel l b => SendToDataChannel l b
  | EPeer e => peer_callback e
  | EChannel l e =>
    m ← self data_observers_;
    match m !! l with Some o => channel_callback o e | None => mret tt end
  | ESdpSuccess d => CreateSessionDescriptionObserver_OnSuccess d
  | ESdpFailure m => CreateSessionDescriptionObserver_OnFailure m
  | ESetSdpSuccess => SetSessionDescriptionObserver_OnSuccess
  | ESetSdpFailure m => SetSessionDescriptionObserver_OnFailure m
  end.

(** When the library can cause an event: it calls the peer observer while it
    has it (from the creation of the peer connection on) and with real
    objects, and a data channel observer while it is registered. *)
Definition enabled (o : op) (s : Sys W) : Prop :=
  match o with
  | EPeer e =>
    phase_of (conductor s) = Connected ∧
    match e with
    | OnDataChannel c => is_Some c
    | OnIceCandidate c => is_Some c
    | _ => True
    end
  | EChannel l _ => is_Some (data_observers_ (conductor s) !! l)
  | ESdpSuccess d => is_Some d
  | _ => True
  end.

(** What the abstract registry does on an event. *)
Definition registry_step (o : op) (s : Sys W) (r r' : gmap string chan) : Prop :=
  match o with
  | OCreateDataChannel l _ =>
    r' = r ∨ (r !! l = None ∧ ∃ c, r' = <[l := c]> r)
  | OCloseDataChannel l => r' = delete l r
  | EPeer (OnDataChannel (Some c)) =>
    let l := dc_label (world s) c in
    r' = match r !! l with Some _ => r | None => <[l := c]> r end
  | ODeletePeerConnection => r' = ∅
  | OInitializePeerConnection _ _ => r' = r ∨ r' = ∅
  | _ => r' = r
  end.

(** One step of the system: an event, or the library on its own. *)
Inductive step : Sys W → Sys W → Prop :=
  | step_op o s s' : enabled o s → run o s = Ok (tt, s') → step s s'
  | step_world s w' : step s (mkSys (conductor s) w' (trace s) (next_addr s)).

(** The conductor object before its constructor ran: members in their
    default-initialised state. *)
Definition blank_conductor : RtcConductor :=
  mkRtcConductor None None None None None None None None None None None ∅ None None None
    None None None [] None.

(** States a program that made the conductor itself can get to. *)
Definition initial (s : Sys W) : Prop :=
  ∃ w na, RtcConductor_new (mkSys blank_conductor w [] na) = Ok (tt, s).

Definition reachable (s : Sys W) : Prop := ∃ s0, initial s0 ∧ rtc step s0 s.

(** * The invariant *)

(** The history of the observer at address [a] of channel [c] is complete: it
    was registered, its channel closed and unregistered, and then destroyed. *)
Definition ended (c : chan) (a : nat) (tr : list Call) : Prop :=
  ∃ t1 t2 t3 t4, tr = t1 ++ [CDcRegisterObserver c a] ++ t2 ++
    [CDcClose c; CDcUnregisterObserver c] ++ t3 ++ [CDeleteDataObserver a] ++ t4.

Definition reg_addr (c : Call) : option nat :=
  match c with CDcRegisterObserver _ a => Some a | _ => None end.
Definition del_addr (c : Call) : option nat :=
  match c with CDeleteDataObserver a => Some a | _ => None end.

(** How the history relates to the observers the conductor holds. *)
Record trace_inv (m : gmap string DataChannelObserver) (tr : list Call) (na : nat) : Prop := {
  ti_held : ∀ l o c, m !! l = Some o → data_channel_ o = Some c →
    CDcRegisterObserver c (do_addr o) ∈ tr;
  ti_bound : ∀ l o, m !! l = Some o → (do_addr o < na)%nat;
  ti_alive : ∀ l o, m !! l = Some o → CDeleteDataObserver (do_addr o) ∉ tr;
  ti_reg : ∀ c a, CDcRegisterObserver c a ∈ tr →
    (a < na)%nat ∧
    ((∃ l o, m !! l = Some o ∧ do_addr o = a ∧ data_channel_ o = Some c) ∨ ended c a tr);
  ti_del : ∀ a, CDeleteDataObserver a ∈ tr → ∃ c, ended c a tr;
  ti_reg_once : NoDup (omap reg_addr tr);
  ti_del_once : NoDup (omap del_addr tr);
  ti_inj : ∀ l1 l2 o1 o2, m !! l1 = Some o1 → m !! l2 = Some o2 →
    do_addr o1 = do_addr o2 → l1 = l2
}.

(** The members that belong together in each phase. *)
Definition phase_ok (c : RtcConductor) : Prop :=
  match phase_of c with
  | Constructed => constructed c ∧ is_Some (session_observer_ c) ∧ is_Some (set_session_observer_ c)
  | Connected => connected c ∧ is_Some (session_observer_ c) ∧ is_Some (set_session_observer_ c)
  | Deleted =>
    pc_factory_ c = None ∧ network_thread_ c = None ∧ worker_thread_ c = None ∧
    signaling_thread_ c = None ∧ network_manager_ c = None ∧ socket_factory_ c = None ∧
    data_observers_ c = ∅ ∧ session_observer_ c = None ∧ set_session_observer_ c = None
  end.

Record inv (s : Sys W) : Prop := {
  inv_observers : observers_ok (data_observers_ (conductor s));
  inv_phase : phase_ok (conductor s);
  inv_trace : trace_inv (data_observers_ (conductor s)) (trace s) (next_addr s)
}.

(** Why an event stops the process instead of returning, from the stage of the
    conductor's life and the answers of the library:
    - after [DeletePeerConnection] (or a failed [InitializePeerConnection]) the peer
      observer that most operations go through is null;
    - [InitializePeerConnection] is refused by its checks in builds that have them,
      and depends on the library otherwise, see [startup_stop];
    - a channel the library does not deliver is used all the same;
    - a description is read after the library took it over and freed it. *)
Definition without_observer (s : Sys W) : option fault :=
  match phase_of (conductor s) with
  | Deleted => Some (NullDeref "peer_observer_")
  | _ => None
  end.

Definition initialize_stop (mn mx : Z) (s : Sys W) : option fault :=
  match RTC_DCHECK_IS_ON, phase_of (conductor s) with
  | true, Connected => Some (CheckFailed "!pc_factory_")
  | true, Deleted => Some (CheckFailed "peer_observer_ && !peer_observer_->peer_connection_")
  | _, _ => startup_stop mn mx s
  end.

Definition channel_stop (l : string) (config : DataChannelInit) (s : Sys W) : option fault :=
  match peer_observer_ (conductor s) with
  | None => Some (NullDeref "peer_observer_")
  | Some po =>
    match peer_connection_ po, data_observers_ (conductor s) !! l with
    | Some p, None =>
      match (Pc_CreateDataChannel p l config (world s)).1 with
      | Some _ => None
      | None => Some (if RTC_DCHECK_IS_ON then CheckFailed "conductor && data_channel"
                      else NullDeref "data_channel_")
      end
    | _, _ => None
    end
  end.

Definition description_stop (d : option sdesc) (s : Sys W) : option fault :=
  match peer_observer_ (conductor s), d with
  | None, _ => Some (NullDeref "peer_observer_")
  | Some po, Some d =>
    match peer_connection_ po with
    | Some p =>
      if sd_alive (api_void (CSetLocalDescription p (set_session_observer_ (conductor s)) d)
                     (world s)) d
      then None else Some (UseAfterFree "desc")
    | None => None
    end
  | Some _, None => None
  end.

Definition stop (o : op) (s : Sys W) : option fault :=
  match o with
  | OInitializePeerConnection mn mx => initialize_stop mn mx s
  | OCreateOffer | OOnOfferReply _ _ | OOnOfferRequest _ => without_observer s
  | OAddIceCandidate m i d =>
    match (CreateIceCandidate m i d (world s)).1 with
    | Some _ => without_observer s
    | None => None
    end
  | OCreateDataChannel l config => channel_stop l config s
  | ESdpSuccess d => description_stop d s
  | _ => None
  end.

(** A run that touches neither the conductor nor any observer's history. *)
Definition frame (s s' : Sys W) : Prop :=
  conductor s' = conductor s ∧ extends (trace s) (trace s') ∧ next_addr s' = next_addr s.

End System.
