(* ===== verification/SystemLemmas.v ===== *)
(** Lemmas behind the properties of the conductor's state machine: how the
    history invariant moves along the call sequences of the operations, and
    which operations leave the conductor alone. *)
From S2P Require Import Prelude ApiTypes PortAllocator WebRtcApi ConductorState Conductor Observers.
From S2P Require Import ConductorLemmas System.
From Stdlib Require Import ZArith Lia.
From stdpp Require Import base tactics relations numbers strings gmap list.
From coqutil Require Import Datatypes.RecordSetters.
Import TriangleBracketNotations.

Open Scope Z_scope.

Implicit Types tr : list Call.

(** * Histories *)

Lemma ended_app c a tr (d : list Call) : ended c a tr → ended c a (tr ++ d).
Proof.
  intros (t1&t2&t3&t4&->). exists t1, t2, t3, (t4 ++ d). by rewrite <-!app_assoc.
Qed.

Lemma quiet_no_reg (d : list Call) : forallb quiet d = true → omap reg_addr d = [].
Proof.
  induction d as [|c d IH]; [done|]. simpl.
  intros [Hc Hd]%andb_true_iff. destruct c; simpl; try done; by apply IH.
Qed.

Lemma quiet_no_del (d : list Call) : forallb quiet d = true → omap del_addr d = [].
Proof.
  induction d as [|c d IH]; [done|]. simpl.
  intros [Hc Hd]%andb_true_iff. destruct c; simpl; try done; by apply IH.
Qed.

Lemma elem_of_reg c a tr : CDcRegisterObserver c a ∈ tr → a ∈ omap reg_addr tr.
Proof. intros Hin. apply list_elem_of_omap. eauto. Qed.

Lemma elem_of_del a tr : CDeleteDataObserver a ∈ tr ↔ a ∈ omap del_addr tr.
Proof.
  rewrite list_elem_of_omap. split; [by eauto|].
  intros (x&Hx&Heq). by destruct x; simplify_eq/=.
Qed.

Lemma no_reg_elem c a (d : list Call) : omap reg_addr d = [] → CDcRegisterObserver c a ∉ d.
Proof. intros Hd Hin%elem_of_reg. rewrite Hd in Hin. by apply not_elem_of_nil in Hin. Qed.

Lemma no_del_elem a (d : list Call) : omap del_addr d = [] → CDeleteDataObserver a ∉ d.
Proof. intros Hd Hin%elem_of_del. rewrite Hd in Hin. by apply not_elem_of_nil in Hin. Qed.

(** A quiet continuation keeps the invariant. *)
Lemma trace_inv_extends m tr tr' na na' :
  trace_inv m tr na → extends tr tr' → (na ≤ na')%nat → trace_inv m tr' na'.
Proof.
  intros [Hh Hb Ha Hr Hd Hr1 Hd1 Hinj] (d&->&Hq) Hna.
  pose proof (quiet_no_reg _ Hq) as Hnr. pose proof (quiet_no_del _ Hq) as Hnd.
  split.
  - intros. apply elem_of_app. eauto.
  - intros l o Hl. specialize (Hb l o Hl). lia.
  - intros l o Hl [Hin|Hin]%elem_of_app; [by eapply Ha|by eapply no_del_elem].
  - intros c a [Hin|Hin]%elem_of_app; [|by eapply no_reg_elem in Hin].
    destruct (Hr c a Hin) as [Hlt Hor]. split; [lia|].
    destruct Hor; [by left|right]. by apply ended_app.
  - intros a [Hin|Hin]%elem_of_app; [|by eapply no_del_elem in Hin].
    destruct (Hd a Hin) as [c Hc]. exists c. by apply ended_app.
  - rewrite omap_app, Hnr, app_nil_r. done.
  - rewrite omap_app, Hnd, app_nil_r. done.
  - done.
Qed.

(** A new observer, at an unused address. *)
Lemma trace_inv_add `{BuildConfig} m tr na l c :
  trace_inv m tr na → m !! l = None →
  trace_inv (<[l := registered_observer na c]> m) (tr ++ [CDcRegisterObserver c na]) (S na).
Proof.
  intros [Hh Hb Ha Hr Hd Hr1 Hd1 Hinj] Hl.
  assert (CDeleteDataObserver na ∉ tr) as Hnd.
  { intros (c'&t1&t2&t3&t4&->)%Hd. destruct (Hr c' na) as [? _]; [set_solver|lia]. }
  split.
  - intros l' o c'. rewrite elem_of_app, list_elem_of_singleton.
    destruct (decide (l = l')) as [->|Hne];
      [rewrite lookup_insert_eq|rewrite lookup_insert_ne by done].
    + intros [= <-]. rewrite registered_observer_channel, registered_observer_addr.
      intros [= ->]. by right.
    + intros. left. eauto.
  - intros l' o. rewrite lookup_insert. case_decide; [|by intros Ho%Hb; lia].
    intros [= <-]. rewrite registered_observer_addr. lia.
  - intros l' o. rewrite elem_of_app, list_elem_of_singleton.
    destruct (decide (l = l')) as [->|Hne];
      [rewrite lookup_insert_eq|rewrite lookup_insert_ne by done].
    + intros [= <-]. rewrite registered_observer_addr. by intros [?|?].
    + intros Ho [Hin|?]; [by eapply Ha|done].
  - intros c' a. rewrite elem_of_app, list_elem_of_singleton. intros [Hin|[= -> ->]].
    + destruct (Hr c' a Hin) as [Hlt' Hor]. split; [lia|].
      destruct Hor as [(l'&o&Ho&?&?)|He]; [left|right; by apply ended_app].
      exists l', o. split_and!; [|done..]. rewrite lookup_insert_ne; [done|congruence].
    + split; [lia|]. left. exists l, (registered_observer na c).
      by rewrite lookup_insert_eq, registered_observer_channel, registered_observer_addr.
  - intros a. rewrite elem_of_app, list_elem_of_singleton. intros [Hin|?]; [|done].
    destruct (Hd a Hin) as [c' Hc']. exists c'. by apply ended_app.
  - rewrite omap_app. apply NoDup_app. split_and!; [done| |apply NoDup_singleton].
    intros a (x&Hx&Heq)%list_elem_of_omap. destruct x; simplify_eq/=.
    rewrite list_elem_of_singleton. intros ->. apply Hr in Hx as [? _]. lia.
  - rewrite omap_app. simpl. by rewrite app_nil_r.
  - intros l1 l2 o1 o2. rewrite !lookup_insert.
    do 2 case_decide; subst; try done; [| |by apply Hinj].
    + intros [= <-] Ho2%Hb. rewrite registered_observer_addr. lia.
    + intros Ho1%Hb [= <-]. rewrite registered_observer_addr. lia.
Qed.

(** Some observers go: their channels are closed and unregistered and then they
    are destroyed, once each. *)
Lemma trace_inv_remove (m m' : gmap string DataChannelObserver) tr d na :
  trace_inv m tr na → m' ⊆ m → omap reg_addr d = [] →
  (∀ l o c, m !! l = Some o → m' !! l = None → data_channel_ o = Some c →
     ∃ d1 d2 d3, d = d1 ++ [CDcClose c; CDcUnregisterObserver c] ++ d2 ++
                     [CDeleteDataObserver (do_addr o)] ++ d3) →
  (∀ a, CDeleteDataObserver a ∈ d → ∃ l o c, m !! l = Some o ∧ m' !! l = None ∧
     do_addr o = a ∧ data_channel_ o = Some c) →
  NoDup (omap del_addr d) →
  trace_inv m' (tr ++ d) na.
Proof.
  intros [Hh Hb Ha Hr Hd Hr1 Hd1 Hinj] Hsub Hnr Hblock Hdel Hnd.
  assert (∀ l o, m' !! l = Some o → m !! l = Some o) as Hm.
  { intros. by eapply lookup_weaken. }
  assert (∀ l o c, m !! l = Some o → m' !! l = None → data_channel_ o = Some c →
    ended c (do_addr o) (tr ++ d)) as Hend.
  { intros l o c Ho Hn Hc. destruct (Hblock l o c) as (d1&d2&d3&->); [done..|].
    destruct (list_elem_of_split tr (CDcRegisterObserver c (do_addr o))) as (t1&t2&->);
      [by eapply Hh|].
    exists t1, (t2 ++ d1), d2, d3. by rewrite <-!app_assoc. }
  split.
  - intros. apply elem_of_app. eauto.
  - eauto.
  - intros l o Hl [Hin|Hin]%elem_of_app; [by eapply Ha; eauto|].
    destruct (Hdel _ Hin) as (l'&o'&c'&Ho'&Hn'&Haddr&_).
    assert (l' = l) as -> by eauto. congruence.
  - intros c a [Hin|Hin]%elem_of_app; [|by eapply no_reg_elem in Hin].
    destruct (Hr c a Hin) as [Hlt [(l&o&Ho&<-&Hc)|He]]; (split; [done|]).
    + destruct (m' !! l) as [o'|] eqn:Ho'; [|right; by eapply Hend].
      left. exists l, o'. apply Hm in Ho' as Ho''. simplify_eq. done.
    + right. by apply ended_app.
  - intros a [Hin|Hin]%elem_of_app.
    + destruct (Hd a Hin) as [c Hc]. exists c. by apply ended_app.
    + destruct (Hdel a Hin) as (l&o&c&Ho&Hn&<-&Hc). exists c. by eapply Hend.
  - by rewrite omap_app, Hnr, app_nil_r.
  - rewrite omap_app. apply NoDup_app. split_and!; [done| |done].
    intros a Hin1%elem_of_del Hin2%elem_of_del.
    destruct (Hdel a Hin2) as (l&o&c&Ho&_&<-&_). by eapply Ha.
  - eauto.
Qed.

(** ** The two ways observers go *)

Lemma closing_no_reg o : omap reg_addr (closing_calls o) = [].
Proof. unfold closing_calls. by destruct (data_channel_ o). Qed.
Lemma closing_no_del o : omap del_addr (closing_calls o) = [].
Proof. unfold closing_calls. by destruct (data_channel_ o). Qed.

Lemma trace_inv_close m tr na l o c :
  trace_inv m tr na → m !! l = Some o → data_channel_ o = Some c →
  trace_inv (delete l m) (tr ++ closing_calls o ++ [CDeleteDataObserver (do_addr o)]) na.
Proof.
  intros Hinv Ho Hc. apply (trace_inv_remove m); [done|apply delete_subseteq|..].
  - by rewrite omap_app, closing_no_reg.
  - intros l' o' c' Ho' [->|Heq]%lookup_delete_None Hc'; [|congruence]. simplify_eq.
    exists [], [], []. unfold closing_calls. by rewrite Hc.
  - intros a [Hin|Hin%list_elem_of_singleton]%elem_of_app.
    + by apply no_del_elem in Hin; [|apply closing_no_del].
    + simplify_eq. exists l, o, c. by rewrite lookup_delete_eq.
  - rewrite omap_app, closing_no_del. apply NoDup_singleton.
Qed.

Lemma closing_quiet (l : list (string * DataChannelObserver)) :
  forallb quiet (l ≫= λ e, closing_calls e.2) = true.
Proof.
  induction l as [|e l IH]; [done|]. rewrite bind_cons, forallb_app, IH.
  unfold closing_calls. by destruct (data_channel_ e.2).
Qed.

(** The shape of [DeletePeerConnection]'s calls: what closes the channels,
    then what destroys the observers, between calls that touch neither. *)
Lemma delete_calls_shape c l l' b :
  ∃ q1 q2, delete_calls c l l' b =
    q1 ++ (l ≫= λ e, closing_calls e.2) ++
    ((λ e, CDeleteDataObserver (do_addr e.2)) <$> l') ++ q2 ∧
    forallb quiet q1 = true ∧ forallb quiet q2 = true.
Proof.
  eexists (_ ++ _), _. split.
  - unfold delete_calls. rewrite <-app_assoc. reflexivity.
  - rewrite !forallb_app. unfold peer_observer_calls, quit_calls.
    repeat match goal with |- context [match ?x with _ => _ end] =>
      lazymatch x with context [match _ with _ => _ end] => fail | _ => destruct x end end;
    done.
Qed.

Lemma bind_block {A B} (f : A → list B) (l : list A) x :
  x ∈ l → ∃ d1 d2 : list B, l ≫= f = d1 ++ f x ++ d2.
Proof.
  intros (l1&l2&->)%list_elem_of_split. exists (l1 ≫= f), (l2 ≫= f).
  by rewrite bind_app.
Qed.

Lemma trace_inv_clear `{BuildConfig} m tr na c l l' b :
  trace_inv m tr na → observers_ok m → l ≡ₚ map_to_list m →
  l' ≡ₚ map_to_list (set_registered false <$> m) →
  trace_inv ∅ (tr ++ delete_calls c l l' b) na.
Proof.
  intros Hinv Hok Hl Hl'.
  destruct (delete_calls_shape c l l' b) as (q1&q2&->&Hq1&Hq2).
  assert (∀ k o, (k, o) ∈ l' → ∃ o0, m !! k = Some o0 ∧ o = set_registered false o0) as Hm'.
  { intros k o. rewrite Hl', elem_of_map_to_list, lookup_fmap.
    intros (o0&?&?)%fmap_Some. eauto. }
  apply (trace_inv_remove m); [done|apply map_empty_subseteq|..].
  - rewrite !omap_app, (quiet_no_reg q1), (quiet_no_reg q2), (quiet_no_reg (l ≫= _))
      by (done || apply closing_quiet).
    rewrite app_nil_r. simpl. clear. by induction l'.
  - intros k o c' Ho _ Hc'.
    destruct (bind_block (λ e : string * DataChannelObserver, closing_calls e.2) l (k, o))
      as (d1&d2&->); [by rewrite Hl, elem_of_map_to_list|].
    assert ((k, set_registered false o) ∈ l') as (l1&l2&->)%list_elem_of_split.
    { rewrite Hl', elem_of_map_to_list, lookup_fmap, Ho. done. }
    unfold closing_calls at 1. simpl. rewrite Hc'.
    exists (q1 ++ d1), (d2 ++ ((λ e, CDeleteDataObserver (do_addr e.2)) <$> l1)), 
      (((λ e, CDeleteDataObserver (do_addr e.2)) <$> l2) ++ q2).
    rewrite fmap_app, fmap_cons. simpl. rewrite set_registered_addr.
    by rewrite <-!app_assoc.
  - intros a. rewrite !elem_of_app. intros [Hin|[Hin|[Hin|Hin]]].
    1, 2, 4: by apply no_del_elem in Hin; [|apply quiet_no_del; try apply closing_quiet].
    apply list_elem_of_fmap in Hin as ([k o]&[= ->]&Hin).
    destruct (Hm' k o Hin) as (o0&Ho0&->). destruct (Hok k o0 Ho0) as [[c' Hc'] _].
    exists k, o0, c'. by rewrite set_registered_addr, lookup_empty.
  - rewrite !omap_app, (quiet_no_del q1), (quiet_no_del q2), (quiet_no_del (l ≫= _))
      by (done || apply closing_quiet).
    rewrite app_nil_r. simpl.
    assert (omap del_addr ((λ e : string * DataChannelObserver,
      CDeleteDataObserver (do_addr e.2)) <$> l') = (λ e, do_addr e.2) <$> l') as ->.
    { clear. induction l' as [|e l' IH]; simpl; [done|by f_equal]. }
    apply NoDup_fmap_2_strong; [|rewrite Hl'; apply NoDup_map_to_list].
    intros [k1 o1] [k2 o2] (o01&H1&->)%Hm' (o02&H2&->)%Hm'. simpl.
    rewrite !set_registered_addr. intros Heq.
    assert (k1 = k2) as -> by by eapply (ti_inj _ _ _ Hinv).
    congruence.
Qed.

(** * Operations that leave the conductor alone *)

Section Frames.
Context {W : Type} `{!WebRtc W} `{!UnorderedMapLaws W} `{!BuildConfig}.
Implicit Types s : Sys W.

Ltac solve_frame :=
  repeat (sys_run; try match goal with
    | |- wp (match ?x with _ => _ end) _ _ => destruct x eqn:?
    end);
  try (split_and!; cbn [conductor trace next_addr]; [reflexivity|ext|reflexivity]).

Lemma frame_refl s : frame s s.
Proof. split_and!; [done|reflexivity|done]. Qed.

Lemma frame_invoke cb e s : wp (invoke cb e) (λ _ s', frame s s') s.
Proof. apply wp_invoke. by destruct cb; split_and!; simpl; [|ext| |..|ext|]. Qed.

Lemma frame_invoke_from cb e s0 s :
  frame s0 s → wp (invoke cb e) (λ _ s', frame s0 s') s.
Proof.
  intros (Hc&He&Hn). eapply wp_mono; [apply frame_invoke|].
  intros _ s' (Hc'&He'&Hn'). split_and!; [congruence|by etransitivity|congruence].
Qed.

Lemma frame_CreateOffer po s :
  peer_observer_ (conductor s) = Some po → wp CreateOffer (λ _ s', frame s s') s.
Proof.
  intros Hpo. unfold CreateOffer. sys_step. eapply wp_peer_connection; [done|].
  destruct (peer_connection_ po); solve_frame.
Qed.

Lemma frame_OnOfferReply t d po s :
  peer_observer_ (conductor s) = Some po → wp (OnOfferReply t d) (λ _ s', frame s s') s.
Proof.
  intros Hpo. unfold OnOfferReply. sys_step. eapply wp_peer_connection; [done|].
  destruct (peer_connection_ po); solve_frame.
Qed.

Lemma frame_OnOfferRequest d po s :
  peer_observer_ (conductor s) = Some po → wp (OnOfferRequest d) (λ _ s', frame s s') s.
Proof.
  intros Hpo. unfold OnOfferRequest. sys_step. eapply wp_peer_connection; [done|].
  destruct (peer_connection_ po); solve_frame.
Qed.

Lemma frame_AddIceCandidate m i d po s :
  peer_observer_ (conductor s) = Some po → wp (AddIceCandidate m i d) (λ _ s', frame s s') s.
Proof.
  intros Hpo. unfold AddIceCandidate. sys_run. destruct (CreateIceCandidate _ _ _ _) as [[c|] w'].
  - simpl. sys_step. eapply wp_peer_connection; [done|]. destruct (peer_connection_ po); solve_frame.
  - simpl. solve_frame.
Qed.

Lemma frame_ProcessMessages d s : wp (ProcessMessages d) (λ _ s', frame s s') s.
Proof. unfold ProcessMessages. solve_frame. Qed.

Lemma frame_GetDataChannelInfo l s :
  observers_ok (data_observers_ (conductor s)) →
  wp (GetDataChannelInfo l) (λ _ s', frame s s') s.
Proof.
  intros Hok. unfold GetDataChannelInfo. sys_run.
  destruct (data_observers_ (conductor s) !! l) as [o|] eqn:Ho; [|solve_frame].
  destruct (Hok l o Ho) as [[c Hc] _]. solve_frame.
Qed.

Lemma frame_GetDataChannelState l s :
  observers_ok (data_observers_ (conductor s)) →
  wp (GetDataChannelState l) (λ _ s', frame s s') s.
Proof.
  intros Hok. unfold GetDataChannelState. sys_run.
  destruct (data_observers_ (conductor s) !! l) as [o|] eqn:Ho; [|solve_frame].
  destruct (Hok l o Ho) as [[c Hc] _]. solve_frame.
Qed.

Lemma frame_SendToDataChannel l b s :
  observers_ok (data_observers_ (conductor s)) →
  wp (SendToDataChannel l b) (λ _ s', frame s s') s.
Proof.
  intros Hok. unfold SendToDataChannel. sys_run.
  destruct (data_observers_ (conductor s) !! l) as [o|] eqn:Ho; [|solve_frame].
  destruct (Hok l o Ho) as [[c Hc] _]. solve_frame.
Qed.

Lemma frame_channel_callback o e s :
  observer_ok o → wp (channel_callback o e) (λ _ s', frame s s') s.
Proof.
  intros [[c Hc] _]. destruct e; simpl;
    unfold DataChannelObserver_OnStateChange, DataChannelObserver_OnMessage,
      DataChannelObserver_OnBufferedAmountChange; rewrite ?Hc; sys_run;
    match goal with |- wp (match ?x with _ => _ end) _ _ => destruct x end; solve_frame.
Qed.

Lemma frame_HandleIceCandidate c s :
  wp (HandleIceCandidate (Some c)) (λ _ s', frame s s') s.
Proof.
  unfold HandleIceCandidate. sys_run.
  destruct (on_ice_candidate_ (conductor s)); solve_frame.
Qed.

Lemma wp_read_desc {A} (f : W → sdesc → A) d Q s :
  sd_alive (world s) d = true → Q (f (world s) d) s → wp (read_desc f d) Q s.
Proof. intros Ha HQ. unfold read_desc. sys_run. rewrite Ha. by sys_run. Qed.

Lemma frame_OnSuccess d po s :
  peer_observer_ (conductor s) = Some po → description_stop (Some d) s = None →
  wp (CreateSessionDescriptionObserver_OnSuccess (Some d)) (λ _ s', frame s s') s.
Proof.
  intros Hpo. unfold description_stop, CreateSessionDescriptionObserver_OnSuccess. rewrite Hpo.
  intros Hs. sys_run. eapply wp_peer_connection; [done|].
  destruct (peer_connection_ po); [|solve_frame]. destruct (sd_alive _ _) eqn:Ha; [|done].
  sys_run. apply wp_read_desc; [done|]. sys_run.
  destruct (on_success_ (conductor s)); sys_run; [|solve_frame].
  apply wp_read_desc; [done|]. solve_frame.
Qed.

Lemma frame_OnFailure m s :
  wp (CreateSessionDescriptionObserver_OnFailure m) (λ _ s', frame s s') s.
Proof. unfold CreateSessionDescriptionObserver_OnFailure. sys_step. sys_step. apply frame_invoke. Qed.

(** * Every event: when it returns, and what it leaves behind *)

(** What a finished event leaves behind. *)
Definition good (o : op) (s s' : Sys W) : Prop :=
  inv s' ∧ phase_step o (phase_of (conductor s)) (phase_of (conductor s')) ∧
  registry_step o s (registry (conductor s)) (registry (conductor s')).

Lemma phase_observer s :
  phase_of (conductor s) ≠ Deleted → ∃ po, peer_observer_ (conductor s) = Some po.
Proof. unfold phase_of. destruct (peer_observer_ (conductor s)); [by eauto|done]. Qed.

Lemma phase_deleted s :
  phase_of (conductor s) = Deleted → peer_observer_ (conductor s) = None.
Proof. unfold phase_of. destruct (peer_observer_ (conductor s)) as [[? []]|]; done. Qed.

Lemma inv_frame s s' : inv s → frame s s' → inv s'.
Proof.
  intros [Ho Hp Ht] (Hc&He&Hn). split; rewrite Hc; [done..|].
  eapply trace_inv_extends; [done..|]. rewrite Hn. lia.
Qed.

(** The events on which the abstractions stand still. *)
Definition idle (o : op) : bool :=
  match o with
  | OInitializePeerConnection _ _ | ODeletePeerConnection | OCreateDataChannel _ _
  | OCloseDataChannel _ | EPeer (OnDataChannel _) => false
  | _ => true
  end.

Lemma good_frame o s s' : idle o = true → inv s → frame s s' → good o s s'.
Proof.
  intros Hi Hinv Hf. split; [by eapply inv_frame|].
  destruct Hf as (->&_&_). split.
  - apply phase_other. by destruct o.
  - destruct o as [| | | | | | | | | | | | | |[]| | | | |]; done.
Qed.

Lemma registry_delete m l :
  omap data_channel_ (delete l m) = delete l (omap data_channel_ m : gmap string chan).
Proof. apply omap_delete. Qed.

Lemma registry_lookup_None c l :
  observers_ok (data_observers_ c) → data_observers_ c !! l = None ↔ registry c !! l = None.
Proof.
  intros Hok. unfold registry. rewrite lookup_omap.
  destruct (data_observers_ c !! l) as [o|] eqn:Ho; [|done]. simpl.
  destruct (Hok l o Ho) as [[ch ->] _]. done.
Qed.

Lemma registry_insert c l a ch :
  registry (c <| data_observers_ ::= <[l := registered_observer a ch]> |>) =
  <[l := ch]> (registry c).
Proof.
  unfold registry. destruct c; simpl.
  erewrite omap_insert_Some; [done|]. apply registered_observer_channel.
Qed.

Lemma phase_ok_observers c m :
  phase_of c ≠ Deleted → phase_of c ≠ Constructed → phase_ok c →
  phase_ok (c <| data_observers_ := m |>).
Proof.
  unfold phase_ok, phase_of, connected. destruct c; simpl.
  destruct peer_observer_ as [[? []]|]; simpl; done.
Qed.

Lemma upd_observers c f :
  data_observers_ (c <| data_observers_ ::= f |>) = f (data_observers_ c).
Proof. by destruct c. Qed.

Lemma inv_channel_added l c calls w s :
  inv s → phase_of (conductor s) = Connected → data_observers_ (conductor s) !! l = None →
  forallb quiet calls = true → inv (channel_added l c calls w s).
Proof.
  intros [Ho Hp Ht] Hph Hl Hq. split; unfold channel_added; cbn [conductor trace next_addr].
  - rewrite upd_observers. intros l' o. rewrite lookup_insert.
    case_decide; [intros [= <-]; apply registered_observer_ok|apply Ho].
  - pose proof (phase_ok_observers (conductor s)
      (<[l := registered_observer (next_addr s) c]> (data_observers_ (conductor s)))) as Hk.
    destruct (conductor s); simpl in *. apply Hk; congruence.
  - rewrite upd_observers, app_assoc. apply trace_inv_add; [|done].
    eapply trace_inv_extends; [done| |done]. ext.
Qed.

Lemma phase_channel_added l c calls w s :
  phase_of (conductor (channel_added l c calls w s)) = phase_of (conductor s).
Proof. by destruct s as [[]]. Qed.

Lemma registry_channel_added l c calls w s :
  registry (conductor (channel_added l c calls w s)) = <[l := c]> (registry (conductor s)).
Proof. apply registry_insert. Qed.

Lemma phase_channel_closed l o s :
  phase_of (conductor (channel_closed l o s)) = phase_of (conductor s).
Proof. by destruct s as [[]]. Qed.

Lemma registry_channel_closed l o s :
  registry (conductor (channel_closed l o s)) = delete l (registry (conductor s)).
Proof. unfold registry. rewrite <-registry_delete. by destruct s as [[]]. Qed.

Lemma good_CreateDataChannel l config s :
  inv s → stop (OCreateDataChannel l config) s = None →
  wp (run (OCreateDataChannel l config)) (λ _ s', good (OCreateDataChannel l config) s s') s.
Proof.
  intros Hinv Hs. cbn [stop] in Hs. unfold channel_stop in Hs.
  destruct (peer_observer_ (conductor s)) as [po|] eqn:Hpo; [|done].
  eapply wp_CreateDataChannel; [exact Hpo|..].
  - intros _. split_and!; [done|by apply phase_other|by left].
  - intros p Hp Hl. rewrite Hp, Hl in Hs.
    destruct (Pc_CreateDataChannel p l config (world s)) as [[c|] w'] eqn:Hr; [|done].
    exists c, w'. split; [done|].
    assert (phase_of (conductor s) = Connected) as Hcon by (unfold phase_of; by rewrite Hpo, Hp).
    split_and!.
    + by apply inv_channel_added.
    + rewrite phase_channel_added. by apply phase_other.
    + right. rewrite registry_channel_added. split; [|by eauto].
      by apply registry_lookup_None; [apply Hinv|].
Qed.

Lemma good_OnDataChannel c s :
  inv s → phase_of (conductor s) = Connected →
  wp (run (EPeer (OnDataChannel (Some c)))) (λ _ s', good (EPeer (OnDataChannel (Some c))) s s') s.
Proof.
  intros Hinv Hcon. simpl. unfold PeerConnectionObserver_OnDataChannel. sys_run.
  pose proof (registry_lookup_None (conductor s) (dc_label (world s) c) (inv_observers s Hinv))
    as Hreg.
  apply wp_HandleDataChannel.
  - intros [o Ho]. split_and!; [done|by apply phase_other|]. simpl.
    destruct (registry (conductor s) !! _) eqn:Hr; [done|].
    by rewrite (proj2 Hreg) in Ho.
  - intros Hl. split_and!.
    + by apply inv_channel_added.
    + rewrite phase_channel_added. by apply phase_other.
    + rewrite registry_channel_added. simpl. by rewrite (proj1 Hreg).
Qed.

Lemma good_CloseDataChannel l s :
  inv s → wp (run (OCloseDataChannel l)) (λ _ s', good (OCloseDataChannel l) s s') s.
Proof.
  intros Hinv. pose proof (inv_observers s Hinv) as Hok. apply wp_CloseDataChannel; [done|..].
  - intros Hl. split_and!; [done|by apply phase_other|]. simpl.
    rewrite delete_id; [done|]. by apply registry_lookup_None.
  - intros o Ho. destruct (Hok l o Ho) as [[c Hc] _]. destruct Hinv as [Hob Hp Ht].
    split_and!; [split|..].
    + simpl. intros l' o'. destruct (conductor s); simpl in *.
      rewrite lookup_delete_Some. intros [_ ?]. by eapply Hob.
    + unfold phase_ok in *. rewrite phase_channel_closed.
      destruct (phase_of (conductor s)) eqn:Hph; destruct s as [[]]; simpl in *.
      * unfold constructed in *; simpl in *. destruct Hp as ((?&?&?&?&?&->)&?&?). by rewrite lookup_empty in Ho.
      * exact Hp.
      * destruct Hp as (?&?&?&?&?&?&->&?&?). by rewrite lookup_empty in Ho.
    + unfold channel_closed. cbn [conductor trace next_addr]. rewrite upd_observers.
      by eapply trace_inv_close.
    + rewrite phase_channel_closed. by apply phase_other.
    + rewrite registry_channel_closed. done.
Qed.

Lemma phase_deleted_conductor c : phase_of (deleted_conductor c) = Deleted.
Proof. by destruct c. Qed.

Lemma inv_deleted c tr l l' b na (w : W) :
  trace_inv (data_observers_ c) tr na → observers_ok (data_observers_ c) →
  l ≡ₚ map_to_list (data_observers_ c) →
  l' ≡ₚ map_to_list (set_registered false <$> data_observers_ c) →
  inv (mkSys (deleted_conductor c) w (tr ++ delete_calls c l l' b) na).
Proof.
  intros Ht Hok Hl Hl'. split; simpl.
  - destruct c; simpl. apply map_Forall_empty.
  - by destruct c.
  - replace (data_observers_ (deleted_conductor c)) with (∅ : gmap string DataChannelObserver)
      by by destruct c.
    by apply (trace_inv_clear (data_observers_ c)).
Qed.

Lemma good_DeletePeerConnection s :
  inv s → wp (run ODeletePeerConnection) (λ _ s', good ODeletePeerConnection s s') s.
Proof.
  intros [Ho Hp Ht]. apply wp_DeletePeerConnection; [done|]. intros l l' b w' Hl Hl'.
  split_and!; [by apply inv_deleted| |].
  - simpl. rewrite phase_deleted_conductor. constructor.
  - simpl. by destruct (conductor s).
Qed.

Lemma registry_same c c' : same_channels c c' → registry c' = registry c.
Proof. intros (Heq&_). unfold registry. by rewrite Heq. Qed.

Lemma good_cleaned_up mn mx c1 tr1 na s s' :
  inv s → data_observers_ c1 = data_observers_ (conductor s) → extends (trace s) tr1 →
  (next_addr s ≤ na)%nat → cleaned_up c1 tr1 na s' → good (OInitializePeerConnection mn mx) s s'.
Proof.
  intros [Ho _ Ht] Hm He Hn (l&l'&b&w'&Hl&Hl'&->). split_and!; simpl.
  - apply inv_deleted; [|by rewrite Hm|done..]. rewrite Hm. by eapply trace_inv_extends.
  - rewrite phase_deleted_conductor. by constructor.
  - right. by destruct c1.
Qed.

Lemma good_connected mn mx po q f na w tr' na' s :
  inv s → peer_observer_ (conductor s) = Some po → extends (trace s) tr' → (next_addr s ≤ na')%nat →
  good (OInitializePeerConnection mn mx) s
    (mkSys (with_connection po (Some q) (equipped_conductor f na (conductor s))) w tr' na').
Proof.
  intros [Ho Hp Ht] Hpo He Hn.
  assert (phase_of (conductor s) ≠ Deleted) as Hph.
  { unfold phase_of. rewrite Hpo. by destruct (peer_connection_ po). }
  assert (is_Some (session_observer_ (conductor s)) ∧ is_Some (set_session_observer_ (conductor s))) as [H1 H2].
  { unfold phase_ok in Hp. destruct (phase_of (conductor s)); [by destruct Hp..|done]. }
  destruct s as [[] w0 tr na0], po as [a r]; simpl in *. subst. split_and!; [split|..]; simpl.
  - done.
  - unfold phase_ok, connected; simpl. split_and!; eauto.
  - by eapply trace_inv_extends.
  - by constructor.
  - by left.
Qed.

Lemma connect_calls_quiet c mn mx al o : forallb quiet (connect_calls c mn mx al o) = true.
Proof. done. Qed.

Lemma good_InitializePeerConnection mn mx s :
  inv s → (RTC_DCHECK_IS_ON = true → phase_of (conductor s) = Constructed) →
  wpf (run (OInitializePeerConnection mn mx))
    (λ _ s', startup_stop mn mx s = None ∧ good (OInitializePeerConnection mn mx) s s')
    (λ e, startup_stop mn mx s = Some e) s.
Proof.
  intros Hinv Hon. pose proof Hinv as [Ho Hp Ht]. cbn [run]. apply wpf_bind.
  assert (∀ tr', extends (trace s) tr' → extends (trace s) (tr' ++ startup_calls (conductor s))) as Hst.
  { intros tr' He. apply extends_app; [apply startup_calls_quiet|done]. }
  apply wpf_InitializePeerConnection; [done|..].
  - intros Hd%Hon. unfold phase_ok in Hp. rewrite Hd in Hp. by destruct Hp.
  - intros f po al q w' Hs Hpo _. split; [done|]. apply good_connected; [done..| |lia].
    rewrite app_assoc. apply extends_app; [apply connect_calls_quiet|]. by apply Hst.
  - intros f po al s' Hs Hpo _ Hc. split; [done|]. eapply good_cleaned_up; [done| | | |exact Hc]; [|..|lia].
    + by destruct (conductor s).
    + rewrite app_assoc. apply extends_app; [apply connect_calls_quiet|]. by apply Hst.
  - intros s' Hs Hc. split; [done|]. eapply good_cleaned_up; [done| | | |exact Hc]; [|..|lia].
    + by destruct (conductor s).
    + by apply Hst.
Qed.

Lemma good_AddServerConfig u n p s :
  inv s → wp (run (OAddServerConfig u n p)) (λ _ s', good (OAddServerConfig u n p) s s') s.
Proof.
  intros [Ho Hp Ht]. cbn [run]. unfold AddServerConfig. sys_run.
  destruct s as [[] w tr na]. split_and!; [split|by apply phase_other|]; simpl in *; done.
Qed.

Lemma good_install slot p s :
  inv s → wp (run (OInstall slot p)) (λ _ s', good (OInstall slot p) s s') s.
Proof.
  intros [Ho Hp Ht]. cbn [run]. unfold install. sys_run.
  destruct s as [[] w tr na], slot; (split_and!; [split|by apply phase_other|]); simpl in *; done.
Qed.

(** ** Events that return *)

Lemma without_observer_None s : without_observer s = None → ∃ po, peer_observer_ (conductor s) = Some po.
Proof. unfold without_observer. intros Hs. apply phase_observer. by destruct (phase_of (conductor s)). Qed.

Lemma description_stop_None d s :
  description_stop d s = None → ∃ po, peer_observer_ (conductor s) = Some po.
Proof. unfold description_stop. destruct (peer_observer_ (conductor s)); [by eauto|done]. Qed.

Lemma run_returns o s :
  match o with OInitializePeerConnection _ _ => False | _ => True end →
  inv s → enabled o s → stop o s = None → wp (run o) (λ _ s', good o s s') s.
Proof.
  intros Hni Hinv Hen Hs. pose proof (inv_observers s Hinv) as Hok.
  assert (∀ (m : M (Sys W) unit), idle o = true → wp m (λ _ s', frame s s') s →
    wp m (λ _ s', good o s s') s) as Hframe.
  { intros m Hi Hm. eapply wp_mono; [exact Hm|]. intros ???. by apply good_frame. }
  assert (∀ A (m : M (Sys W) A), wp m (λ _ s', frame s s') s →
    wp (m ≫= λ _, mret tt) (λ _ s', frame s s') s) as Hdrop.
  { intros A m Hm. sys_step. eapply wp_mono; [exact Hm|]. intros. by sys_run. }
  destruct o; simpl in Hen; cbn [stop] in Hs; try done.
  - by apply good_install.
  - by apply good_AddServerConfig.
  - by apply good_DeletePeerConnection.
  - destruct (without_observer_None s Hs). apply Hframe; [done|]. by eapply frame_CreateOffer.
  - destruct (without_observer_None s Hs). apply Hframe; [done|]. by eapply frame_OnOfferReply.
  - destruct (without_observer_None s Hs). apply Hframe; [done|]. by eapply frame_OnOfferRequest.
  - apply Hframe; [done|]. apply Hdrop. destruct (CreateIceCandidate _ _ _ _).1 eqn:Hc.
    + destruct (without_observer_None s Hs). by eapply frame_AddIceCandidate.
    + unfold AddIceCandidate. sys_run. rewrite Hc. sys_run.
      split_and!; [done| |done]. simpl. ext.
  - apply Hframe, Hdrop, frame_ProcessMessages. done.
  - by apply good_CreateDataChannel.
  - by apply good_CloseDataChannel.
  - apply Hframe, Hdrop; [done|]. by apply frame_GetDataChannelInfo.
  - apply Hframe, Hdrop; [done|]. by apply frame_GetDataChannelState.
  - apply Hframe; [done|]. by apply frame_SendToDataChannel.
  - destruct Hen as [Hcon He]. destruct e; try (apply Hframe; [done|]; sys_run; apply frame_refl).
    + destruct He as [c ->]. by apply good_OnDataChannel.
    + apply Hframe; [done|]. simpl. unfold PeerConnectionObserver_OnIceConnectionChange.
      do 2 sys_step. apply frame_invoke.
    + apply Hframe; [done|]. simpl. unfold PeerConnectionObserver_OnIceGatheringChange.
      do 2 sys_step. apply frame_invoke.
    + destruct He as [c ->]. apply Hframe; [done|]. simpl.
      unfold PeerConnectionObserver_OnIceCandidate. sys_run. apply frame_HandleIceCandidate.
  - apply Hframe; [done|]. destruct Hen as [o Ho]. cbn [run]. sys_run. rewrite Ho.
    apply frame_channel_callback. by eapply Hok.
  - destruct (description_stop_None _ s Hs). destruct Hen as [d ->]. apply Hframe; [done|].
    by eapply frame_OnSuccess.
  - apply Hframe; [done|]. apply frame_OnFailure.
  - apply Hframe; [done|]. apply frame_refl.
  - apply Hframe; [done|]. apply frame_refl.
Qed.

(** ** Events that stop the process *)

Lemma no_peer_observer s :
  peer_observer_ (conductor s) = None → peer_connection s = Fault (NullDeref "peer_observer_").
Proof. intros Hn. unfold peer_connection, self, mbind, M_bind, get, mret, M_ret. by rewrite Hn. Qed.

Lemma without_observer_Some s e :
  without_observer s = Some e → peer_observer_ (conductor s) = None ∧ e = NullDeref "peer_observer_".
Proof.
  unfold without_observer. intros Hs. destruct (phase_of (conductor s)) eqn:Hph; try done.
  injection Hs as <-. by split; [apply phase_deleted|].
Qed.

Lemma CreateDataChannel_stops l config s e :
  channel_stop l config s = Some e → CreateDataChannel l config s = Fault e.
Proof.
  unfold channel_stop, CreateDataChannel. intros Hs.
  destruct (peer_observer_ (conductor s)) as [po|] eqn:Hpo.
  2: { injection Hs as <-. by apply fault_bind, no_peer_observer. }
  destruct (peer_connection_ po) as [p|] eqn:Hp; [|done].
  destruct (data_observers_ (conductor s) !! l) eqn:Hl; [done|].
  destruct (Pc_CreateDataChannel p l config (world s)).1 eqn:Hc; [done|]. injection Hs as <-.
  apply wp_fault_bind. eapply wp_peer_connection; [done|]. rewrite Hp.
  apply wp_fault_bind. sys_run. rewrite Hl. apply wp_fault_bind. sys_run. rewrite Hc.
  unfold DataChannelObserver_new, RegisterObserver, dcheck, mbind, M_bind, alloc, get, put. simpl.
  by destruct RTC_DCHECK_IS_ON.
Qed.

Lemma OnSuccess_stops d s e :
  description_stop (Some d) s = Some e →
  CreateSessionDescriptionObserver_OnSuccess (Some d) s = Fault e.
Proof.
  unfold description_stop, CreateSessionDescriptionObserver_OnSuccess. intros Hs.
  apply wp_fault_bind. sys_run. destruct (peer_observer_ (conductor s)) as [po|] eqn:Hpo.
  2: { injection Hs as <-. by apply fault_bind, no_peer_observer. }
  apply wp_fault_bind. eapply wp_peer_connection; [done|].
  destruct (peer_connection_ po) as [p|]; [|done]. destruct (sd_alive _ _) eqn:Ha; [done|].
  injection Hs as <-. do 3 (apply wp_fault_bind; sys_run). apply fault_bind.
  unfold read_desc, read, mbind, M_bind, get, mret, M_ret. simpl. by rewrite Ha.
Qed.

(** The checks at the start of [InitializePeerConnection], in builds that have them. *)
Lemma Initialize_refused mn mx s e :
  RTC_DCHECK_IS_ON = true → inv s → phase_of (conductor s) ≠ Constructed →
  initialize_stop mn mx s = Some e → InitializePeerConnection mn mx s = Fault e.
Proof.
  unfold initialize_stop. intros Hon [_ Hp _] Hph Hs. rewrite Hon in Hs. unfold phase_ok in Hp.
  unfold InitializePeerConnection. do 2 (apply wp_fault_bind; sys_run).
  destruct (phase_of (conductor s)) eqn:E; [done|..]; injection Hs as <-.
  - destruct Hp as ((_&[f ->]&_)&_). apply fault_bind. unfold dcheck. by rewrite Hon.
  - destruct Hp as (->&_). apply wp_fault_bind. sys_run. apply wp_fault_bind. sys_run.
    rewrite (phase_deleted s E). apply fault_bind. unfold dcheck. by rewrite Hon.
Qed.

Lemma run_stops o s e :
  match o with OInitializePeerConnection _ _ => False | _ => True end →
  enabled o s → stop o s = Some e → run o s = Fault e.
Proof.
  intros Hni Hen Hs. destruct o; cbn [stop] in Hs; try done; cbn [run].
  - apply without_observer_Some in Hs as [Hn ->]. by apply fault_bind, no_peer_observer.
  - apply without_observer_Some in Hs as [Hn ->]. by apply fault_bind, no_peer_observer.
  - apply without_observer_Some in Hs as [Hn ->]. by apply fault_bind, no_peer_observer.
  - destruct (CreateIceCandidate _ _ _ _).1 eqn:Hc; [|done].
    apply without_observer_Some in Hs as [Hn ->]. apply fault_bind. unfold AddIceCandidate.
    apply wp_fault_bind. sys_run. rewrite Hc. by apply fault_bind, no_peer_observer.
  - by apply CreateDataChannel_stops.
  - destruct Hen as [d ->]. by apply OnSuccess_stops.
Qed.

(** ** All events, exactly *)

Lemma run_exact o s :
  inv s → enabled o s →
  wpf (run o) (λ _ s', stop o s = None ∧ good o s s') (λ e, stop o s = Some e) s.
Proof.
  intros Hinv Hen.
  assert (match o with OInitializePeerConnection _ _ => False | _ => True end →
    wpf (run o) (λ _ s', stop o s = None ∧ good o s s') (λ e, stop o s = Some e) s) as Hother.
  { intros Ho. destruct (stop o s) as [e|] eqn:Hs.
    - unfold wpf. by rewrite (run_stops o s e).
    - apply wp_wpf. eapply wp_mono; [by apply run_returns|]. done. }
  destruct o; try (by apply Hother). clear Hother. cbn [stop].
  destruct RTC_DCHECK_IS_ON eqn:Hon.
  - destruct (phase_of (conductor s)) eqn:Hph.
    + unfold initialize_stop. rewrite Hon, Hph. by apply good_InitializePeerConnection.
    + destruct (initialize_stop min_port max_port s) as [e|] eqn:Hs;
        [|unfold initialize_stop in Hs; by rewrite Hon, Hph in Hs].
      unfold wpf. cbn [run]. by erewrite fault_bind; [|apply Initialize_refused; [..|exact Hs]; congruence].
    + destruct (initialize_stop min_port max_port s) as [e|] eqn:Hs;
        [|unfold initialize_stop in Hs; by rewrite Hon, Hph in Hs].
      unfold wpf. cbn [run]. by erewrite fault_bind; [|apply Initialize_refused; [..|exact Hs]; congruence].
  - unfold initialize_stop. rewrite Hon. apply good_InitializePeerConnection; [done|congruence].
Qed.

Lemma run_partial o s : inv s → enabled o s → wlp (run o) (λ _ s', good o s s') s.
Proof.
  intros Hinv Hen. eapply wpf_wlp, (wpf_mono _ _ _ _ (λ _, True)); [by apply run_exact| |done].
  by intros ? ? [_ ?].
Qed.

End Frames.
