(* ===== verification/SampleLibrary.v ===== *)
(** A small library to run the model against: it hands out data channels with
    increasing numbers, remembers their labels, parses every non-empty session
    description and candidate, and creates a factory exactly when told to.
    It satisfies the laws the theorems assume, so they can be applied to
    concrete runs. *)
From S2P Require Import Prelude ApiTypes PortAllocator WebRtcApi ConductorState Conductor Observers.
From S2P Require Import ConductorLemmas System.
From Stdlib Require Import ZArith Lia.
From stdpp Require Import base tactics relations numbers strings gmap list.

Open Scope Z_scope.

Record sample := mkSample {
  sm_next : nat;
  sm_labels : gmap nat string;
  sm_factory : bool;
  sm_channels : bool;
  sm_retransmits : Z
}.

Definition sample_allocator : PortAllocator :=
  mkPortAllocator false 0 "" 0 0 5 1000 true 0 "" true 0 NO_PRUNE None None.

Definition sample_create_channel (l : string) (w : sample) : option chan * sample :=
  if sm_channels w then
    (Some (sm_next w),
     mkSample (S (sm_next w)) (<[sm_next w := l]> (sm_labels w)) (sm_factory w)
       (sm_channels w) (sm_retransmits w))
  else (None, w).

#[export] Instance sample_library : WebRtc sample := {|
  api_void := λ _ w, w;
  Thread_Start := λ _ w, (true, w);
  CreateModularPeerConnectionFactory := λ _ w, (if sm_factory w then Some 1%nat else None, w);
  BasicPortAllocator_new := λ _ _ _ _ w, (sample_allocator, w);
  Factory_CreatePeerConnection := λ _ _ _ w, (Some 7%nat, w);
  Pc_CreateDataChannel := λ _ l _ w, sample_create_channel l w;
  CreateSessionDescription := λ _ d w, (if bool_decide (d = "") then None else Some 3%nat, w);
  CreateIceCandidate := λ _ _ d w, (if bool_decide (d = "") then None else Some 4%nat, w);
  Pc_AddIceCandidate := λ _ _ w, (true, w);
  Dc_Send := λ _ _ w, (true, w);
  ThreadManager_CurrentThread := λ _, true;
  Thread_ProcessMessages := λ _ w, (true, w);
  dc_label := λ w c, default "" (sm_labels w !! c);
  dc_id := λ _ _, 1;
  dc_state := λ _ _, DataChannelInterface.kOpen;
  dc_buffered_amount := λ _ _, 0;
  dc_bytes_sent := λ _ _, 10;
  dc_bytes_received := λ _ _, 20;
  dc_messages_sent := λ _ _, 1;
  dc_messages_received := λ _ _, 2;
  dc_reliable := λ _ _, true;
  dc_ordered := λ _ _, true;
  dc_negotiated := λ _ _, false;
  dc_maxRetransmits := λ w _, wrap_u 16 (sm_retransmits w);
  dc_maxRetransmitTime := λ _ _, 65535;
  dc_protocol := λ _ _, "";
  sd_type := λ _ _, "offer";
  sd_alive := λ _ _, true;
  sd_ToString := λ _ _, Some "v=0";
  ic_ToString := λ _ _, Some "candidate:1";
  ic_sdp_mid := λ _ _, "data";
  ic_sdp_mline_index := λ _ _, 0;
  bucket_order := λ A _ l, l
|}.

#[export] Instance sample_laws : UnorderedMapLaws sample.
Proof. by intros A w l. Qed.

#[export] Instance sample_widths : DataChannelWidths sample.
Proof.
  split; intros w c; simpl; try (by apply wrap_u_range); unfold in_u, in_s; lia.
Qed.

(** A conductor right after construction, in a library that works and in one
    whose factory cannot be created. *)
Definition sample_world (factory : bool) : sample := mkSample 100 ∅ factory true 40000.
Definition blank_system (factory : bool) : Sys sample :=
  mkSys blank_conductor (sample_world factory) [] 0.

(** ** Scripts of calls *)

Definition api_op (o : op) : bool :=
  match o with EPeer _ | EChannel _ _ | ESdpSuccess _ => false | _ => true end.

Fixpoint exec `{BuildConfig} (os : list op) (s : Sys sample) : option (Sys sample) :=
  match os with
  | [] => Some s
  | o :: os' => match run o s with Ok (_, s') => exec os' s' | Fault _ => None end
  end.

(** Construct a conductor and run a script on it. *)
Definition sample_run `{BuildConfig} (factory : bool) (os : list op) : option (Sys sample) :=
  match RtcConductor_new (blank_system factory) with
  | Ok (_, s) => exec os s
  | Fault _ => None
  end.

Lemma exec_steps `{BuildConfig} os s s' :
  forallb api_op os = true → exec os s = Some s' → rtc step s s'.
Proof.
  revert s. induction os as [|o os IH]; simpl; intros s; [by intros _ [= ->]|].
  intros [Ho Hos]%andb_true_iff. destruct (run o s) as [[[] s1]|] eqn:Hr; [|done].
  intros Hex. eapply rtc_l; [|by apply IH]. eapply (step_op o); [|done].
  by destruct o.
Qed.

Lemma sample_run_reachable `{BuildConfig} factory os s :
  forallb api_op os = true → sample_run factory os = Some s → reachable s.
Proof.
  intros Hos. unfold sample_run. destruct (RtcConductor_new _) as [[[] s0]|] eqn:Hn; [|done].
  intros Hex. exists s0. split; [|by eapply exec_steps].
  by exists (sample_world factory), 0%nat.
Qed.
