(* ===== verification/SystemTheorems.v ===== *)
(** Properties of the conductor as a state machine. *)
From S2P Require Import Prelude ApiTypes PortAllocator WebRtcApi ConductorState Conductor Observers.
From S2P Require Import ConductorLemmas System SystemLemmas SampleLibrary.
From Stdlib Require Import ZArith Lia.
From stdpp Require Import base tactics relations numbers strings gmap list.
From coqutil Require Import Datatypes.RecordSetters.
Import TriangleBracketNotations.

Open Scope Z_scope.

Section Reachable.
Context {W : Type} `{!WebRtc W} `{!UnorderedMapLaws W} `{!BuildConfig}.
Implicit Types s : Sys W.

Lemma initial_inv s : initial s → inv s.
Proof.
  intros (w&na&Hnew). unfold RtcConductor_new, mbind, M_bind in Hnew. simpl in Hnew.
  injection Hnew as <-. split.
  - apply map_Forall_empty.
  - split_and!; simpl; eauto. split_and!; try done. by eexists.
  - split; simpl; try done.
    + intros. by apply not_elem_of_nil in H0.
    + intros. by apply not_elem_of_nil in H0.
    + constructor.
    + constructor.
Qed.

Lemma step_inv s s' : inv s → step s s' → inv s'.
Proof.
  intros Hinv Hstep. destruct Hstep as [o s s' Hen Hrun|s w'].
  - by apply (wlp_ok _ _ _ _ _ (run_partial o s Hinv Hen)) in Hrun as [? _].
  - by destruct Hinv.
Qed.

Lemma reachable_inv s : reachable s → inv s.
Proof.
  intros (s0&H0&Hsteps). apply initial_inv in H0.
  induction Hsteps as [|s1 s2 s3 Hstep _ IH]; [done|].
  apply IH. by eapply step_inv.
Qed.

End Reachable.

(** * Reachable states *)

(** C1. In every state a program can bring a conductor to (any sequence of
    calls and library callbacks after construction), its members agree with the
    stage of its life: before initialisation there is an observer but no peer
    connection, factory, thread or channel; while connected the peer connection,
    the factory, the network objects, the three named threads and both session
    observers are all there; after deletion none of them is and no channel is
    left.  Every observer in the channel map has a channel and, in builds that
    track it, is registered with it. *)
Theorem reachable_well_formed {W : Type} `{!WebRtc W, !UnorderedMapLaws W}
    `{!BuildConfig} (s : Sys W) :
  reachable s →
  phase_ok (conductor s) ∧ observers_ok (data_observers_ (conductor s)).
Proof. intros Hr. by destruct (reachable_inv s Hr). Qed.

(** C2. The contract of data_channel_interface.h that "UnregisterObserver should
    be called before the observer object is destroyed": in the history of every
    reachable state, an observer that was destroyed was before that registered
    with a channel, and in between that channel was closed and then unregistered;
    no observer is registered twice or destroyed twice; and an observer
    that was registered is still alive exactly when the conductor's map holds
    it, with that channel. *)
Theorem observers_closed_before_destroyed {W : Type}
    `{!WebRtc W, !UnorderedMapLaws W} `{!BuildConfig} (s : Sys W) :
  reachable s →
  (∀ a, CDeleteDataObserver a ∈ trace s → ∃ c, ended c a (trace s)) ∧
  NoDup (omap reg_addr (trace s)) ∧ NoDup (omap del_addr (trace s)) ∧
  (∀ c a, CDcRegisterObserver c a ∈ trace s →
     CDeleteDataObserver a ∉ trace s ↔
     ∃ l o, data_observers_ (conductor s) !! l = Some o ∧ do_addr o = a ∧
            data_channel_ o = Some c).
Proof.
  intros Hr. destruct (reachable_inv s Hr) as [_ _ Ht].
  split_and!; try apply Ht. intros c a Hin. split.
  - intros Hnd. destruct (ti_reg _ _ _ Ht c a Hin) as [_ [?|He]]; [done|].
    destruct He as (t1&t2&t3&t4&Heq). contradict Hnd. rewrite Heq. set_solver.
  - intros (l&o&Ho&<-&_). by eapply (ti_alive _ _ _ Ht).
Qed.

(** C3. Refinement: every event of the system, when it completes, is a move of
    the two abstract machines, the life cycle ([phase_step]) and the finite
    map from labels to channels ([registry_step]): opening adds a binding only
    where there is none, closing deletes the binding, a channel opened by the
    peer is bound under its own label unless that label is taken, deletion
    empties the map, and nothing else changes it. *)
Theorem events_refine {W : Type} `{!WebRtc W, !UnorderedMapLaws W}
    `{!BuildConfig} (o : op) (s s' : Sys W) :
  reachable s → enabled o s → run o s = Ok (tt, s') →
  phase_step o (phase_of (conductor s)) (phase_of (conductor s')) ∧
  registry_step o s (registry (conductor s)) (registry (conductor s')).
Proof.
  intros Hr Hen Hrun. apply reachable_inv in Hr.
  by apply (wlp_ok _ _ _ _ _ (run_partial o s Hr Hen)) in Hrun as [_ ?].
Qed.

(** C4. Safety, without any assumption on the library: in a reachable state an
    event returns exactly when [stop] finds no reason against it, and otherwise stops
    the process with exactly the fault [stop] gives.  The reasons are: the null peer
    observer after deletion; in [InitializePeerConnection] a failed check on the stage
    (where checks are compiled in), a thread that does not start, an allocator of another
    thread or a connection that is not delivered (both only where checks are compiled
    in); a data channel that is not delivered; and a description that the library freed
    after taking it over.  All other events return in every reachable state, in both
    builds. *)
Theorem events_stop_exactly {W : Type} `{!WebRtc W, !UnorderedMapLaws W} `{!BuildConfig}
    (o : op) (s : Sys W) :
  reachable s → enabled o s →
  match stop o s with
  | None => ∃ s', run o s = Ok (tt, s')
  | Some e => run o s = Fault e
  end.
Proof.
  intros Hr Hen. apply reachable_inv in Hr. pose proof (run_exact o s Hr Hen) as Hx.
  unfold wpf in Hx. destruct (run o s) as [[[] s']|e]; [|by rewrite Hx].
  destruct Hx as [-> _]. by exists s'.
Qed.

(** C34. After [DeletePeerConnection] (and so after a failed
    [InitializePeerConnection], which ends with it) the operations that go
    through the peer observer dereference that null pointer, whatever the build:
    creating an offer or a channel, answering, applying a reply, a candidate
    that parses, and a late [OnSuccess] callback. *)
Theorem use_after_delete_faults {W : Type}
    `{!WebRtc W, !UnorderedMapLaws W} `{!BuildConfig} (o : op) (s : Sys W) :
  reachable s → enabled o s →
  phase_of (conductor s) = Deleted →
  match o with
  | OCreateOffer | OOnOfferReply _ _ | OOnOfferRequest _ | ESdpSuccess _
  | OCreateDataChannel _ _ => True
  | OAddIceCandidate m i d => is_Some (CreateIceCandidate m i d (world s)).1
  | _ => False
  end →
  run o s = Fault (NullDeref "peer_observer_").
Proof.
  intros Hr Hen Hph Ho. apply run_stops; [by destruct o|done|].
  pose proof (phase_deleted s Hph) as Hpo.
  destruct o; try done; cbn [stop]; unfold without_observer, channel_stop, description_stop;
    rewrite ?Hph, ?Hpo; try done. by destruct Ho as [c ->].
Qed.

(** * Witnesses: concrete runs against the sample library, debug build *)

#[local] Instance debug_build : BuildConfig := true.

Definition connect_script : list op :=
  [OInstall SOnMessage (Some 3%nat); OInstall SOnDataChannelStateChange (Some 5%nat);
   OAddServerConfig "stun:stun.example.org:3478" "" "";
   OInitializePeerConnection 1025 65535;
   OCreateDataChannel "chat" default_DataChannelInit;
   OCreateDataChannel "chat" default_DataChannelInit;
   OCreateDataChannel "file" default_DataChannelInit;
   OCloseDataChannel "file";
   OCreateOffer].

Lemma reachable_well_formed_witness :
  ∃ s, sample_run true connect_script = Some s ∧
    phase_of (conductor s) = Connected ∧
    (phase_ok (conductor s) ∧ observers_ok (data_observers_ (conductor s))).
Proof.
  destruct (sample_run true connect_script) as [s|] eqn:Hs; [|vm_compute in Hs; discriminate].
  exists s. split; [done|]. split.
  - vm_compute in Hs. injection Hs as <-. reflexivity.
  - apply (reachable_well_formed s).
    by apply (sample_run_reachable true connect_script).
Defined.

(** The run of [connect_script], as an equation to compute with. *)
Definition connect_end : Sys sample :=
  default (blank_system true) (sample_run true connect_script).

Lemma connect_end_reachable : reachable connect_end.
Proof.
  apply (sample_run_reachable true connect_script); [reflexivity|vm_compute; reflexivity].
Qed.

(** The channel called file was closed, so its observer (at address 7) is gone;
    chat's (at address 6) is still there. *)
Lemma observers_closed_before_destroyed_witness :
  (∃ c, ended c 7%nat (trace connect_end)) ∧ CDeleteDataObserver 6%nat ∉ trace connect_end.
Proof.
  destruct (observers_closed_before_destroyed connect_end
              connect_end_reachable) as (Hdel&_&_&Hreg).
  split.
  - apply Hdel. apply (list_elem_of_lookup_2 _ 20). vm_compute. reflexivity.
  - apply (Hreg 100%nat 6%nat).
    { apply (list_elem_of_lookup_2 _ 15). vm_compute. reflexivity. }
    eexists "chat", _. split; [vm_compute; reflexivity|]. by vm_compute.
Defined.

Lemma events_refine_witness : ∃ s',
  run (OCloseDataChannel "chat") connect_end = Ok (tt, s') ∧
  phase_step (OCloseDataChannel "chat") (phase_of (conductor connect_end))
    (phase_of (conductor s')) ∧
  registry_step (OCloseDataChannel "chat") connect_end (registry (conductor connect_end))
    (registry (conductor s')).
Proof.
  destruct (run (OCloseDataChannel "chat") connect_end) as [[[] s']|] eqn:Hs;
    [|vm_compute in Hs; discriminate].
  exists s'. split; [done|].
  apply events_refine; [apply connect_end_reachable|exact I|exact Hs].
Defined.

(** A conductor whose factory could not be created. *)
Definition failed_end : Sys sample :=
  default (blank_system false)
    (sample_run false [OInitializePeerConnection 1025 65535]).

Lemma failed_end_reachable : reachable failed_end.
Proof.
  apply (sample_run_reachable false [OInitializePeerConnection 1025 65535]);
    [reflexivity|vm_compute; reflexivity].
Qed.

(** A connected conductor makes an offer; a debug build refuses to connect it again. *)
Lemma events_stop_exactly_witness :
  (∃ s', run OCreateOffer connect_end = Ok (tt, s')) ∧
  run (OInitializePeerConnection 1025 65535) connect_end = Fault (CheckFailed "!pc_factory_").
Proof.
  split.
  - apply (events_stop_exactly OCreateOffer connect_end connect_end_reachable I).
  - apply (events_stop_exactly (OInitializePeerConnection 1025 65535) connect_end
      connect_end_reachable I).
Defined.

Lemma use_after_delete_faults_witness :
  run OCreateOffer failed_end = Fault (NullDeref "peer_observer_").
Proof.
  apply use_after_delete_faults; [apply failed_end_reachable|exact I|reflexivity|exact I].
Defined.
