(* ===== verification/ConductorTheorems.v ===== *)
(** What the public operations of [RtcConductor] and the callbacks of its
    observers do, on every branch: the calls they make, in order, what they
    answer, and what they leave alone.  All statements are about states a
    program can reach (System.v) or about all states. *)
From S2P Require Import Prelude ApiTypes PortAllocator WebRtcApi ConductorState Conductor Observers.
From S2P Require Import ConductorLemmas System SystemLemmas SampleLibrary SystemTheorems.
From Stdlib Require Import ZArith Lia.
From stdpp Require Import base tactics relations numbers strings gmap list.
From coqutil Require Import Datatypes.RecordSetters.
Import TriangleBracketNotations.

Open Scope Z_scope.

(** * Start-up and shut-down *)

(** The calls of [InitializePeerConnection] before it looks at the factory, on a
    conductor without threads. *)
Definition fresh_startup_calls : list Call :=
  [CWrapCurrentThread;
   CThreadCreate "network_thread" true; CThreadSetName "network_thread" "network_thread";
   CThreadStart "network_thread";
   CThreadCreate "worker_thread" false; CThreadSetName "worker_thread" "worker_thread";
   CThreadStart "worker_thread";
   CThreadCreate "signaling_thread" false; CThreadSetName "signaling_thread" "signaling_thread";
   CThreadStart "signaling_thread";
   CCreateModularPeerConnectionFactory startup_deps].

Lemma fresh_startup c : constructed c → startup_calls c = fresh_startup_calls.
Proof. intros (_&_&Hn&Hw&Hg&_). unfold startup_calls. by rewrite Hn, Hw, Hg. Qed.

(** What [DeletePeerConnection] does when it cleans up a failed start: there
    are no channels yet. *)
Definition cleanup_calls (observer : nat) (factory : bool) (b : bool) : list Call :=
  [CDeletePeerObserver observer] ++ (if factory then [CFactoryRelease] else []) ++
  [CThreadQuit "signaling_thread"; CThreadDestroy "signaling_thread";
   CThreadQuit "worker_thread"; CThreadDestroy "worker_thread";
   CThreadQuit "network_thread"; CThreadDestroy "network_thread"] ++
  (if b then [CCurrentThreadQuit] else []).

(** Cleaning up a conductor without channels. *)
Lemma cleaned_up_calls {W : Type} `{!WebRtc W, !BuildConfig} c tr na (s' : Sys W) observer :
  data_observers_ c = ∅ → network_thread_ c = Some "network_thread" →
  worker_thread_ c = Some "worker_thread" → signaling_thread_ c = Some "signaling_thread" →
  peer_observer_ c = Some (mkPeerConnectionObserver observer None) → cleaned_up c tr na s' →
  phase_of (conductor s') = Deleted ∧ ∃ b,
    trace s' = tr ++ cleanup_calls observer (bool_decide (is_Some (pc_factory_ c))) b.
Proof.
  intros He Hn Hw Hg Hpo (l&l'&b&w'&Hl&Hl'&->). rewrite He in Hl, Hl'. rewrite fmap_empty in Hl'.
  apply Permutation_nil_r in Hl as ->. apply Permutation_nil_r in Hl' as ->. simpl.
  split; [by destruct c|]. exists b. f_equal. unfold delete_calls. rewrite Hpo, Hn, Hw, Hg.
  unfold cleanup_calls. by destruct (pc_factory_ c).
Qed.

(** How a start of a constructed conductor ends. *)
Definition started {W : Type} `{!WebRtc W} (mn mx : Z) (observer : nat) (s : Sys W) (ok : bool)
    (s' : Sys W) : Prop :=
  phase_of (conductor s') = (if ok then Connected else Deleted) ∧
  ∃ (al : option PortAllocator) (b : bool),
    match al with Some al => new_from_library (W := W) al | None => ok = false end ∧
    trace s' = trace s ++ fresh_startup_calls ++
      match al with
      | Some al => connect_calls (conductor s) mn mx al observer
      | None => []
      end ++ if ok then [] else cleanup_calls observer (bool_decide (is_Some al)) b.

Lemma wpf_initialize_fresh {W : Type} `{!WebRtc W, !UnorderedMapLaws W} `{!BuildConfig}
    (mn mx : Z) (po : PeerConnectionObserver) (s : Sys W) :
  constructed (conductor s) → peer_observer_ (conductor s) = Some po →
  wpf (InitializePeerConnection mn mx)
    (λ ok s', startup_stop mn mx s = None ∧ started mn mx (po_addr po) s ok s')
    (λ e, startup_stop mn mx s = Some e) s.
Proof.
  intros Hc Hpo. pose proof (fresh_startup _ Hc) as Hst. pose proof Hc as ((po'&Hpo'&Hpc)&_&_&_&_&He).
  rewrite Hpo in Hpo'. injection Hpo' as <-. destruct po as [a q]; simpl in Hpc; subst.
  apply wpf_InitializePeerConnection; [rewrite He; apply map_Forall_empty|done|..]; rewrite ?Hst.
  - intros f po al q w' Hs Hpo' Hal. rewrite Hpo in Hpo'. injection Hpo' as <-. split; [done|].
    split; [by destruct (conductor s)|]. exists (Some al), true. split; [done|]. by rewrite app_nil_r.
  - intros f po al s' Hs Hpo' Hal Hcl. rewrite Hpo in Hpo'. injection Hpo' as <-. split; [done|].
    eapply cleaned_up_calls in Hcl as [Hd [b Htr]]; try (by destruct (conductor s)).
    split; [done|]. exists (Some al), b. split; [done|]. rewrite Htr, <-!app_assoc.
    by destruct (conductor s).
  - intros s' Hs Hcl. split; [done|].
    eapply cleaned_up_calls in Hcl as [Hd [b Htr]]; try (by destruct (conductor s)).
    split; [done|]. exists None, b. split; [done|]. rewrite Htr, <-!app_assoc.
    by destruct (conductor s).
Qed.

(** C28. Start-up of a constructed conductor.  [InitializePeerConnection] returns
    unless [startup_stop] says that the library fails it.  The threads are created (the
    network thread with a socket server), named and started in the order network,
    worker, signaling, before the factory, which gets them as its three threads; the
    peer connection is requested with all
    servers added so far, in their order, and with the allocator the library
    made, configured; the answer is [true] exactly when the conductor is
    connected, and then nothing else was called.  Otherwise everything that was
    started is stopped again, in reverse order, and the conductor is deleted. *)
Theorem initialize_outcome {W : Type} `{!WebRtc W, !UnorderedMapLaws W}
    `{!BuildConfig} (mn mx : Z) (po : PeerConnectionObserver) (s : Sys W) :
  reachable s → phase_of (conductor s) = Constructed →
  peer_observer_ (conductor s) = Some po →
  match startup_stop mn mx s with
  | Some e => InitializePeerConnection mn mx s = Fault e
  | None => ∃ (ok : bool) s', InitializePeerConnection mn mx s = Ok (ok, s') ∧
      phase_of (conductor s') = (if ok then Connected else Deleted) ∧
      ∃ (al : option PortAllocator) (b : bool),
        match al with Some al => new_from_library (W := W) al | None => ok = false end ∧
        trace s' = trace s ++ fresh_startup_calls ++
          match al with
          | Some al => connect_calls (conductor s) mn mx al (po_addr po)
          | None => []
          end ++ if ok then [] else cleanup_calls (po_addr po) (bool_decide (is_Some al)) b
  end.
Proof.
  intros Hr Hph Hpo. apply reachable_inv in Hr.
  pose proof (inv_phase _ Hr) as Hok. unfold phase_ok in Hok. rewrite Hph in Hok.
  destruct Hok as (Hc&_&_). pose proof (wpf_initialize_fresh mn mx po s Hc Hpo) as Hx.
  unfold wpf in Hx. destruct (InitializePeerConnection mn mx s) as [[ok s']|e]; [|by rewrite Hx].
  destruct Hx as [-> Hx]. by exists ok, s'.
Qed.

(** C29. Shut-down: in every reachable state [DeletePeerConnection] returns; it
    closes the peer connection before it destroys its observer, releases the
    factory, closes and unregisters every channel before any channel observer is
    destroyed, and quits the signaling, worker and network threads in this order;
    every channel of the map is visited exactly once by both loops.  Deleting
    again is harmless: it only asks the current thread to quit. *)
Theorem delete_peer_connection_calls {W : Type}
    `{!WebRtc W, !UnorderedMapLaws W} `{!BuildConfig} (s : Sys W) :
  reachable s →
  ∃ l l' b s', DeletePeerConnection s = Ok (tt, s') ∧
    l ≡ₚ map_to_list (data_observers_ (conductor s)) ∧
    (do_addr ∘ snd <$> l') ≡ₚ (do_addr ∘ snd <$> l) ∧
    conductor s' = deleted_conductor (conductor s) ∧
    trace s' = trace s ++ delete_calls (conductor s) l l' b ∧
    ∃ b' s'', DeletePeerConnection s' = Ok (tt, s'') ∧ conductor s'' = conductor s' ∧
      trace s'' = trace s' ++ if (b' : bool) then [CCurrentThreadQuit] else [].
Proof.
  intros Hr. apply reachable_inv in Hr.
  destruct (wp_ok_inv DeletePeerConnection (λ _ s', ∃ l l' b,
    l ≡ₚ map_to_list (data_observers_ (conductor s)) ∧
    l' ≡ₚ map_to_list (set_registered false <$> data_observers_ (conductor s)) ∧
    conductor s' = deleted_conductor (conductor s) ∧
    trace s' = trace s ++ delete_calls (conductor s) l l' b) s)
    as ([]&s'&He&l&l'&b&Hl&Hl'&Hc&Ht).
  { apply wp_DeletePeerConnection; [apply Hr|]. intros l l' b w' Hl Hl'. by exists l, l', b. }
  exists l, l', b, s'. split_and!; try done.
  { rewrite Hl, Hl', map_to_list_fmap, <-list_fmap_compose. apply reflexive_eq, list_fmap_ext.
    intros ? [k o] _. apply set_registered_addr. }
  destruct (wp_ok_inv DeletePeerConnection (λ _ s'', conductor s'' = conductor s' ∧
    ∃ b' : bool, trace s'' = trace s' ++ if b' then [CCurrentThreadQuit] else []) s')
    as ([]&s''&?&?&b'&?); [|by exists b', s''].
  apply wp_DeletePeerConnection; rewrite Hc; [apply map_Forall_empty|].
  intros l2 l2' b2 w2 Hl2 Hl2'. simpl in Hl2, Hl2'.
  apply Permutation_nil_r in Hl2 as ->. apply Permutation_nil_r in Hl2' as ->.
  split; [by destruct (conductor s)|]. by exists b2.
Qed.

(** * What the peer connection is configured with *)

(** The servers are all that depends on the conductor. *)
Lemma peer_configuration_eq l :
  peer_configuration l = (peer_configuration []) <| servers := l |>.
Proof.
  unfold peer_configuration.
  match goal with |- foldl ?f ?x l = _ =>
    assert (∀ c, foldl f c l = c <| servers ::= λ l0, l0 ++ l |>) as H end; [|apply H].
  induction l as [|y l IH]; intros c; simpl.
  - destruct c; simpl. by rewrite app_nil_r.
  - rewrite IH. destruct c; simpl. by rewrite <-app_assoc.
Qed.

Lemma disable_tcp_bit f i : 0 ≤ i < 32 →
  Z.testbit (wrap_u 32 (Z.lor f PORTALLOCATOR_DISABLE_TCP)) i = Z.testbit f i || (i =? 3).
Proof.
  intros Hi. unfold wrap_u. rewrite Z.mod_pow2_bits_low by lia. rewrite Z.lor_spec. f_equal.
  change PORTALLOCATOR_DISABLE_TCP with (2 ^ 3).
  destruct (Z.eqb_spec i 3) as [->|]; [done|]. by apply Z.pow2_bits_false.
Qed.

(** Configuration: the peer connection gets exactly the conductor's servers,
    in order, and otherwise a configuration that does not depend on the
    conductor; in the allocator the bit that disables TCP is set, all other
    flags are kept and TCP listening is off; the port range is the requested one
    when [minPort <= maxPort] and otherwise stays as the library chose it (the
    [false] that [SetPortRange] then answers is the only sign of that). *)
Theorem configuration_handed_over `{!BuildConfig} (srv : list IceServer) (mn mx : Z)
    (a : PortAllocator) :
  usable a = true →
  servers (peer_configuration srv) = srv ∧
  peer_configuration srv = (peer_configuration []) <| servers := srv |> ∧
  tcp_candidate_policy (peer_configuration []) = kTcpCandidatePolicyDisabled ∧
  rtcp_mux_policy (peer_configuration []) = kRtcpMuxPolicyRequire ∧
  network_preference (peer_configuration []) = Some ADAPTER_TYPE_ETHERNET ∧
  ∃ a', configure_allocator mn mx a = Ok (mn <=? mx, a') ∧
    (∀ i, 0 ≤ i < 32 → Z.testbit (flags_ a') i = Z.testbit (flags_ a) i || (i =? 3)) ∧
    allow_tcp_listen_ a' = false ∧
    (pa_min_port_ a', pa_max_port_ a') =
      if mn <=? mx then (mn, mx) else (pa_min_port_ a, pa_max_port_ a).
Proof.
  intros Hu. rewrite peer_configuration_eq. split_and!; try done.
  destruct (wp_ok_inv (configure_allocator mn mx) (λ b a',
    a' = configured_allocator mn mx a ∧ b = (mn <=? mx)) a) as (b&a'&He&->&->).
  - unfold configure_allocator. wp_run. apply wp_accessor; [done|]. wp_run.
    apply wp_setter; [done|]. wp_run. apply wp_setter; [by destruct a|].
    unfold configured_allocator.
    apply wp_SetPortRange; [by destruct a|..]; intros Hle;
      destruct (Z.ltb_spec mx mn), (Z.leb_spec mn mx); try lia; done.
  - eexists. split; [exact He|]. unfold configured_allocator. split_and!.
    + intros i Hi. rewrite <-disable_tcp_bit by done. by destruct (mx <? mn).
    + by destruct (mx <? mn).
    + destruct (Z.ltb_spec mx mn), (Z.leb_spec mn mx); try lia; done.
Qed.

(** * Queries and sends *)

Lemma registry_lookup c l : registry c !! l = data_observers_ c !! l ≫= data_channel_.
Proof. unfold registry. by rewrite lookup_omap. Qed.

Lemma wrap_s16_u16 z : in_u 16 z → wrap_s 16 z = if z <? 32768 then z else z - 65536.
Proof.
  intros [H0 H1]. unfold wrap_s. change (2 ^ (16 - 1)) with 32768 in *.
  change (2 ^ 16) with 65536 in *. destruct (Z.ltb_spec z 32768).
  - rewrite Z.mod_small; lia.
  - rewrite <-(Z.mod_unique (z + 32768) 65536 1 (z - 32768)); lia.
Qed.

(** What an observer of the map looks like from outside. *)
Lemma observer_cases {W : Type} `{!WebRtc W, !UnorderedMapLaws W}
    `{!BuildConfig} (l : string) (s : Sys W) :
  inv s →
  (data_observers_ (conductor s) !! l = None ∧ registry (conductor s) !! l = None) ∨
  (∃ o c, data_observers_ (conductor s) !! l = Some o ∧ data_channel_ o = Some c ∧
          registry (conductor s) !! l = Some c).
Proof.
  intros Hinv. rewrite registry_lookup.
  destruct (data_observers_ (conductor s) !! l) as [o|] eqn:Ho; [|by left].
  destruct (inv_observers _ Hinv _ _ Ho) as [[c Hc] _]. right. by exists o, c.
Qed.

Lemma GetDataChannelState_registry {W : Type}
    `{!WebRtc W, !UnorderedMapLaws W} `{!BuildConfig} (l : string) (s : Sys W) :
  inv s →
  GetDataChannelState l s = Ok (dc_state (world s) <$> registry (conductor s) !! l, s).
Proof.
  intros Hi. unfold GetDataChannelState, self, mbind, M_bind, get, mret, M_ret.
  destruct (observer_cases l s Hi) as [[-> ->]|(o&c&->&Hc&->)]; simpl; [done|].
  by rewrite Hc.
Qed.

(** Reading a channel's state: the label is looked up in the abstract
    registry; an open channel answers its own state and counters and an unknown
    label answers nothing.  The counters arrive unchanged, except that the two
    16-bit limits are read back as signed numbers, so that values from 32768 on
    come out negative (and "unset", 65535, as -1).  Nothing changes. *)
Theorem channel_queries {W : Type}
    `{!WebRtc W, !UnorderedMapLaws W, !DataChannelWidths W}
    `{!BuildConfig} (l : string) (s : Sys W) :
  reachable s →
  GetDataChannelState l s = Ok (dc_state (world s) <$> registry (conductor s) !! l, s) ∧
  match registry (conductor s) !! l with
  | None => GetDataChannelInfo l s = Ok (None, s)
  | Some c => ∃ i, GetDataChannelInfo l s = Ok (Some i, s) ∧
      state i = dc_state (world s) c ∧ id i = dc_id (world s) c ∧
      currentBuffer i = dc_buffered_amount (world s) c ∧
      bytesSent i = dc_bytes_sent (world s) c ∧
      bytesReceived i = dc_bytes_received (world s) c ∧
      messagesSent i = dc_messages_sent (world s) c ∧
      messagesReceived i = dc_messages_received (world s) c ∧
      protocol i = dc_protocol (world s) c ∧
      (reliable i, ordered i, negotiated i) =
        (dc_reliable (world s) c, dc_ordered (world s) c, dc_negotiated (world s) c) ∧
      (let r := dc_maxRetransmits (world s) c in
       maxRetransmits i = if r <? 32768 then r else r - 65536) ∧
      (let t := dc_maxRetransmitTime (world s) c in
       maxRetransmitTime i = if t <? 32768 then t else t - 65536)
  end.
Proof.
  intros Hr. apply reachable_inv in Hr.
  split; [by apply GetDataChannelState_registry|].
  unfold GetDataChannelInfo, self, mbind, M_bind, get, mret, M_ret.
  destruct (observer_cases l s Hr) as [[-> ->]|(o&c&->&Hc&->)]; simpl; [done|].
  rewrite Hc. simpl. eexists. split; [done|]. simpl.
  rewrite (wrap_s_id 32) by (done || apply dc_id_width).
  rewrite !wrap_s16_u16 by (apply dc_maxRetransmits_width || apply dc_maxRetransmitTime_width).
  done.
Qed.

(** Sending: a buffer sent to a label reaches exactly the channel bound to
    it, as one call with the same bytes, and nothing at all happens when there
    is none. *)
Theorem send_reaches_channel {W : Type}
    `{!WebRtc W, !UnorderedMapLaws W} `{!BuildConfig}
    (l : string) (b : DataBuffer) (s : Sys W) :
  reachable s →
  ∃ s', SendToDataChannel l b s = Ok (tt, s') ∧ conductor s' = conductor s ∧
    match registry (conductor s) !! l with
    | Some c => trace s' = trace s ++ [CDcSend c b] ∧ world s' = (Dc_Send c b (world s)).2
    | None => s' = s
    end.
Proof.
  intros Hr. apply reachable_inv in Hr.
  destruct (wp_ok_inv (SendToDataChannel l b) (λ _ s', conductor s' = conductor s ∧
    match registry (conductor s) !! l with
    | Some c => trace s' = trace s ++ [CDcSend c b] ∧ world s' = (Dc_Send c b (world s)).2
    | None => s' = s
    end) s) as ([]&s'&?&?&?); [|by eauto].
  unfold SendToDataChannel. sys_run.
  destruct (observer_cases l s Hr) as [[-> ->]|(o&c&->&Hc&->)]; by sys_run.
Qed.

(** * Signalling *)

(** The options of the offers and answers Spitfire asks for. *)
Definition data_only_options (vad : bool) : RTCOfferAnswerOptions :=
  default_RTCOfferAnswerOptions <| voice_activity_detection := vad |>
    <| offer_to_receive_audio := 0 |> <| offer_to_receive_video := 0 |>.

(** C36. Signalling: while connected, an offer is one request with no audio and no
    video; a reply is parsed with its own type and applied as the remote
    description; a request is parsed as an offer, applied, and only then
    answered; a description that does not parse is dropped without touching the
    peer connection.  Before the peer connection exists all three do nothing.
    The conductor is never changed. *)
Theorem signalling_calls {W : Type} `{!WebRtc W, !BuildConfig}
    (type sdp : string) (po : PeerConnectionObserver) (s : Sys W) :
  peer_observer_ (conductor s) = Some po →
  let c := conductor s in
  let parsed t := (CreateSessionDescription t sdp (world s)).1 in
  wp CreateOffer (λ _ s', conductor s' = c ∧
    trace s' = trace s ++ match peer_connection_ po with
      | Some p => [CCreateOffer p (session_observer_ c) (data_only_options true)]
      | None => [] end) s ∧
  wp (OnOfferReply type sdp) (λ _ s', conductor s' = c ∧
    trace s' = trace s ++ match peer_connection_ po with
      | Some p => CCreateSessionDescription type sdp ::
          match parsed type with
          | Some d => [CSetRemoteDescription p (set_session_observer_ c) d]
          | None => [] end
      | None => [] end) s ∧
  wp (OnOfferRequest sdp) (λ _ s', conductor s' = c ∧
    trace s' = trace s ++ match peer_connection_ po with
      | Some p => CCreateSessionDescription "offer" sdp ::
          match parsed "offer" with
          | Some d => [CSetRemoteDescription p (set_session_observer_ c) d;
                       CCreateAnswer p (session_observer_ c) (data_only_options false)]
          | None => [] end
      | None => [] end) s.
Proof.
  intros Hpo c parsed.
  unfold CreateOffer, OnOfferReply, OnOfferRequest. split_and!; sys_step;
    (eapply wp_peer_connection; [exact Hpo|]);
    (destruct (peer_connection_ po) as [p|]; [|sys_run; by rewrite app_nil_r]);
    sys_run; [done|..];
    match goal with |- context [match ?x with Some _ => _ | None => _ end] =>
      fold (parsed type) || fold (parsed "offer") end;
    match goal with |- wp (match ?x with _ => _ end) _ _ => destruct x end; sys_run;
    split; try done; by rewrite <-?app_assoc.
Qed.

(** Candidates from the remote side: the answer is [true] exactly when the
    candidate parses, there is a peer connection and that accepts it; the peer
    connection is only asked when the candidate parses.  (Nothing in the run
    hands the parsed candidate to anyone who would free it.) *)
Theorem add_ice_candidate_result {W : Type} `{!WebRtc W, !BuildConfig}
    (mid : string) (index : Z) (sdp : string) (po : PeerConnectionObserver) (s : Sys W) :
  peer_observer_ (conductor s) = Some po →
  let '(cand, w1) := CreateIceCandidate mid index sdp (world s) in
  ∃ r s', AddIceCandidate mid index sdp s = Ok (r, s') ∧ conductor s' = conductor s ∧
    (r = true ↔ ∃ k p, cand = Some k ∧ peer_connection_ po = Some p ∧
                       (Pc_AddIceCandidate p k w1).1 = true) ∧
    trace s' = trace s ++ CCreateIceCandidate mid index sdp ::
      match cand, peer_connection_ po with
      | Some k, Some p => [CAddIceCandidate p k]
      | _, _ => []
      end.
Proof.
  intros Hpo. destruct (CreateIceCandidate mid index sdp (world s)) as [cand w1] eqn:Hc.
  match goal with |- ∃ r s', _ ∧ @?Q r s' =>
    destruct (wp_ok_inv (AddIceCandidate mid index sdp) Q s) as (r&s'&?&?) end; [|by eauto].
  unfold AddIceCandidate. sys_run. rewrite Hc. simpl.
  destruct cand as [k|]; sys_run; [|split_and!; [done|naive_solver|done]].
  eapply wp_peer_connection; [exact Hpo|].
  destruct (peer_connection_ po) as [p|] eqn:Hp; sys_run.
  - destruct (Pc_AddIceCandidate p k w1).1 eqn:Ha; sys_run; rewrite <-?app_assoc;
      (split_and!; [done|naive_solver|done]).
  - split_and!; [done|naive_solver|done].
Qed.

(** * Delivery to the managed side *)

(** One invocation of a callback, if it is set. *)
Definition delivered (cb : option nat) (e : NativeEvent) : list Call :=
  match cb with Some a => [CNative a e] | None => [] end.

(** C37. What happens on a channel arrives: every event of a registered channel
    invokes the one callback it belongs to, once, with the channel's full label
    (when it contains no NUL), the full payload and its length (below 4 GiB), and
    the channel's current counters; nothing else happens. *)
Theorem channel_events_delivered {W : Type}
    `{!WebRtc W, !UnorderedMapLaws W} `{!BuildConfig}
    (l : string) (c : chan) (e : ChannelEvent) (s : Sys W) :
  reachable s → registry (conductor s) !! l = Some c →
  no_nul (dc_label (world s) c) = true →
  (∀ b, e = OnMessage b → DataBuffer_size b < 2 ^ 32) →
  run (EChannel l e) s = Ok (tt, mkSys (conductor s) (world s) (trace s ++
    let w := world s in
    match e with
    | OnStateChange => delivered (on_data_channel_state_change_ (conductor s))
        (NOnDataChannelState (dc_label w c) (dc_state w c))
    | OnMessage b => delivered (on_message_ (conductor s))
        (NOnMessage (dc_label w c) (db_data b) (Z.of_nat (length (db_data b))) (db_binary b))
    | OnBufferedAmountChange n => delivered (on_buffer_amount_change_ (conductor s))
        (NOnBufferAmount (dc_label w c) n (dc_buffered_amount w c) (dc_bytes_sent w c)
           (dc_bytes_received w c))
    end) (next_addr s)).
Proof.
  intros Hr Hl Hnul Hsize. apply reachable_inv in Hr.
  match goal with |- _ = Ok (tt, ?x) =>
    destruct (wp_ok_inv (run (EChannel l e)) (λ _ s', s' = x) s) as ([]&s'&?&?);
      [|by subst] end.
  destruct (observer_cases l s Hr) as [[_ Hn]|(o&c'&Ho&Hc&Hl')]; [by rewrite Hl in Hn|].
  rewrite Hl in Hl'. injection Hl' as <-. unfold run. sys_run. rewrite Ho.
  apply c_str_id in Hnul.
  destruct e as [|b|n]; simpl;
    unfold DataChannelObserver_OnStateChange, DataChannelObserver_OnMessage,
      DataChannelObserver_OnBufferedAmountChange; rewrite Hc; sys_run;
    match goal with |- context [match ?cb with Some _ => _ | None => _ end] =>
      destruct cb as [a|] end;
    sys_run; rewrite ?Hnul; try done;
    try (destruct s; simpl; by rewrite app_nil_r).
  rewrite wrap_u_id; [done|]. specialize (Hsize b eq_refl).
  unfold in_u, DataBuffer_size in *. lia.
Qed.

(** C38. A local description the library created is first set on the peer
    connection, which takes it over, and then read: if the library still has it then,
    it is reported with its type and its text to the managed side; if the library has
    freed it meanwhile, freed memory is read.  A failure is reported with its message; a
    local candidate is reported with the section it belongs to, unless it cannot be
    printed. *)
Theorem session_events_delivered {W : Type} `{!WebRtc W, !BuildConfig}
    (d : sdesc) (k : icecand) (message : string) (po : PeerConnectionObserver) (s : Sys W) :
  peer_observer_ (conductor s) = Some po →
  let c := conductor s in
  match peer_connection_ po with
  | None => CreateSessionDescriptionObserver_OnSuccess (Some d) s = Ok (tt, s)
  | Some p =>
    let set := CSetLocalDescription p (set_session_observer_ c) d in
    let w := api_void set (world s) in
    CreateSessionDescriptionObserver_OnSuccess (Some d) s =
      if sd_alive w d then
        Ok (tt, mkSys c w (trace s ++ set :: delivered (on_success_ c)
          (NOnSuccess (c_str (sd_type w d)) (c_str (default "" (sd_ToString w d))))) (next_addr s))
      else Fault (UseAfterFree "desc")
  end ∧
  wp (CreateSessionDescriptionObserver_OnFailure message) (λ _ s', conductor s' = c ∧
    trace s' = trace s ++ delivered (on_failure_ c) (NOnFailure (c_str message))) s ∧
  wp (peer_callback (OnIceCandidate (Some k))) (λ _ s', conductor s' = c ∧
    trace s' = trace s ++ match ic_ToString (world s) k with
      | Some sdp => delivered (on_ice_candidate_ c)
          (NOnIceCandidate (c_str (ic_sdp_mid (world s) k))
             (wrap_s 32 (ic_sdp_mline_index (world s) k)) (c_str sdp))
      | None => []
      end) s.
Proof.
  intros Hpo c. split_and!.
  - pose proof (OnSuccess_stops d s (UseAfterFree "desc")) as Hst.
    unfold description_stop in Hst. rewrite Hpo in Hst.
    destruct (peer_connection_ po) as [p|] eqn:Hp; cbn zeta.
    + destruct (sd_alive _ d) eqn:Ha in |- *; subst c; [|apply Hst; by rewrite Ha].
      apply wp_ok_eq. unfold CreateSessionDescriptionObserver_OnSuccess. sys_run.
      eapply wp_peer_connection; [exact Hpo|]. rewrite Hp. sys_run.
      apply wp_read_desc; [done|]. sys_run.
      destruct (on_success_ (conductor s)); sys_run; [apply wp_read_desc; [done|]; sys_run|];
        by rewrite <-?app_assoc.
    + apply wp_ok_eq. unfold CreateSessionDescriptionObserver_OnSuccess. sys_run.
      eapply wp_peer_connection; [exact Hpo|]. rewrite Hp. by sys_run.
  - unfold CreateSessionDescriptionObserver_OnFailure. by sys_run.
  - unfold peer_callback, PeerConnectionObserver_OnIceCandidate, HandleIceCandidate. sys_run.
    subst c. destruct (on_ice_candidate_ (conductor s)) eqn:Hcb; sys_run;
      destruct (ic_ToString (world s) k) eqn:Hs; rewrite ?Hs; by sys_run; rewrite ?app_nil_r.
Qed.

(** * Witnesses *)

#[local] Existing Instance debug_build.

(** A conductor with one server, not initialised yet. *)
Definition fresh_script : list op := [OAddServerConfig "stun:stun.example.org:3478" "" ""].
Definition fresh_end : Sys sample :=
  default (blank_system true) (sample_run true fresh_script).

Lemma fresh_end_reachable : reachable fresh_end.
Proof.
  apply (sample_run_reachable true fresh_script); [reflexivity|vm_compute; reflexivity].
Qed.

Lemma initialize_outcome_witness : ∃ (ok : bool) s',
  InitializePeerConnection 1025 65535 fresh_end = Ok (ok, s') ∧
  phase_of (conductor s') = (if ok then Connected else Deleted).
Proof.
  destruct (initialize_outcome 1025 65535 (mkPeerConnectionObserver 0 None) fresh_end
    fresh_end_reachable eq_refl eq_refl) as (ok&s'&?&?&_). exists ok, s'. split; assumption.
Defined.

Lemma delete_peer_connection_calls_witness : ∃ s',
  DeletePeerConnection connect_end = Ok (tt, s') ∧
  conductor s' = deleted_conductor (conductor connect_end).
Proof.
  destruct (delete_peer_connection_calls connect_end connect_end_reachable)
    as (l&l'&b&s'&?&_&_&?&_). exists s'. split; assumption.
Defined.

Lemma configuration_handed_over_witness : ∃ a',
  configure_allocator 1025 65535 sample_allocator = Ok (true, a') ∧
  (pa_min_port_ a', pa_max_port_ a') = (1025, 65535).
Proof.
  destruct (configuration_handed_over [] 1025 65535 sample_allocator) as (_&_&_&_&_&a'&?&_&_&?);
    [reflexivity|]. exists a'. split; assumption.
Defined.

(** The sample library's channels answer 40000 retransmits, which comes out
    negative. *)
Lemma channel_queries_witness : ∃ i,
  GetDataChannelInfo "chat" connect_end = Ok (Some i, connect_end) ∧
  maxRetransmits i = 40000 - 65536.
Proof.
  destruct (channel_queries "chat" connect_end connect_end_reachable) as [_ H].
  assert (registry (conductor connect_end) !! "chat" = @Some chan 100%nat) as E
    by (vm_compute; reflexivity).
  rewrite E in H. destruct H as (i&Hi&_&_&_&_&_&_&_&_&_&Hr&_).
  exists i. split; [exact Hi|]. rewrite Hr. vm_compute. reflexivity.
Defined.

Lemma send_reaches_channel_witness : ∃ s',
  SendToDataChannel "chat" (DataBuffer_of_text "hi") connect_end = Ok (tt, s') ∧
  trace s' = trace connect_end ++ [CDcSend 100%nat (DataBuffer_of_text "hi")].
Proof.
  destruct (send_reaches_channel "chat" (DataBuffer_of_text "hi") connect_end
    connect_end_reachable) as (s'&Hs&_&H).
  assert (registry (conductor connect_end) !! "chat" = @Some chan 100%nat) as E
    by (vm_compute; reflexivity).
  rewrite E in H. exists s'. split; [exact Hs|apply H].
Defined.

Lemma signalling_calls_witness :
  wp CreateOffer (λ _ s', trace s' = trace connect_end ++
    [CCreateOffer 7%nat (Some 1%nat) (data_only_options true)]) connect_end.
Proof.
  destruct (signalling_calls "answer" "v=0" (mkPeerConnectionObserver 0 (Some 7%nat))
    connect_end) as [H _]; [vm_compute; reflexivity|].
  eapply wp_mono; [exact H|]. intros ? s' [_ Ht]. rewrite Ht. reflexivity.
Defined.

(** A state with a peer connection and nothing else. *)
Definition bare_system : Sys sample :=
  mkSys (blank_conductor <| peer_observer_ := Some (mkPeerConnectionObserver 0 (Some 7%nat)) |>)
    (sample_world true) [] 1.

Lemma add_ice_candidate_result_witness : ∃ s',
  AddIceCandidate "data" 0 "candidate:1" bare_system = Ok (true, s').
Proof.
  pose proof (add_ice_candidate_result "data" 0 "candidate:1"
    (mkPeerConnectionObserver 0 (Some 7%nat)) bare_system eq_refl) as H.
  simpl in H. destruct H as (r&s'&Hr&_&Hi&_). exists s'. rewrite Hr.
  assert (r = true) as -> by (apply Hi; by exists 4%nat, 7%nat). reflexivity.
Defined.

Lemma channel_events_delivered_witness : ∃ s',
  run (EChannel "chat" OnStateChange) connect_end = Ok (tt, s') ∧
  last (trace s') = Some (CNative 5%nat (NOnDataChannelState "chat" DataChannelInterface.kOpen)).
Proof.
  eexists. split.
  - apply (channel_events_delivered "chat" 100%nat OnStateChange connect_end
      connect_end_reachable); [vm_compute; reflexivity..|discriminate].
  - vm_compute. reflexivity.
Defined.

(** The sample library keeps the description, so it is reported to the callback. *)
Definition listening_end : Sys sample :=
  match run (OInstall SOnSuccess (Some 1%nat)) connect_end with
  | Ok (_, s) => s
  | Fault _ => connect_end
  end.

Lemma session_events_delivered_witness : ∃ s',
  CreateSessionDescriptionObserver_OnSuccess (Some 3%nat) listening_end = Ok (tt, s') ∧
  trace s' = trace listening_end ++
    [CSetLocalDescription 7%nat (Some 2%nat) 3%nat; CNative 1%nat (NOnSuccess "offer" "v=0")].
Proof.
  destruct (session_events_delivered 3%nat 4%nat "" (mkPeerConnectionObserver 0 (Some 7%nat))
    listening_end) as [H _]; [vm_compute; reflexivity|].
  eexists. split; [exact H|reflexivity].
Defined.
