(* ===== verification/RefCounting.v ===== *)
(** Reference counting: [RefCounter] (rtc_base/ref_counter.h),
    [RefCountedObject] (rtc_base/ref_counted_object.h), the AddRef/Release pair
    Spitfire writes by hand in its two session observers, and the smart pointer
    [scoped_refptr] (api/scoped_refptr.h).

    Objects live in a heap of counters.  [scoped_refptr] is modelled and proved
    against the interface [RefCountInterface] (rtc_base/ref_count.h); both
    implementations are instances of it.  The last part models the atomic steps
    of concurrent releases. *)
From S2P Require Import Prelude.
From Stdlib Require Import ZArith Lia.
From stdpp Require Import base tactics relations numbers strings gmap list.

Open Scope Z_scope.

(** * RefCounter *)

Inductive RefCountReleaseStatus := kDroppedLastRef | kOtherRefsRemained.

#[global] Instance RefCountReleaseStatus_eq_dec : EqDecision RefCountReleaseStatus.
Proof. solve_decision. Defined.

(** [ref_count_] is an [std::atomic<int>], whose arithmetic wraps around. *)
Module RefCounter.
Definition IncRef (ref_count_ : Z) : Z := wrap_s 32 (ref_count_ + 1).

Definition DecRef (ref_count_ : Z) : RefCountReleaseStatus * Z :=
  let ref_count_after_subtract := wrap_s 32 (ref_count_ - 1) in
  (if ref_count_after_subtract =? 0 then kDroppedLastRef else kOtherRefsRemained,
   ref_count_after_subtract).

Definition HasOneRef (ref_count_ : Z) : bool := ref_count_ =? 1.
End RefCounter.

(** * The heap of counted objects *)

Record RefHeap := mkRefHeap {
  counters : gmap nat Z;
  fresh_object : nat;
  destroyed : list nat
}.

(** Reading the counter of a destroyed object is a use after free. *)
Definition ref_count (a : nat) : M RefHeap Z :=
  h ← get;
  match counters h !! a with
  | Some n => mret n
  | None => fail (UseAfterFree "ref_count_")
  end.

Definition set_ref_count (a : nat) (n : Z) : M RefHeap unit :=
  modify (λ h, mkRefHeap (<[a := n]> (counters h)) (fresh_object h) (destroyed h)).

(** [delete this] *)
Definition delete_this (a : nat) : M RefHeap unit :=
  _ ← ref_count a;
  modify (λ h, mkRefHeap (delete a (counters h)) (fresh_object h) (destroyed h ++ [a])).

(** [new T]: the counter starts at zero. *)
Definition new_object : M RefHeap nat :=
  h ← get;
  let a := fresh_object h in
  _ ← put (mkRefHeap (<[a := 0]> (counters h)) (S a) (destroyed h));
  mret a.

(** * The interface of counted objects *)

Class RefCountInterface := {
  AddRef : nat → M RefHeap unit;
  Release : nat → M RefHeap RefCountReleaseStatus
}.

(** What ref_count.h promises: a new reference, one reference less, and
    destruction with the last one. *)
Class RefCountLaws `{RefCountInterface} : Prop := {
  AddRef_spec : ∀ a n h, counters h !! a = Some n → 0 ≤ n < 2 ^ 31 - 1 →
    AddRef a h = Ok (tt, mkRefHeap (<[a := n + 1]> (counters h)) (fresh_object h) (destroyed h));
  Release_last : ∀ a h, counters h !! a = Some 1 →
    Release a h = Ok (kDroppedLastRef,
      mkRefHeap (delete a (counters h)) (fresh_object h) (destroyed h ++ [a]));
  Release_other : ∀ a n h, counters h !! a = Some n → 1 < n < 2 ^ 31 →
    Release a h = Ok (kOtherRefsRemained,
      mkRefHeap (<[a := n - 1]> (counters h)) (fresh_object h) (destroyed h))
}.

(** ** rtc::RefCountedObject *)
Module RefCountedObject.
Definition AddRef (a : nat) : M RefHeap unit :=
  n ← ref_count a; set_ref_count a (RefCounter.IncRef n).

Definition Release (a : nat) : M RefHeap RefCountReleaseStatus :=
  n ← ref_count a;
  let '(status, n') := RefCounter.DecRef n in
  _ ← set_ref_count a n';
  _ ← (if bool_decide (status = kDroppedLastRef) then delete_this a else mret tt);
  mret status.

Definition HasOneRef (a : nat) : M RefHeap bool :=
  n ← ref_count a; mret (RefCounter.HasOneRef n).
End RefCountedObject.

#[export] Instance counted_object : RefCountInterface :=
  {| AddRef := RefCountedObject.AddRef; Release := RefCountedObject.Release |}.

(** ** Spitfire's session observers: the test comes before the decrement, and
       the status of the decrement is dropped *)
Module SessionObserver.
Definition AddRef (a : nat) : M RefHeap unit :=
  n ← ref_count a; set_ref_count a (RefCounter.IncRef n).

Definition Release (a : nat) : M RefHeap RefCountReleaseStatus :=
  n ← ref_count a;
  if RefCounter.HasOneRef n then
    _ ← delete_this a;
    mret kDroppedLastRef
  else
    n ← ref_count a;
    let '(_, n') := RefCounter.DecRef n in
    _ ← set_ref_count a n';
    mret kOtherRefsRemained.
End SessionObserver.

Definition session_observer : RefCountInterface :=
  {| AddRef := SessionObserver.AddRef; Release := SessionObserver.Release |}.

(** ** Both keep the promise *)

Lemma wrap_s32_id z : - 2 ^ 31 ≤ z < 2 ^ 31 → wrap_s 32 z = z.
Proof. intros Hz. apply wrap_s_id; [lia|]. exact Hz. Qed.

Ltac heap_run :=
  unfold delete_this, ref_count, set_ref_count, mbind, M_bind, mret, M_ret, get, modify;
  simpl.

#[export] Instance counted_object_laws : RefCountLaws.
Proof.
  split; intros a; [intros n h Ha Hn|intros h Ha|intros n h Ha Hn]; simpl;
    unfold RefCountedObject.AddRef, RefCountedObject.Release, RefCounter.IncRef,
      RefCounter.DecRef; heap_run; rewrite Ha.
  - by rewrite wrap_s32_id by lia.
  - change (wrap_s 32 (1 - 1)) with 0. simpl. rewrite lookup_insert_eq. simpl. by rewrite delete_insert_eq.
  - rewrite wrap_s32_id by lia. destruct (Z.eqb_spec (n - 1) 0); [lia|done].
Qed.

Lemma session_observer_laws : @RefCountLaws session_observer.
Proof.
  split; intros a; [intros n h Ha Hn|intros h Ha|intros n h Ha Hn]; simpl;
    unfold SessionObserver.AddRef, SessionObserver.Release, RefCounter.IncRef,
      RefCounter.DecRef, RefCounter.HasOneRef; heap_run; rewrite Ha.
  - by rewrite wrap_s32_id by lia.
  - simpl. by rewrite Ha.
  - destruct (Z.eqb_spec n 1); [lia|]. rewrite Ha. by rewrite wrap_s32_id by lia.
Qed.

(** * A heap that agrees with the references to it *)

Definition occurrences (a : nat) (R : list nat) : nat := length (filter (a =.) R).

(** [holds h R]: the references that exist are those of the list [R].  An
    object is alive exactly while there is one, and its counter says how many;
    every object that was ever made is alive or was destroyed, once. *)
Record holds (h : RefHeap) (R : list nat) : Prop := {
  holds_count : ∀ a, counters h !! a =
    if (occurrences a R =? 0)%nat then None else Some (Z.of_nat (occurrences a R));
  holds_bound : ∀ a, a ∈ R → (a < fresh_object h)%nat;
  holds_destroyed : ∀ a, a ∈ destroyed h ↔ (a < fresh_object h)%nat ∧ a ∉ R;
  holds_once : NoDup (destroyed h)
}.

#[export] Instance occurrences_proper a : Proper ((≡ₚ) ==> (=)) (occurrences a).
Proof. intros R R' HR. unfold occurrences. by apply Permutation_length, filter_Permutation. Qed.

#[export] Instance holds_proper h : Proper ((≡ₚ) ==> iff) (holds h).
Proof.
  assert (∀ R R', R ≡ₚ R' → holds h R → holds h R') as H.
  2: { intros R R' HR. split; apply H; [done|by symmetry]. }
  intros R R' HR [Hc Hb Hd Ho]. split; [..|done].
  - intros a. by rewrite Hc, (occurrences_proper a _ _ HR).
  - intros a. rewrite <-HR. apply Hb.
  - intros a. by rewrite Hd, HR.
Qed.

Lemma occurrences_cons a b R :
  occurrences a (b :: R) = if decide (a = b) then S (occurrences a R) else occurrences a R.
Proof. unfold occurrences. rewrite filter_cons. by destruct (decide (a = b)). Qed.

Lemma occurrences_elem a R : a ∈ R ↔ occurrences a R ≠ 0%nat.
Proof.
  unfold occurrences. rewrite length_zero_iff_nil. split.
  - intros Ha Hn. assert (a ∈ filter (a =.) R) as Hf by (by apply list_elem_of_filter).
    rewrite Hn in Hf. by apply not_elem_of_nil in Hf.
  - intros Hn. destruct (filter (a =.) R) as [|b F] eqn:HF; [done|].
    assert (b ∈ filter (a =.) R) as Hb by (rewrite HF; left).
    apply list_elem_of_filter in Hb as [-> ?]. done.
Qed.

Lemma occurrences_length a R : (occurrences a R ≤ length R)%nat.
Proof. apply length_filter. Qed.

Lemma holds_live h R a : holds h R → a ∈ R →
  counters h !! a = Some (Z.of_nat (occurrences a R)) ∧ (0 < occurrences a R)%nat.
Proof.
  intros Hh Ha%occurrences_elem. rewrite (holds_count _ _ Hh).
  destruct (Nat.eqb_spec (occurrences a R) 0); [done|]. split; [done|lia].
Qed.

Section Interface.
Context `{RefCountLaws}.

(** One more reference to an object somebody holds. *)
Lemma wp_AddRef a R h :
  holds h R → a ∈ R → Z.of_nat (length R) < 2 ^ 31 - 1 →
  wp (AddRef a) (λ _ h', holds h' (a :: R)) h.
Proof.
  intros Hh Ha Hlen. destruct (holds_live h R a Hh Ha) as [Hc Hpos].
  pose proof (occurrences_length a R).
  unfold wp. rewrite (AddRef_spec a (Z.of_nat (occurrences a R)) h) by (done || lia).
  split; simpl.
  - intros b. rewrite occurrences_cons. destruct (decide (b = a)) as [->|Hne].
    + rewrite lookup_insert_eq. simpl. f_equal. lia.
    + rewrite lookup_insert_ne by done. apply Hh.
  - intros b [->|]%elem_of_cons; by apply (holds_bound _ _ Hh).
  - intros b. rewrite (holds_destroyed _ _ Hh), elem_of_cons.
    destruct (decide (b = a)) as [->|]; tauto.
  - apply Hh.
Qed.

(** One reference less; the object is destroyed when that was the last one. *)
Lemma wp_Release a R h :
  holds h (a :: R) → Z.of_nat (length R) < 2 ^ 31 - 1 →
  wp (Release a)
    (λ status h', holds h' R ∧ (status = kDroppedLastRef ↔ a ∉ R)) h.
Proof.
  intros Hh Hlen. destruct (holds_live h (a :: R) a Hh) as [Hc Hpos]; [left|].
  rewrite occurrences_cons, decide_True in Hc by done.
  pose proof (occurrences_length a R). pose proof (occurrences_elem a R) as He.
  assert (∀ b, b ≠ a → counters h !! b =
    if (occurrences b R =? 0)%nat then None else Some (Z.of_nat (occurrences b R))) as Hother.
  { intros b Hb. rewrite (holds_count _ _ Hh), occurrences_cons. by rewrite decide_False by done. }
  assert (∀ b, b ∈ R → (b < fresh_object h)%nat) as Hbound.
  { intros b Hb. apply (holds_bound _ _ Hh). by right. }
  unfold wp. destruct (decide (occurrences a R = 0%nat)) as [Hzero|Hn].
  - rewrite Release_last by (rewrite Hc, Hzero; done).
    assert (a ∉ R) as Hna by (rewrite He; lia). split; [|done].
    assert (a ∉ destroyed h) as Hnd by (rewrite (holds_destroyed _ _ Hh); set_solver).
    split; simpl; [|done|..].
    + intros b. destruct (decide (b = a)) as [->|Hb].
      * by rewrite lookup_delete_eq, Hzero.
      * rewrite lookup_delete_ne by done. by apply Hother.
    + intros b. rewrite elem_of_app, list_elem_of_singleton, (holds_destroyed _ _ Hh).
      rewrite elem_of_cons. pose proof (holds_bound _ _ Hh a (list_elem_of_here _ _)).
      destruct (decide (b = a)) as [->|]; tauto.
    + apply NoDup_app. split_and!; [apply Hh|set_solver|apply NoDup_singleton].
  - rewrite (Release_other a (Z.of_nat (S (occurrences a R)))) by (done || lia).
    assert (a ∈ R) as Ha by (by rewrite He). split; [|split; [done|by intros []]].
    split; simpl; [|done|..].
    + intros b. destruct (decide (b = a)) as [->|Hb].
      * rewrite lookup_insert_eq. destruct (Nat.eqb_spec (occurrences a R) 0); [done|].
        f_equal. lia.
      * rewrite lookup_insert_ne by done. by apply Hother.
    + intros b. rewrite (holds_destroyed _ _ Hh), elem_of_cons.
      destruct (decide (b = a)) as [->|]; tauto.
    + apply Hh.
Qed.

(** A new object and the first reference to it. *)
Lemma wp_new_AddRef R h :
  holds h R → wp (a ← new_object; _ ← AddRef a; mret a) (λ a h', holds h' (a :: R)) h.
Proof.
  intros Hh. set (a := fresh_object h).
  set (h1 := mkRefHeap (<[a := 0]> (counters h)) (S a) (destroyed h)).
  assert (a ∉ R) as Ha by (intros Ha; apply (holds_bound _ _ Hh) in Ha; lia).
  assert (a ∉ destroyed h) as Hd by (rewrite (holds_destroyed _ _ Hh); lia).
  wp_run. unfold new_object, wp, mbind, M_bind, get, put, mret, M_ret. fold a h1.
  rewrite (AddRef_spec a 0 h1) by first [apply lookup_insert_eq | lia]. simpl.
  split; simpl; [| | |apply Hh].
  - intros b. rewrite occurrences_cons. destruct (decide (b = a)) as [->|Hb].
    + rewrite lookup_insert_eq. simpl. f_equal.
      assert (occurrences a R = 0%nat) as ->; [|done].
      destruct (decide (occurrences a R = 0%nat)); [done|]. by rewrite <-occurrences_elem in *.
    + rewrite !lookup_insert_ne by done. apply Hh.
  - intros b [->|Hb]%elem_of_cons; [lia|]. apply (holds_bound _ _ Hh) in Hb. lia.
  - intros b. rewrite (holds_destroyed _ _ Hh), elem_of_cons. split.
    + intros [Hb HR]. split; [lia|]. intros [->|]; [lia|done].
    + intros [Hb HR]. split; [|tauto]. assert (b ≠ a) by tauto. lia.
Qed.

End Interface.

(** * scoped_refptr

    The state of a program part that uses smart pointers: the heap, the
    [ptr_] members of the [scoped_refptr] objects in scope, by name, and the
    references owned through raw pointers (what [release] handed out). *)
Record PtrState := mkPtrState {
  ref_heap : RefHeap;
  ptrs : gmap string (option nat);
  raw_owned : list nat
}.

(** Giving up one of the raw references. *)
Fixpoint remove_one (a : nat) (R : list nat) : list nat :=
  match R with
  | [] => []
  | b :: R' => if decide (a = b) then R' else b :: remove_one a R'
  end.

(** The name of the temporary in the move assignments. *)
Definition temporary : string := "(temporary)".

Module scoped_refptr.
Section Ops.
Context `{RefCountInterface}.

Definition on_heap {A} (m : M RefHeap A) : M PtrState A :=
  s ← get;
  '(a, h) ← on_local (ref_heap s) m;
  _ ← put (mkPtrState h (ptrs s) (raw_owned s));
  mret a.

(** Reading and writing the member [ptr_] of the pointer [x]; touching a
    pointer outside its lifetime is a use after free. *)
Definition ptr_ (x : string) : M PtrState (option nat) :=
  s ← get;
  match ptrs s !! x with
  | Some p => mret p
  | None => fail (UseAfterFree "scoped_refptr")
  end.

Definition set_ptr_ (x : string) (p : option nat) : M PtrState unit :=
  modify (λ s, mkPtrState (ref_heap s) (<[x := p]> (ptrs s)) (raw_owned s)).

(** [if (p) p->AddRef()] and [if (p) p->Release()] *)
Definition add_ref (p : option nat) : M PtrState unit :=
  match p with Some a => on_heap (AddRef a) | None => mret tt end.
Definition drop_ref (p : option nat) : M PtrState unit :=
  match p with Some a => _ ← on_heap (Release a); mret tt | None => mret tt end.

Definition construct (x : string) : M PtrState unit := set_ptr_ x None.

Definition construct_raw (x : string) (p : option nat) : M PtrState unit :=
  _ ← set_ptr_ x p;
  add_ref p.

Definition construct_copy (x r : string) : M PtrState unit :=
  p ← ptr_ r;
  _ ← set_ptr_ x p;
  add_ref p.

Definition release (x : string) : M PtrState (option nat) :=
  retVal ← ptr_ x;
  _ ← set_ptr_ x None;
  mret retVal.

Definition construct_move (x r : string) : M PtrState unit :=
  p ← release r;
  set_ptr_ x p.

Definition destruct_ (x : string) : M PtrState unit :=
  p ← ptr_ x;
  _ ← drop_ref p;
  modify (λ s, mkPtrState (ref_heap s) (delete x (ptrs s)) (raw_owned s)).

Definition get_ (x : string) : M PtrState (option nat) := ptr_ x.

Definition assign_raw (x : string) (p : option nat) : M PtrState unit :=
  _ ← add_ref p;
  old ← ptr_ x;
  _ ← drop_ref old;
  set_ptr_ x p.

Definition assign_copy (x r : string) : M PtrState unit :=
  p ← ptr_ r;
  assign_raw x p.

Definition swap (x y : string) : M PtrState unit :=
  p ← ptr_ x;
  q ← ptr_ y;
  _ ← set_ptr_ x q;
  set_ptr_ y p.

(** [scoped_refptr<T>(std::move(r)).swap( *this)]: a temporary that is
    destroyed at the end of the statement. *)
Definition assign_move (x r : string) : M PtrState unit :=
  _ ← construct_move temporary r;
  _ ← swap temporary x;
  destruct_ temporary.

End Ops.
End scoped_refptr.

(** ** Programs that use smart pointers *)

Inductive ptr_op :=
  | PDefault (x : string)            (* scoped_refptr<T> x;               *)
  | PNew (x : string)                (* scoped_refptr<T> x(new T);        *)
  | PCopy (x r : string)             (* scoped_refptr<T> x(r);            *)
  | PMove (x r : string)             (* scoped_refptr<T> x(std::move(r)); *)
  | PDestroy (x : string)            (* the end of the scope of x         *)
  | PAssign (x r : string)           (* x = r;  x = r.get();              *)
  | PAssignNull (x : string)         (* x = nullptr;                      *)
  | PAssignMove (x r : string)       (* x = std::move(r);                 *)
  | PSwap (x y : string)             (* x.swap(y);                        *)
  | PReleaseRaw (x : string)         (* raw = x.release();                *)
  | PDropRaw (a : nat).              (* raw->Release();                   *)

Section Programs.
Context `{RefCountInterface}.
Import scoped_refptr.

Definition ptr_run (o : ptr_op) : M PtrState unit :=
  match o with
  | PDefault x => construct x
  | PNew x =>
    (* the object has no reference until the pointer adds one *)
    a ← on_heap new_object;
    construct_raw x (Some a)
  | PCopy x r => construct_copy x r
  | PMove x r => construct_move x r
  | PDestroy x => destruct_ x
  | PAssign x r => assign_copy x r
  | PAssignNull x => assign_raw x None
  | PAssignMove x r => assign_move x r
  | PSwap x y => swap x y
  | PReleaseRaw x =>
    p ← release x;
    modify (λ s, mkPtrState (ref_heap s) (ptrs s)
                   (match p with Some a => a :: raw_owned s | None => raw_owned s end))
  | PDropRaw a =>
    _ ← on_heap (Release a);
    modify (λ s, mkPtrState (ref_heap s) (ptrs s) (remove_one a (raw_owned s)))
  end.

End Programs.

(** ** The references of a program *)

Definition pointed (p : option nat) : list nat := match p with Some a => [a] | None => [] end.

Definition refs (m : gmap string (option nat)) : list nat := map_to_list m ≫= λ e, pointed e.2.

Definition references (s : PtrState) : list nat := refs (ptrs s) ++ raw_owned s.

(** Scoping, which the compiler guarantees: constructors make new pointers,
    everything else uses pointers in scope; a raw reference is given up by its
    owner. *)
Definition ptr_scoped (o : ptr_op) (s : PtrState) : Prop :=
  let fresh x := ptrs s !! x = None ∧ x ≠ temporary in
  let live x := is_Some (ptrs s !! x) in
  match o with
  | PDefault x | PNew x => fresh x
  | PCopy x r | PMove x r => fresh x ∧ live r
  | PDestroy x | PAssignNull x | PReleaseRaw x => live x
  | PAssign x r | PAssignMove x r | PSwap x r => live x ∧ live r
  | PDropRaw a => a ∈ raw_owned s
  end.

(** The counters tell the truth: see [holds]. *)
Definition ptr_ok (s : PtrState) : Prop :=
  holds (ref_heap s) (references s) ∧ ptrs s !! temporary = None.

Lemma refs_insert_new m x p : m !! x = None → refs (<[x := p]> m) ≡ₚ pointed p ++ refs m.
Proof. intros Hx. unfold refs. by rewrite map_to_list_insert. Qed.

Lemma refs_delete m x p : m !! x = Some p → refs m ≡ₚ pointed p ++ refs (delete x m).
Proof. intros Hx. unfold refs. by rewrite <-(map_to_list_delete _ _ _ Hx). Qed.

Lemma refs_insert m x p : refs (<[x := p]> m) ≡ₚ pointed p ++ refs (delete x m).
Proof. rewrite <-insert_delete_eq. apply refs_insert_new, lookup_delete_eq. Qed.

Lemma refs_length m : (length (refs m) ≤ size m)%nat.
Proof.
  unfold refs. rewrite <-length_map_to_list. induction (map_to_list m) as [|[x p] l IH]; [done|].
  rewrite bind_cons, length_app. destruct p; simpl in *; lia.
Qed.

Lemma pointed_live m x p a : m !! x = Some p → p = Some a → a ∈ refs m.
Proof. intros Hx ->. rewrite (refs_delete _ _ _ Hx). left. Qed.

Lemma remove_one_perm a R : a ∈ R → R ≡ₚ a :: remove_one a R.
Proof.
  induction R as [|b R IH]; intros Ha; [by apply not_elem_of_nil in Ha|]. simpl.
  destruct (decide (a = b)) as [->|Hne]; [done|].
  apply elem_of_cons in Ha as [?|Ha]; [done|]. rewrite (IH Ha) at 1. apply Permutation_swap.
Qed.

Section Correct.
Context `{RefCountLaws}.
Import scoped_refptr.
Implicit Types s : PtrState.

Lemma wp_on_heap {A} (m : M RefHeap A) Q s :
  wp m (λ a h, Q a (mkPtrState h (ptrs s) (raw_owned s))) (ref_heap s) →
  wp (on_heap m) Q s.
Proof. intros Hm. unfold on_heap. wp_run. apply wp_on_local. eapply wp_mono; [exact Hm|]. done. Qed.

Lemma wp_ptr_ x p Q s : ptrs s !! x = Some p → Q p s → wp (ptr_ x) Q s.
Proof. intros Hx HQ. unfold ptr_. wp_run. by rewrite Hx. Qed.

Lemma wp_set_ptr_ x p Q s :
  Q tt (mkPtrState (ref_heap s) (<[x := p]> (ptrs s)) (raw_owned s)) → wp (set_ptr_ x p) Q s.
Proof. done. Qed.

Definition few (R : list nat) : Prop := Z.of_nat (length R) < 2 ^ 31 - 1.

Lemma wp_add_ref p R Q s :
  holds (ref_heap s) R → few R → (∀ a, p = Some a → a ∈ R) →
  (∀ h', holds h' (pointed p ++ R) → Q tt (mkPtrState h' (ptrs s) (raw_owned s))) →
  wp (add_ref p) Q s.
Proof.
  intros Hh Hlen Ha HQ. destruct p as [a|]; simpl.
  - apply wp_on_heap. eapply wp_mono; [by apply wp_AddRef; [exact Hh|apply Ha|]|].
    intros [] h'. apply HQ.
  - destruct s. by apply HQ.
Qed.

Lemma wp_drop_ref p R Q s :
  holds (ref_heap s) (pointed p ++ R) → few R →
  (∀ h', holds h' R → Q tt (mkPtrState h' (ptrs s) (raw_owned s))) →
  wp (drop_ref p) Q s.
Proof.
  intros Hh Hlen HQ. destruct p as [a|]; simpl.
  - wp_run. apply wp_on_heap. eapply wp_mono; [by apply (wp_Release a R)|].
    intros st h' [Hh' _]. by apply HQ.
  - destruct s. by apply HQ.
Qed.

(** Room for one more reference. *)
Definition room s : Prop := Z.of_nat (size (ptrs s) + length (raw_owned s)) < 2 ^ 31 - 2.

Lemma room_few s : room s → few (references s).
Proof.
  intros Hr. unfold few, references. rewrite length_app. pose proof (refs_length (ptrs s)).
  unfold room in Hr. lia.
Qed.

Lemma few_sub R R' T : few R → R ≡ₚ R' ++ T → few T.
Proof. unfold few. intros Hf HR. rewrite HR, length_app in Hf. lia. Qed.

Lemma ok_PNew x s : ptr_ok s → ptr_scoped (PNew x) s → wp (ptr_run (PNew x)) (λ _, ptr_ok) s.
Proof.
  intros [Hh Ht] [Hx Hne]. simpl. unfold construct_raw, add_ref.
  pose proof (wp_new_AddRef (references s) (ref_heap s) Hh) as Hn.
  unfold wp, mbind, M_bind, on_heap, on_local, set_ptr_, modify, get, put, mret, M_ret in *.
  unfold new_object, mbind, M_bind, get, put, mret, M_ret in *. simpl in *.
  destruct (AddRef _ _) as [[[] h']|]; [|done]. split; simpl.
  - unfold references in *; simpl. by rewrite refs_insert_new.
  - by rewrite lookup_insert_ne.
Qed.

(** What assigning or giving [p] to [x] comes to. *)
Definition assigned x p s s' : Prop :=
  ptr_ok s' ∧ ptrs s' = <[x := p]> (ptrs s) ∧ raw_owned s' = raw_owned s.

Lemma wp_ptr_construct_copy x r p s : ptr_ok s → ptrs s !! x = None → x ≠ temporary → ptrs s !! r = Some p → room s →
  wp (construct_copy x r) (λ _, assigned x p s) s.
Proof.
  intros [Hh Ht] Hx Hne Hp Hroom. unfold construct_copy. wp_run.
  eapply wp_ptr_; [done|]. wp_run. apply wp_set_ptr_.
  apply (wp_add_ref p (references s)); simpl; [done|by apply room_few| |].
  - intros a Ha. apply elem_of_app. left. by eapply pointed_live.
  - intros h' Hh'. split; [|done]. split; simpl; [|by rewrite lookup_insert_ne].
    unfold references in *; simpl. by rewrite refs_insert_new, <-app_assoc.
Qed.

Lemma wp_release x p Q s : ptrs s !! x = Some p →
  Q p (mkPtrState (ref_heap s) (<[x := None]> (ptrs s)) (raw_owned s)) → wp (release x) Q s.
Proof. intros Hx HQ. unfold release. wp_run. eapply wp_ptr_; [done|]. by wp_run. Qed.

Lemma ok_PMove x r s : ptr_ok s → ptr_scoped (PMove x r) s →
  wp (ptr_run (PMove x r)) (λ _, ptr_ok) s.
Proof.
  intros [Hh Ht] [[Hx Hne] [p Hp]]. simpl. unfold construct_move. wp_run.
  eapply wp_release; [done|]. apply wp_set_ptr_. simpl.
  assert (x ≠ r) by (intros ->; by simplify_eq).
  assert (r ≠ temporary) by (intros ->; by simplify_eq).
  split; simpl; [|by rewrite !lookup_insert_ne].
  unfold references in *; simpl. rewrite refs_insert_new by (by rewrite lookup_insert_ne).
  rewrite refs_insert. simpl. by rewrite (refs_delete _ _ _ Hp) in Hh.
Qed.

Lemma ok_PDestroy x s : ptr_ok s → ptr_scoped (PDestroy x) s → room s →
  wp (ptr_run (PDestroy x)) (λ _, ptr_ok) s.
Proof.
  intros [Hh Ht] [p Hp] Hroom. simpl. unfold destruct_. wp_run. eapply wp_ptr_; [done|]. wp_run.
  pose proof (refs_delete _ _ _ Hp) as Hperm. pose proof (room_few s Hroom) as Hfew.
  unfold references in *. rewrite Hperm, <-app_assoc in Hh.
  apply (wp_drop_ref p (refs (delete x (ptrs s)) ++ raw_owned s)); [done| |].
  - eapply few_sub; [exact Hfew|]. by rewrite Hperm, <-app_assoc.
  - intros h' Hh'. wp_run. split; simpl; [done|]. by rewrite lookup_delete_None; right.
Qed.

(** The end of an assignment, once the new reference is counted. *)
Lemma wp_replace_ptr x p s h1 : ptrs s !! temporary = None → is_Some (ptrs s !! x) → room s →
  holds h1 (pointed p ++ references s) →
  wp (old ← ptr_ x; _ ← drop_ref old; set_ptr_ x p) (λ _, assigned x p s)
     (mkPtrState h1 (ptrs s) (raw_owned s)).
Proof.
  intros Ht [q Hq] Hroom Hh1. wp_run.
  eapply wp_ptr_; [done|]. wp_run.
  pose proof (refs_delete _ _ _ Hq) as Hperm. unfold references in *.
  assert (pointed p ++ refs (ptrs s) ++ raw_owned s ≡ₚ
    pointed q ++ pointed p ++ refs (delete x (ptrs s)) ++ raw_owned s) as HP.
  { rewrite Hperm, <-app_assoc. apply Permutation_app_swap_app. }
  rewrite HP in Hh1. eapply wp_drop_ref; [exact Hh1|..].
  - unfold few in *. pose proof (refs_length (ptrs s)) as Hl. rewrite Hperm in Hl.
    unfold room in Hroom. rewrite !length_app in *. destruct p; simpl in *; lia.
  - intros h2 Hh2. wp_run. split; [|done]. split; simpl.
    + unfold references; simpl. by rewrite refs_insert, <-app_assoc.
    + rewrite lookup_insert_ne; [done|]. intros ->. by simplify_eq.
Qed.

Lemma wp_assign_raw x p s : ptr_ok s → is_Some (ptrs s !! x) → room s →
  (∀ a, p = Some a → a ∈ references s) → wp (assign_raw x p) (λ _, assigned x p s) s.
Proof.
  intros [Hh Ht] Hx Hroom Hlive. unfold assign_raw. wp_run.
  apply (wp_add_ref p (references s)); [done|by apply room_few|done|]. intros h1 Hh1.
  by apply wp_replace_ptr.
Qed.

(** [x = new T]: the state between the two is that of an object without references. *)
Lemma wp_assign_new x s : ptr_ok s → is_Some (ptrs s !! x) → room s →
  let a := fresh_object (ref_heap s) in
  let s1 := mkPtrState (mkRefHeap (<[a := 0]> (counters (ref_heap s))) (S a) (destroyed (ref_heap s)))
              (ptrs s) (raw_owned s) in
  on_heap new_object s = Ok (a, s1) ∧ wp (assign_raw x (Some a)) (λ _, assigned x (Some a) s) s1.
Proof.
  intros [Hh Ht] Hx Hroom a s1. split; [done|]. unfold assign_raw. wp_run. apply wp_on_heap.
  pose proof (wp_new_AddRef (references s) (ref_heap s) Hh) as Hn.
  unfold wp, mbind, M_bind, new_object, get, put, mret, M_ret in *. simpl in *. fold a in Hn |- *.
  destruct (AddRef _ _) as [[[] h']|]; [|done]. by apply (wp_replace_ptr x (Some a) s).
Qed.

Lemma wp_swap x y p q s : ptr_ok s → ptrs s !! x = Some p → ptrs s !! y = Some q →
  wp (swap x y) (λ _ s', ptr_ok s' ∧ ptrs s' = <[y := p]> (<[x := q]> (ptrs s)) ∧ raw_owned s' = raw_owned s) s.
Proof.
  intros [Hh Ht] Hp Hq. unfold swap. wp_run.
  eapply wp_ptr_; [done|]. wp_run. eapply wp_ptr_; [done|]. wp_run.
  apply wp_set_ptr_. simpl.
  assert (x ≠ temporary ∧ y ≠ temporary) as [] by (split; intros ->; by simplify_eq).
  split; [|done]. split; simpl; [|by rewrite !lookup_insert_ne].
  unfold references in *; simpl. destruct (decide (x = y)) as [->|Hne].
  - rewrite insert_insert_eq, insert_id; [done|]. by simplify_eq.
  - rewrite refs_insert, delete_insert_ne, refs_insert by done.
    rewrite (refs_delete _ _ _ Hq), (refs_delete _ x p) in Hh by (by rewrite lookup_delete_ne).
    rewrite <-!app_assoc in *.
    by rewrite Permutation_app_swap_app in Hh.
Qed.

Lemma ok_PReleaseRaw x s : ptr_ok s → ptr_scoped (PReleaseRaw x) s →
  wp (ptr_run (PReleaseRaw x)) (λ _, ptr_ok) s.
Proof.
  intros [Hh Ht] [p Hp]. simpl. wp_run. eapply wp_release; [done|]. wp_run.
  assert (x ≠ temporary) by (intros ->; by simplify_eq).
  split; simpl; [|by rewrite lookup_insert_ne].
  unfold references in *; simpl. rewrite (refs_delete _ _ _ Hp) in Hh. rewrite refs_insert.
  destruct p as [a|]; simpl in *; [|done]. by rewrite <-Permutation_middle.
Qed.

Lemma ok_PDropRaw a s : ptr_ok s → ptr_scoped (PDropRaw a) s → room s →
  wp (ptr_run (PDropRaw a)) (λ _, ptr_ok) s.
Proof.
  intros [Hh Ht] Ha Hroom. simpl in *. wp_run. apply wp_on_heap.
  pose proof (remove_one_perm _ _ Ha) as Hperm. pose proof (room_few s Hroom) as Hfew.
  unfold references in *. rewrite Hperm, <-Permutation_middle in Hh.
  eapply wp_mono.
  - apply (wp_Release a _ _ Hh). eapply (few_sub _ [a]); [exact Hfew|].
    by rewrite Hperm at 1; rewrite <-Permutation_middle.
  - intros st h' [Hh' _]. wp_run. by split.
Qed.

Lemma wp_assign_move x r q s : ptr_ok s → is_Some (ptrs s !! x) → ptrs s !! r = Some q → room s →
  wp (assign_move x r) (λ _ s', ptr_ok s' ∧ ptrs s' = <[x := q]> (<[r := None]> (ptrs s)) ∧
    raw_owned s' = raw_owned s) s.
Proof.
  intros [Hh Ht] [p Hp] Hq Hroom. unfold assign_move, construct_move. wp_run.
  eapply wp_release; [done|]. apply wp_set_ptr_. simpl. wp_run.
  assert (x ≠ temporary ∧ r ≠ temporary) as [Hxt Hrt] by (split; intros ->; by simplify_eq).
  set (m1 := <[temporary := q]> (<[r := None]> (ptrs s))).
  assert (refs m1 ≡ₚ refs (ptrs s)) as Hm1.
  { subst m1. rewrite refs_insert_new by (by rewrite lookup_insert_ne).
    by rewrite refs_insert, (refs_delete _ _ _ Hq). }
  assert (∃ p', m1 !! x = Some p') as [p' Hp'].
  { subst m1. rewrite lookup_insert_ne by done. destruct (decide (r = x)) as [->|].
    - rewrite lookup_insert_eq. eauto.
    - rewrite lookup_insert_ne; eauto. }
  unfold swap. wp_run. eapply wp_ptr_; [by subst m1; apply lookup_insert_eq|]. wp_run.
  eapply wp_ptr_; [done|]. wp_run. unfold destruct_. apply wp_bind.
  eapply wp_ptr_; [simpl; by rewrite lookup_insert_ne, lookup_insert_eq|]. wp_run.
  assert (refs (ptrs s) ≡ₚ pointed p' ++ pointed q ++ refs (delete x (delete temporary m1)))
    as HP.
  { rewrite <-Hm1, (refs_delete m1 temporary q) by (by subst m1; rewrite lookup_insert_eq).
    rewrite (refs_delete _ x p') by (by rewrite lookup_delete_ne).
    apply Permutation_app_swap_app. }
  unfold references in *. pose proof (room_few s Hroom) as Hfew. unfold references in Hfew.
  rewrite HP, <-app_assoc in Hh. eapply wp_drop_ref; simpl; [exact Hh| |].
  - eapply few_sub; [exact Hfew|]. by rewrite HP at 1; rewrite <-app_assoc.
  - intros h' Hh'. wp_run. split; [split; simpl; [|by rewrite lookup_delete_eq]|split; [simpl|done]].
    + unfold references; simpl. by rewrite delete_insert_ne, delete_insert_eq, refs_insert by done.
    + rewrite delete_insert_ne, delete_insert_eq by done. subst m1.
      by rewrite delete_insert_id by (by rewrite lookup_insert_ne).
Qed.

(** Every statement keeps the books. *)
Lemma ptr_run_ok o s : ptr_ok s → ptr_scoped o s → room s → wp (ptr_run o) (λ _, ptr_ok) s.
Proof.
  intros Hok Hsc Hroom. destruct o.
  - destruct Hok as [Hh Ht], Hsc as [Hx Hne]. simpl. unfold construct. apply wp_set_ptr_.
    split; simpl; [|by rewrite lookup_insert_ne].
    unfold references; simpl. by rewrite refs_insert_new.
  - by apply ok_PNew.
  - destruct Hsc as [[Hx Hne] [p Hp]]. eapply wp_mono; [by apply (wp_ptr_construct_copy x r p)|]. by intros [] s' [? _].
  - by apply ok_PMove.
  - by apply ok_PDestroy.
  - destruct Hsc as [Hx [p Hp]]. simpl. unfold assign_copy. wp_run. eapply wp_ptr_; [done|].
    eapply wp_mono; [apply wp_assign_raw; [done..|]|by intros [] s' [? _]].
    intros a Ha. apply elem_of_app. left. by eapply pointed_live.
  - eapply wp_mono; [by apply wp_assign_raw|]. by intros [] s' [? _].
  - destruct Hsc as [Hx [q Hq]]. eapply wp_mono; [by apply (wp_assign_move x r q)|]. by intros [] s' [? _].
  - destruct Hsc as [[p Hp] [q Hq]]. eapply wp_mono; [by apply (wp_swap x y p q)|]. by intros [] s' [? _].
  - by apply ok_PReleaseRaw.
  - by apply ok_PDropRaw.
Qed.

End Correct.

Definition ptr_start : PtrState := mkPtrState (mkRefHeap ∅ 0 []) ∅ [].

(** One statement of a program with fewer than 2^31 - 2 references. *)
Inductive ptr_step `{RefCountInterface} : PtrState → PtrState → Prop :=
  | ptr_step_op o s s' :
      ptr_scoped o s → room s → ptr_run o s = Ok (tt, s') → ptr_step s s'.

Lemma ptr_start_ok : ptr_ok ptr_start.
Proof.
  split; [|done]. split; try done; simpl.
  - intros a Ha. by apply not_elem_of_nil in Ha.
  - intros a. split; [intros Ha; by apply not_elem_of_nil in Ha|lia].
  - apply NoDup_nil_2.
Qed.

Lemma ptr_reachable_ok `{RefCountLaws} s : rtc ptr_step ptr_start s → ptr_ok s.
Proof.
  generalize ptr_start_ok. generalize ptr_start. intros s0 Hok Hs.
  induction Hs as [|s1 s2 s3 [o ? ? Hsc Hroom Hrun] _ IH]; [done|]. apply IH.
  pose proof (ptr_run_ok o s Hok Hsc Hroom) as Hw. by apply (wp_ok _ _ _ _ _ Hrun) in Hw.
Qed.

(** C18. Smart pointers are sound for every kind of object that keeps the promise
    of ref_count.h, RefCountedObject and (in one thread) Spitfire's session
    observers: after any sequence of statements an object is alive exactly when
    some pointer or raw owner refers to it and its counter is the number of these
    references; an object nobody refers to was destroyed, exactly once; and the
    next statement touches no destroyed object. *)
Theorem smart_pointers_sound `{RefCountLaws} (s : PtrState) :
  rtc ptr_step ptr_start s →
  (∀ a n, counters (ref_heap s) !! a = Some n ↔
     a ∈ references s ∧ n = Z.of_nat (occurrences a (references s))) ∧
  (∀ a, a ∈ destroyed (ref_heap s) ↔
     (a < fresh_object (ref_heap s))%nat ∧ a ∉ references s) ∧
  NoDup (destroyed (ref_heap s)) ∧
  (∀ o, ptr_scoped o s → room s → ∃ s', ptr_run o s = Ok (tt, s')).
Proof.
  intros Hs%ptr_reachable_ok. destruct (Hs) as [Hh _]. split_and!; try apply Hh.
  - intros a n. rewrite (holds_count _ _ Hh), occurrences_elem.
    destruct (Nat.eqb_spec (occurrences a (references s)) 0); naive_solver.
  - intros o Hsc Hroom. destruct (wp_ok_inv _ _ _ (ptr_run_ok o s Hs Hsc Hroom)) as ([]&s'&?&_).
    by exists s'.
Qed.

(** * Concurrent releases

    Several threads, each of which owns one reference to the same object and
    releases it.  A step is one atomic access to the counter, or the deletion. *)

Inductive releaser := RStart | RDecrement | RDelete | RDone.

#[global] Instance releaser_eq_dec : EqDecision releaser.
Proof. solve_decision. Defined.

Record Shared := mkShared {
  shared_count : Z;
  deletions : nat;
  accessed_after_delete : bool;
  releasers : list releaser
}.

(** An access to the counter, in the thread [i]. *)
Definition access (i : nat) (count : Z) (next : releaser) (s : Shared) : Shared :=
  mkShared count (deletions s)
    (accessed_after_delete s || negb (deletions s =? 0)%nat)
    (<[i := next]> (releasers s)).

(** The deletion, in the thread [i]. *)
Definition dispose (i : nat) (s : Shared) : Shared :=
  mkShared (shared_count s) (S (deletions s)) (accessed_after_delete s)
    (<[i := RDone]> (releasers s)).

(** [RefCountedObject::Release]: [fetch_sub], then perhaps [delete this]. *)
Inductive counted_step : Shared → Shared → Prop :=
  | counted_sub i s :
      releasers s !! i = Some RStart →
      counted_step s
        (access i (RefCounter.DecRef (shared_count s)).2
           (match (RefCounter.DecRef (shared_count s)).1 with
            | kDroppedLastRef => RDelete | kOtherRefsRemained => RDone end) s)
  | counted_delete i s :
      releasers s !! i = Some RDelete → counted_step s (dispose i s).

(** The observers' [Release]: a load, then [delete this] or [fetch_sub]. *)
Inductive observer_step : Shared → Shared → Prop :=
  | observer_load i s :
      releasers s !! i = Some RStart →
      observer_step s
        (access i (shared_count s)
           (if RefCounter.HasOneRef (shared_count s) then RDelete else RDecrement) s)
  | observer_sub i s :
      releasers s !! i = Some RDecrement →
      observer_step s (access i (RefCounter.DecRef (shared_count s)).2 RDone s)
  | observer_delete i s :
      releasers s !! i = Some RDelete → observer_step s (dispose i s).

(** [n] threads, one reference each. *)
Definition release_start (n : nat) : Shared :=
  mkShared (Z.of_nat n) 0 false (replicate n RStart).

Definition all_done (s : Shared) : Prop := Forall (eq RDone) (releasers s).

Definition in_state (r : releaser) (s : Shared) : nat := length (filter (r =.) (releasers s)).

Lemma in_state_insert (r r0 r1 : releaser) i l : l !! i = Some r0 →
  (length (filter (r =.) (<[i := r1]> l)) + (if decide (r = r0) then 1 else 0) =
   length (filter (r =.) l) + (if decide (r = r1) then 1 else 0))%nat.
Proof.
  revert i. induction l as [|x l IH]; intros [|i] Hi; simplify_eq/=.
  - rewrite !filter_cons. destruct (decide (r = r0)), (decide (r = r1)); simpl; lia.
  - specialize (IH i Hi). rewrite !filter_cons. destruct (decide (r = x)); simpl; lia.
Qed.

(** How many threads are where after thread [i] moved from [r0] to [r1]. *)
Lemma in_state_move r r0 r1 i s s' :
  releasers s !! i = Some r0 → releasers s' = <[i := r1]> (releasers s) →
  (in_state r s' + (if decide (r = r0) then 1 else 0) =
   in_state r s + (if decide (r = r1) then 1 else 0))%nat.
Proof. intros Hi Hs'. unfold in_state. rewrite Hs'. by apply in_state_insert. Qed.

(** The counts of all four states after a move. *)
Ltac moved Hi s s' r0 r1 :=
  pose proof (in_state_move RStart r0 r1 _ s s' Hi eq_refl);
  pose proof (in_state_move RDecrement r0 r1 _ s s' Hi eq_refl);
  pose proof (in_state_move RDelete r0 r1 _ s s' Hi eq_refl);
  repeat match goal with
    | H : context [decide (?a = ?b)] |- _ => destruct (decide (a = b)); try congruence
    end.

Lemma all_done_none r s : r ≠ RDone → all_done s → in_state r s = 0%nat.
Proof.
  intros Hr Hd. unfold in_state, all_done in *. induction Hd as [|x l <- _ IH]; [done|].
  rewrite filter_cons, decide_False by done. exact IH.
Qed.

Lemma release_start_in_state n :
  in_state RStart (release_start n) = n ∧ in_state RDecrement (release_start n) = 0%nat ∧
  in_state RDelete (release_start n) = 0%nat.
Proof.
  unfold in_state. simpl. induction n as [|n (IH1&IH2&IH3)]; [done|].
  cbn [replicate]. rewrite !filter_cons, decide_True, !decide_False by done. simpl. by rewrite IH1.
Qed.

(** While references are left the object is there; the thread that takes the
    last one, and only that, deletes it. *)
Record counted_inv (s : Shared) : Prop := {
  ci_count : shared_count s = Z.of_nat (in_state RStart s);
  ci_decrement : in_state RDecrement s = 0%nat;
  ci_delete : (in_state RDelete s + deletions s = if (in_state RStart s =? 0)%nat then 1 else 0)%nat;
  ci_safe : accessed_after_delete s = false;
  ci_width : shared_count s < 2 ^ 31
}.

Lemma counted_step_inv s s' : counted_inv s → counted_step s s' → counted_inv s'.
Proof.
  intros [Hc Hd Hdel Hs Hw] Hstep. destruct Hstep as [i s Hi|i s Hi].
  - unfold RefCounter.DecRef. cbv zeta. cbn [fst snd].
    rewrite wrap_s32_id by lia.
    destruct (Z.eqb_spec (shared_count s - 1) 0) as [H1|H1].
    + set (s' := access i (shared_count s - 1) RDelete s). moved Hi s s' RStart RDelete.
      assert (in_state RStart s' = 0%nat) as E0 by lia.
      destruct (Nat.eqb_spec (in_state RStart s) 0); [lia|].
      split; [simpl; lia|lia|rewrite E0; simpl; lia| |simpl; lia].
      simpl. rewrite Hs. destruct (Nat.eqb_spec (deletions s) 0); [done|lia].
    + set (s' := access i (shared_count s - 1) RDone s). moved Hi s s' RStart RDone.
      destruct (Nat.eqb_spec (in_state RStart s) 0); [lia|].
      split; [simpl; lia|lia| | |simpl; lia].
      * destruct (Nat.eqb_spec (in_state RStart s') 0); simpl; lia.
      * simpl. rewrite Hs. destruct (Nat.eqb_spec (deletions s) 0); [done|lia].
  - set (s' := dispose i s). moved Hi s s' RDelete RDone.
    split; [simpl; lia|lia| |done|done].
    replace (in_state RStart s') with (in_state RStart s) by lia.
    change (deletions s') with (S (deletions s)).
    destruct (Nat.eqb_spec (in_state RStart s) 0); lia.
Qed.

(** Not yet deleted, with as many references as threads that are not done, and
    a thread that decided to delete is the only one left; or deleted and all
    done. *)
Definition holders (s : Shared) : nat :=
  (in_state RStart s + in_state RDecrement s + in_state RDelete s)%nat.

Record observer_inv (s : Shared) : Prop := {
  oi_safe : accessed_after_delete s = false;
  oi_state :
    (deletions s = 0%nat ∧ shared_count s = Z.of_nat (holders s) ∧
     (in_state RDelete s ≠ 0%nat → holders s = 1%nat)) ∨
    (deletions s = 1%nat ∧ holders s = 0%nat);
  oi_width : shared_count s < 2 ^ 31
}.

Lemma observer_step_inv s s' : observer_inv s → observer_step s s' → observer_inv s'.
Proof.
  intros [Hs Ho Hw] Hstep. destruct Hstep as [i s Hi|i s Hi|i s Hi].
  - unfold RefCounter.HasOneRef. destruct (Z.eqb_spec (shared_count s) 1) as [H1|H1].
    + set (s' := access i (shared_count s) RDelete s). moved Hi s s' RStart RDelete.
      destruct Ho as [(Hd&Hc&Hx)|]; unfold holders in *; [|lia]. split; simpl; [by rewrite Hs, Hd| |done].
      left. unfold holders. split_and!; simpl; lia.
    + set (s' := access i (shared_count s) RDecrement s). moved Hi s s' RStart RDecrement.
      destruct Ho as [(Hd&Hc&Hx)|]; unfold holders in *; [|lia]. split; simpl; [by rewrite Hs, Hd| |done].
      left. unfold holders. split_and!; simpl; lia.
  - unfold RefCounter.DecRef. cbv zeta. cbn [fst snd].
    set (s' := access i _ RDone s). moved Hi s s' RDecrement RDone.
    destruct Ho as [(Hd&Hc&Hx)|]; unfold holders in *; [|lia].
    assert (shared_count s' = shared_count s - 1) as Hc' by (apply wrap_s32_id; lia).
    split; [simpl; by rewrite Hs, Hd| |lia].
    left. unfold holders. split_and!; [done|rewrite Hc'; lia|lia].
  - set (s' := dispose i s). moved Hi s s' RDelete RDone.
    destruct Ho as [(Hd&Hc&Hx)|]; unfold holders in *; [|lia]. split; simpl; [done| |done].
    right. unfold holders. simpl. lia.
Qed.

Lemma release_start_invs n : (0 < n)%nat → Z.of_nat n < 2 ^ 31 →
  counted_inv (release_start n) ∧ observer_inv (release_start n).
Proof.
  intros Hn Hw. destruct (release_start_in_state n) as (H1&H2&H3).
  split; split; unfold holders; rewrite ?H1, ?H2, ?H3; simpl; try done.
  - destruct n; [lia|done].
  - left. split_and!; [done|lia|done].
Qed.

(** C32. Concurrent releases of a [RefCountedObject]: whatever the order in which
    the atomic steps of [n] threads interleave, the counter is not touched after
    the deletion, nothing is deleted twice, and once all threads are done the
    object has been deleted. *)
Theorem counted_release_safe (n : nat) (s : Shared) :
  (0 < n)%nat → Z.of_nat n < 2 ^ 31 → rtc counted_step (release_start n) s →
  accessed_after_delete s = false ∧ (deletions s ≤ 1)%nat ∧ (all_done s → deletions s = 1%nat).
Proof.
  intros Hn Hw Hs. destruct (release_start_invs n Hn Hw) as [Hinv _].
  assert (counted_inv s) as [Hc Hd Hdel Hsafe _].
  { clear Hn Hw. induction Hs; eauto using counted_step_inv. }
  split_and!; [done| |].
  - destruct (Nat.eqb_spec (in_state RStart s) 0); lia.
  - intros Hall. rewrite !all_done_none in Hdel by done. done.
Qed.

(** C40. Concurrent releases of Spitfire's session observers: they never delete
    twice and never touch the counter after a deletion, but when two threads give
    up the last two references at the same time the observer can be leaked: both
    read the counter as two, both decrement, and nobody deletes. *)
Theorem observer_release_leaks :
  (∀ n s, (0 < n)%nat → Z.of_nat n < 2 ^ 31 → rtc observer_step (release_start n) s →
     accessed_after_delete s = false ∧ (deletions s ≤ 1)%nat) ∧
  (∃ s, rtc observer_step (release_start 2) s ∧ all_done s ∧ deletions s = 0%nat ∧
        shared_count s = 0).
Proof.
  split.
  - intros n s Hn Hw Hs. destruct (release_start_invs n Hn Hw) as [_ Hinv].
    assert (observer_inv s) as [Hsafe Ho _].
    { clear Hn Hw. induction Hs; eauto using observer_step_inv. }
    split; [done|]. destruct Ho as [[]|[]]; lia.
  - eexists. split.
    + eapply rtc_l; [by apply (observer_load 0)|]. eapply rtc_l; [by apply (observer_load 1)|].
      eapply rtc_l; [by apply (observer_sub 0)|]. eapply rtc_l; [by apply (observer_sub 1)|].
      apply rtc_refl.
    + split_and!; [by repeat constructor|done..].
Qed.

(** * Witnesses *)

(** Two observers, one of them shared, moved and dropped. *)
Definition pointer_script : list ptr_op :=
  [PNew "a"; PCopy "b" "a"; PNew "c"; PAssignMove "c" "b"; PReleaseRaw "a"; PDestroy "c"].

Fixpoint ptr_exec `{RefCountInterface} (os : list ptr_op) (s : PtrState) : PtrState :=
  match os with
  | [] => s
  | o :: os' => match ptr_run o s with Ok (_, s') => ptr_exec os' s' | Fault _ => s end
  end.

#[global] Instance ptr_scoped_dec o s : Decision (ptr_scoped o s).
Proof. destruct o; simpl; apply _. Defined.

#[global] Instance room_dec s : Decision (room s).
Proof. unfold room. apply _. Defined.

(** All statements of a script are well scoped and return. *)
Fixpoint ptr_checked `{RefCountInterface} (os : list ptr_op) (s : PtrState) : bool :=
  match os with
  | [] => true
  | o :: os' =>
    bool_decide (ptr_scoped o s) && bool_decide (room s) &&
    match ptr_run o s with Ok (_, s') => ptr_checked os' s' | Fault _ => false end
  end.

Lemma ptr_checked_reachable `{RefCountInterface} os s :
  ptr_checked os s = true → rtc ptr_step s (ptr_exec os s).
Proof.
  revert s. induction os as [|o os IH]; intros s; [done|]. cbn [ptr_checked ptr_exec].
  destruct (ptr_run o s) as [[[] s']|] eqn:Hr; [|by rewrite andb_false_r].
  intros [[Hsc Hroom]%andb_prop Hc]%andb_prop. apply bool_decide_eq_true in Hsc, Hroom.
  eapply rtc_l; [by apply (ptr_step_op o)|]. by apply IH.
Qed.

Lemma smart_pointers_sound_witness :
  let s := @ptr_exec session_observer pointer_script ptr_start in
  destroyed (ref_heap s) = [1%nat] ∧ counters (ref_heap s) !! 0%nat = Some 1 ∧
  ∃ s', @ptr_run session_observer (PDropRaw 0) s = Ok (tt, s').
Proof.
  split; [vm_compute; reflexivity|]. split; [vm_compute; reflexivity|].
  apply (@smart_pointers_sound session_observer session_observer_laws);
    [|vm_compute; left|vm_compute; reflexivity].
  apply ptr_checked_reachable. vm_compute. reflexivity.
Defined.

(** Three threads release in the order 2, 0, 1: the last one finds the last reference and
    deletes the object. *)
Lemma counted_release_safe_witness : ∃ s,
  rtc counted_step (release_start 3) s ∧ releasers s = [RDone; RDone; RDone] ∧
  shared_count s = 0 ∧ accessed_after_delete s = false ∧ deletions s = 1%nat.
Proof.
  assert (∃ s, rtc counted_step (release_start 3) s ∧ releasers s = [RDone; RDone; RDone] ∧
            shared_count s = 0) as (s&Hrun&Hdone&Hcount).
  { eexists. split.
    - eapply rtc_l; [by apply (counted_sub 2)|]. eapply rtc_l; [by apply (counted_sub 0)|].
      eapply rtc_l; [by apply (counted_sub 1)|]. eapply rtc_l; [by apply (counted_delete 1)|].
      apply rtc_refl.
    - split; reflexivity. }
  exists s. destruct (counted_release_safe 3 s) as (Hsafe&_&Hdel); [lia|reflexivity|exact Hrun|].
  split_and!; [exact Hrun|exact Hdone|exact Hcount|exact Hsafe|]. apply Hdel.
  unfold all_done. rewrite Hdone. by repeat constructor.
Defined.
