(* ===== verification/Buffer.v ===== *)
(** [rtc::BufferT<T, ZeroOnFree>] (rtc_base/buffer.h), the growable array
    behind [webrtc::DataBuffer] and most of the library's payloads.

    A buffer is its three members; a memory block is the list of its elements.
    What freshly allocated memory contains, and how large a block may be, is up
    to the environment (class [Memory]).  Every block that is given back is
    recorded with the contents it had at that moment, which is what
    [ZeroOnFree] is about. *)
From S2P Require Import Prelude.
From Stdlib Require Import ZArith Lia.
From stdpp Require Import base tactics numbers strings gmap list.
From coqutil Require Import Datatypes.RecordSetters.
Import TriangleBracketNotations.

Open Scope Z_scope.

(** The allocator: [garbage t n] is what a new block of [n] elements contains
    when [t] blocks were freed before; blocks larger than [max_elements] cannot
    be allocated.  Sizes of objects fit a signed 64-bit integer. *)
Class Memory (T : Type) := {
  garbage : nat → Z → list T;
  max_elements : Z;
  garbage_length : ∀ t n, 0 ≤ n → Z.of_nat (length (garbage t n)) = n;
  max_elements_bound : 0 < max_elements ≤ 2 ^ 62
}.

Module BufferT.

Record BufferT (T : Type) := mkBufferT {
  size_ : Z;
  capacity_ : Z;
  data_ : option (list T)
}.
Arguments mkBufferT {T} _ _ _.
Arguments size_ {T} _.
Arguments capacity_ {T} _.
Arguments data_ {T} _.

(** A buffer and the blocks freed so far. *)
Record Arena (T : Type) := mkArena { buf : BufferT T; freed : list (list T) }.
Arguments mkArena {T} _ _.
Arguments buf {T} _.
Arguments freed {T} _.

Section Buffer.
Context {T : Type} `{!EqDecision T} `{!Memory T} `{!BuildConfig}.
(** The all-zero bit pattern, and the second template argument. *)
Context (zero : T) (ZeroOnFree : bool).

#[local] Abbreviation B := (M (Arena T)).

Definition self {A} (f : BufferT T → A) : B A := s ← get; mret (f (buf s)).
Definition upd (f : BufferT T → BufferT T) : B unit :=
  modify (λ s, mkArena (f (buf s)) (freed s)).

(** [new T[n]] *)
Definition new_array (n : Z) : B (list T) :=
  s ← get;
  _ ← check (n <=? max_elements) "std::bad_alloc";
  mret (garbage (length (freed s)) n).

(** [delete[]] of the block of a [unique_ptr], if it has one. *)
Definition free (d : option (list T)) : B unit :=
  match d with
  | Some block => modify (λ s, mkArena (buf s) (freed s ++ [block]))
  | None => mret tt
  end.

(** [memcpy] of [src] to the elements of [dst] from [pos] on; and
    [ExplicitZeroMemory] of [n] elements. *)
Definition copy_at (pos : Z) (src dst : list T) : list T :=
  take (Z.to_nat pos) dst ++ src ++ drop (Z.to_nat pos + length src) dst.

Definition zero_at (pos n : Z) (dst : list T) : list T :=
  copy_at pos (replicate (Z.to_nat n) zero) dst.

Definition block (b : BufferT T) : list T := default [] (data_ b).

(** * Private functions *)

Definition IsConsistent (b : BufferT T) : bool :=
  (bool_decide (is_Some (data_ b)) || (capacity_ b =? 0)) && (size_ b <=? capacity_ b).

Definition dcheck_consistent : B unit :=
  b ← self (λ b, b); dcheck (IsConsistent b) "IsConsistent()".

Definition MaybeZeroCompleteBuffer : B unit :=
  b ← self (λ b, b);
  if ZeroOnFree && (0 <? capacity_ b) then
    upd (λ b, b <| data_ ::= fmap (zero_at 0 (capacity_ b)) |>)
  else mret tt.

Definition ZeroTrailingData (count : Z) : B unit :=
  _ ← dcheck_consistent;
  b ← self (λ b, b);
  _ ← dcheck (count <=? wrap_u 64 (capacity_ b - size_ b)) "count <= capacity_ - size_";
  upd (λ b, b <| data_ ::= fmap (zero_at (size_ b) count) |>).

Definition EnsureCapacityWithHeadroom (capacity : Z) (extra_headroom : bool) : B unit :=
  _ ← dcheck_consistent;
  b ← self (λ b, b);
  if capacity <=? capacity_ b then mret tt
  else
    let new_capacity :=
      if extra_headroom
      then Z.max capacity (wrap_u 64 (capacity_ b + capacity_ b / 2))
      else capacity in
    new_data ← new_array new_capacity;
    let new_data := copy_at 0 (take (Z.to_nat (size_ b)) (block b)) new_data in
    _ ← MaybeZeroCompleteBuffer;
    old ← self data_;
    _ ← upd (λ b, b <| data_ := Some new_data |>);
    _ ← free old;
    _ ← upd (λ b, b <| capacity_ := new_capacity |>);
    dcheck_consistent.

Definition OnMovedFrom : B unit :=
  d ← self data_;
  _ ← dcheck (bool_decide (d = None)) "!data_";
  if RTC_DCHECK_IS_ON
  then upd (λ b, b <| size_ := 1 |> <| capacity_ := 0 |>)
  else upd (λ b, b <| size_ := 0 |> <| capacity_ := 0 |>).

(** * Construction and destruction *)

Definition construct : B unit :=
  _ ← upd (λ _, mkBufferT 0 0 None);
  dcheck_consistent.

(** [BufferT(size_t size, size_t capacity)] *)
Definition construct_capacity (size capacity : Z) : B unit :=
  let capacity_ := Z.max size capacity in
  data ← (if 0 <? capacity_ then d ← new_array capacity_; mret (Some d) else mret None);
  _ ← upd (λ _, mkBufferT size capacity_ data);
  dcheck_consistent.

Definition construct_size (size : Z) : B unit := construct_capacity size size.

(** [BufferT(U* data, size_t size, size_t capacity)] *)
Definition construct_data_capacity (data : list T) (capacity : Z) : B unit :=
  _ ← construct_capacity (Z.of_nat (length data)) capacity;
  upd (λ b, b <| data_ ::= fmap (copy_at 0 data) |>).

Definition construct_data (data : list T) : B unit :=
  construct_data_capacity data (Z.of_nat (length data)).

(** The destructor: the body, then the [unique_ptr]. *)
Definition destruct_ : B unit :=
  _ ← MaybeZeroCompleteBuffer;
  d ← self data_;
  free d.

(** * Accessors *)

Definition data : B (option (list T)) := _ ← dcheck_consistent; self data_.
Definition empty : B bool := _ ← dcheck_consistent; b ← self (λ b, b); mret (size_ b =? 0).
Definition size : B Z := _ ← dcheck_consistent; self size_.
Definition capacity : B Z := _ ← dcheck_consistent; self capacity_.

(** Reading and writing [data()[index]]. *)
Definition index_read (index : Z) : B T :=
  b ← self (λ b, b);
  _ ← dcheck (index <? size_ b) "index < size_";
  d ← data;
  match default [] d !! Z.to_nat index with
  | Some x => mret x
  | None => fail (InvalidParameter "out of bounds")
  end.

Definition index_write (index : Z) (x : T) : B unit :=
  b ← self (λ b, b);
  _ ← dcheck (index <? size_ b) "index < size_";
  d ← data;
  match default [] d !! Z.to_nat index with
  | Some _ => upd (λ b, b <| data_ ::= fmap (<[Z.to_nat index := x]>) |>)
  | None => fail (InvalidParameter "out of bounds")
  end.

(** * Changing the contents *)

Definition SetSize (size : Z) : B unit :=
  old_size ← self size_;
  _ ← EnsureCapacityWithHeadroom size true;
  _ ← upd (λ b, b <| size_ := size |>);
  if ZeroOnFree && (size <? old_size) then ZeroTrailingData (wrap_u 64 (old_size - size))
  else mret tt.

Definition AppendData (data : list T) : B unit :=
  _ ← dcheck_consistent;
  b ← self (λ b, b);
  let new_size := wrap_u 64 (size_ b + Z.of_nat (length data)) in
  _ ← EnsureCapacityWithHeadroom new_size true;
  _ ← upd (λ b, b <| data_ ::= fmap (copy_at (size_ b) data) |>);
  _ ← upd (λ b, b <| size_ := new_size |>);
  dcheck_consistent.

(** [AppendData(max_elements, setter)]: the setter is given the view and
    answers what it left there and how many elements count. *)
Definition AppendData_setter (max : Z) (setter : list T → list T * Z) : B Z :=
  _ ← dcheck_consistent;
  old_size ← self size_;
  _ ← SetSize (wrap_u 64 (old_size + max));
  d ← data;
  let '(view, written) :=
    setter (take (Z.to_nat max) (drop (Z.to_nat old_size) (default [] d))) in
  _ ← upd (λ b, b <| data_ ::= fmap (copy_at old_size view) |>);
  _ ← check (written <=? max) "written_elements <= max_elements";
  _ ← upd (λ b, b <| size_ := wrap_u 64 (old_size + written) |>);
  _ ← dcheck_consistent;
  mret written.

(** The end both [SetData]s share. *)
Definition zero_old_tail (old_size : Z) : B unit :=
  n ← self size_;
  if ZeroOnFree && (n <? old_size) then ZeroTrailingData (wrap_u 64 (old_size - n))
  else mret tt.

Definition SetData (data : list T) : B unit :=
  _ ← dcheck_consistent;
  old_size ← self size_;
  _ ← upd (λ b, b <| size_ := 0 |>);
  _ ← AppendData data;
  zero_old_tail old_size.

Definition SetData_setter (max : Z) (setter : list T → list T * Z) : B Z :=
  _ ← dcheck_consistent;
  old_size ← self size_;
  _ ← upd (λ b, b <| size_ := 0 |>);
  written ← AppendData_setter max setter;
  _ ← zero_old_tail old_size;
  mret written.

Definition EnsureCapacity (capacity : Z) : B unit :=
  EnsureCapacityWithHeadroom capacity false.

Definition Clear : B unit :=
  _ ← MaybeZeroCompleteBuffer;
  _ ← upd (λ b, b <| size_ := 0 |>);
  dcheck_consistent.

End Buffer.

(** * Functions of two buffers: [this] and [other] *)

Record Pair (T : Type) := mkPair { this : BufferT T; other : BufferT T; pair_freed : list (list T) }.
Arguments mkPair {T} _ _ _.
Arguments this {T} _.
Arguments other {T} _.
Arguments pair_freed {T} _.

Section Two.
Context {T : Type} `{!EqDecision T} `{!Memory T} `{!BuildConfig}.
Context (zero : T) (ZeroOnFree : bool).

(** Running a member function on one of the two. *)
Definition on_this {A} (m : M (Arena T) A) : M (Pair T) A :=
  s ← get;
  '(a, s') ← on_local (mkArena (this s) (pair_freed s)) m;
  _ ← put (mkPair (buf s') (other s) (freed s'));
  mret a.

Definition on_other {A} (m : M (Arena T) A) : M (Pair T) A :=
  s ← get;
  '(a, s') ← on_local (mkArena (other s) (pair_freed s)) m;
  _ ← put (mkPair (this s) (buf s') (freed s'));
  mret a.

(** [BufferT(BufferT&& buf)] *)
Definition construct_move : M (Pair T) unit :=
  n ← on_other size;
  c ← on_other capacity;
  d ← on_other (self data_);
  _ ← on_other (upd (λ b, b <| data_ := None |>));
  _ ← on_this (upd (λ _, mkBufferT n c d));
  _ ← on_this dcheck_consistent;
  on_other OnMovedFrom.

(** [operator=(BufferT&& buf)] *)
Definition assign_move : M (Pair T) unit :=
  _ ← on_other dcheck_consistent;
  _ ← on_this (MaybeZeroCompleteBuffer zero ZeroOnFree);
  o ← on_other (self (λ b, b));
  _ ← on_this (upd (λ b, b <| size_ := size_ o |>));
  _ ← on_this (upd (λ b, b <| capacity_ := capacity_ o |>));
  mine ← on_this (self data_);
  _ ← on_this (upd (λ b, b <| data_ := data_ o |>));
  _ ← on_other (upd (λ b, b <| data_ := mine |>));
  _ ← on_other (upd (λ b, b <| data_ := None |>));
  _ ← on_other (free mine);
  on_other OnMovedFrom.

Definition swap : M (Pair T) unit :=
  a ← on_this (self (λ b, b));
  b ← on_other (self (λ b, b));
  _ ← on_this (upd (λ x, x <| size_ := size_ b |>));
  _ ← on_other (upd (λ x, x <| size_ := size_ a |>));
  _ ← on_this (upd (λ x, x <| capacity_ := capacity_ b |>));
  _ ← on_other (upd (λ x, x <| capacity_ := capacity_ a |>));
  _ ← on_this (upd (λ x, x <| data_ := data_ b |>));
  on_other (upd (λ x, x <| data_ := data_ a |>)).

(** The loop of [operator==], from element [i] on, [n] elements to go. *)
Fixpoint equal_from (i n : nat) (a b : list T) : bool :=
  match n with
  | O => true
  | S n' =>
    match a !! i, b !! i with
    | Some x, Some y => if bool_decide (x = y) then equal_from (S i) n' a b else false
    | _, _ => false
    end
  end.

(** [operator==]; integral types compare the memory of the elements. *)
Definition equals (is_integral : bool) : M (Pair T) bool :=
  _ ← on_this dcheck_consistent;
  s ← get;
  let a := this s in
  let b := other s in
  if negb (size_ a =? size_ b) then mret false
  else if is_integral then
    mret (bool_decide (take (Z.to_nat (size_ a)) (block a) = take (Z.to_nat (size_ a)) (block b)))
  else mret (equal_from 0 (Z.to_nat (size_ a)) (block a) (block b)).

Definition not_equals (is_integral : bool) : M (Pair T) bool :=
  r ← equals is_integral; mret (negb r).

End Two.

(** Symbolic execution of the member functions. *)
Lemma wp_buffer_self {T A} (f : BufferT T → A) Q (s : Arena T) : Q (f (buf s)) s → wp (self f) Q s.
Proof. done. Qed.

Lemma wp_buffer_upd {T} (f : BufferT T → BufferT T) Q (s : Arena T) :
  Q tt (mkArena (f (buf s)) (freed s)) → wp (upd f) Q s.
Proof. done. Qed.

Lemma wp_free {T} (d : option (list T)) Q (s : Arena T) :
  Q tt (mkArena (buf s) (freed s ++ match d with Some l => [l] | None => [] end)) →
  wp (free d) Q s.
Proof. destruct d, s; simpl; [done|]. by rewrite app_nil_r. Qed.

Ltac buf_step :=
  lazymatch goal with
  | |- wp (self _) _ _ => apply wp_buffer_self
  | |- wp (upd _) _ _ => apply wp_buffer_upd
  | |- wp (free _) _ _ => apply wp_free
  | _ => wp_step
  end.
Ltac buf_run := repeat (buf_step; cbn beta; cbn [buf freed]).

(** * Well-formed buffers and what they contain *)

Section Spec.
Context {T : Type} `{!EqDecision T} `{!Memory T} `{!BuildConfig}.
Context (zero : T) (ZeroOnFree : bool).
Implicit Types (b : BufferT T) (s : Arena T).

Record wf b : Prop := {
  wf_size : 0 ≤ size_ b ≤ capacity_ b;
  wf_capacity : capacity_ b ≤ max_elements;
  wf_block : Z.of_nat (length (block b)) = capacity_ b;
  wf_data : data_ b = None → capacity_ b = 0
}.

(** The abstraction: the first [size_] elements. *)
Definition contents b : list T := take (Z.to_nat (size_ b)) (block b).

(** The capacity [EnsureCapacityWithHeadroom] leaves. *)
Definition grown (extra_headroom : bool) (capacity c : Z) : Z :=
  if capacity <=? c then c
  else if extra_headroom then Z.max capacity (c + c / 2) else capacity.

(** What a block looks like when it is given back. *)
Definition wiped (l : list T) : list T :=
  if ZeroOnFree then replicate (length l) zero else l.

Definition released b (grows : bool) : list (list T) :=
  if grows then match data_ b with Some l => [wiped l] | None => [] end else [].

(** ** Blocks *)

Lemma length_copy_at pos (src dst : list T) :
  (Z.to_nat pos + length src ≤ length dst)%nat → length (copy_at pos src dst) = length dst.
Proof. intros Hle. unfold copy_at. rewrite !length_app, length_take, length_drop. lia. Qed.

Lemma take_copy_at pos (src dst : list T) n :
  n = (Z.to_nat pos + length src)%nat → (n ≤ length dst)%nat →
  take n (copy_at pos src dst) = take (Z.to_nat pos) dst ++ src.
Proof.
  intros -> Hle. unfold copy_at. rewrite app_assoc, take_app_le.
  - apply take_ge. rewrite length_app, length_take. lia.
  - rewrite length_app, length_take. lia.
Qed.

Lemma take_copy_at_le pos (src dst : list T) n :
  (n ≤ Z.to_nat pos)%nat → (Z.to_nat pos ≤ length dst)%nat →
  take n (copy_at pos src dst) = take n dst.
Proof.
  intros Hn Hle. unfold copy_at. rewrite take_app_le by (rewrite length_take; lia).
  rewrite take_take. f_equal. lia.
Qed.

Lemma zero_all (l : list T) : zero_at zero 0 (Z.of_nat (length l)) l = replicate (length l) zero.
Proof.
  unfold zero_at, copy_at. rewrite Nat2Z.id, length_replicate. simpl.
  by rewrite drop_all, app_nil_r.
Qed.

Lemma contents_length b : wf b → Z.of_nat (length (contents b)) = size_ b.
Proof. intros [? ? Hb _]. unfold contents. rewrite length_take. lia. Qed.

(** ** The private functions *)

Lemma IsConsistent_wf b : wf b → IsConsistent b = true.
Proof.
  intros [Hs _ _ Hd]. unfold IsConsistent. apply andb_true_iff. split; [|lia].
  destruct (data_ b); [done|]. rewrite Hd by done. done.
Qed.

Lemma wp_dcheck_consistent Q s : wf (buf s) → Q tt s → wp dcheck_consistent Q s.
Proof.
  intros Hwf HQ. unfold dcheck_consistent. buf_run. apply wp_dcheck; [|done].
  intros _. by apply IsConsistent_wf.
Qed.

Lemma wp_MaybeZeroCompleteBuffer Q s :
  wf (buf s) →
  Q tt (mkArena ((buf s) <| data_ ::= fmap wiped |>) (freed s)) →
  wp (MaybeZeroCompleteBuffer zero ZeroOnFree) Q s.
Proof.
  intros Hwf HQ. unfold MaybeZeroCompleteBuffer. buf_run. unfold wiped in HQ.
  destruct s as [[n c d] fr]. simpl in *. pose proof (wf_block _ Hwf) as Hb.
  pose proof (wf_size _ Hwf) as Hs. simpl in *. unfold block in Hb. simpl in Hb.
  destruct ZeroOnFree; simpl in *.
  - destruct (Z.ltb_spec 0 c); simpl; buf_run; simpl.
    + subst c. destruct d as [l|]; simpl in *; [|done]. by rewrite zero_all in *.
    + destruct d as [[|]|]; simpl in *; try done; lia.
  - buf_run. by destruct d.
Qed.

(** A state that differs only in how the contents are stored. *)
Definition regrown (hr : bool) (cap : Z) s (s' : Arena T) : Prop :=
  wf (buf s') ∧ size_ (buf s') = size_ (buf s) ∧ contents (buf s') = contents (buf s) ∧
  capacity_ (buf s') = grown hr cap (capacity_ (buf s)) ∧
  freed s' = freed s ++ released (buf s) (capacity_ (buf s) <? cap).

Lemma half_width c : 0 ≤ c ≤ max_elements → wrap_u 64 (c + c / 2) = c + c / 2.
Proof.
  intros Hc. apply wrap_u_id. pose proof max_elements_bound. split; [|].
  - apply Z.add_nonneg_nonneg; [lia|]. apply Z.div_pos; lia.
  - pose proof (Z.div_le_upper_bound c 2 c). lia.
Qed.

Lemma wp_EnsureCapacityWithHeadroom cap hr Q s :
  wf (buf s) → 0 ≤ cap → grown hr cap (capacity_ (buf s)) ≤ max_elements →
  (∀ s', regrown hr cap s s' → Q tt s') →
  wp (EnsureCapacityWithHeadroom zero ZeroOnFree cap hr) Q s.
Proof.
  intros Hwf Hcap Hmax HQ. unfold EnsureCapacityWithHeadroom. buf_run.
  apply wp_dcheck_consistent; [done|]. buf_run.
  unfold regrown, grown in *. destruct (Z.leb_spec cap (capacity_ (buf s))) as [Hle|Hgt].
  { buf_run. apply HQ. destruct (Z.ltb_spec (capacity_ (buf s)) cap); [lia|].
    unfold released. by rewrite app_nil_r. }
  destruct (wf_size _ Hwf) as [Hs0 Hs1]. pose proof (wf_capacity _ Hwf).
  rewrite half_width by lia. set (nc := if hr then _ else cap) in *.
  assert (cap ≤ nc) as Hnc by (subst nc; destruct hr; lia).
  unfold new_array. buf_run. rewrite (proj2 (Z.leb_le _ _) Hmax). buf_run.
  pose proof (garbage_length (length (freed s)) nc ltac:(lia)) as Hg.
  set (g := garbage (length (freed s)) nc) in *.
  pose proof (contents_length _ Hwf) as Hlen. fold (contents (buf s)).
  apply wp_MaybeZeroCompleteBuffer; [done|]. buf_run.
  destruct s as [[n c d] fr]. simpl in *. unfold dcheck_consistent.
  assert (wf (mkBufferT n nc (Some (copy_at 0 (contents (mkBufferT n c d)) g)))) as Hwf'.
  { split; simpl; [lia|lia| |done]. unfold block; simpl. rewrite length_copy_at; lia. }
  assert (contents (mkBufferT n nc (Some (copy_at 0 (contents (mkBufferT n c d)) g))) =
          contents (mkBufferT n c d)) as Hc'.
  { unfold contents at 1, block; simpl. by rewrite take_copy_at by lia. }
  destruct d as [l|]; simpl; buf_run; simpl;
    (apply wp_dcheck; [intros _; by apply IsConsistent_wf|]);
    (apply HQ; split_and!; simpl; try done);
    rewrite (proj2 (Z.ltb_lt _ _) Hgt); unfold released; simpl; by rewrite ?app_nil_r.
Qed.

(** ** Appending and replacing *)

(** The effect of an operation on an array: its contents are [l], nothing is
    lost but the old block when it had to grow to [cap] elements. *)
Definition becomes (l : list T) (cap : Z) s (s' : Arena T) : Prop :=
  wf (buf s') ∧ contents (buf s') = l ∧
  capacity_ (buf s') = grown true cap (capacity_ (buf s)) ∧
  freed s' = freed s ++ released (buf s) (capacity_ (buf s) <? cap).

Lemma size_width b n : wf b → 0 ≤ n ≤ max_elements → wrap_u 64 (size_ b + n) = size_ b + n.
Proof.
  intros [Hs Hc _ _] Hn. apply wrap_u_id. pose proof max_elements_bound. split; lia.
Qed.

Lemma wp_AppendData (l : list T) Q s :
  wf (buf s) → Z.of_nat (length l) ≤ max_elements →
  grown true (size_ (buf s) + Z.of_nat (length l)) (capacity_ (buf s)) ≤ max_elements →
  (∀ s', becomes (contents (buf s) ++ l) (size_ (buf s) + Z.of_nat (length l)) s s' → Q tt s') →
  wp (AppendData zero ZeroOnFree l) Q s.
Proof.
  intros Hwf Hl Hmax HQ. unfold AppendData. buf_run. apply wp_dcheck_consistent; [done|].
  buf_run. rewrite size_width by (done || lia).
  pose proof (wf_size _ Hwf).
  apply wp_EnsureCapacityWithHeadroom; [done|simpl; lia|done|].
  intros s' (Hwf'&Hsize&Hcont&Hcap&Hfr). buf_run.
  set (n := size_ (buf s) + Z.of_nat (length l)) in *.
  assert (n ≤ capacity_ (buf s')) as Hfit.
  { rewrite Hcap. unfold grown. destruct (Z.leb_spec n (capacity_ (buf s))); lia. }
  pose proof (wf_block _ Hwf') as Hb.
  destruct s' as [[k c d] fr]. simpl in *. subst k.
  set (b' := mkBufferT n c (copy_at (size_ (buf s)) l <$> d)).
  assert (block b' = copy_at (size_ (buf s)) l (block (mkBufferT (size_ (buf s)) c d)) ∨
          (d = None ∧ l = [])) as Hblk.
  { destruct d as [x|]; [by left|]. right. split; [done|]. unfold block in Hb; simpl in Hb.
    destruct l; [done|]. simpl in *. lia. }
  assert (wf b') as Hwfb.
  { destruct Hwf' as [H1 H2 H3 H4]. simpl in *. split; simpl; [lia|lia| |].
    - destruct Hblk as [->|[-> ->]]; [|done]. rewrite length_copy_at; lia.
    - destruct d; [done|]. by intros _; apply H4. }
  assert (contents b' = contents (buf s) ++ l) as Hc'.
  { rewrite <-Hcont. unfold contents at 1. destruct Hblk as [->|[-> ->]].
    - by rewrite take_copy_at by (simpl; lia).
    - rewrite app_nil_r. unfold contents, block; simpl. by rewrite !take_nil. }
  apply wp_dcheck_consistent; [done|]. by apply HQ.
Qed.

(** Zeroing behind the contents does not change them. *)
Lemma wp_ZeroTrailingData count Q s :
  wf (buf s) → 0 ≤ count ≤ capacity_ (buf s) - size_ (buf s) →
  (∀ s', wf (buf s') → size_ (buf s') = size_ (buf s) →
     contents (buf s') = contents (buf s) → capacity_ (buf s') = capacity_ (buf s) →
     freed s' = freed s → Q tt s') →
  wp (ZeroTrailingData zero count) Q s.
Proof.
  intros Hwf Hc HQ. unfold ZeroTrailingData. buf_run. apply wp_dcheck_consistent; [done|].
  buf_run. destruct (Hwf) as [Hs Hm Hb Hd]. pose proof max_elements_bound.
  apply wp_dcheck. { intros _. rewrite wrap_u_id by (split; lia). lia. }
  buf_run. destruct s as [[n c d] fr]. simpl in *. apply HQ; simpl; try done.
  - split; simpl; [lia|done| |by destruct d].
    destruct d as [l|]; simpl in *; [|done]. unfold block in *; simpl in *.
    unfold zero_at. rewrite length_copy_at; rewrite ?length_replicate; lia.
  - unfold contents, block in *. simpl in *. destruct d as [l|]; [|done]. simpl in *.
    unfold zero_at. apply take_copy_at_le; lia.
Qed.

Lemma wf_shrink b n : wf b → 0 ≤ n ≤ capacity_ b → wf (b <| size_ := n |>).
Proof. intros [H1 H2 H3 H4] Hn. destruct b. by split. Qed.

Lemma contents_shrink b n : 0 ≤ n ≤ size_ b →
  contents (b <| size_ := n |>) = take (Z.to_nat n) (contents b).
Proof.
  intros Hn. destruct b as [k c d]. unfold contents, block; simpl in *.
  by rewrite take_take, Nat.min_l by lia.
Qed.

Lemma grown_fits hr cap c : cap ≤ grown hr cap c ∧ c ≤ grown hr cap c ∨ c < 0.
Proof.
  unfold grown. destruct (Z.leb_spec cap c); [lia|].
  destruct (Z.ltb_spec c 0); [by right|]. left.
  pose proof (Z.div_pos c 2 ltac:(lia) ltac:(lia)). destruct hr; lia.
Qed.

Lemma wp_SetSize n Q s :
  wf (buf s) → 0 ≤ n → grown true n (capacity_ (buf s)) ≤ max_elements →
  (∀ s', wf (buf s') → size_ (buf s') = n →
     (∀ k, (k ≤ Z.to_nat n)%nat → (k ≤ Z.to_nat (size_ (buf s)))%nat →
        take k (contents (buf s')) = take k (contents (buf s))) →
     capacity_ (buf s') = grown true n (capacity_ (buf s)) →
     freed s' = freed s ++ released (buf s) (capacity_ (buf s) <? n) → Q tt s') →
  wp (SetSize zero ZeroOnFree n) Q s.
Proof.
  intros Hwf Hn Hmax HQ. unfold SetSize. buf_run. pose proof max_elements_bound.
  destruct (wf_size _ Hwf) as [Hs0 Hs1]. pose proof (wf_capacity _ Hwf).
  apply wp_EnsureCapacityWithHeadroom; [done..|].
  intros s1 (Hwf1&Hsz1&Hc1&Hcap1&Hfr1). buf_run.
  assert (n ≤ capacity_ (buf s1)) as Hfit.
  { rewrite Hcap1. destruct (grown_fits true n (capacity_ (buf s))); lia. }
  pose proof (wf_shrink _ n Hwf1 (conj Hn Hfit)) as Hwf2.
  assert (∀ k, (k ≤ Z.to_nat n)%nat → (k ≤ Z.to_nat (size_ (buf s)))%nat →
    take k (contents ((buf s1) <| size_ := n |>)) = take k (contents (buf s))) as Hpre.
  { intros k Hk1 Hk2. rewrite <-Hc1. revert Hsz1. unfold contents, block.
    destruct (buf s1) as [k1 c1 d1]. simpl. intros ->. unfold constant. by rewrite !take_take, !Nat.min_l by lia. }
  destruct (ZeroOnFree && (n <? size_ (buf s))) eqn:Hz; buf_run.
  - apply andb_true_iff in Hz as [_ Hlt%Z.ltb_lt]. apply wp_ZeroTrailingData; [done|simpl|].
    + assert (wrap_u 64 (size_ (buf s) - n) = size_ (buf s) - n) as ->
        by (apply wrap_u_id; split; lia).
      revert Hwf1 Hsz1. destruct (buf s1) as [k1 c1 d1]. simpl.
      intros [? _ _ _] ->. simpl in *. unfold constant. lia.
    + intros s2 Hwf3 Hsz2 Hc2 Hcap2 Hfr2. apply HQ; [done|..].
      * rewrite Hsz2. by destruct (buf s1).
      * intros k ??. rewrite Hc2. by apply Hpre.
      * rewrite Hcap2, <-Hcap1. by destruct (buf s1).
      * by rewrite Hfr2.
  - apply HQ; simpl; [done|by destruct (buf s1)|done|by destruct (buf s1)|done].
Qed.

(** Overwriting from [pos] inside the contents, then shrinking to [n]. *)
Lemma wp_zero_old_tail old Q s :
  wf (buf s) → old ≤ capacity_ (buf s) →
  (∀ s', wf (buf s') → size_ (buf s') = size_ (buf s) →
     contents (buf s') = contents (buf s) → capacity_ (buf s') = capacity_ (buf s) →
     freed s' = freed s → Q tt s') →
  wp (zero_old_tail zero ZeroOnFree old) Q s.
Proof.
  intros Hwf Hold HQ. unfold zero_old_tail. buf_run.
  pose proof (wf_size _ Hwf). pose proof (wf_capacity _ Hwf). pose proof max_elements_bound.
  destruct (ZeroOnFree && (size_ (buf s) <? old)) eqn:Hz; buf_run; [|by apply HQ].
  apply andb_true_iff in Hz as [_ Hlt%Z.ltb_lt].
  apply wp_ZeroTrailingData; [done| |done].
  rewrite wrap_u_id by (split; lia). lia.
Qed.

Lemma wp_SetData (l : list T) Q s :
  wf (buf s) → Z.of_nat (length l) ≤ max_elements →
  grown true (Z.of_nat (length l)) (capacity_ (buf s)) ≤ max_elements →
  (∀ s', becomes l (Z.of_nat (length l)) s s' → Q tt s') →
  wp (SetData zero ZeroOnFree l) Q s.
Proof.
  intros Hwf Hl Hmax HQ. unfold SetData. buf_run. apply wp_dcheck_consistent; [done|]. buf_run.
  pose proof (wf_size _ Hwf) as Hs.
  set (s0 := mkArena ((buf s) <| size_ := 0 |>) (freed s)).
  assert (wf (buf s0)) as Hwf0 by (apply wf_shrink; [done|lia]).
  assert (size_ (buf s0) = 0 ∧ capacity_ (buf s0) = capacity_ (buf s) ∧
          contents (buf s0) = [] ∧ data_ (buf s0) = data_ (buf s)) as (E1&E2&E3&E4)
    by (subst s0; simpl; by destruct (buf s)).
  apply wp_AppendData; [done..|rewrite E1, E2; by rewrite Z.add_0_l|].
  intros s1 (Hwf1&Hc1&Hcap1&Hfr1). rewrite E1, E3, Z.add_0_l in *. simpl in Hc1.
  buf_run. apply wp_zero_old_tail; [done| |].
  - rewrite Hcap1, E2. destruct (grown_fits true (Z.of_nat (length l)) (capacity_ (buf s))); lia.
  - intros s2 Hwf2 Hsz2 Hc2 Hcap2 Hfr2. apply HQ. split_and!; [done|by rewrite Hc2| |].
    + by rewrite Hcap2, Hcap1, E2.
    + rewrite Hfr2, Hfr1, E2. unfold released. by rewrite E4.
Qed.

(** ** The setters *)

(** A setter keeps to its view and reports a sensible length. *)
Definition well_behaved (max : Z) (setter : list T → list T * Z) : Prop :=
  ∀ v, Z.of_nat (length v) = max →
    length (setter v).1 = length v ∧ 0 ≤ (setter v).2 ≤ max.

Lemma wp_AppendData_setter max setter Q s :
  wf (buf s) → 0 ≤ max ≤ max_elements → well_behaved max setter →
  grown true (size_ (buf s) + max) (capacity_ (buf s)) ≤ max_elements →
  (∀ s' v, Z.of_nat (length v) = max →
     becomes (contents (buf s) ++ take (Z.to_nat (setter v).2) (setter v).1)
       (size_ (buf s) + max) s s' → Q (setter v).2 s') →
  wp (AppendData_setter zero ZeroOnFree max setter) Q s.
Proof.
  intros Hwf Hmax Hset Hgrow HQ. unfold AppendData_setter. buf_run.
  apply wp_dcheck_consistent; [done|]. buf_run. pose proof (wf_size _ Hwf) as Hs.
  rewrite size_width by done. apply wp_SetSize; [done|lia|done|].
  intros s1 Hwf1 Hsz1 Hpre Hcap1 Hfr1. unfold data. buf_run.
  apply wp_dcheck_consistent; [done|]. buf_run. fold (block (buf s1)).
  pose proof (wf_size _ Hwf1) as Hs1. pose proof (wf_block _ Hwf1) as Hb1.
  set (v := take (Z.to_nat max) (drop (Z.to_nat (size_ (buf s))) (block (buf s1)))).
  assert (Z.of_nat (length v) = max) as Hv
    by (subst v; rewrite length_take, length_drop; lia).
  destruct (Hset v Hv) as [Hlen Hw]. destruct (setter v) as [view written] eqn:Ev.
  cbn [fst snd] in *. buf_run. rewrite (proj2 (Z.leb_le _ _)) by lia. buf_run.
  rewrite size_width by (done || lia).
  set (b' := mkBufferT (size_ (buf s) + written) (capacity_ (buf s1))
    (copy_at (size_ (buf s)) view <$> data_ (buf s1))).
  assert (block b' = copy_at (size_ (buf s)) view (block (buf s1)) ∨
          (data_ (buf s1) = None ∧ view = [])) as Hblk.
  { unfold block in *. subst b'. destruct (data_ (buf s1)) as [l|]; [by left|]. right.
    split; [done|]. simpl in *. destruct view; [done|]. simpl in *. lia. }
  assert (wf b') as Hwfb.
  { split; simpl; [lia|apply Hwf1| |].
    - destruct Hblk as [->|[Hn ->]]; [rewrite length_copy_at; lia|].
      unfold block, b' in *. by rewrite Hn in *.
    - intros Hn. apply (wf_data _ Hwf1). by destruct (data_ (buf s1)). }
  assert (take (Z.to_nat (size_ (buf s))) (block (buf s1)) = contents (buf s)) as Hcont.
  { specialize (Hpre (Z.to_nat (size_ (buf s))) ltac:(lia) ltac:(lia)).
    unfold contents in Hpre. rewrite !take_take, !Nat.min_l in Hpre by lia. exact Hpre. }
  assert (contents b' = contents (buf s) ++ take (Z.to_nat written) view) as Hc'.
  { unfold contents at 1. destruct Hblk as [->|[Hn ->]].
    - unfold copy_at. rewrite Hcont. pose proof (contents_length _ Hwf).
      rewrite take_app_ge by (simpl; lia). f_equal.
      rewrite take_app_le by (simpl; lia). f_equal. simpl. lia.
    - rewrite <-Hcont. unfold block, b'. rewrite Hn. simpl. by rewrite !take_nil. }
  replace (mkArena _ _) with (mkArena b' (freed s1)) by (subst b'; by destruct (buf s1)).
  apply wp_dcheck_consistent; [done|]. buf_run.
  specialize (HQ (mkArena b' (freed s1)) v). rewrite Ev in HQ. apply HQ; [done|].
  split_and!; simpl; done.
Qed.

Lemma wp_EnsureCapacity cap Q s :
  wf (buf s) → 0 ≤ cap → grown false cap (capacity_ (buf s)) ≤ max_elements →
  (∀ s', regrown false cap s s' → Q tt s') →
  wp (EnsureCapacity zero ZeroOnFree cap) Q s.
Proof. apply wp_EnsureCapacityWithHeadroom. Qed.

(** Also right after a move, when only [size_ <= capacity_] may be wrong. *)
Definition clearable b : Prop :=
  0 ≤ capacity_ b ≤ max_elements ∧ Z.of_nat (length (block b)) = capacity_ b ∧
  (data_ b = None → capacity_ b = 0).

Lemma wp_Clear Q s :
  clearable (buf s) →
  (∀ s', wf (buf s') → size_ (buf s') = 0 → capacity_ (buf s') = capacity_ (buf s) →
     freed s' = freed s → Q tt s') →
  wp (Clear zero ZeroOnFree) Q s.
Proof.
  intros (Hc&Hb&Hd) HQ. unfold Clear, MaybeZeroCompleteBuffer. buf_run.
  destruct s as [[n c d] fr]. simpl in *. unfold block in Hb. simpl in Hb.
  assert (∀ d', length (default [] d') = length (default [] d) → (d' = None → c = 0) →
    wf (mkBufferT 0 c d')) as Hwf.
  { intros d' Hl Hn. split; simpl; [lia|lia| |done]. unfold block; simpl. by rewrite Hl. }
  destruct (ZeroOnFree && (0 <? c)); buf_run; simpl.
  - assert (wf (mkBufferT 0 c (zero_at zero 0 c <$> d))) as Hz.
    { apply Hwf; [|by destruct d]. destruct d as [l|]; simpl in *; [|done].
      rewrite <-Hb, zero_all. by rewrite length_replicate. }
    apply wp_dcheck_consistent; [done|]. by apply HQ.
  - apply wp_dcheck_consistent; [by apply Hwf|]. apply HQ; try done. by apply Hwf.
Qed.

(** ** Elements *)

Lemma wp_index_read i x Q s :
  wf (buf s) → 0 ≤ i → contents (buf s) !! Z.to_nat i = Some x → Q x s →
  wp (index_read i) Q s.
Proof.
  intros Hwf Hi Hx HQ. unfold index_read. buf_run.
  pose proof (lookup_lt_Some _ _ _ Hx) as Hlt. pose proof (contents_length _ Hwf).
  apply wp_dcheck; [intros _; lia|]. buf_run. unfold data. buf_run.
  apply wp_dcheck_consistent; [done|]. buf_run. fold (block (buf s)).
  unfold contents in Hx. apply lookup_take_Some in Hx as [Hx _]. rewrite Hx. by buf_run.
Qed.

Lemma wp_index_write i x Q s :
  wf (buf s) → 0 ≤ i < size_ (buf s) →
  (∀ s', wf (buf s') → contents (buf s') = <[Z.to_nat i := x]> (contents (buf s)) →
     capacity_ (buf s') = capacity_ (buf s) → freed s' = freed s → Q tt s') →
  wp (index_write i x) Q s.
Proof.
  intros Hwf Hi HQ. unfold index_write. buf_run. apply wp_dcheck; [intros _; lia|]. buf_run.
  unfold data. buf_run. apply wp_dcheck_consistent; [done|]. buf_run. fold (block (buf s)).
  pose proof (wf_size _ Hwf). pose proof (wf_block _ Hwf) as Hb.
  destruct (lookup_lt_is_Some_2 (block (buf s)) (Z.to_nat i)) as [y Hy]; [lia|]. rewrite Hy.
  buf_run. destruct s as [[n c d] fr]. simpl in *.
  unfold block in *; simpl in *. destruct d as [l|]; [|simpl in *; lia]. simpl in *.
  apply HQ; simpl; [|..|done|done].
  - destruct Hwf as [H1 H2 H3 H4]. split; simpl; try done. unfold block; simpl.
    by rewrite length_insert.
  - unfold contents, block; simpl. by rewrite take_insert_lt by lia.
Qed.

End Spec.
End BufferT.
