(* ===== verification/BufferTheorems.v ===== *)
(** Properties of [rtc::BufferT]: it implements a list, reallocation costs are
    linear, moving transfers the memory, and a [ZeroOnFreeBuffer] gives no data
    back to the allocator. *)
From S2P Require Import Prelude Buffer.
From Stdlib Require Import ZArith Lia.
From stdpp Require Import base tactics relations numbers strings gmap list.
From coqutil Require Import Datatypes.RecordSetters.
Import TriangleBracketNotations.
Import BufferT.

Open Scope Z_scope.

(** * Sequences of operations *)

Inductive buf_op (T : Type) :=
  | BAppend (l : list T)
  | BAppendSetter (max : Z) (setter : list T → list T * Z)
  | BSet (l : list T)
  | BSize (n : Z)
  | BReserve (n : Z)
  | BWrite (i : Z) (x : T)
  | BClear.
Arguments BAppend {T}.
Arguments BAppendSetter {T}.
Arguments BSet {T}.
Arguments BSize {T}.
Arguments BReserve {T}.
Arguments BWrite {T}.
Arguments BClear {T}.

(** What each operation does to a list. *)
Definition list_step {T} (o : buf_op T) (l l' : list T) : Prop :=
  match o with
  | BAppend d => l' = l ++ d
  | BAppendSetter max f => ∃ v, Z.of_nat (length v) = max ∧
      l' = l ++ take (Z.to_nat (f v).2) (f v).1
  | BSet d => l' = d
  | BSize n => Z.of_nat (length l') = n ∧
      ∀ k, (k ≤ Z.to_nat n)%nat → (k ≤ length l)%nat → take k l' = take k l
  | BReserve _ => l' = l
  | BWrite i x => l' = <[Z.to_nat i := x]> l
  | BClear => l' = []
  end.

Section Theorems.
Context {T : Type} `{!EqDecision T} `{!Memory T} `{!BuildConfig}.
Context (zero : T) (ZeroOnFree : bool).
Implicit Types (b : BufferT T) (s : Arena T).

Definition run (o : buf_op T) : M (Arena T) unit :=
  match o with
  | BAppend l => AppendData zero ZeroOnFree l
  | BAppendSetter max f => _ ← AppendData_setter zero ZeroOnFree max f; mret tt
  | BSet l => SetData zero ZeroOnFree l
  | BSize n => SetSize zero ZeroOnFree n
  | BReserve n => EnsureCapacity zero ZeroOnFree n
  | BWrite i x => index_write i x
  | BClear => Clear zero ZeroOnFree
  end.

(** The capacity an operation asks for, and whether with headroom. *)
Definition wanted (o : buf_op T) b : Z :=
  match o with
  | BAppend l => size_ b + Z.of_nat (length l)
  | BAppendSetter max _ => size_ b + max
  | BSet l => Z.of_nat (length l)
  | BSize n | BReserve n => n
  | BWrite _ _ | BClear => 0
  end.

Definition headroom (o : buf_op T) : bool := match o with BReserve _ => false | _ => true end.

(** Arguments that make sense, and enough memory. *)
Definition allowed (o : buf_op T) b : Prop :=
  grown (headroom o) (wanted o b) (capacity_ b) ≤ max_elements ∧
  match o with
  | BAppend l | BSet l => Z.of_nat (length l) ≤ max_elements
  | BAppendSetter max f => 0 ≤ max ≤ max_elements ∧ well_behaved max f
  | BSize n | BReserve n => 0 ≤ n
  | BWrite i _ => 0 ≤ i < size_ b
  | BClear => True
  end.

(** Every operation: the list it stands for, the capacity and the memory. *)
Lemma run_spec o s :
  wf (buf s) → allowed o (buf s) →
  wp (run o) (λ _ s', wf (buf s') ∧ list_step o (contents (buf s)) (contents (buf s')) ∧
    capacity_ (buf s') = grown (headroom o) (wanted o (buf s)) (capacity_ (buf s)) ∧
    freed s' = freed s ++ released zero ZeroOnFree (buf s) (capacity_ (buf s) <? wanted o (buf s)))
    s.
Proof.
  intros Hwf [Hmax Ho]. pose proof (wf_size _ Hwf) as Hs.
  assert (grown true 0 (capacity_ (buf s)) = capacity_ (buf s) ∧
          (capacity_ (buf s) <? 0) = false) as [Hg Hf].
  { unfold grown. rewrite (proj2 (Z.leb_le _ _)) by lia. split; [done|]. apply Z.ltb_ge. lia. }
  destruct o as [l|max f|l|n|n|i x|]; simpl in *.
  - apply wp_AppendData; [done..|]. by intros s' (?&?&?&?).
  - wp_run. destruct Ho. apply wp_AppendData_setter; [done..|].
    intros s' v Hv (?&?&?&?). wp_run. split_and!; [done|by exists v|done|done].
  - apply wp_SetData; [done..|]. by intros s' (?&?&?&?).
  - apply wp_SetSize; [done..|]. intros s' Hwf' Hsz Hpre Hcap Hfr. split_and!; try done.
    + by rewrite contents_length.
    + intros k Hk1 Hk2. apply Hpre; [done|]. pose proof (contents_length _ Hwf). lia.
  - apply wp_EnsureCapacity; [done..|]. by intros s' (?&?&?&?&?).
  - apply wp_index_write; [done..|]. intros s' ? ? Hc Hfr. rewrite Hg, Hf. split_and!; try done.
    unfold released. by rewrite app_nil_r.
  - apply wp_Clear.
    { destruct Hwf as [? ? ? ?]. split_and!; try done; lia. }
    intros s' Hwf' Hsz Hc Hfr. rewrite Hg, Hf. split_and!; [done| |done|].
    + unfold contents. by rewrite Hsz.
    + unfold released. by rewrite app_nil_r.
Qed.

End Theorems.

(** C19. [BufferT] implements a list: in a well-formed buffer, with arguments in
    range and enough memory, every operation returns (no check fails, no
    arithmetic wraps around, nothing is read or written outside the block), the
    buffer stays well-formed and its contents change as the list does: appending
    appends, also through a setter, [SetData] replaces, [SetSize] keeps the
    common prefix, [Clear] empties, [EnsureCapacity] changes nothing. *)
Theorem buffer_refines_list {T : Type} `{!EqDecision T, !Memory T, !BuildConfig}
    (zero : T) (ZeroOnFree : bool) (o : buf_op T) (s : Arena T) :
  wf (buf s) → allowed o (buf s) →
  ∃ s', run zero ZeroOnFree o s = Ok (tt, s') ∧ wf (buf s') ∧
    list_step o (contents (buf s)) (contents (buf s')) ∧
    wanted o (buf s) ≤ capacity_ (buf s').
Proof.
  intros Hwf Ho. pose proof (run_spec zero ZeroOnFree o s Hwf Ho) as Hr.
  destruct (wp_ok_inv _ _ _ Hr) as ([]&s'&?&?&?&Hc&_). exists s'. split_and!; try done.
  rewrite Hc. pose proof (wf_size _ Hwf).
  destruct (grown_fits (headroom o) (wanted o (buf s)) (capacity_ (buf s))); lia.
Qed.

(** ** Reallocation *)

(** The number of elements in the blocks given back: every reallocation frees
    the block it copied from, so this bounds what all copying cost. *)
Definition total_freed {T} (fr : list (list T)) : Z := Z.of_nat (length (concat fr)).

Lemma total_freed_app {T} (f1 f2 : list (list T)) :
  total_freed (f1 ++ f2) = total_freed f1 + total_freed f2.
Proof. unfold total_freed. rewrite concat_app, length_app. lia. Qed.

(** One operation of a client; [ops] restricts which. *)
Inductive buf_step {T : Type} `{!EqDecision T, !Memory T, !BuildConfig} (zero : T)
    (ZeroOnFree : bool) (ops : buf_op T → Prop) : Arena T → Arena T → Prop :=
  | buf_step_op o s s' :
      ops o → allowed o (buf s) → run zero ZeroOnFree o s = Ok (tt, s') →
      buf_step zero ZeroOnFree ops s s'.

(** A buffer no element was put in yet. *)
Definition fresh_buffer {T : Type} : Arena T := mkArena (mkBufferT 0 0 None) [].

Section Sequences.
Context {T : Type} `{!EqDecision T, !Memory T, !BuildConfig} (zero : T) (ZeroOnFree : bool).
Implicit Types s : Arena T.

Lemma fresh_wf : wf (buf (@fresh_buffer T)).
Proof. pose proof max_elements_bound. split; simpl; [lia|lia|done|done]. Qed.

(** An invariant of single operations holds after any sequence of them. *)
Lemma buf_steps_inv (ops : buf_op T → Prop) (I : Arena T → Prop) s0 s :
  I s0 → (∀ s, I s → wf (buf s)) →
  (∀ o s, I s → ops o → allowed o (buf s) → wp (run zero ZeroOnFree o) (λ _ s', I s') s) →
  rtc (buf_step zero ZeroOnFree ops) s0 s → I s.
Proof.
  intros H0 Hwf Hstep Hs. induction Hs as [|s1 s2 s3 [o s s' Hop Hal Hrun] _ IH]; [done|].
  apply IH. pose proof (Hstep o s H0 Hop Hal) as Hw. by apply (wp_ok _ _ _ _ _ Hrun) in Hw.
Qed.

Lemma released_total (b : BufferT T) g :
  wf b → total_freed (released zero ZeroOnFree b g) = if g then capacity_ b else 0.
Proof.
  intros [_ _ Hb Hd]. unfold released, wiped, total_freed, block in *. destruct g; [|done].
  destruct (data_ b) as [l|]; simpl in *; [|by rewrite Hd].
  rewrite app_nil_r. destruct ZeroOnFree; rewrite ?length_replicate; done.
Qed.

(** Growing by at least half pays for the copying. *)
Lemma growth_pays t w c : 0 ≤ c → t ≤ 3 * c →
  t + (if c <? w then c else 0) ≤ 3 * grown true w c.
Proof.
  intros Hc Ht. unfold grown. destruct (Z.ltb_spec c w), (Z.leb_spec w c); try lia.
  pose proof (Z.div_mod c 2 ltac:(lia)). pose proof (Z.mod_pos_bound c 2 ltac:(lia)). lia.
Qed.

Lemma blocks_zero (b : BufferT T) g :
  ZeroOnFree = true → Forall (Forall (eq zero)) (released zero ZeroOnFree b g).
Proof.
  intros ->. unfold released, wiped. destruct g, (data_ b) as [l|]; try by constructor.
  constructor; [|constructor]. by apply Forall_replicate.
Qed.

End Sequences.

(** Amortised growth: as long as a client never asks for a specific capacity,
    the elements that all reallocations together have copied are at most three
    times the current capacity, however many operations were made. *)
Theorem growth_is_amortised {T : Type} `{!EqDecision T, !Memory T, !BuildConfig}
    (zero : T) (ZeroOnFree : bool) (s : Arena T) :
  rtc (buf_step zero ZeroOnFree (λ o, headroom o = true)) fresh_buffer s →
  total_freed (freed s) ≤ 3 * capacity_ (buf s).
Proof.
  intros Hs.
  apply (buf_steps_inv zero ZeroOnFree (λ o, headroom o = true)
    (λ s, wf (buf s) ∧ total_freed (freed s) ≤ 3 * capacity_ (buf s)) fresh_buffer s); try done.
  - split; [apply fresh_wf|done].
  - by intros ? [].
  - intros o s1 [Hwf Ht] Hh Hal.
    eapply wp_mono; [by apply run_spec|]. intros [] s2 (Hwf2&_&Hc&Hfr). split; [done|].
    rewrite Hfr, total_freed_app, released_total, Hc, Hh by done.
    apply growth_pays; [|done]. pose proof (wf_size _ Hwf). lia.
Qed.

(** A [ZeroOnFreeBuffer] gives back only zeroed memory: after any sequence of
    operations and the destructor, every block that was ever freed contained
    nothing but zeros at that moment. *)
Theorem zero_on_free {T : Type} `{!EqDecision T, !Memory T, !BuildConfig}
    (zero : T) (s : Arena T) :
  rtc (buf_step zero true (λ _, True)) fresh_buffer s →
  ∃ s', destruct_ zero true s = Ok (tt, s') ∧ Forall (Forall (eq zero)) (freed s').
Proof.
  intros Hs.
  assert (wf (buf s) ∧ Forall (Forall (eq zero)) (freed s)) as [Hwf Hz].
  { apply (buf_steps_inv zero true (λ _, True)
      (λ s, wf (buf s) ∧ Forall (Forall (eq zero)) (freed s)) fresh_buffer s); try done.
    - split; [apply fresh_wf|constructor].
    - by intros ? [].
    - intros o s1 [Hwf Ht] _ Hal. eapply wp_mono; [by apply run_spec|].
      intros [] s2 (Hwf2&_&_&Hfr). split; [done|]. rewrite Hfr. apply Forall_app.
      split; [done|]. by apply blocks_zero. }
  destruct (wp_ok_inv (destruct_ zero true) (λ _ s', Forall (Forall (eq zero)) (freed s')) s)
    as ([]&s'&?&?); [|by exists s'].
  unfold destruct_. buf_run. apply wp_MaybeZeroCompleteBuffer; [done|]. buf_run.
  destruct s as [[n c d] fr]. simpl in *. apply Forall_app. split; [done|].
  destruct d as [l|]; simpl; [|constructor]. constructor; [|constructor].
  by apply Forall_replicate.
Qed.

(** ** Moving and comparing *)

Lemma wp_on_this {T A} (m : M (Arena T) A) Q (s : Pair T) :
  wp m (λ a s', Q a (mkPair (buf s') (other s) (freed s'))) (mkArena (this s) (pair_freed s)) →
  wp (on_this m) Q s.
Proof. intros H. unfold on_this. wp_run. apply wp_on_local. by eapply wp_mono. Qed.

Lemma wp_on_other {T A} (m : M (Arena T) A) Q (s : Pair T) :
  wp m (λ a s', Q a (mkPair (this s) (buf s') (freed s'))) (mkArena (other s) (pair_freed s)) →
  wp (on_other m) Q s.
Proof. intros H. unfold on_other. wp_run. apply wp_on_local. by eapply wp_mono. Qed.

Ltac pair_step :=
  lazymatch goal with
  | |- wp (on_this _) _ _ => apply wp_on_this
  | |- wp (on_other _) _ _ => apply wp_on_other
  | _ => buf_step
  end.
Ltac pair_run := repeat (pair_step; cbn beta; cbn [buf freed this other pair_freed]).

(** A buffer right after it was moved from. *)
Definition moved_from {T} `{!BuildConfig} : BufferT T :=
  mkBufferT (if RTC_DCHECK_IS_ON then 1 else 0) 0 None.

Lemma wp_OnMovedFrom {T} `{!EqDecision T, !BuildConfig} n c Q fr :
  Q tt (mkArena moved_from fr) → wp OnMovedFrom Q (mkArena (@mkBufferT T n c None) fr).
Proof.
  intros HQ. unfold OnMovedFrom. buf_run. unfold moved_from in HQ.
  by destruct RTC_DCHECK_IS_ON; buf_run.
Qed.

Lemma equal_from_take {T} `{!EqDecision T} n i (a b : list T) :
  (i + n ≤ length a)%nat → (i + n ≤ length b)%nat →
  equal_from i n a b = bool_decide (take n (drop i a) = take n (drop i b)).
Proof.
  revert i. induction n as [|n IH]; intros i Ha Hb; simpl.
  - done.
  - destruct (lookup_lt_is_Some_2 a i) as [x Hx]; [lia|].
    destruct (lookup_lt_is_Some_2 b i) as [y Hy]; [lia|].
    rewrite Hx, Hy, (drop_S _ _ _ Hx), (drop_S _ _ _ Hy), IH by lia. simpl.
    destruct (bool_decide_reflect (x = y)) as [->|Hne].
    + apply bool_decide_ext. split; [by intros ->|by intros [= ?]].
    + symmetry. apply bool_decide_eq_false. by intros [= ? ?].
Qed.

(** Moving: assigning from a temporary hands over its block without copying
    and gives the old block back (zeroed if the buffer is to be); the buffer
    moved from holds no memory, and [Clear] makes it usable again in every build,
    although in debug builds it is left inconsistent on purpose. *)
Theorem move_transfers {T : Type} `{!EqDecision T, !Memory T, !BuildConfig}
    (zero : T) (ZeroOnFree : bool) (a b : BufferT T) (fr : list (list T)) :
  wf a → wf b →
  ∃ b', assign_move zero ZeroOnFree (mkPair a b fr) =
      Ok (tt, mkPair b b' (fr ++ released zero ZeroOnFree a true)) ∧
    data_ b' = None ∧ IsConsistent b' = negb RTC_DCHECK_IS_ON ∧
    ∃ s', Clear zero ZeroOnFree (mkArena b' []) = Ok (tt, s') ∧
      wf (buf s') ∧ contents (buf s') = [].
Proof.
  intros Ha Hb. exists moved_from. split_and!.
  - destruct (wp_ok_inv (assign_move zero ZeroOnFree) (λ _ s',
      s' = mkPair b moved_from (fr ++ released zero ZeroOnFree a true)) (mkPair a b fr))
      as ([]&s'&Hr&->); [|done].
    unfold assign_move. pair_run. apply wp_dcheck_consistent; [done|]. pair_run.
    apply wp_MaybeZeroCompleteBuffer; [done|]. pair_run.
    destruct a as [na ca da], b as [nb cb db]. simpl. apply wp_OnMovedFrom.
    by destruct da.
  - done.
  - unfold IsConsistent, moved_from. simpl. by destruct RTC_DCHECK_IS_ON.
  - destruct (wp_ok_inv (Clear zero ZeroOnFree) (λ _ s', wf (buf s') ∧ contents (buf s') = [])
      (mkArena moved_from [])) as ([]&s'&?&?&?); [|by exists s'].
    apply wp_Clear.
    + pose proof max_elements_bound. split_and!; simpl; done || lia.
    + intros s' Hwf Hsz _ _. split; [done|]. unfold contents. by rewrite Hsz.
Qed.

(** [operator==] decides whether two buffers have the same contents, and the
    loop over the elements agrees with comparing the memory. *)
Theorem equals_compares_contents {T : Type} `{!EqDecision T, !Memory T, !BuildConfig}
    (is_integral : bool) (a b : BufferT T) (fr : list (list T)) :
  wf a → wf b →
  equals is_integral (mkPair a b fr) =
    Ok (bool_decide (contents a = contents b), mkPair a b fr).
Proof.
  intros Ha Hb.
  destruct (wp_ok_inv (equals is_integral) (λ r s',
    r = bool_decide (contents a = contents b) ∧ s' = mkPair a b fr) (mkPair a b fr))
    as (r&s'&Hr&->&->); [|done].
  unfold equals. pair_run. apply wp_dcheck_consistent; [done|]. pair_run.
  pose proof (contents_length _ Ha). pose proof (contents_length _ Hb).
  destruct (Z.eqb_spec (size_ a) (size_ b)) as [Heq|Hne]; simpl.
  - pose proof (wf_block _ Ha). pose proof (wf_block _ Hb). pose proof (wf_size _ Ha).
    pose proof (wf_size _ Hb). unfold contents. rewrite <-Heq.
    destruct is_integral; pair_run; (split; [|done]); [done|].
    rewrite equal_from_take by lia. by rewrite !drop_0.
  - pair_run. split; [|done]. symmetry. apply bool_decide_eq_false. intros E.
    apply (f_equal length) in E. lia.
Qed.

(** * Witnesses *)

(** Bytes, with fresh memory full of the value 170. *)
Lemma byte_garbage_length (t : nat) n :
  0 ≤ n → Z.of_nat (length (replicate (Z.to_nat n) 170)) = n.
Proof. intros Hn. rewrite length_replicate. lia. Qed.

Lemma byte_max_bound : 0 < 2 ^ 40 ≤ 2 ^ 62.
Proof. done. Qed.

#[local] Instance byte_memory : Memory Z := {|
  garbage := λ _ n, replicate (Z.to_nat n) 170;
  max_elements := 2 ^ 40;
  garbage_length := byte_garbage_length;
  max_elements_bound := byte_max_bound
|}.
#[local] Instance debug_build : BuildConfig := true.

Lemma buffer_refines_list_witness : ∃ s',
  run 0 true (BAppend [1; 2; 3]) fresh_buffer = Ok (tt, s') ∧ contents (buf s') = [1; 2; 3].
Proof.
  destruct (buffer_refines_list 0 true (BAppend [1; 2; 3]) fresh_buffer) as (s'&Hr&_&Hl&_).
  - apply fresh_wf.
  - split; simpl; [vm_compute; discriminate|lia].
  - by exists s'.
Defined.

(** Several appends in a row. *)
Fixpoint appends (ls : list (list Z)) (s : Arena Z) : option (Arena Z) :=
  match ls with
  | [] => Some s
  | l :: ls' =>
    if bool_decide (grown true (size_ (buf s) + Z.of_nat (length l)) (capacity_ (buf s)) ≤
                      max_elements ∧ Z.of_nat (length l) ≤ max_elements)
    then match run 0 true (BAppend l) s with Ok (_, s') => appends ls' s' | Fault _ => None end
    else None
  end.

Lemma appends_steps ops ls s s' :
  (∀ l, ops (BAppend l)) → appends ls s = Some s' → rtc (buf_step 0 true ops) s s'.
Proof.
  intros Hops. revert s. induction ls as [|l ls IH]; intros s; cbn [appends]; [by intros [= ->]|].
  destruct (bool_decide_reflect (grown true (size_ (buf s) + Z.of_nat (length l))
    (capacity_ (buf s)) ≤ max_elements ∧ Z.of_nat (length l) ≤ max_elements)) as [Hal|]; [|done].
  destruct (run 0 true (BAppend l) s) as [[[] s1]|] eqn:Hr; [|done]. intros Ha.
  eapply rtc_l; [by apply (buf_step_op _ _ _ (BAppend l))|]. by apply IH.
Qed.

(** A run that reallocates twice. *)
Definition three_appends : Arena Z :=
  default fresh_buffer (appends [[1; 2; 3]; [4]; [5; 6]] fresh_buffer).

Lemma three_appends_steps (ops : buf_op Z → Prop) :
  (∀ l, ops (BAppend l)) → rtc (buf_step 0 true ops) fresh_buffer three_appends.
Proof.
  intros Hops. apply (appends_steps ops [[1; 2; 3]; [4]; [5; 6]]); [done|].
  vm_compute. reflexivity.
Qed.

Lemma growth_is_amortised_witness : total_freed (freed three_appends) ≤ 3 * 6.
Proof.
  apply (growth_is_amortised 0 true three_appends). by apply three_appends_steps.
Defined.

Lemma zero_on_free_witness : ∃ s', destruct_ 0 true three_appends = Ok (tt, s') ∧
  Forall (Forall (eq 0)) (freed s').
Proof. apply (zero_on_free 0 three_appends). by apply three_appends_steps. Defined.

Definition one_byte (x : Z) : BufferT Z := mkBufferT 1 1 (Some [x]).

Lemma one_byte_wf x : wf (one_byte x).
Proof. split; simpl; try done; lia. Qed.

Lemma move_transfers_witness : ∃ b',
  assign_move 0 false (mkPair (one_byte 7) (one_byte 8) []) =
    Ok (tt, mkPair (one_byte 8) b' [[7]]).
Proof.
  destruct (move_transfers 0 false (one_byte 7) (one_byte 8) []) as (b'&?&_);
    [apply one_byte_wf..|]. by exists b'.
Defined.

Lemma equals_compares_contents_witness :
  equals false (mkPair (one_byte 7) (one_byte 8) []) =
    Ok (false, mkPair (one_byte 7) (one_byte 8) []).
Proof.
  rewrite (equals_compares_contents false (one_byte 7) (one_byte 8) []) by apply one_byte_wf.
  reflexivity.
Defined.

