(* ===== verification/Units.v ===== *)
(** Quantities with a unit: [UnitBase] and [RelativeUnit]
    (rtc_base/units/unit_base.h) and the five units of api/units/: TimeDelta,
    Timestamp, DataRate, DataSize and Frequency.

    All of them wrap an [int64_t] whose two extreme values stand for the
    infinities.  Which unit a quantity has is part of its type.  Overloads for
    floating-point arguments are not modelled. *)
From S2P Require Import Prelude.
From Stdlib Require Import ZArith Lia.
From stdpp Require Import base tactics numbers strings list.

Open Scope Z_scope.

Inductive unit_kind := KTimeDelta | KTimestamp | KDataRate | KDataSize | KFrequency.

(** [Unit_T::one_sided] of the five classes. *)
Definition one_sided (k : unit_kind) : bool :=
  match k with KTimeDelta => false | _ => true end.

Record quantity (k : unit_kind) := Unit_T { value_ : Z }.
Arguments Unit_T {k} _.
Arguments value_ {k} _.

Abbreviation TimeDelta := (quantity KTimeDelta).
Abbreviation Timestamp := (quantity KTimestamp).
Abbreviation DataRate := (quantity KDataRate).
Abbreviation DataSize := (quantity KDataSize).
Abbreviation Frequency := (quantity KFrequency).

Definition int64_max : Z := 2 ^ 63 - 1.
Definition int64_min : Z := - 2 ^ 63.

(** Computations without state. *)
Abbreviation C := (M unit).

(** The result of an [int64_t] operation. *)
Definition int64 (z : Z) : C Z :=
  if (int64_min <=? z) && (z <=? int64_max) then mret z
  else fail (UndefinedBehaviour "signed overflow").

(** [n / d], truncated. *)
Definition div64 (n d : Z) : C Z :=
  if d =? 0 then fail (UndefinedBehaviour "division by zero") else int64 (Z.quot n d).

(** * UnitBase *)

Definition PlusInfinityVal : Z := int64_max.
Definition MinusInfinityVal : Z := int64_min.

Section UnitBase.
Context `{!BuildConfig} {k : unit_kind}.
Implicit Types q r : quantity k.

Definition Zero : quantity k := Unit_T 0.
Definition PlusInfinity : quantity k := Unit_T PlusInfinityVal.
Definition MinusInfinity : quantity k := Unit_T MinusInfinityVal.

Definition IsZero q : bool := value_ q =? 0.
Definition IsInfinite q : bool :=
  (value_ q =? PlusInfinityVal) || (value_ q =? MinusInfinityVal).
Definition IsFinite q : bool := negb (IsInfinite q).
Definition IsPlusInfinity q : bool := value_ q =? PlusInfinityVal.
Definition IsMinusInfinity q : bool := value_ q =? MinusInfinityVal.

Definition unit_eq q r : bool := value_ q =? value_ r.
Definition unit_ne q r : bool := negb (value_ q =? value_ r).
Definition unit_le q r : bool := value_ q <=? value_ r.
Definition unit_ge q r : bool := value_ r <=? value_ q.
Definition unit_gt q r : bool := value_ r <? value_ q.
Definition unit_lt q r : bool := value_ q <? value_ r.

(** [FromValue(T value)], integral [T] *)
Definition FromValue (value : Z) : C (quantity k) :=
  _ ← (if one_sided k then dcheck (0 <=? value) "value >= 0" else mret tt);
  _ ← dcheck (MinusInfinityVal <? value) "value > MinusInfinityVal()";
  _ ← dcheck (value <? PlusInfinityVal) "value < PlusInfinityVal()";
  mret (Unit_T value).

(** [FromFraction(denominator, T value)], integral [T] *)
Definition FromFraction (denominator value : Z) : C (quantity k) :=
  _ ← (if one_sided k then dcheck (0 <=? value) "value >= 0" else mret tt);
  lo ← div64 MinusInfinityVal denominator;
  _ ← dcheck (lo <? value) "value > MinusInfinityVal() / denominator";
  hi ← div64 PlusInfinityVal denominator;
  _ ← dcheck (value <? hi) "value < PlusInfinityVal() / denominator";
  v ← int64 (value * denominator);
  mret (Unit_T v).

Definition ToValue q : C Z :=
  _ ← dcheck (IsFinite q) "IsFinite()";
  mret (value_ q).

Definition ToValueOr q (fallback_value : Z) : Z :=
  if IsFinite q then value_ q else fallback_value.

Definition DivRoundPositiveToNearest (n d : Z) : C Z :=
  h ← div64 d 2;
  m ← int64 (n + h);
  div64 m d.

Definition DivRoundToNearest (n d : Z) : C Z :=
  h ← (if 0 <=? n then div64 d 2 else div64 (- d) 2);
  m ← int64 (n + h);
  div64 m d.

(** [ToFraction<Denominator>()], integral result *)
Definition ToFraction (Denominator : Z) q : C Z :=
  _ ← dcheck (IsFinite q) "IsFinite()";
  if one_sided k then DivRoundPositiveToNearest (value_ q) Denominator
  else DivRoundToNearest (value_ q) Denominator.

Definition ToFractionOr (Denominator : Z) q (fallback_value : Z) : C Z :=
  if IsFinite q then
    if one_sided k then DivRoundPositiveToNearest (value_ q) Denominator
    else DivRoundToNearest (value_ q) Denominator
  else mret fallback_value.

(** [ToMultiple<Factor>()], integral result *)
Definition ToMultiple (Factor : Z) q : C Z :=
  v ← ToValue q;
  lo ← div64 int64_min Factor;
  _ ← dcheck (lo <=? v) "ToValue() >= min() / Factor";
  hi ← div64 int64_max Factor;
  _ ← dcheck (v <=? hi) "ToValue() <= max() / Factor";
  int64 (v * Factor).

(** * RelativeUnit *)

(** [std::max(min_value, std::min( *this, max_value))] *)
Definition Clamped q (min_value max_value : quantity k) : quantity k :=
  let m := if unit_lt max_value q then max_value else q in
  if unit_lt min_value m then m else min_value.

Definition unit_plus q r : C (quantity k) :=
  if IsPlusInfinity q || IsPlusInfinity r then
    _ ← dcheck (negb (IsMinusInfinity q)) "!this->IsMinusInfinity()";
    _ ← dcheck (negb (IsMinusInfinity r)) "!other.IsMinusInfinity()";
    mret PlusInfinity
  else if IsMinusInfinity q || IsMinusInfinity r then
    _ ← dcheck (negb (IsPlusInfinity q)) "!this->IsPlusInfinity()";
    _ ← dcheck (negb (IsPlusInfinity r)) "!other.IsPlusInfinity()";
    mret MinusInfinity
  else
    a ← ToValue q;
    b ← ToValue r;
    v ← int64 (a + b);
    FromValue v.

Definition unit_minus q r : C (quantity k) :=
  if IsPlusInfinity q || IsMinusInfinity r then
    _ ← dcheck (negb (IsMinusInfinity q)) "!this->IsMinusInfinity()";
    _ ← dcheck (negb (IsPlusInfinity r)) "!other.IsPlusInfinity()";
    mret PlusInfinity
  else if IsMinusInfinity q || IsPlusInfinity r then
    _ ← dcheck (negb (IsPlusInfinity q)) "!this->IsPlusInfinity()";
    _ ← dcheck (negb (IsMinusInfinity r)) "!other.IsMinusInfinity()";
    mret MinusInfinity
  else
    a ← ToValue q;
    b ← ToValue r;
    v ← int64 (a - b);
    FromValue v.

(** [operator*(int64_t scalar)] *)
Definition unit_times q (scalar : Z) : C (quantity k) :=
  a ← ToValue q;
  v ← int64 (a * scalar);
  FromValue v.

(** The three roundings (of relative units: they multiply). *)
Definition round_checks q (resolution : quantity k) : C unit :=
  _ ← dcheck (IsFinite q) "IsFinite()";
  _ ← dcheck (IsFinite resolution) "resolution.IsFinite()";
  dcheck (0 <? value_ resolution) "resolution.value_ > 0".

Definition RoundTo q (resolution : quantity k) : C (quantity k) :=
  _ ← round_checks q resolution;
  h ← div64 (value_ resolution) 2;
  n ← int64 (value_ q + h);
  d ← div64 n (value_ resolution);
  unit_times (Unit_T d) (value_ resolution).

Definition RoundUpTo q (resolution : quantity k) : C (quantity k) :=
  _ ← round_checks q resolution;
  n ← int64 (value_ q + value_ resolution);
  n ← int64 (n - 1);
  d ← div64 n (value_ resolution);
  unit_times (Unit_T d) (value_ resolution).

Definition RoundDownTo q (resolution : quantity k) : C (quantity k) :=
  _ ← round_checks q resolution;
  d ← div64 (value_ q) (value_ resolution);
  unit_times (Unit_T d) (value_ resolution).

End UnitBase.

(** * The units *)

Section Units.
Context `{!BuildConfig}.

(** ** TimeDelta *)
Definition TimeDelta_Seconds (v : Z) : C TimeDelta := FromFraction 1000000 v.
Definition TimeDelta_Millis (v : Z) : C TimeDelta := FromFraction 1000 v.
Definition TimeDelta_Micros (v : Z) : C TimeDelta := FromValue v.
Definition TimeDelta_seconds (q : TimeDelta) : C Z := ToFraction 1000000 q.
Definition TimeDelta_ms (q : TimeDelta) : C Z := ToFraction 1000 q.
Definition TimeDelta_us (q : TimeDelta) : C Z := ToValue q.
Definition TimeDelta_ns (q : TimeDelta) : C Z := ToMultiple 1000 q.
Definition TimeDelta_seconds_or (q : TimeDelta) (f : Z) : C Z := ToFractionOr 1000000 q f.
Definition TimeDelta_ms_or (q : TimeDelta) (f : Z) : C Z := ToFractionOr 1000 q f.
Definition TimeDelta_us_or (q : TimeDelta) (f : Z) : Z := ToValueOr q f.
Definition TimeDelta_Abs (q : TimeDelta) : C TimeDelta :=
  v ← TimeDelta_us q;
  if v <? 0 then n ← int64 (- v); TimeDelta_Micros n else mret q.

(** ** Timestamp *)
Definition Timestamp_Seconds (v : Z) : C Timestamp := FromFraction 1000000 v.
Definition Timestamp_Millis (v : Z) : C Timestamp := FromFraction 1000 v.
Definition Timestamp_Micros (v : Z) : C Timestamp := FromValue v.
Definition Timestamp_seconds (q : Timestamp) : C Z := ToFraction 1000000 q.
Definition Timestamp_ms (q : Timestamp) : C Z := ToFraction 1000 q.
Definition Timestamp_us (q : Timestamp) : C Z := ToValue q.
Definition Timestamp_seconds_or (q : Timestamp) (f : Z) : C Z := ToFractionOr 1000000 q f.
Definition Timestamp_ms_or (q : Timestamp) (f : Z) : C Z := ToFractionOr 1000 q f.
Definition Timestamp_us_or (q : Timestamp) (f : Z) : Z := ToValueOr q f.

(** [Timestamp + TimeDelta] *)
Definition Timestamp_plus (t : Timestamp) (delta : TimeDelta) : C Timestamp :=
  if IsPlusInfinity t || IsPlusInfinity delta then
    _ ← dcheck (negb (IsMinusInfinity t)) "!IsMinusInfinity()";
    _ ← dcheck (negb (IsMinusInfinity delta)) "!delta.IsMinusInfinity()";
    mret PlusInfinity
  else if IsMinusInfinity t || IsMinusInfinity delta then
    _ ← dcheck (negb (IsPlusInfinity t)) "!IsPlusInfinity()";
    _ ← dcheck (negb (IsPlusInfinity delta)) "!delta.IsPlusInfinity()";
    mret MinusInfinity
  else
    a ← Timestamp_us t;
    b ← TimeDelta_us delta;
    v ← int64 (a + b);
    Timestamp_Micros v.

(** [Timestamp - TimeDelta] *)
Definition Timestamp_minus (t : Timestamp) (delta : TimeDelta) : C Timestamp :=
  if IsPlusInfinity t || IsMinusInfinity delta then
    _ ← dcheck (negb (IsMinusInfinity t)) "!IsMinusInfinity()";
    _ ← dcheck (negb (IsPlusInfinity delta)) "!delta.IsPlusInfinity()";
    mret PlusInfinity
  else if IsMinusInfinity t || IsPlusInfinity delta then
    _ ← dcheck (negb (IsPlusInfinity t)) "!IsPlusInfinity()";
    _ ← dcheck (negb (IsMinusInfinity delta)) "!delta.IsMinusInfinity()";
    mret MinusInfinity
  else
    a ← Timestamp_us t;
    b ← TimeDelta_us delta;
    v ← int64 (a - b);
    Timestamp_Micros v.

(** [Timestamp - Timestamp] *)
Definition Timestamp_difference (t other : Timestamp) : C TimeDelta :=
  if IsPlusInfinity t || IsMinusInfinity other then
    _ ← dcheck (negb (IsMinusInfinity t)) "!IsMinusInfinity()";
    _ ← dcheck (negb (IsPlusInfinity other)) "!other.IsPlusInfinity()";
    mret PlusInfinity
  else if IsMinusInfinity t || IsPlusInfinity other then
    _ ← dcheck (negb (IsPlusInfinity t)) "!IsPlusInfinity()";
    _ ← dcheck (negb (IsMinusInfinity other)) "!other.IsMinusInfinity()";
    mret MinusInfinity
  else
    a ← Timestamp_us t;
    b ← Timestamp_us other;
    v ← int64 (a - b);
    TimeDelta_Micros v.

(** ** DataSize *)
Definition Bytes (v : Z) : C DataSize := FromValue v.
Definition bytes (q : DataSize) : C Z := ToValue q.
Definition bytes_or (q : DataSize) (f : Z) : Z := ToValueOr q f.

(** ** Frequency *)
Definition MilliHertz (v : Z) : C Frequency := FromValue v.
Definition Hertz (v : Z) : C Frequency := FromFraction 1000 v.
Definition KiloHertz (v : Z) : C Frequency := FromFraction 1000000 v.
Definition hertz (q : Frequency) : C Z := ToFraction 1000 q.
Definition millihertz (q : Frequency) : C Z := ToValue q.

(** [nominator / interval] *)
Definition per_interval (nominator : Z) (interval : TimeDelta) : C Frequency :=
  let kKiloPerMicro := 1000 * 1000000 in
  _ ← dcheck (nominator <=? Z.quot int64_max kKiloPerMicro)
        "nominator <= max() / kKiloPerMicro";
  _ ← check (IsFinite interval) "interval.IsFinite()";
  _ ← check (negb (IsZero interval)) "!interval.IsZero()";
  n ← int64 (nominator * kKiloPerMicro);
  us ← TimeDelta_us interval;
  f ← div64 n us;
  MilliHertz f.

(** [nominator / frequency] *)
Definition per_frequency (nominator : Z) (frequency : Frequency) : C TimeDelta :=
  let kMegaPerMilli := 1000000 * 1000 in
  _ ← dcheck (nominator <=? Z.quot int64_max kMegaPerMilli)
        "nominator <= max() / kMegaPerMilli";
  _ ← check (IsFinite frequency) "frequency.IsFinite()";
  _ ← check (negb (IsZero frequency)) "!frequency.IsZero()";
  n ← int64 (nominator * kMegaPerMilli);
  mhz ← millihertz frequency;
  t ← div64 n mhz;
  TimeDelta_Micros t.

(** ** DataRate *)
Definition BitsPerSec (v : Z) : C DataRate := FromValue v.
Definition BytesPerSec (v : Z) : C DataRate := FromFraction 8 v.
Definition KilobitsPerSec (v : Z) : C DataRate := FromFraction 1000 v.
Definition bps (q : DataRate) : C Z := ToValue q.
Definition bytes_per_sec (q : DataRate) : C Z := ToFraction 8 q.
Definition kbps (q : DataRate) : C Z := ToFraction 1000 q.
Definition bps_or (q : DataRate) (f : Z) : Z := ToValueOr q f.
Definition kbps_or (q : DataRate) (f : Z) : C Z := ToFractionOr 1000 q f.

Definition Microbits (size : DataSize) : C Z :=
  let kMaxBeforeConversion := Z.quot int64_max 8000000 in
  b ← bytes size;
  _ ← dcheck (b <=? kMaxBeforeConversion) "size is too large to be expressed in microbits";
  int64 (b * 8000000).

Definition MillibytePerSec (rate : DataRate) : C Z :=
  let kMaxBeforeConversion := Z.quot int64_max (Z.quot 1000 8) in
  b ← bps rate;
  _ ← dcheck (b <=? kMaxBeforeConversion)
        "rate is too large to be expressed in microbytes per second";
  int64 (b * Z.quot 1000 8).

(** [size / duration] *)
Definition size_per_duration (size : DataSize) (duration : TimeDelta) : C DataRate :=
  m ← Microbits size;
  us ← TimeDelta_us duration;
  r ← div64 m us;
  BitsPerSec r.

(** [size / rate] *)
Definition size_per_rate (size : DataSize) (rate : DataRate) : C TimeDelta :=
  m ← Microbits size;
  b ← bps rate;
  t ← div64 m b;
  TimeDelta_Micros t.

(** [rate * duration] *)
Definition rate_times_duration (rate : DataRate) (duration : TimeDelta) : C DataSize :=
  b ← bps rate;
  us ← TimeDelta_us duration;
  microbits ← int64 (b * us);
  m ← int64 (microbits + 4000000);
  n ← div64 m 8000000;
  Bytes n.

(** [rate / frequency] *)
Definition rate_per_frequency (rate : DataRate) (frequency : Frequency) : C DataSize :=
  mhz ← millihertz frequency;
  m ← MillibytePerSec rate;
  n ← div64 m mhz;
  Bytes n.

(** [rate / size] *)
Definition rate_per_size (rate : DataRate) (size : DataSize) : C Frequency :=
  m ← MillibytePerSec rate;
  b ← bytes size;
  f ← div64 m b;
  MilliHertz f.

(** [size * frequency] *)
Definition size_times_frequency (size : DataSize) (frequency : Frequency) : C DataRate :=
  b ← bytes size;
  mhz ← millihertz frequency;
  lim ← (if IsZero frequency then mret 0 else div64 (Z.quot int64_max 8) mhz);
  _ ← dcheck (IsZero frequency || (b <=? lim)) "size <= max() / 8 / frequency";
  b8 ← int64 (b * 8);
  millibits_per_second ← int64 (b8 * mhz);
  m ← int64 (millibits_per_second + 500);
  r ← div64 m 1000;
  BitsPerSec r.

End Units.
