(* ===== verification/UnitsTheorems.v ===== *)
(** Properties of quantities: they are the integers with two infinities, rounding
    and conversion are exact to half a unit, and rates, sizes and durations fit
    together. *)
From S2P Require Import Prelude Units.
From Stdlib Require Import ZArith Lia.
From stdpp Require Import base tactics numbers strings list.

Open Scope Z_scope.

(** * Extended integers *)

Inductive ext := MInf | Fin (z : Z) | PInf.

#[global] Instance ext_eq_dec : EqDecision ext.
Proof. solve_decision. Defined.

Definition denote {k} (q : quantity k) : ext :=
  if value_ q =? int64_max then PInf else if value_ q =? int64_min then MInf else Fin (value_ q).

Definition ext_add (a b : ext) : option ext :=
  match a, b with
  | Fin x, Fin y => Some (Fin (x + y))
  | PInf, MInf | MInf, PInf => None
  | PInf, _ | _, PInf => Some PInf
  | MInf, _ | _, MInf => Some MInf
  end.

Definition ext_neg (a : ext) : ext :=
  match a with MInf => PInf | Fin z => Fin (- z) | PInf => MInf end.

Definition ext_ltb (a b : ext) : bool :=
  match a, b with
  | MInf, MInf | PInf, _ => false
  | MInf, _ => true
  | Fin x, Fin y => x <? y
  | Fin _, PInf => true
  | Fin _, MInf => false
  end.

(** The extended integers a unit can hold. *)
Definition fits (k : unit_kind) (e : ext) : Prop :=
  match e with
  | Fin z => int64_min < z < int64_max ∧ (one_sided k = true → 0 ≤ z)
  | _ => True
  end.

(** Objects of the classes hold an [int64_t]. *)
Definition stored {k} (q : quantity k) : Prop := int64_min ≤ value_ q ≤ int64_max.

(** * Steps *)

Lemma int64_ok z : int64_min ≤ z ≤ int64_max → int64 z tt = Ok (z, tt).
Proof.
  intros Hz. unfold int64. rewrite (proj2 (Z.leb_le _ _)), (proj2 (Z.leb_le _ _)) by lia. done.
Qed.

Lemma int64_inv z v u : int64 z u = Ok (v, u) → v = z ∧ int64_min ≤ z ≤ int64_max.
Proof.
  unfold int64. destruct (Z.leb_spec int64_min z), (Z.leb_spec z int64_max); simpl; try done.
  intros [= ->]. done.
Qed.

Lemma wp_int64 z (Q : Z → unit → Prop) u :
  int64_min ≤ z ≤ int64_max → Q z u → wp (int64 z) Q u.
Proof. destruct u. intros Hz HQ. unfold wp. by rewrite int64_ok. Qed.

Lemma wp_div64 n d (Q : Z → unit → Prop) u :
  d ≠ 0 → int64_min ≤ Z.quot n d ≤ int64_max → Q (Z.quot n d) u → wp (div64 n d) Q u.
Proof.
  intros Hd Hq HQ. unfold div64. destruct (Z.eqb_spec d 0); [done|]. by apply wp_int64.
Qed.

(** Dividing a positive number by a positive one. *)
Lemma wp_div64_pos n d (Q : Z → unit → Prop) u :
  0 < d → 0 ≤ n ≤ int64_max → Q (n / d) u → wp (div64 n d) Q u.
Proof.
  intros Hd Hn HQ. rewrite <-Z.quot_div_nonneg in HQ by lia. apply wp_div64; [lia| |done].
  rewrite Z.quot_div_nonneg by lia. assert (int64_min < 0) by done.
  pose proof (Z.div_pos n d). pose proof (Z.div_le_upper_bound n d n). nia.
Qed.

Lemma wp_tt {A} (m : C A) Q : wp m Q tt → ∃ a, m tt = Ok (a, tt) ∧ Q a tt.
Proof. intros Hm. destruct (wp_ok_inv _ _ _ Hm) as (a&[]&?&?). eauto. Qed.

Section Theorems.
Context `{!BuildConfig} {k : unit_kind}.
Implicit Types q r : quantity k.

Lemma IsFinite_denote q z : denote q = Fin z → IsFinite q = true ∧ value_ q = z.
Proof.
  unfold denote, IsFinite, IsInfinite, PlusInfinityVal, MinusInfinityVal.
  destruct (Z.eqb_spec (value_ q) int64_max), (Z.eqb_spec (value_ q) int64_min); try done.
  by intros [= <-].
Qed.

Lemma fits_denote v : fits k (Fin v) → denote (@Unit_T k v) = Fin v.
Proof.
  intros [Hv _]. unfold denote. simpl.
  destruct (Z.eqb_spec v int64_max), (Z.eqb_spec v int64_min); try lia. done.
Qed.

Lemma wp_FromValue v (Q : quantity k → unit → Prop) u :
  fits k (Fin v) → Q (Unit_T v) u → wp (FromValue v) Q u.
Proof.
  intros [Hv Ho] HQ. unfold FromValue, PlusInfinityVal, MinusInfinityVal. wp_run.
  destruct (one_sided k); [apply wp_dcheck; [intros _; apply Z.leb_le; by apply Ho|]|]; wp_run;
    (apply wp_dcheck; [intros _; apply Z.ltb_lt; lia|]); wp_run;
    (apply wp_dcheck; [intros _; apply Z.ltb_lt; lia|]); by wp_run.
Qed.

Lemma wp_ToValue q z (Q : Z → unit → Prop) u :
  denote q = Fin z → Q z u → wp (ToValue q) Q u.
Proof.
  intros [Hf <-]%IsFinite_denote HQ. unfold ToValue. by wp_run.
Qed.
End Theorems.

(** ** Sums and differences

    All of them are the same code at different units; [int_of] is the number
    below the infinities. *)

Lemma denote_inj {k} (q r : quantity k) : denote q = denote r → q = r.
Proof.
  destruct q as [x], r as [y]. unfold denote. simpl.
  destruct (Z.eqb_spec x int64_max), (Z.eqb_spec x int64_min),
    (Z.eqb_spec y int64_max), (Z.eqb_spec y int64_min); intros; simplify_eq; congruence.
Qed.

(** What code that is to compute the extended integer [e] may answer.  An infinity is
    returned.  A number outside [int64_t] is an overflow, in every build.  Otherwise a
    checked build returns the number where the unit can hold it and fails a check where
    not, while an unchecked build returns it in any case (so that it may read as an
    infinity, or be negative in a one-sided unit).  For opposite infinities a checked build
    fails a check, and an unchecked one answers plus infinity. *)
Definition sums_to `{!BuildConfig} {k} (e : option ext) (m : outcome (quantity k * unit)) : Prop :=
  let refused := ∃ what, m = Fault (CheckFailed what) in
  match e with
  | None => if RTC_DCHECK_IS_ON then refused else m = Ok (PlusInfinity, tt)
  | Some PInf => m = Ok (PlusInfinity, tt)
  | Some MInf => m = Ok (MinusInfinity, tt)
  | Some (Fin z) =>
    if (int64_min <=? z) && (z <=? int64_max) then
      (RTC_DCHECK_IS_ON = false ∨ fits k (Fin z) → m = Ok (Unit_T z, tt)) ∧
      (RTC_DCHECK_IS_ON = true → ¬ fits k (Fin z) → refused)
    else m = Fault (UndefinedBehaviour "signed overflow")
  end.

Section Sums.
Context `{!BuildConfig}.

(** The sum of two finite quantities. *)
Lemma finite_sum {k} (z : Z) : sums_to (k := k) (Some (Fin z)) ((v ← int64 z; FromValue v) tt).
Proof.
  unfold sums_to, int64. destruct ((int64_min <=? z) && (z <=? int64_max)) eqn:Hz; [|done].
  unfold FromValue, dcheck, check, mbind, M_bind, PlusInfinityVal, MinusInfinityVal, fits. simpl.
  destruct RTC_DCHECK_IS_ON; simpl; [|split; [by destruct (one_sided k)|done]].
  split.
  - intros [|[Hr Ho]]; [done|]. rewrite !(proj2 (Z.ltb_lt _ _)) by lia.
    destruct (one_sided k); [|done]. by rewrite (proj2 (Z.leb_le _ _)) by (by apply Ho).
  - intros _ Hn. destruct (one_sided k); [destruct (Z.leb_spec 0 z); [|by eexists]|]; simpl;
      destruct (Z.ltb_spec int64_min z), (Z.ltb_spec z int64_max); simpl;
      try (by eexists); exfalso; apply Hn; (split; [lia|by auto]).
Qed.

Lemma dcheck_is b what (u : unit) :
  dcheck b what u = (if negb RTC_DCHECK_IS_ON || b then Ok (tt, u) else Fault (CheckFailed what)).
Proof. unfold dcheck. by destruct RTC_DCHECK_IS_ON, b. Qed.

Lemma bind_on {A B} (m : C A) (f : A → C B) a : m tt = Ok (a, tt) → (m ≫= f) tt = f a tt.
Proof. apply bind_run. Qed.

Lemma ToValue_finite {k} a : a ≠ int64_max → a ≠ int64_min → ToValue (@Unit_T k a) tt = Ok (a, tt).
Proof.
  intros H1 H2. unfold ToValue, mbind, M_bind, IsFinite, IsInfinite, PlusInfinityVal, MinusInfinityVal.
  rewrite dcheck_is. cbn [value_]. rewrite !(proj2 (Z.eqb_neq _ _)) by done. by destruct RTC_DCHECK_IS_ON.
Qed.

End Sums.

Lemma infinities_differ : int64_min ≠ int64_max.
Proof. done. Qed.

(** Runs a sum of [q] and [r]: the infinite cases by evaluation, the finite one by
    [finite_sum]. *)
Ltac sum_cases q r :=
  let a := fresh "a" in let b := fresh "b" in
  destruct q as [a], r as [b];
  unfold denote at 1 2, IsPlusInfinity, IsMinusInfinity, PlusInfinityVal, MinusInfinityVal;
  cbn [value_];
  destruct (Z.eqb_spec a int64_max), (Z.eqb_spec a int64_min),
    (Z.eqb_spec b int64_max), (Z.eqb_spec b int64_min); try (exfalso; apply infinities_differ; congruence);
  cbn [orb negb ext_add ext_neg];
  first
    [ rewrite (bind_on (ToValue _) _ a) by (by apply ToValue_finite);
      rewrite (bind_on (ToValue _) _ b) by (by apply ToValue_finite); apply finite_sum
    | unfold sums_to, dcheck, check, mbind, M_bind; destruct RTC_DCHECK_IS_ON; simpl; by eauto ].

(** C20. Sums and differences of quantities, of timestamps with durations and of
    timestamps are those of the extended integers, as far as the unit can hold them, in
    both builds; [sums_to] says what happens otherwise: a failed check in a checked build,
    an unchecked result in the other, and undefined behaviour in both where the number of
    microseconds, bytes, ... leaves [int64_t]. *)
Theorem sums_are_extended `{!BuildConfig} (k : unit_kind) :
  (∀ q r : quantity k, sums_to (ext_add (denote q) (denote r)) (unit_plus q r tt)) ∧
  (∀ q r : quantity k, sums_to (ext_add (denote q) (ext_neg (denote r))) (unit_minus q r tt)) ∧
  (∀ (t : Timestamp) (d : TimeDelta),
     sums_to (ext_add (denote t) (denote d)) (Timestamp_plus t d tt)) ∧
  (∀ (t : Timestamp) (d : TimeDelta),
     sums_to (ext_add (denote t) (ext_neg (denote d))) (Timestamp_minus t d tt)) ∧
  (∀ t u : Timestamp, sums_to (ext_add (denote t) (ext_neg (denote u))) (Timestamp_difference t u tt)).
Proof.
  split_and!; intros.
  - unfold unit_plus. sum_cases q r.
  - unfold unit_minus. sum_cases q r.
  - unfold Timestamp_plus, Timestamp_us, TimeDelta_us, Timestamp_Micros. sum_cases t d.
  - unfold Timestamp_minus, Timestamp_us, TimeDelta_us, Timestamp_Micros. sum_cases t d.
  - unfold Timestamp_difference, Timestamp_us, TimeDelta_Micros. sum_cases t u.
Qed.

#[local] Instance checked_build : BuildConfig := true.

Lemma sums_are_extended_witness :
  unit_plus (Unit_T 2 : DataSize) (Unit_T 3) tt = Ok (Unit_T 5, tt) ∧
  Timestamp_difference (Unit_T 2) (Unit_T 7) tt = Ok (Unit_T (-5), tt).
Proof.
  destruct (sums_are_extended KDataSize) as (Hp&_&_&_&Hd). split.
  - apply (Hp (Unit_T 2) (Unit_T 3)). right. split; [done|]. done.
  - apply (Hd (Unit_T 2) (Unit_T 7)). right. split; [done|]. done.
Defined.

(** ** Rounding *)

Section Rounding.
Context `{!BuildConfig} {k : unit_kind}.
Implicit Types q res : quantity k.

(** The common end of the three roundings: a multiple of the resolution. *)
Lemma wp_multiple n r (Q : quantity k → unit → Prop) u :
  0 < r → int64_min < n < int64_max → fits k (Fin (Z.quot n r * r)) → fits k (Fin (Z.quot n r)) →
  Q (Unit_T (Z.quot n r * r)) u →
  wp (d ← div64 n r; unit_times (Unit_T d) r) Q u.
Proof.
  intros Hr Hn Hm Hd HQ. apply wp_bind, wp_div64; [lia|destruct Hd; lia|].
  unfold unit_times. apply wp_bind, (wp_ToValue _ (Z.quot n r)); [by apply fits_denote|].
  apply wp_bind, wp_int64; [destruct Hm; lia|]. by apply wp_FromValue.
Qed.

Lemma wp_round_checks q res v r (Q : unit → unit → Prop) u :
  denote q = Fin v → denote res = Fin r → 0 < r → Q tt u → wp (round_checks q res) Q u.
Proof.
  intros [Hq _]%IsFinite_denote [Hres <-]%IsFinite_denote Hr HQ. unfold round_checks. wp_run.
  apply wp_dcheck; [intros _; by apply Z.ltb_lt|done].
Qed.

(** What truncated division gives. *)
Lemma quot_bounds n r :
  0 < r → let m := Z.quot n r * r in
  (0 ≤ n → 0 ≤ m ≤ n ∧ n < m + r) ∧ (n ≤ 0 → n ≤ m ≤ 0 ∧ m - r < n).
Proof.
  intros Hr m. pose proof (Z.quot_rem' n r).
  assert (m = n - Z.rem n r) as -> by (unfold m; lia).
  split; intros Hn.
  - pose proof (Z.rem_bound_pos n r Hn Hr). pose proof (Z.rem_le n r Hn Hr). lia.
  - pose proof (Z.rem_bound_pos (- n) r ltac:(lia) Hr).
    pose proof (Z.rem_le (- n) r ltac:(lia) Hr). rewrite Z.rem_opp_l' in *. lia.
Qed.

(** The multiple and its number of steps fit when the numerator does. *)
Lemma quot_fits n r :
  0 < r → int64_min < n < int64_max → (one_sided k = true → 0 ≤ n) →
  fits k (Fin (Z.quot n r * r)) ∧ fits k (Fin (Z.quot n r)).
Proof.
  intros Hr Hn Ho. destruct (quot_bounds n r Hr) as [Hp Hm]. simpl.
  assert (int64_min < 0 < int64_max) by done.
  destruct (Z.le_gt_cases 0 n) as [Hs|Hs].
  - specialize (Hp Hs). nia.
  - destruct (one_sided k); [lia|]. specialize (Hm ltac:(lia)). split; (split; [nia|done]).
Qed.

Lemma wp_round n r (Q : quantity k → unit → Prop) u :
  0 < r → int64_min < n < int64_max → (one_sided k = true → 0 ≤ n) →
  Q (Unit_T (Z.quot n r * r)) u → wp (d ← div64 n r; unit_times (Unit_T d) r) Q u.
Proof.
  intros Hr Hn Ho HQ. destruct (quot_fits n r Hr Hn Ho). by apply wp_multiple.
Qed.

(** [r] divides [x]. *)
Definition multiple (r : Z) q (x : Z) : Prop := denote q = Fin x ∧ (r | x).

Lemma multiple_quot n r :
  0 < r → int64_min < n < int64_max → (one_sided k = true → 0 ≤ n) →
  multiple r (Unit_T (Z.quot n r * r)) (Z.quot n r * r).
Proof.
  intros Hr Hn Ho. split; [|by exists (Z.quot n r)]. by apply fits_denote, quot_fits.
Qed.

(** The three roundings as truncated divisions. *)
Lemma roundings q res v r :
  denote q = Fin v → denote res = Fin r → 0 < r < int64_max →
  (one_sided k = true → 0 ≤ v) → int64_min < v → v + r < int64_max →
  RoundDownTo q res tt = Ok (Unit_T (Z.quot v r * r), tt) ∧
  RoundUpTo q res tt = Ok (Unit_T (Z.quot (v + r - 1) r * r), tt) ∧
  RoundTo q res tt = Ok (Unit_T (Z.quot (v + Z.quot r 2) r * r), tt).
Proof.
  intros Hq Hres [Hr Hr'] Ho Hlo Hhi. assert (int64_min < 0 < int64_max) by done.
  assert (0 ≤ Z.quot r 2 ≤ r) by (rewrite Z.quot_div_nonneg by lia;
    pose proof (Z.div_pos r 2); pose proof (Z.div_le_upper_bound r 2 r); lia).
  destruct (IsFinite_denote q v Hq) as [_ Ev], (IsFinite_denote res r Hres) as [_ Er].
  assert (∀ (m : C (quantity k)) x, wp m (λ q' _, q' = x) tt → m tt = Ok (x, tt)) as Hwp
    by (intros m x (q'&?&->)%wp_tt; done).
  split_and!; apply Hwp; unfold RoundDownTo, RoundUpTo, RoundTo; rewrite Ev, Er;
    apply wp_bind, (wp_round_checks q res v r); try done.
  - apply wp_round; [lia|lia|done|done].
  - apply wp_bind, wp_int64; [lia|]. apply wp_bind, wp_int64; [lia|].
    apply wp_round; [lia|lia|intros; specialize (Ho ltac:(done)); lia|done].
  - apply wp_bind, wp_div64; [lia|lia|]. apply wp_bind, wp_int64; [lia|].
    apply wp_round; [lia|lia|intros; specialize (Ho ltac:(done)); lia|done].
Qed.
End Rounding.

(** Rounding a finite quantity [v] to a positive resolution [r], where [v + r]
    does not overflow.  The result is a multiple of [r].  For [v] not negative,
    [RoundDownTo] is the greatest multiple up to [v], [RoundUpTo] the least from
    [v], and [RoundTo] a nearest one.  For negative [v] (a [TimeDelta]) all three
    truncate towards zero instead: [RoundDownTo] rounds up, and [RoundUpTo], at
    least one resolution below zero, ends [r - 1] or more above [v]. *)
Theorem rounding_to_multiples `{!BuildConfig} (k : unit_kind) (q res : quantity k) v r :
  denote q = Fin v → denote res = Fin r → 0 < r < int64_max →
  (one_sided k = true → 0 ≤ v) → int64_min < v → v + r < int64_max →
  ∃ down up near x y z,
    RoundDownTo q res tt = Ok (down, tt) ∧ multiple r down x ∧
    RoundUpTo q res tt = Ok (up, tt) ∧ multiple r up y ∧
    RoundTo q res tt = Ok (near, tt) ∧ multiple r near z ∧
    (0 ≤ v → (x ≤ v < x + r) ∧ (y - r < v ≤ y) ∧ 2 * Z.abs (z - v) ≤ r) ∧
    (v < 0 → (x - r < v ≤ x) ∧ (v ≤ - r → v + r - 1 ≤ y)).
Proof.
  intros Hq Hres [Hr Hr'] Ho Hlo Hhi.
  destruct (roundings q res v r Hq Hres (conj Hr Hr') Ho Hlo Hhi) as (Hd&Hu&Hn).
  pose proof (Z.quot_rem' r 2). pose proof (Z.rem_bound_pos r 2 ltac:(lia) ltac:(lia)).
  assert (int64_min < 0 < int64_max) by done.
  eexists _, _, _, _, _, _; split_and!; [exact Hd| |exact Hu| |exact Hn| | |];
    try (apply multiple_quot; try lia; intros; specialize (Ho ltac:(done)); lia).
  - intros Hv. destruct (quot_bounds v r Hr) as [Bd _], (quot_bounds (v + r - 1) r Hr) as [Bu _],
      (quot_bounds (v + Z.quot r 2) r Hr) as [Bn _]. lia.
  - intros Hv. destruct (quot_bounds v r Hr) as [_ Bd], (quot_bounds (v + r - 1) r Hr) as [_ Bu].
    lia.
Qed.

Lemma rounding_to_multiples_witness :
  ∃ down x, RoundDownTo (Unit_T (-10) : TimeDelta) (Unit_T 4) tt = Ok (down, tt) ∧
    multiple 4 down x ∧ x - 4 < -10 ≤ x.
Proof.
  destruct (rounding_to_multiples KTimeDelta (Unit_T (-10)) (Unit_T 4) (-10) 4)
    as (down&up&near&x&y&z&Hd&Hx&_&_&_&_&_&Hneg); [done..|].
  exists down, x. split; [exact Hd|]. split; [exact Hx|]. apply Hneg. done.
Defined.

(** ** Conversions *)

Section Conversions.
Context `{!BuildConfig} {k : unit_kind}.

Lemma wp_DivRoundPositiveToNearest n d (Q : Z → unit → Prop) u :
  0 < d ≤ int64_max → 0 ≤ n → n + d ≤ int64_max + 1 → Q ((n + d / 2) / d) u →
  wp (DivRoundPositiveToNearest n d) Q u.
Proof.
  intros Hd Hn Hm HQ. assert (int64_min < 0) by done.
  pose proof (Z.div_pos d 2). pose proof (Z.div_lt d 2).
  unfold DivRoundPositiveToNearest. apply wp_bind, wp_div64_pos; [lia..|].
  apply wp_bind, wp_int64; [lia|]. apply wp_div64_pos; [lia..|done].
Qed.

Lemma wp_DivRoundToNearest n d (Q : Z → unit → Prop) u :
  0 < d ≤ int64_max → Z.abs n + d ≤ int64_max + 1 →
  Q (if 0 <=? n then (n + d / 2) / d else - ((- n + d / 2) / d)) u →
  wp (DivRoundToNearest n d) Q u.
Proof.
  intros Hd Hm HQ. assert (int64_min = - int64_max - 1) by done.
  pose proof (Z.div_pos d 2). pose proof (Z.div_lt d 2).
  unfold DivRoundToNearest. destruct (Z.leb_spec 0 n).
  - apply wp_bind, wp_div64_pos; [lia..|]. apply wp_bind, wp_int64; [lia|].
    apply wp_div64_pos; [lia..|done].
  - pose proof (Z.div_pos (- n + d / 2) d). pose proof (Z.div_le_upper_bound (- n + d / 2) d int64_max).
    assert (Z.quot (- d) 2 = - (d / 2)) as E by (rewrite Z.quot_opp_l, Z.quot_div_nonneg by lia; lia).
    apply wp_bind, wp_div64; [lia|lia|]. rewrite E. apply wp_bind, wp_int64; [lia|].
    replace (n + - (d / 2)) with (- (- n + d / 2)) by lia.
    assert (Z.quot (- (- n + d / 2)) d = - ((- n + d / 2) / d)) as E'
      by (rewrite Z.quot_opp_l, Z.quot_div_nonneg by lia; lia).
    apply wp_div64; rewrite ?E'; [lia|nia|done].
Qed.

(** Adding half a divisor before dividing rounds to a nearest quotient. *)
Lemma nearest_quotient n d : 0 < d → 2 * Z.abs ((n + d / 2) / d * d - n) ≤ d.
Proof.
  intros Hd. pose proof (Z.div_mod (n + d / 2) d ltac:(lia)).
  pose proof (Z.mod_pos_bound (n + d / 2) d Hd). pose proof (Z.div_mod d 2 ltac:(lia)).
  pose proof (Z.mod_pos_bound d 2 ltac:(lia)). lia.
Qed.

Lemma ToFraction_nearest (q : quantity k) d v :
  denote q = Fin v → 0 < d ≤ int64_max → (one_sided k = true → 0 ≤ v) → Z.abs v + d ≤ int64_max + 1 →
  ∃ y, ToFraction d q tt = Ok (y, tt) ∧ ToFractionOr d q 0 tt = Ok (y, tt) ∧
       2 * Z.abs (y * d - v) ≤ d.
Proof.
  intros Hq Hd Ho Hb. destruct (IsFinite_denote q v Hq) as [Hf Ev].
  unfold ToFraction, ToFractionOr. rewrite Hf, Ev.
  assert (∃ y, (if one_sided k then DivRoundPositiveToNearest v d else DivRoundToNearest v d) tt =
    Ok (y, tt) ∧ 2 * Z.abs (y * d - v) ≤ d) as (y&Hy&Hn).
  { destruct (one_sided k).
    - apply (wp_tt _ (λ y _, 2 * Z.abs (y * d - v) ≤ d)), wp_DivRoundPositiveToNearest; [lia..|]. apply nearest_quotient; lia.
    - apply (wp_tt _ (λ y _, 2 * Z.abs (y * d - v) ≤ d)), wp_DivRoundToNearest; [lia..|]. pose proof (nearest_quotient v d ltac:(lia)).
      pose proof (nearest_quotient (- v) d ltac:(lia)). destruct (0 <=? v); lia. }
  exists y. split_and!; [|done|done].
  destruct (one_sided k); unfold mbind, M_bind, dcheck, check; by destruct RTC_DCHECK_IS_ON.
Qed.

Lemma FromFraction_value d v :
  0 < d ≤ int64_max → Z.quot int64_min d < v < Z.quot int64_max d → (one_sided k = true → 0 ≤ v) →
  FromFraction (k := k) d v tt = Ok (Unit_T (v * d), tt) ∧
  Z.abs (v * d) + d ≤ int64_max + 1 ∧ v * d < int64_max.
Proof.
  intros Hd Hv Ho. assert (int64_min = - int64_max - 1 ∧ 0 < int64_max) as [E Hpos] by done.
  destruct (quot_bounds int64_max d ltac:(lia)) as [Bm _], (quot_bounds int64_min d ltac:(lia)) as [_ Bn].
  specialize (Bm ltac:(lia)). specialize (Bn ltac:(lia)).
  assert ((v + 1) * d ≤ Z.quot int64_max d * d) by (apply Z.mul_le_mono_nonneg_r; lia).
  assert (Z.quot int64_min d * d ≤ (v - 1) * d) by (apply Z.mul_le_mono_nonneg_r; lia).
  assert (Z.abs (v * d) + d ≤ int64_max + 1) as Hb by lia. split; [|lia].
  destruct (wp_tt (FromFraction (k := k) d v) (λ q _, q = Unit_T (v * d))) as (q&?&->); [|done].
  unfold FromFraction. apply wp_bind.
  assert (wp (if one_sided k then dcheck (0 <=? v) "value >= 0" else mret tt)
             (λ _ _, True) tt) as Hc.
  { destruct (one_sided k); [|done]. apply wp_dcheck; [|done]. intros _. apply Z.leb_le. auto. }
  eapply wp_mono; [exact Hc|]. intros [] [] _. clear Hc. unfold PlusInfinityVal, MinusInfinityVal.
  apply wp_bind, wp_div64; [lia|nia|]. apply wp_bind, wp_dcheck; [intros _; apply Z.ltb_lt; lia|].
  apply wp_bind, wp_div64; [lia|nia|]. apply wp_bind, wp_dcheck; [intros _; apply Z.ltb_lt; lia|].
  apply wp_bind, wp_int64; [lia|]. done.
Qed.

(** Back and forth through a coarser unit. *)
Lemma fraction_round_trip d v :
  0 < d ≤ int64_max → Z.quot int64_min d < v < Z.quot int64_max d → (one_sided k = true → 0 ≤ v) →
  ∃ q, FromFraction (k := k) d v tt = Ok (q, tt) ∧ denote q = Fin (v * d) ∧
       ToFraction d q tt = Ok (v, tt).
Proof.
  intros Hd Hv Ho. destruct (FromFraction_value d v Hd Hv Ho) as (Hf&Hb&Hlt).
  assert (int64_min = - int64_max - 1) by done.
  assert (denote (@Unit_T k (v * d)) = Fin (v * d)) as Hq.
  { apply fits_denote. split; [lia|]. intros. specialize (Ho ltac:(done)). nia. }
  destruct (ToFraction_nearest (@Unit_T k (v * d)) d (v * d) Hq Hd) as (y&Hy&_&Hn);
    [intros; specialize (Ho ltac:(done)); nia|lia|].
  exists (Unit_T (v * d)). split_and!; [done..|]. rewrite Hy. repeat f_equal. nia.
Qed.
End Conversions.

Section RoundTrips.
Context `{!BuildConfig}.

Lemma through_fraction {k} d v :
  0 < d ≤ 1000000 → Z.abs v < 9000000000000 → (one_sided k = true → 0 ≤ v) →
  (FromFraction (k := k) d v ≫= ToFraction d) tt = Ok (v, tt).
Proof.
  intros Hd Hv Ho. assert (int64_max = 9223372036854775807 ∧ int64_min = -9223372036854775808)
    as [Emax Emin] by done.
  destruct (quot_bounds int64_max d ltac:(lia)) as [Bm _],
    (quot_bounds int64_min d ltac:(lia)) as [_ Bn].
  destruct (fraction_round_trip (k := k) d v) as (q&Hf&_&Ht); [lia|nia|done|].
  by rewrite (bind_on _ _ q).
Qed.
End RoundTrips.

(** Conversions.  Making a quantity from seconds, milliseconds, hertz,
    kilobits or bytes per second and reading it back in the same unit
    gives the number (for every number below 9·10^12, negative ones only for time
    deltas), and reading a quantity in a coarser unit gives a nearest number of
    that unit as long as half a unit can be added without overflow. *)
Theorem conversions `{!BuildConfig} :
  (∀ v, Z.abs v < 9000000000000 →
     (TimeDelta_Seconds v ≫= TimeDelta_seconds) tt = Ok (v, tt) ∧
     (TimeDelta_Millis v ≫= TimeDelta_ms) tt = Ok (v, tt) ∧
     (TimeDelta_Micros v ≫= TimeDelta_us) tt = Ok (v, tt)) ∧
  (∀ v, 0 ≤ v < 9000000000000 →
     (Timestamp_Seconds v ≫= Timestamp_seconds) tt = Ok (v, tt) ∧
     (Timestamp_Millis v ≫= Timestamp_ms) tt = Ok (v, tt) ∧
     (Hertz v ≫= hertz) tt = Ok (v, tt) ∧
     (KilobitsPerSec v ≫= kbps) tt = Ok (v, tt) ∧
     (BytesPerSec v ≫= bytes_per_sec) tt = Ok (v, tt)) ∧
  (∀ k (q : quantity k) d v, denote q = Fin v → 0 < d ≤ int64_max →
     (one_sided k = true → 0 ≤ v) → Z.abs v + d ≤ int64_max + 1 →
     ∃ y, ToFraction d q tt = Ok (y, tt) ∧ ToFractionOr d q 0 tt = Ok (y, tt) ∧
          2 * Z.abs (y * d - v) ≤ d).
Proof.
  split_and!.
  - intros v Hv. split_and!; [by apply (through_fraction (k := KTimeDelta))..|].
    destruct (wp_tt (TimeDelta_Micros v ≫= TimeDelta_us) (λ z _, z = v)) as (?&?&->); [|done].
    assert (fits KTimeDelta (Fin v)).
    { split; [|done]. split; [|]; unfold int64_max, int64_min; lia. }
    apply wp_bind, wp_FromValue; [done|]. apply (wp_ToValue _ v); [by apply fits_denote|done].
  - intros v Hv. split_and!; (apply through_fraction; [done|lia|lia]).
  - intros. by apply ToFraction_nearest.
Qed.

Lemma conversions_witness :
  (TimeDelta_Seconds (-7) ≫= TimeDelta_seconds) tt = Ok (-7, tt) ∧
  (Hertz 30 ≫= hertz) tt = Ok (30, tt) ∧
  ∃ y, ToFraction 1000 (Unit_T 1500 : DataRate) tt = Ok (y, tt) ∧ 2 * Z.abs (y * 1000 - 1500) ≤ 1000.
Proof.
  destruct conversions as (Ht&Hu&Hn). split; [|split].
  - destruct (Ht (-7) ltac:(lia)) as (H&_). exact H.
  - destruct (Hu 30 ltac:(lia)) as (_&_&H&_). exact H.
  - destruct (Hn KDataRate (Unit_T 1500) 1000 1500) as (y&Hy&_&Hb); [done|done|done|done|].
    exists y. split; [exact Hy|exact Hb].
Defined.

(** ** Rates, sizes and durations *)

Section Rates.
Context `{!BuildConfig}.

Lemma fits_pos k z : 0 ≤ z < int64_max → fits k (Fin z).
Proof. intros. assert (int64_min < 0) by done. split; lia. Qed.

Lemma wp_Microbits size n (Q : Z → unit → Prop) u :
  denote size = Fin n → 0 ≤ n → n * 8000000 ≤ int64_max → Q (n * 8000000) u →
  wp (Microbits size) Q u.
Proof.
  intros Hs Hn Hm HQ. assert (int64_min < 0) by done.
  unfold Microbits. apply wp_bind, (wp_ToValue _ n); [done|].
  apply wp_bind, wp_dcheck; [|apply wp_int64; [lia|done]].
  intros _. apply Z.leb_le. rewrite Z.quot_div_nonneg by done.
  apply Z.div_le_lower_bound; lia.
Qed.

Lemma size_per_duration_value size duration n us :
  denote size = Fin n → denote duration = Fin us → 0 ≤ n → n * 8000000 < int64_max → 0 < us →
  size_per_duration size duration tt = Ok (Unit_T (n * 8000000 / us), tt).
Proof.
  intros Hs Hd Hn Hm Hu.
  destruct (wp_tt (size_per_duration size duration) (λ q _, q = Unit_T (n * 8000000 / us)))
    as (?&?&->); [|done].
  unfold size_per_duration. apply wp_bind, (wp_Microbits _ n); [done|lia..|].
  apply wp_bind, (wp_ToValue _ us); [done|]. apply wp_bind, wp_div64_pos; [lia..|].
  apply wp_FromValue; [|done]. apply fits_pos.
  pose proof (Z.div_pos (n * 8000000) us). pose proof (Z.div_le_upper_bound (n * 8000000) us (n * 8000000)).
  nia.
Qed.

Lemma size_per_rate_value size rate n b :
  denote size = Fin n → denote rate = Fin b → 0 ≤ n → n * 8000000 < int64_max → 0 < b →
  size_per_rate size rate tt = Ok (Unit_T (n * 8000000 / b), tt).
Proof.
  intros Hs Hd Hn Hm Hu.
  destruct (wp_tt (size_per_rate size rate) (λ q _, q = Unit_T (n * 8000000 / b)))
    as (?&?&->); [|done].
  unfold size_per_rate. apply wp_bind, (wp_Microbits _ n); [done|lia..|].
  apply wp_bind, (wp_ToValue _ b); [done|]. apply wp_bind, wp_div64_pos; [lia..|].
  apply wp_FromValue; [|done]. apply fits_pos.
  pose proof (Z.div_pos (n * 8000000) b). pose proof (Z.div_le_upper_bound (n * 8000000) b (n * 8000000)).
  nia.
Qed.

Lemma rate_times_duration_value rate duration b us :
  denote rate = Fin b → denote duration = Fin us → 0 ≤ b → 0 ≤ us → b * us + 4000000 ≤ int64_max →
  rate_times_duration rate duration tt = Ok (Unit_T ((b * us + 4000000) / 8000000), tt).
Proof.
  intros Hr Hd Hb Hu Hm. assert (int64_min < 0) by done.
  destruct (wp_tt (rate_times_duration rate duration)
    (λ q _, q = Unit_T ((b * us + 4000000) / 8000000))) as (?&?&->); [|done].
  unfold rate_times_duration. apply wp_bind, (wp_ToValue _ b); [done|].
  apply wp_bind, (wp_ToValue _ us); [done|]. apply wp_bind, wp_int64; [nia|].
  apply wp_bind, wp_int64; [nia|]. apply wp_bind, wp_div64_pos; [lia|nia|].
  apply wp_FromValue; [|done]. apply fits_pos.
  pose proof (Z.div_pos (b * us + 4000000) 8000000).
  pose proof (Z.div_lt (b * us + 4000000) 8000000). nia.
Qed.

(** A quotient times its divisor, rounded to nearest, is the dividend. *)
Lemma quotient_recovers n d :
  0 ≤ n → 0 < d ≤ 4000000 → (n * 8000000 / d * d + 4000000) / 8000000 = n.
Proof.
  intros Hn Hd. symmetry. apply (Z.div_unique _ _ _ (n * 8000000 / d * d + 4000000 - n * 8000000)); [|lia].
  left. pose proof (Z.div_mod (n * 8000000) d ltac:(lia)).
  pose proof (Z.mod_pos_bound (n * 8000000) d ltac:(lia)). nia.
Qed.
End Rates.

(** A rate times a duration is the size in bytes nearest to it; a size over a
    duration, or over a rate, is the rate, or duration, rounded down; and the
    operations undo each other: for durations up to four seconds
    [(size / duration) * duration] is [size], and for rates up to four megabits
    per second [rate * (size / rate)] is.  (The sizes and products must be
    expressible in microbits below 2^63, as the code checks or assumes.) *)
Theorem rates_sizes_durations `{!BuildConfig} rate size duration b n us :
  denote rate = Fin b → denote size = Fin n → denote duration = Fin us →
  0 < b → 0 ≤ n → 0 < us → n * 8000000 + 4000000 ≤ int64_max → b * us + 4000000 ≤ int64_max →
  (∃ s, rate_times_duration rate duration tt = Ok (Unit_T s, tt) ∧
        2 * Z.abs (s * 8000000 - b * us) ≤ 8000000) ∧
  (∃ r, size_per_duration size duration tt = Ok (Unit_T r, tt) ∧
        r * us ≤ n * 8000000 < (r + 1) * us) ∧
  (∃ t, size_per_rate size rate tt = Ok (Unit_T t, tt) ∧
        t * b ≤ n * 8000000 < (t + 1) * b) ∧
  (us ≤ 4000000 →
     (r ← size_per_duration size duration; rate_times_duration r duration) tt = Ok (size, tt)) ∧
  (b ≤ 4000000 →
     (t ← size_per_rate size rate; rate_times_duration rate t) tt = Ok (size, tt)).
Proof.
  intros Hr Hs Hd Hb Hn Hu Hm Hm'.
  pose proof (size_per_duration_value size duration n us Hs Hd Hn ltac:(lia) Hu) as Hsd.
  pose proof (size_per_rate_value size rate n b Hs Hr Hn ltac:(lia) Hb) as Hsr.
  assert (∀ d, 0 < d → n * 8000000 / d * d ≤ n * 8000000 < (n * 8000000 / d + 1) * d ∧
    0 ≤ n * 8000000 / d) as Hq.
  { intros d Hd'. pose proof (Z.div_mod (n * 8000000) d ltac:(lia)).
    pose proof (Z.mod_pos_bound (n * 8000000) d Hd'). pose proof (Z.div_pos (n * 8000000) d). lia. }
  assert (∀ k d, 0 < d → denote (@Unit_T k (n * 8000000 / d)) = Fin (n * 8000000 / d)) as Hf.
  { intros k d Hd'. apply fits_denote, fits_pos. specialize (Hq d Hd').
    pose proof (Z.div_le_upper_bound (n * 8000000) d (n * 8000000)). nia. }
  assert (size = Unit_T n) as Es by (destruct size; by destruct (IsFinite_denote _ _ Hs) as [_ <-]).
  split_and!.
  - exists ((b * us + 4000000) / 8000000).
    split; [by apply rate_times_duration_value; try lia|]. apply (nearest_quotient (b * us) 8000000). lia.
  - eexists. split; [exact Hsd|]. by apply Hq.
  - eexists. split; [exact Hsr|]. by apply Hq.
  - intros Hus. rewrite (bind_on _ _ _ Hsd), Es.
    rewrite (rate_times_duration_value _ _ (n * 8000000 / us) us), quotient_recovers
      by (first [by apply Hf | specialize (Hq us Hu); lia | done]). done.
  - intros Hbs. rewrite (bind_on _ _ _ Hsr), Es.
    rewrite (rate_times_duration_value _ _ b (n * 8000000 / b)), (Z.mul_comm b), quotient_recovers
      by (first [by apply Hf | specialize (Hq b Hb); lia | done]). done.
Qed.

Lemma rates_sizes_durations_witness :
  (r ← size_per_duration (Unit_T 1200) (Unit_T 20000); rate_times_duration r (Unit_T 20000)) tt =
  Ok (Unit_T 1200, tt).
Proof.
  apply (rates_sizes_durations (Unit_T 480000) (Unit_T 1200) (Unit_T 20000) 480000 1200 20000);
    done.
Defined.

(** Comparisons are those of the extended integers, for every [int64_t], and
    [Clamped] is the quantity itself inside the interval and its nearer end
    outside. *)
Theorem comparisons_are_extended (k : unit_kind) (q r lo hi : quantity k) :
  stored q → stored r → unit_le lo hi = true →
  unit_lt q r = ext_ltb (denote q) (denote r) ∧
  unit_gt q r = ext_ltb (denote r) (denote q) ∧
  unit_le q r = negb (ext_ltb (denote r) (denote q)) ∧
  unit_ge q r = negb (ext_ltb (denote q) (denote r)) ∧
  unit_eq q r = bool_decide (denote q = denote r) ∧
  unit_ne q r = negb (bool_decide (denote q = denote r)) ∧
  Clamped q lo hi = (if unit_lt q lo then lo else if unit_lt hi q then hi else q).
Proof.
  intros Hq Hr Hl.
  assert (∀ a b : quantity k, stored a → stored b → unit_lt a b = ext_ltb (denote a) (denote b)) as Hlt.
  { intros [a] [b] Ha Hb. unfold stored, unit_lt, denote in *. simpl in *.
    destruct (Z.eqb_spec a int64_max), (Z.eqb_spec a int64_min),
      (Z.eqb_spec b int64_max), (Z.eqb_spec b int64_min); try (exfalso; apply infinities_differ; congruence);
      simpl; first [done | apply Z.ltb_lt; lia | apply Z.ltb_ge; lia]. }
  assert (unit_eq q r = bool_decide (denote q = denote r)) as He.
  { unfold unit_eq. case_bool_decide as Hd; [apply denote_inj in Hd as ->; apply Z.eqb_refl|].
    apply Z.eqb_neq. intros E. apply Hd. destruct q, r. simpl in E. by subst. }
  split_and!; rewrite <-?Hlt, <-?He by done; try done.
  - unfold unit_le, unit_lt. by rewrite Z.leb_antisym.
  - unfold unit_ge, unit_lt. by rewrite Z.leb_antisym.
  - destruct q as [a], lo as [x], hi as [y]. unfold Clamped, unit_lt, unit_le in *. simpl in *.
    apply Z.leb_le in Hl.
    repeat (case_match; rewrite ?Z.ltb_lt, ?Z.ltb_ge in *; simpl in *); f_equal; lia.
Qed.

Lemma comparisons_are_extended_witness :
  unit_lt (MinusInfinity : TimeDelta) (Unit_T 0) = true ∧
  Clamped (Unit_T 9 : TimeDelta) (Unit_T 1) (Unit_T 5) = Unit_T 5.
Proof.
  destruct (comparisons_are_extended KTimeDelta MinusInfinity (Unit_T 0) (Unit_T 1) (Unit_T 5))
    as (H&_); [done..|].
  destruct (comparisons_are_extended KTimeDelta (Unit_T 9) (Unit_T 0) (Unit_T 1) (Unit_T 5))
    as (_&_&_&_&_&_&H'); [done..|].
  split; [exact H|exact H'].
Defined.
