(* ===== verification/CircularDeque.v ===== *)
(** [base::circular_deque<T>] (base/containers/circular_deque.h) and the raw
    storage under it, [base::internal::VectorBuffer<T>]
    (base/containers/vector_buffer.h).

    A slot of the storage either holds an object or is raw memory ([None]).  The
    model stops where the code would use a slot that holds no object, construct
    an object over another one, or give storage back that still holds objects;
    so that an operation returns means, too, that every object is destroyed
    exactly once.  Element types are those with a destructor and a move
    constructor; values passed in are not references into the deque.

    Sizes and indices are natural numbers.  The model stops where a subtraction
    would go below zero; sums stay far below 2^64 because the storage has to fit
    the address space.  [DCHECK_IS_ON()] is the [BuildConfig] of the prelude. *)
From S2P Require Import Prelude.
From Stdlib Require Import ZArith Lia.
From stdpp Require Import base tactics numbers strings list.

Open Scope nat_scope.

(** * Raw storage *)

(** The members of a buffer: a null pointer and no capacity are the empty list. *)
Abbreviation VectorBuffer T := (list (option T)).

Module VectorBuffer.
Section VectorBuffer.
Context {S T : Type}.
#[local] Abbreviation VectorBuffer := (VectorBuffer T).

Definition capacity (b : VectorBuffer) : nat := length b.

(** [VectorBuffer(size_t count)] *)
Definition construct (sizeof_T : Z) (count : nat) : M S VectorBuffer :=
  _ ← check (sizeof_T * Z.of_nat count <? 2 ^ 64)%Z "CheckMul(sizeof(T), count).ValueOrDie()";
  mret (replicate count None).

(** [free(buffer_)] *)
Definition release (b : VectorBuffer) : M S unit :=
  if forallb (λ x, match x with None => true | Some _ => false end) b then mret tt
  else fail (UndefinedBehaviour "storage freed with objects in it").

(** [&buffer_[i]] *)
Definition address (b : VectorBuffer) (i : nat) : M S nat :=
  _ ← check (i <=? capacity b) "i <= capacity_";
  mret i.

(** The object in a slot. *)
Definition object (b : VectorBuffer) (i : nat) : M S T :=
  match b !! i with
  | Some (Some v) => mret v
  | _ => fail (UndefinedBehaviour "no object in the slot")
  end.

(** [new (&buffer_[i]) T(v)] *)
Definition place (b : VectorBuffer) (i : nat) (v : T) : M S VectorBuffer :=
  match b !! i with
  | Some None => mret (<[i := Some v]> b)
  | _ => fail (UndefinedBehaviour "object constructed over another one")
  end.

(** The loop of [DestructRange]. *)
Fixpoint destruct_objects (n begin : nat) (b : VectorBuffer) : M S VectorBuffer :=
  match n with
  | O => mret b
  | Datatypes.S n => _ ← object b begin; destruct_objects n (begin + 1) (<[begin := None]> b)
  end.

Definition DestructRange (b : VectorBuffer) (begin end_ : nat) : M S VectorBuffer :=
  _ ← check (begin <=? end_) "begin <= end";
  destruct_objects (end_ - begin) begin b.

(** Pointers into two blocks of storage. *)
Definition blocks : Type := VectorBuffer * VectorBuffer.
Definition pointer : Type := bool * nat.

Definition block_of (m : blocks) (p : pointer) : VectorBuffer := if p.1 then m.2 else m.1.
Definition set_block (m : blocks) (p : pointer) (b : VectorBuffer) : blocks :=
  if p.1 then (m.1, b) else (b, m.2).

Definition RangesOverlap (from_begin from_end to : pointer) : bool :=
  eqb (from_begin.1) (to.1) &&
  negb ((from_end.2 <=? to.2) || (to.2 + (from_end.2 - from_begin.2) <=? from_begin.2)).

(** The loop of [MoveRange]. *)
Fixpoint move_objects (n : nat) (from to : pointer) (m : blocks) : M S blocks :=
  match n with
  | O => mret m
  | Datatypes.S n =>
      v ← object (block_of m from) from.2;
      b ← place (block_of m to) to.2 v;
      let m := set_block m to b in
      let m := set_block m from (<[from.2 := None]> (block_of m from)) in
      move_objects n (from.1, from.2 + 1) (to.1, to.2 + 1) m
  end.

Definition MoveRange (from_begin from_end to : pointer) (m : blocks) : M S blocks :=
  _ ← check (negb (RangesOverlap from_begin from_end to)) "!RangesOverlap(from_begin, from_end, to)";
  move_objects (from_end.2 - from_begin.2) from_begin to m.

End VectorBuffer.
End VectorBuffer.

(** * The deque *)

Module Deque.

Record circular_deque (T : Type) := mkDeque {
  buffer_ : VectorBuffer T;
  begin_ : nat;
  end_ : nat;
  generation_ : Z
}.
Arguments mkDeque {T} _ _ _ _.
Arguments buffer_ {T} _.
Arguments begin_ {T} _.
Arguments end_ {T} _.
Arguments generation_ {T} _.

(** [circular_deque_const_iterator] and [circular_deque_iterator], of the deque
    at hand. *)
Record iterator := mkIterator { index_ : nat; created_generation_ : Z }.

Definition kCircularBufferInitialCapacity : nat := 3.

Section Deque.
Context `{!BuildConfig} {T : Type} (sizeof_T : Z).

#[local] Abbreviation D := (M (circular_deque T)).

Definition default_deque : circular_deque T := mkDeque [] 0 0 0.

Definition self {A} (f : circular_deque T → A) : D A := d ← get; mret (f d).
Definition set_buffer (b : VectorBuffer T) : D unit :=
  modify (λ d, mkDeque b (begin_ d) (end_ d) (generation_ d)).
Definition set_begin (i : nat) : D unit :=
  modify (λ d, mkDeque (buffer_ d) i (end_ d) (generation_ d)).
Definition set_end (i : nat) : D unit :=
  modify (λ d, mkDeque (buffer_ d) (begin_ d) i (generation_ d)).

Definition cap (d : circular_deque T) : nat := VectorBuffer.capacity (buffer_ d).

(** [size_t] subtraction and remainder. *)
Definition usub (a b : nat) : D nat :=
  if b <=? a then mret (a - b) else fail (UndefinedBehaviour "size_t below zero").
Definition umod (a b : nat) : D nat :=
  if b =? 0 then fail (UndefinedBehaviour "division by zero") else mret (a mod b).

Definition IncrementGeneration : D unit :=
  if RTC_DCHECK_IS_ON
  then modify (λ d, mkDeque (buffer_ d) (begin_ d) (end_ d) (wrap_u 64 (generation_ d + 1)))
  else mret tt.

(** ** Size and capacity *)

Definition capacity : D nat :=
  c ← self cap;
  if c =? 0 then mret 0 else usub c 1.

Definition empty : D bool := self (λ d, begin_ d =? end_ d).

Definition size : D nat :=
  d ← get;
  if begin_ d <=? end_ d then usub (end_ d) (begin_ d)
  else r ← usub (cap d) (begin_ d); mret (r + end_ d).

(** ** Checks *)

Definition CheckValidIndex (i : nat) : D unit :=
  d ← get;
  if begin_ d <=? end_ d
  then dcheck ((begin_ d <=? i) && (i <? end_ d)) "i >= begin_ && i < end_"
  else dcheck (((begin_ d <=? i) && (i <? cap d)) || (i <? end_ d))
         "(i >= begin_ && i < buffer_.capacity()) || i < end_".

Definition CheckValidIndexOrEnd (i : nat) : D unit :=
  e ← self end_;
  if negb (i =? e) then CheckValidIndex i else mret tt.

Definition CheckUnstableUsage (it : iterator) : D unit :=
  g ← self generation_;
  dcheck (created_generation_ it =? g)%Z "circular_deque iterator dereferenced after mutation.".

Definition CheckComparable (it other : iterator) : D unit :=
  dcheck (created_generation_ it =? created_generation_ other)%Z
    "created_generation_ == other.created_generation_".

Definition ValidateIterator (it : iterator) : D unit := CheckUnstableUsage it.

(** ** Iterators *)

(** [iterator(this, index)] *)
Definition iterator_at (index : nat) : D iterator :=
  g ← self generation_; mret (mkIterator index g).

Definition begin : D iterator := b ← self begin_; iterator_at b.
Definition end_it : D iterator := e ← self end_; iterator_at e.

Definition OffsetFromBegin (it : iterator) : D nat :=
  d ← get;
  if begin_ d <=? index_ it then usub (index_ it) (begin_ d)
  else r ← usub (cap d) (begin_ d); mret (r + index_ it).

Definition Increment (it : iterator) : D iterator :=
  _ ← CheckUnstableUsage it;
  _ ← CheckValidIndex (index_ it);
  c ← self cap;
  let i := index_ it + 1 in
  mret (mkIterator (if i =? c then 0 else i) (created_generation_ it)).

Definition Decrement (it : iterator) : D iterator :=
  _ ← CheckUnstableUsage it;
  _ ← CheckValidIndexOrEnd (index_ it);
  c ← self cap;
  i ← (if index_ it =? 0 then usub c 1 else usub (index_ it) 1);
  mret (mkIterator i (created_generation_ it)).

Definition Add (it : iterator) (delta : Z) : D iterator :=
  _ ← CheckUnstableUsage it;
  _ ← (if (delta <=? 0)%Z then CheckValidIndexOrEnd (index_ it) else CheckValidIndex (index_ it));
  if (delta =? 0)%Z then mret it
  else
    o ← OffsetFromBegin it;
    let new_offset := (Z.of_nat o + delta)%Z in
    n ← size;
    _ ← dcheck ((0 <=? new_offset)%Z && (new_offset <=? Z.of_nat n)%Z)
          "new_offset >= 0 && new_offset <= size()";
    if (new_offset <? 0)%Z then fail (UndefinedBehaviour "size_t below zero")
    else
      d ← get;
      i ← umod (Z.to_nat new_offset + begin_ d) (cap d);
      mret (mkIterator i (created_generation_ it)).

(** [operator*] *)
Definition read (it : iterator) : D T :=
  _ ← CheckUnstableUsage it;
  _ ← CheckValidIndex (index_ it);
  b ← self buffer_;
  i ← VectorBuffer.address b (index_ it);
  VectorBuffer.object b i.

Definition iterator_plus (it : iterator) (offset : Z) : D iterator := Add it offset.
Definition iterator_minus (it : iterator) (offset : Z) : D iterator := Add it (- offset)%Z.
Definition iterator_index (it : iterator) (i : Z) : D T :=
  it' ← iterator_plus it i; read it'.

Definition iterator_distance (lhs rhs : iterator) : D Z :=
  _ ← CheckComparable lhs rhs;
  a ← OffsetFromBegin lhs;
  b ← OffsetFromBegin rhs;
  mret (Z.of_nat a - Z.of_nat b)%Z.

Definition iterator_eq (lhs rhs : iterator) : D bool :=
  _ ← CheckComparable lhs rhs;
  mret (index_ lhs =? index_ rhs).
Definition iterator_ne (lhs rhs : iterator) : D bool :=
  b ← iterator_eq lhs rhs; mret (negb b).

Definition iterator_lt (lhs rhs : iterator) : D bool :=
  _ ← CheckComparable lhs rhs;
  a ← OffsetFromBegin lhs;
  b ← OffsetFromBegin rhs;
  mret (a <? b).
Definition iterator_gt (lhs rhs : iterator) : D bool :=
  _ ← CheckComparable lhs rhs;
  a ← OffsetFromBegin lhs;
  b ← OffsetFromBegin rhs;
  mret (b <? a).
Definition iterator_le (lhs rhs : iterator) : D bool :=
  b ← iterator_gt lhs rhs; mret (negb b).
Definition iterator_ge (lhs rhs : iterator) : D bool :=
  b ← iterator_lt lhs rhs; mret (negb b).

(** ** Storage management *)

(** Moves the objects of [from_buf] to the front of [to_buf]: both buffers
    afterwards, and [*to_begin] and [*to_end]. *)
Definition MoveBuffer (from_buf : VectorBuffer T) (from_begin from_end : nat)
    (to_buf : VectorBuffer T) : D (VectorBuffer T * VectorBuffer T * nat * nat) :=
  let from_capacity := VectorBuffer.capacity from_buf in
  let m := (from_buf, to_buf) in
  if from_begin <? from_end then
    i ← VectorBuffer.address from_buf from_begin;
    j ← VectorBuffer.address from_buf from_end;
    m ← VectorBuffer.MoveRange (false, i) (false, j) (true, 0) m;
    n ← usub from_end from_begin;
    mret (m.1, m.2, 0, n)
  else if from_end <? from_begin then
    i ← VectorBuffer.address from_buf from_begin;
    j ← VectorBuffer.address from_buf from_capacity;
    m ← VectorBuffer.MoveRange (false, i) (false, j) (true, 0) m;
    right_size ← usub from_capacity from_begin;
    i ← VectorBuffer.address m.1 0;
    j ← VectorBuffer.address m.1 from_end;
    k ← VectorBuffer.address m.2 right_size;
    m ← VectorBuffer.MoveRange (false, i) (false, j) (true, k) m;
    mret (m.1, m.2, 0, right_size + from_end)
  else mret (m.1, m.2, 0, 0).

Definition SetCapacityTo (new_capacity : nat) : D unit :=
  new_buffer ← VectorBuffer.construct sizeof_T (new_capacity + 1);
  d ← get;
  r ← MoveBuffer (buffer_ d) (begin_ d) (end_ d) new_buffer;
  let '(old, new_buffer, to_begin, to_end) := r in
  _ ← set_begin to_begin;
  _ ← set_end to_end;
  _ ← VectorBuffer.release old;
  set_buffer new_buffer.

Definition ExpandCapacityIfNecessary (additional_elts : nat) : D unit :=
  sz ← size;
  c ← capacity;
  let min_new_capacity := sz + additional_elts in
  if min_new_capacity <=? c then mret tt
  else
    let min_new_capacity := Nat.max min_new_capacity kCircularBufferInitialCapacity in
    SetCapacityTo (Nat.max min_new_capacity (c + c / 4)).

Definition ShrinkCapacityIfNecessary : D unit :=
  c ← capacity;
  if c <=? kCircularBufferInitialCapacity then mret tt
  else
    sz ← size;
    empty_spaces ← usub c sz;
    if empty_spaces <? sz then mret tt
    else
      let new_capacity := Nat.max kCircularBufferInitialCapacity (sz + sz / 4) in
      if new_capacity <? c then SetCapacityTo new_capacity else mret tt.

(** [DestructRange(begin, end)] of the deque: the range may wrap around. *)
Definition DestructRange (b e : nat) : D unit :=
  if e =? b then mret tt
  else
    buf ← self buffer_;
    if b <? e then
      i ← VectorBuffer.address buf b;
      j ← VectorBuffer.address buf e;
      buf ← VectorBuffer.DestructRange buf i j;
      set_buffer buf
    else
      i ← VectorBuffer.address buf b;
      j ← VectorBuffer.address buf (VectorBuffer.capacity buf);
      buf ← VectorBuffer.DestructRange buf i j;
      i ← VectorBuffer.address buf 0;
      j ← VectorBuffer.address buf e;
      buf ← VectorBuffer.DestructRange buf i j;
      set_buffer buf.

Definition ClearRetainCapacity : D unit :=
  d ← get;
  _ ← DestructRange (begin_ d) (end_ d);
  _ ← set_begin 0;
  _ ← set_end 0;
  IncrementGeneration.

(** [buffer_ = VectorBuffer()] *)
Definition drop_buffer : D unit :=
  b ← self buffer_;
  _ ← VectorBuffer.release b;
  set_buffer [].

Definition reserve (new_capacity : nat) : D unit :=
  c ← capacity;
  if c <? new_capacity then SetCapacityTo new_capacity else mret tt.

Definition shrink_to_fit : D unit :=
  e ← empty;
  if e : bool then
    c ← self cap;
    if c =? 0 then mret tt else drop_buffer
  else sz ← size; SetCapacityTo sz.

Definition clear : D unit :=
  _ ← ClearRetainCapacity;
  drop_buffer.

(** [~circular_deque()] *)
Definition destruct_ : D unit :=
  d ← get;
  _ ← DestructRange (begin_ d) (end_ d);
  b ← self buffer_;
  VectorBuffer.release b.

(** ** Access *)

Definition at_ (i : nat) : D T :=
  n ← size;
  _ ← dcheck (i <? n) "i < size()";
  d ← get;
  right_size ← usub (cap d) (begin_ d);
  if (begin_ d <=? end_ d) || (i <? right_size) then
    j ← VectorBuffer.address (buffer_ d) (begin_ d + i);
    VectorBuffer.object (buffer_ d) j
  else
    k ← usub i right_size;
    j ← VectorBuffer.address (buffer_ d) k;
    VectorBuffer.object (buffer_ d) j.

Definition front : D T :=
  e ← empty;
  _ ← dcheck (negb e) "!empty()";
  d ← get;
  i ← VectorBuffer.address (buffer_ d) (begin_ d);
  VectorBuffer.object (buffer_ d) i.

Definition back : D T :=
  e ← empty;
  _ ← dcheck (negb e) "!empty()";
  it ← end_it;
  it ← Decrement it;
  read it.

(** [at(i) = v] through the reference that [at] returns. *)
Definition at_assign (i : nat) (v : T) : D unit :=
  n ← size;
  _ ← dcheck (i <? n) "i < size()";
  d ← get;
  right_size ← usub (cap d) (begin_ d);
  k ← (if (begin_ d <=? end_ d) || (i <? right_size) then mret (begin_ d + i)
       else usub i right_size);
  j ← VectorBuffer.address (buffer_ d) k;
  _ ← VectorBuffer.object (buffer_ d) j;
  set_buffer (<[j := Some v]> (buffer_ d)).

(** ** Both ends *)

(** [new (&buffer_[i]) T(v)] *)
Definition place_at (i : nat) (v : T) : D unit :=
  b ← self buffer_;
  i ← VectorBuffer.address b i;
  b ← VectorBuffer.place b i v;
  set_buffer b.

Definition emplace_front (v : T) : D T :=
  _ ← ExpandCapacityIfNecessary 1;
  d ← get;
  i ← (if begin_ d =? 0 then usub (cap d) 1 else usub (begin_ d) 1);
  _ ← set_begin i;
  _ ← IncrementGeneration;
  b ← self begin_;
  _ ← place_at b v;
  front.

Definition emplace_back (v : T) : D T :=
  _ ← ExpandCapacityIfNecessary 1;
  e ← self end_;
  _ ← place_at e v;
  d ← get;
  last ← usub (cap d) 1;
  _ ← set_end (if end_ d =? last then 0 else end_ d + 1);
  _ ← IncrementGeneration;
  back.

Definition push_front (v : T) : D unit := _ ← emplace_front v; mret tt.
Definition push_back (v : T) : D unit := _ ← emplace_back v; mret tt.

(** [buffer_.DestructRange(&buffer_[i], &buffer_[i + 1])] *)
Definition destruct_at (i : nat) : D unit :=
  b ← self buffer_;
  i0 ← VectorBuffer.address b i;
  i1 ← VectorBuffer.address b (i + 1);
  b ← VectorBuffer.DestructRange b i0 i1;
  set_buffer b.

Definition pop_front : D unit :=
  n ← size;
  _ ← dcheck (negb (n =? 0)) "size()";
  d ← get;
  _ ← destruct_at (begin_ d);
  _ ← set_begin (if begin_ d + 1 =? cap d then 0 else begin_ d + 1);
  _ ← ShrinkCapacityIfNecessary;
  IncrementGeneration.

Definition pop_back : D unit :=
  n ← size;
  _ ← dcheck (negb (n =? 0)) "size()";
  d ← get;
  i ← (if end_ d =? 0 then usub (cap d) 1 else usub (end_ d) 1);
  _ ← set_end i;
  _ ← destruct_at i;
  _ ← ShrinkCapacityIfNecessary;
  IncrementGeneration.

(** ** Assignment *)

Definition assign_range (items : list T) : D unit :=
  _ ← ClearRetainCapacity;
  _ ← for_each push_back items;
  IncrementGeneration.

Definition assign_count (count : nat) (value : T) : D unit :=
  _ ← ClearRetainCapacity;
  _ ← reserve count;
  _ ← for_each push_back (replicate count value);
  IncrementGeneration.

(** [assign(initializer_list)] and [operator=(initializer_list)] *)
Definition assign_list (items : list T) : D unit :=
  _ ← reserve (length items);
  assign_range items.

(** The elements from [first] to [last], as a loop over the iterators reads
    them. *)
Definition elements (first last : iterator) : D (list T) :=
  c ← self cap;
  r ← while_ c (λ st, iterator_ne st.1 last)
        (λ st, v ← read st.1; it ← Increment st.1; mret (it, st.2 ++ [v]))
        (first, []);
  mret r.2.

(** [operator=(const circular_deque& other)], of two different deques. *)
Definition assign_copy (other : circular_deque T) : D unit :=
  r ← on_local other (first ← begin; last ← end_it; n ← size; l ← elements first last; mret (n, l));
  let '((n, items), _) := r in
  _ ← reserve n;
  assign_range items.

(** [circular_deque(const circular_deque& other)] *)
Definition construct_copy (other : circular_deque T) : D unit :=
  r ← on_local other (first ← begin; last ← end_it; n ← size; l ← elements first last; mret (n, l));
  let '((n, items), _) := r in
  b ← VectorBuffer.construct sizeof_T (n + 1);
  _ ← put (mkDeque b 0 0 0);
  assign_range items.

(** [operator=(circular_deque&& other)] of two different deques; the result is
    [other] afterwards. *)
Definition assign_move (other : circular_deque T) : D (circular_deque T) :=
  _ ← ClearRetainCapacity;
  b ← self buffer_;
  _ ← VectorBuffer.release b;
  _ ← set_buffer (buffer_ other);
  _ ← set_begin (begin_ other);
  _ ← set_end (end_ other);
  _ ← IncrementGeneration;
  mret (mkDeque [] 0 0 (generation_ other)).

(** [circular_deque(circular_deque&& other)] *)
Definition construct_move (other : circular_deque T) : D (circular_deque T) :=
  _ ← put (mkDeque (buffer_ other) (begin_ other) (end_ other) 0);
  mret (mkDeque [] 0 0 (generation_ other)).

Definition swap (other : circular_deque T) : D (circular_deque T) :=
  d ← get;
  _ ← set_buffer (buffer_ other);
  _ ← set_begin (begin_ other);
  _ ← set_end (end_ other);
  _ ← IncrementGeneration;
  mret (mkDeque (buffer_ d) (begin_ d) (end_ d) (generation_ other)).

(** ** Resizing *)

Definition resize (count : nat) (value : T) : D unit :=
  n ← size;
  _ ← (if n <? count then
         k ← usub count n;
         _ ← ExpandCapacityIfNecessary k;
         while_ count (λ _, n ← size; mret (n <? count)) (λ _, push_back value) tt
       else if count <? n then
         d ← get;
         new_end ← umod (begin_ d + count) (cap d);
         _ ← DestructRange new_end (end_ d);
         _ ← set_end new_end;
         ShrinkCapacityIfNecessary
       else mret tt);
  IncrementGeneration.

(** [resize(count)]: the same code with default constructed elements. *)
Definition resize_default (default_T : T) (count : nat) : D unit := resize count default_T.

(** [circular_deque(count)] and [circular_deque(count, value)],
    [circular_deque(first, last)] and [circular_deque(initializer_list)] *)
Definition construct_count (count : nat) (value : T) : D unit :=
  _ ← put default_deque; resize count value.
Definition construct_range (items : list T) : D unit :=
  _ ← put default_deque; assign_range items.
Definition construct_list (items : list T) : D unit :=
  _ ← put default_deque; assign_list items.

(** ** The middle *)

(** [buffer_.MoveRange(&buffer_[i], &buffer_[i + 1], &buffer_[j])] *)
Definition move_slot (i j : nat) : D unit :=
  b ← self buffer_;
  i0 ← VectorBuffer.address b i;
  i1 ← VectorBuffer.address b (i + 1);
  j ← VectorBuffer.address b j;
  m ← VectorBuffer.MoveRange (false, i0) (false, i1) (false, j) (b, []);
  set_buffer m.1.

(** The new [*insert_begin] and [*insert_end]. *)
Definition MakeRoomFor (count : nat) (insert_begin : iterator) : D (iterator * iterator) :=
  if count =? 0 then mret (insert_begin, insert_begin)
  else
    begin_offset ← OffsetFromBegin insert_begin;
    _ ← ExpandCapacityIfNecessary count;
    d ← get;
    i ← umod (begin_ d + begin_offset) (cap d);
    let insert_begin := mkIterator i (created_generation_ insert_begin) in
    j ← umod (i + count) (cap d);
    insert_end ← iterator_at j;
    src ← end_it;
    e ← umod (end_ d + count) (cap d);
    _ ← set_end e;
    dest ← end_it;
    _ ← while_ (cap d) (λ st, iterator_ne st.1 insert_begin)
          (λ st, src ← Decrement st.1; dest ← Decrement st.2;
                 _ ← move_slot (index_ src) (index_ dest); mret (src, dest))
          (src, dest);
    mret (insert_begin, insert_end).

(** The loop that fills the room with [items]. *)
Definition fill_room (insert_cur insert_end : iterator) (items : list T) : D unit :=
  _ ← while_ (length items) (λ st, iterator_lt st.1 insert_end)
        (λ st, v ← deref "first" (head st.2); _ ← place_at (index_ st.1) v;
               it ← Increment st.1; mret (it, tail st.2))
        (insert_cur, items);
  mret tt.

Definition insert_count (pos : iterator) (count : nat) (value : T) : D unit :=
  _ ← ValidateIterator pos;
  b ← begin;
  at_begin ← iterator_eq pos b;
  if at_begin : bool then
    _ ← ExpandCapacityIfNecessary count;
    for_each push_front (replicate count value)
  else
    insert_cur ← iterator_at (index_ pos);
    r ← MakeRoomFor count insert_cur;
    _ ← fill_room r.1 r.2 (replicate count value);
    IncrementGeneration.

Definition insert_range (pos : iterator) (items : list T) : D unit :=
  _ ← ValidateIterator pos;
  let inserted_items := length items in
  if inserted_items =? 0 then mret tt
  else
    b ← begin;
    at_begin ← iterator_eq pos b;
    r ← (if at_begin : bool then
           _ ← ExpandCapacityIfNecessary inserted_items;
           insert_end ← begin;
           d ← get;
           k ← usub (begin_ d + cap d) inserted_items;
           k ← umod k (cap d);
           _ ← set_begin k;
           insert_cur ← begin;
           mret (insert_cur, insert_end)
         else
           insert_cur ← iterator_at (index_ pos);
           MakeRoomFor inserted_items insert_cur);
    _ ← fill_room r.1 r.2 items;
    IncrementGeneration.

Definition emplace (pos : iterator) (v : T) : D iterator :=
  _ ← ValidateIterator pos;
  b ← begin;
  at_begin ← iterator_eq pos b;
  if at_begin : bool then
    _ ← emplace_front v;
    begin
  else
    _ ← IncrementGeneration;
    insert_begin ← iterator_at (index_ pos);
    r ← MakeRoomFor 1 insert_begin;
    _ ← place_at (index_ r.1) v;
    mret r.1.

Definition erase_range (first last : iterator) : D iterator :=
  _ ← ValidateIterator first;
  _ ← ValidateIterator last;
  _ ← IncrementGeneration;
  if index_ first =? index_ last then iterator_at (index_ first)
  else
    _ ← DestructRange (index_ first) (index_ last);
    b ← self begin_;
    if index_ first =? b then
      _ ← set_begin (index_ last);
      iterator_at (index_ last)
    else
      move_src ← iterator_at (index_ last);
      move_src_end ← end_it;
      move_dest ← iterator_at (index_ first);
      c ← self cap;
      r ← while_ c (λ st, iterator_lt st.1 move_src_end)
            (λ st, _ ← move_slot (index_ st.1) (index_ st.2);
                   src ← Increment st.1; dest ← Increment st.2; mret (src, dest))
            (move_src, move_dest);
      _ ← set_end (index_ r.2);
      iterator_at (index_ first).

Definition erase (pos : iterator) : D iterator :=
  next ← iterator_plus pos 1;
  erase_range pos next.

End Deque.
End Deque.
