(* ===== verification/CircularDequeLemmas.v ===== *)
(** The deque of CircularDeque.v as a list: the representation relation, and a
    rule for every operation. *)
From S2P Require Import Prelude CircularDeque.
From Stdlib Require Import ZArith Lia.
From stdpp Require Import base tactics numbers strings list.

Open Scope nat_scope.

(** * Ring arithmetic

    Slot of the element at offset [i] in a ring of [c] slots that begins at [b],
    and the offset of a slot. *)
Definition slot (c b i : nat) : nat := if b + i <? c then b + i else b + i - c.
Definition offset (c b j : nat) : nat := if b <=? j then j - b else c - b + j.

(** Decides the comparisons of ring arithmetic. *)
Ltac ring_lia :=
  unfold slot, offset in *;
  repeat match goal with
  | |- context [?a <? ?b] => destruct (Nat.ltb_spec a b)
  | |- context [?a <=? ?b] => destruct (Nat.leb_spec a b)
  | |- context [?a =? ?b] => destruct (Nat.eqb_spec a b)
  | H : context [?a <? ?b] |- _ => destruct (Nat.ltb_spec a b)
  | H : context [?a <=? ?b] |- _ => destruct (Nat.leb_spec a b)
  end; try lia.

Lemma slot_lt c b i : b < c → i < c → slot c b i < c.
Proof. ring_lia. Qed.

Lemma offset_lt c b j : b < c → j < c → offset c b j < c.
Proof. ring_lia. Qed.

Lemma offset_slot c b i : b < c → i < c → offset c b (slot c b i) = i.
Proof. ring_lia. Qed.

Lemma slot_offset c b j : b < c → j < c → slot c b (offset c b j) = j.
Proof. ring_lia. Qed.

Lemma slot_mod c b i : b < c → i ≤ c → (b + i) mod c = slot c b i.
Proof.
  intros Hb Hi. unfold slot. destruct (Nat.ltb_spec (b + i) c); [by apply Nat.mod_small|].
  replace (b + i) with (b + i - c + 1 * c) at 1 by lia. rewrite Nat.Div0.mod_add.
  apply Nat.mod_small. lia.
Qed.

Lemma slot_slot c b i k : b < c → i + k < c → slot c (slot c b i) k = slot c b (i + k).
Proof. ring_lia. Qed.

(** * Raw storage *)

Section Storage.
Context {S T : Type}.
Implicit Types b : VectorBuffer T.

Lemma wp_address b i (Q : nat → S → Prop) s : i ≤ length b → Q i s → wp (VectorBuffer.address b i) Q s.
Proof.
  intros Hi HQ. unfold VectorBuffer.address, VectorBuffer.capacity.
  apply wp_bind, wp_check; [by apply Nat.leb_le|done].
Qed.

Lemma wp_object b i v (Q : T → S → Prop) s :
  b !! i = Some (Some v) → Q v s → wp (VectorBuffer.object b i) Q s.
Proof. unfold VectorBuffer.object. by intros ->. Qed.

Lemma wp_place b i v (Q : VectorBuffer T → S → Prop) s :
  b !! i = Some None → Q (<[i := Some v]> b) s → wp (VectorBuffer.place b i v) Q s.
Proof. unfold VectorBuffer.place. by intros ->. Qed.

Lemma wp_construct sizeof_T n (Q : VectorBuffer T → S → Prop) s :
  (sizeof_T * Z.of_nat n < 2 ^ 64)%Z → Q (replicate n None) s →
  wp (VectorBuffer.construct sizeof_T n) Q s.
Proof.
  intros Hn HQ. unfold VectorBuffer.construct. apply wp_bind, wp_check; [by apply Z.ltb_lt|done].
Qed.

Lemma wp_storage_release b (Q : unit → S → Prop) s :
  (∀ j x, b !! j = Some x → x = None) → Q tt s → wp (VectorBuffer.release b) Q s.
Proof.
  intros Hb HQ. unfold VectorBuffer.release.
  replace (forallb _ b) with true; [done|]. symmetry. apply forallb_forall.
  intros x (j&Hj)%list_elem_of_In%list_elem_of_lookup_1. by rewrite (Hb _ _ Hj).
Qed.

(** Destroying the objects of [i..j). *)
Lemma wp_destruct_objects n : ∀ i b (Q : VectorBuffer T → S → Prop) s,
  (∀ k, k < n → ∃ v, b !! (i + k) = Some (Some v)) →
  (∀ b', length b' = length b →
     (∀ j, b' !! j = if (i <=? j) && (j <? i + n) then Some None else b !! j) → Q b' s) →
  wp (VectorBuffer.destruct_objects n i b) Q s.
Proof.
  induction n as [|n IH]; intros i b Q s Hlive HQ; simpl.
  - apply wp_ret, HQ; [done|]. intros j. ring_lia; done.
  - destruct (Hlive 0) as [v Hv]; [lia|]. rewrite Nat.add_0_r in Hv.
    apply wp_bind, (wp_object _ _ v); [done|]. apply IH.
    + intros k Hk. destruct (Hlive (Datatypes.S k)) as [w Hw]; [lia|]. exists w.
      rewrite list_lookup_insert_ne by lia. by replace (i + 1 + k) with (i + Datatypes.S k) by lia.
    + intros b' Hl Hb'. apply HQ; [by rewrite Hl, length_insert|]. intros j. rewrite Hb'.
      apply lookup_lt_Some in Hv. ring_lia; simpl; try done.
      * replace j with i by lia. by rewrite list_lookup_insert_eq.
      * by rewrite list_lookup_insert_ne by lia.
      * by rewrite list_lookup_insert_ne by lia.
Qed.

Lemma wp_DestructRange b i j (Q : VectorBuffer T → S → Prop) s :
  i ≤ j → (∀ k, i ≤ k < j → ∃ v, b !! k = Some (Some v)) →
  (∀ b', length b' = length b →
     (∀ k, b' !! k = if (i <=? k) && (k <? j) then Some None else b !! k) → Q b' s) →
  wp (VectorBuffer.DestructRange b i j) Q s.
Proof.
  intros Hij Hlive HQ. unfold VectorBuffer.DestructRange.
  apply wp_bind, wp_check; [by apply Nat.leb_le|]. apply wp_destruct_objects.
  - intros k Hk. apply Hlive. lia.
  - intros b' Hl Hb'. apply HQ; [done|]. intros k. rewrite Hb'. by replace (i + (j - i)) with j by lia.
Qed.

(** Moving objects from one block to another. *)
Lemma wp_move_across n : ∀ i j b1 b2 (Q : VectorBuffer.blocks → S → Prop) s,
  (∀ k, k < n → ∃ v, b1 !! (i + k) = Some (Some v)) →
  (∀ k, k < n → b2 !! (j + k) = Some None) →
  (∀ c1 c2, length c1 = length b1 → length c2 = length b2 →
     (∀ k, c1 !! k = if (i <=? k) && (k <? i + n) then Some None else b1 !! k) →
     (∀ k, c2 !! k = if (j <=? k) && (k <? j + n) then b1 !! (i + (k - j)) else b2 !! k) →
     Q (c1, c2) s) →
  wp (VectorBuffer.move_objects n (false, i) (true, j) (b1, b2)) Q s.
Proof.
  induction n as [|n IH]; intros i j b1 b2 Q s Hlive Hraw HQ; simpl.
  - apply wp_ret, HQ; try done; intros k; ring_lia; done.
  - destruct (Hlive 0) as [v Hv]; [lia|]. rewrite Nat.add_0_r in Hv.
    pose proof (Hraw 0 ltac:(lia)) as Hn. rewrite Nat.add_0_r in Hn.
    apply wp_bind, (wp_object _ _ v); [done|]. apply wp_bind, wp_place; [done|].
    cbn [VectorBuffer.set_block VectorBuffer.block_of fst snd]. apply IH.
    + intros k Hk. destruct (Hlive (Datatypes.S k)) as [w Hw]; [lia|]. exists w.
      rewrite list_lookup_insert_ne by lia. by replace (i + 1 + k) with (i + Datatypes.S k) by lia.
    + intros k Hk. rewrite list_lookup_insert_ne by lia.
      replace (j + 1 + k) with (j + Datatypes.S k) by lia. apply Hraw. lia.
    + intros c1 c2 Hl1 Hl2 H1 H2. rewrite length_insert in Hl1, Hl2.
      apply HQ; [done..| |]; intros k; rewrite ?H1, ?H2.
      * destruct (decide (k = i)) as [->|].
        { apply lookup_lt_Some in Hv. ring_lia; simpl; by rewrite list_lookup_insert_eq. }
        rewrite list_lookup_insert_ne by lia. ring_lia; done.
      * destruct (decide (k = j)) as [->|].
        { apply lookup_lt_Some in Hn. ring_lia; simpl.
          rewrite list_lookup_insert_eq by done. by rewrite Nat.sub_diag, Nat.add_0_r. }
        rewrite (list_lookup_insert_ne _ j) by lia. ring_lia; simpl; try done.
        rewrite list_lookup_insert_ne by lia. f_equal. lia.
Qed.

Lemma wp_MoveRange_across b1 b2 i j k (Q : VectorBuffer.blocks → S → Prop) s :
  i ≤ j → (∀ x, i ≤ x < j → ∃ v, b1 !! x = Some (Some v)) →
  (∀ x, k ≤ x < k + (j - i) → b2 !! x = Some None) →
  (∀ c1 c2, length c1 = length b1 → length c2 = length b2 →
     (∀ x, c1 !! x = if (i <=? x) && (x <? j) then Some None else b1 !! x) →
     (∀ x, c2 !! x = if (k <=? x) && (x <? k + (j - i)) then b1 !! (i + (x - k)) else b2 !! x) →
     Q (c1, c2) s) →
  wp (VectorBuffer.MoveRange (false, i) (false, j) (true, k) (b1, b2)) Q s.
Proof.
  intros Hij Hlive Hraw HQ. unfold VectorBuffer.MoveRange.
  apply wp_bind, wp_check; [done|]. cbn [snd]. apply wp_move_across.
  - intros x Hx. apply Hlive. lia.
  - intros x Hx. apply Hraw. lia.
  - intros c1 c2 Hl1 Hl2 H1 H2. apply HQ; try done. intros x. rewrite H1.
    by replace (i + (j - i)) with j by lia.
Qed.

(** Moving one object within a block. *)
Lemma wp_MoveRange_within b i j v (Q : VectorBuffer.blocks → S → Prop) s :
  i ≠ j → b !! i = Some (Some v) → b !! j = Some None →
  Q (<[i := None]> (<[j := Some v]> b), []) s →
  wp (VectorBuffer.MoveRange (false, i) (false, i + 1) (false, j) (b, [])) Q s.
Proof.
  intros Hne Hi Hj HQ. unfold VectorBuffer.MoveRange. apply wp_bind, wp_check.
  { unfold VectorBuffer.RangesOverlap. cbn [fst snd]. ring_lia; done. }
  cbn [snd]. replace (i + 1 - i) with 1 by lia. cbn [VectorBuffer.move_objects fst snd].
  apply wp_bind, (wp_object _ _ v); [done|]. apply wp_bind, wp_place; [done|]. by apply wp_ret.
Qed.
End Storage.

(** * Representation *)

Module DequeRules.
Import Deque.

Section Rules.
Context `{!BuildConfig} {T : Type} (sizeof_T : Z).
Implicit Types d : circular_deque T.
Implicit Types l : list T.

(** The indices of a deque of [n] elements.  An empty deque without storage may
    have its equal indices anywhere. *)
Definition shape d (n : nat) : Prop :=
  (cap d = 0 ∧ n = 0 ∧ begin_ d = end_ d) ∨
  (begin_ d < cap d ∧ n < cap d ∧ end_ d = slot (cap d) (begin_ d) n).

(** What the slots hold, by offset from the beginning. *)
Definition holds d (f : nat → option T) : Prop :=
  ∀ j, j < cap d → buffer_ d !! j = Some (f (offset (cap d) (begin_ d) j)).

(** [d] represents [l]: its objects are the elements, and all other slots are
    raw. *)
Definition rep d l : Prop := shape d (length l) ∧ holds d (λ i, l !! i).

(** An iterator of [d] at offset [o]. *)
Definition points d (it : iterator) (o : nat) : Prop :=
  index_ it = slot (cap d) (begin_ d) o ∧ created_generation_ it = generation_ d.

Lemma holds_slot d f i : begin_ d < cap d → i < cap d → holds d f →
  buffer_ d !! slot (cap d) (begin_ d) i = Some (f i).
Proof.
  intros Hb Hi Hh. rewrite Hh by (by apply slot_lt). by rewrite offset_slot.
Qed.

Lemma holds_ext d f g : (∀ i, i < cap d → f i = g i) → begin_ d < cap d → holds d f → holds d g.
Proof.
  intros Hfg Hb Hh j Hj. rewrite Hh by done. f_equal. apply Hfg. by apply offset_lt.
Qed.

(** Changing one slot. *)
Lemma holds_insert d f i x : begin_ d < cap d → i < cap d → holds d f →
  holds (mkDeque (<[slot (cap d) (begin_ d) i := x]> (buffer_ d)) (begin_ d) (end_ d) (generation_ d))
    (λ k, if k =? i then x else f k).
Proof.
  intros Hb Hi Hh j Hj. unfold cap, VectorBuffer.capacity in *. simpl in *.
  rewrite length_insert in *.
  destruct (decide (j = slot (length (buffer_ d)) (begin_ d) i)) as [->|Hne].
  - rewrite list_lookup_insert_eq by done. rewrite offset_slot by done. by rewrite Nat.eqb_refl.
  - rewrite list_lookup_insert_ne, Hh by done.
    destruct (Nat.eqb_spec (offset (length (buffer_ d)) (begin_ d) j) i) as [<-|]; [|done].
    by rewrite slot_offset in Hne.
Qed.

(** * Rules for the functions that change nothing *)

Lemma wp_deque_self {A} (f : circular_deque T → A) (Q : A → _ → Prop) d : Q (f d) d → wp (self f) Q d.
Proof. done. Qed.

Lemma wp_usub a b (Q : nat → circular_deque T → Prop) d : b ≤ a → Q (a - b) d → wp (usub a b) Q d.
Proof. intros Hb HQ. unfold usub. destruct (Nat.leb_spec b a); [done|lia]. Qed.

Lemma wp_umod a b (Q : nat → circular_deque T → Prop) d : b ≠ 0 → Q (a mod b) d → wp (umod a b) Q d.
Proof. intros Hb HQ. unfold umod. destruct (Nat.eqb_spec b 0); [done|done]. Qed.

Lemma wp_size d n (Q : nat → _ → Prop) : shape d n → Q n d → wp size Q d.
Proof.
  intros Hs HQ. unfold size. apply wp_bind, wp_get. destruct Hs as [(Hc&->&Hb)|(Hb&Hn&He)].
  - rewrite Hb, Nat.leb_refl. apply wp_usub; [lia|]. by rewrite Nat.sub_diag.
  - rewrite He. destruct (Nat.leb_spec (begin_ d) (slot (cap d) (begin_ d) n)).
    + apply wp_usub; [lia|]. replace (_ - _) with n by ring_lia. done.
    + apply wp_bind, wp_usub; [lia|]. apply wp_ret. replace (_ + _) with n by ring_lia. done.
Qed.

Lemma wp_capacity d (Q : nat → _ → Prop) : Q (cap d - 1) d → wp capacity Q d.
Proof.
  intros HQ. unfold capacity. apply wp_bind, wp_deque_self. destruct (Nat.eqb_spec (cap d) 0) as [E|].
  - rewrite E in HQ. by apply wp_ret.
  - apply wp_usub; [lia|done].
Qed.

Lemma wp_empty d n (Q : bool → _ → Prop) : shape d n → Q (n =? 0) d → wp empty Q d.
Proof.
  intros Hs HQ. apply wp_deque_self. replace (begin_ d =? end_ d) with (n =? 0); [done|].
  destruct Hs as [(Hc&->&Hb)|(Hb&Hn&He)]; [rewrite Hb; by rewrite !Nat.eqb_refl|]. rewrite He. ring_lia; done.
Qed.

(** ** Iterators *)

Lemma wp_iterator_at d n o i (Q : iterator → _ → Prop) : shape d n →
  i = slot (cap d) (begin_ d) o →
  (∀ it, points d it o → Q it d) → wp (iterator_at i) Q d.
Proof. intros Hs -> HQ. by apply HQ. Qed.

Lemma shape_begin d n : shape d n → begin_ d = slot (cap d) (begin_ d) 0.
Proof. intros [(Hc&->&Hb)|(Hb&Hn&He)]; ring_lia. Qed.

Lemma shape_end d n : shape d n → end_ d = slot (cap d) (begin_ d) n.
Proof. intros [(Hc&->&Hb)|(Hb&Hn&He)]; [rewrite <-Hb; ring_lia|done]. Qed.

Lemma wp_begin d n (Q : iterator → _ → Prop) : shape d n →
  (∀ it, points d it 0 → Q it d) → wp begin Q d.
Proof.
  intros Hs HQ. apply wp_bind, wp_deque_self, (wp_iterator_at d n 0); [done| |done].
  by eapply shape_begin.
Qed.

Lemma wp_end_it d n (Q : iterator → _ → Prop) : shape d n →
  (∀ it, points d it n → Q it d) → wp end_it Q d.
Proof.
  intros Hs HQ. apply wp_bind, wp_deque_self, (wp_iterator_at d n n); [done| |done].
  by eapply shape_end.
Qed.

Lemma wp_OffsetFromBegin d n it o (Q : nat → _ → Prop) : shape d n → o ≤ n →
  index_ it = slot (cap d) (begin_ d) o → Q o d → wp (OffsetFromBegin it) Q d.
Proof.
  intros Hs Ho Hi HQ. unfold OffsetFromBegin. apply wp_bind, wp_get. rewrite Hi.
  assert (cap d = 0 ∧ o = 0 ∨ begin_ d < cap d ∧ o < cap d) as Hc by (unfold shape in Hs; lia).
  clear Hs. destruct (Nat.leb_spec (begin_ d) (slot (cap d) (begin_ d) o)).
  - apply wp_usub; [lia|]. replace (_ - _) with o by ring_lia. done.
  - apply wp_bind, wp_usub; [ring_lia|]. apply wp_ret. replace (_ + _) with o by ring_lia. done.
Qed.

Lemma wp_CheckUnstableUsage d it o (Q : unit → _ → Prop) :
  points d it o → Q tt d → wp (CheckUnstableUsage it) Q d.
Proof.
  intros [_ Hg] HQ. apply wp_bind, wp_deque_self, wp_dcheck; [|done]. intros _. by apply Z.eqb_eq.
Qed.

Lemma wp_CheckComparable d it o it' o' (Q : unit → _ → Prop) :
  points d it o → points d it' o' → Q tt d → wp (CheckComparable it it') Q d.
Proof.
  intros [_ Hg] [_ Hg'] HQ. apply wp_dcheck; [|done]. intros _. apply Z.eqb_eq. congruence.
Qed.

Lemma wp_CheckValidIndex d n i o (Q : unit → _ → Prop) : shape d n → o < n →
  i = slot (cap d) (begin_ d) o → Q tt d → wp (CheckValidIndex i) Q d.
Proof.
  intros Hs Ho -> HQ. unfold CheckValidIndex. apply wp_bind, wp_get.
  rewrite (shape_end d n Hs). destruct Hs as [|(Hb&Hn&_)]; [lia|].
  destruct (Nat.leb_spec (begin_ d) (slot (cap d) (begin_ d) n));
    (apply wp_dcheck; [|done]); intros _; ring_lia; done.
Qed.

Lemma wp_CheckValidIndexOrEnd d n i o (Q : unit → _ → Prop) : shape d n → o ≤ n →
  i = slot (cap d) (begin_ d) o → Q tt d → wp (CheckValidIndexOrEnd i) Q d.
Proof.
  intros Hs Ho Hi HQ. apply wp_bind, wp_deque_self.
  destruct (Nat.eqb_spec i (end_ d)) as [|Hne]; [done|]. simpl.
  apply (wp_CheckValidIndex d n i o); try done.
  rewrite (shape_end d n Hs) in Hne. assert (o ≠ n) by congruence. lia.
Qed.

Lemma wp_Increment d n it o (Q : iterator → _ → Prop) : shape d n → points d it o → o < n →
  (∀ it', points d it' (o + 1) → Q it' d) → wp (Increment it) Q d.
Proof.
  intros Hs Hp Ho HQ. apply wp_bind, (wp_CheckUnstableUsage d it o); [done|].
  destruct Hp as [Hi Hg]. apply wp_bind, (wp_CheckValidIndex d n _ o); [done..|].
  apply wp_bind, wp_deque_self, wp_ret, HQ. split; [|done]. simpl. rewrite Hi.
  destruct Hs as [|(Hb&Hn&_)]; [lia|]. ring_lia.
Qed.

Lemma wp_Decrement d n it o (Q : iterator → _ → Prop) : shape d n → points d it o → 0 < o ≤ n →
  (∀ it', points d it' (o - 1) → Q it' d) → wp (Decrement it) Q d.
Proof.
  intros Hs Hp Ho HQ. apply wp_bind, (wp_CheckUnstableUsage d it o); [done|].
  destruct Hp as [Hi Hg]. apply wp_bind, (wp_CheckValidIndexOrEnd d n _ o); [done|lia|done|].
  apply wp_bind, wp_deque_self. destruct Hs as [|(Hb&Hn&_)]; [lia|].
  destruct (Nat.eqb_spec (index_ it) 0) as [E|]; rewrite Hi in *;
    apply wp_bind, wp_usub; try lia; apply wp_ret, HQ; (split; [simpl|done]); ring_lia.
Qed.

Lemma wp_Add d n it o delta (Q : iterator → _ → Prop) : shape d n → points d it o → o ≤ n →
  (0 ≤ Z.of_nat o + delta ≤ Z.of_nat n)%Z → (∀ it', points d it' (Z.to_nat (Z.of_nat o + delta)) → Q it' d) →
  wp (Add it delta) Q d.
Proof.
  intros Hs Hp Ho Hd HQ. apply wp_bind, (wp_CheckUnstableUsage d it o); [done|].
  pose proof Hp as [Hi Hg]. apply wp_bind.
  assert (wp (if (delta <=? 0)%Z then CheckValidIndexOrEnd (index_ it) else CheckValidIndex (index_ it))
             (λ _ d', d' = d) d) as Hc.
  { destruct (Z.leb_spec delta 0); [by apply (wp_CheckValidIndexOrEnd d n _ o)|].
    apply (wp_CheckValidIndex d n _ o); [done|lia|done..]. }
  eapply wp_mono; [exact Hc|]. intros [] ? ->. clear Hc. destruct (Z.eqb_spec delta 0) as [->|Hne].
  - apply wp_ret, HQ. by rewrite Z.add_0_r, Nat2Z.id.
  - apply wp_bind, (wp_OffsetFromBegin d n it o); [done..|]. apply wp_bind, (wp_size d n); [done|].
    apply wp_bind, wp_dcheck; [intros _; apply andb_true_iff; rewrite !Z.leb_le; lia|].
    destruct (Z.ltb_spec (Z.of_nat o + delta) 0); [lia|]. apply wp_bind, wp_get.
    destruct Hs as [|(Hb&Hn&_)]; [lia|].
    apply wp_bind, wp_umod; [lia|]. apply wp_ret, HQ. split; [|done]. simpl.
    rewrite Nat.add_comm. apply slot_mod; lia.
Qed.

Lemma wp_iterator_eq d n it o it' o' (Q : bool → _ → Prop) : shape d n →
  points d it o → points d it' o' → o ≤ n → o' ≤ n → Q (o =? o') d → wp (iterator_eq it it') Q d.
Proof.
  intros Hs Hp Hp' Ho Ho' HQ. apply wp_bind, (wp_CheckComparable d it o it' o'); [done..|].
  apply wp_ret. replace (index_ it =? index_ it') with (o =? o'); [done|].
  destruct Hp as [-> _], Hp' as [-> _], Hs as [|(Hb&Hn&_)]; ring_lia; done.
Qed.

Lemma wp_iterator_ne d n it o it' o' (Q : bool → _ → Prop) : shape d n →
  points d it o → points d it' o' → o ≤ n → o' ≤ n → Q (negb (o =? o')) d → wp (iterator_ne it it') Q d.
Proof.
  intros. apply wp_bind, (wp_iterator_eq d n it o it' o'); try done.
Qed.

Lemma wp_iterator_lt d n it o it' o' (Q : bool → _ → Prop) : shape d n →
  points d it o → points d it' o' → o ≤ n → o' ≤ n → Q (o <? o') d → wp (iterator_lt it it') Q d.
Proof.
  intros Hs Hp Hp' Ho Ho' HQ. apply wp_bind, (wp_CheckComparable d it o it' o'); [done..|].
  apply wp_bind, (wp_OffsetFromBegin d n it o); [done|done|apply Hp|].
  apply wp_bind, (wp_OffsetFromBegin d n it' o'); [done|done|apply Hp'|]. done.
Qed.

(** Reading the object at offset [o]. *)
Lemma wp_iterator_read d n f it o v (Q : T → _ → Prop) : shape d n → holds d f → points d it o → o < n →
  f o = Some v → Q v d → wp (read it) Q d.
Proof.
  intros Hs Hh Hp Ho Hv HQ. apply wp_bind, (wp_CheckUnstableUsage d it o); [done|].
  destruct Hp as [Hi _]. apply wp_bind, (wp_CheckValidIndex d n _ o); [done..|].
  apply wp_bind, wp_deque_self. destruct Hs as [|(Hb&Hn&_)]; [lia|]. rewrite Hi.
  apply wp_bind, wp_address; [pose proof (slot_lt (cap d) (begin_ d) o); unfold cap, VectorBuffer.capacity in *; lia|].
  apply (wp_object _ _ v); [|done]. rewrite (holds_slot d f) by (done || lia). by rewrite Hv.
Qed.

(** * Storage management *)

Lemma rep_live d l j : rep d l → j < cap d → offset (cap d) (begin_ d) j < length l →
  ∃ v, buffer_ d !! j = Some (Some v).
Proof.
  intros [_ Hh] Hj Ho. rewrite (Hh j Hj). apply lookup_lt_is_Some_2 in Ho as [v ->]. eauto.
Qed.

Lemma lookup_raw {n j} : j < n → (replicate n None : VectorBuffer T) !! j = Some None.
Proof. intros. by apply lookup_replicate_2. Qed.

Lemma wp_MoveBuffer d l n (Q : VectorBuffer T * VectorBuffer T * nat * nat → _ → Prop) :
  rep d l → length l ≤ n →
  (∀ old new, (∀ j x, old !! j = Some x → x = None) → length new = n + 1 →
     (∀ j, j < n + 1 → new !! j = Some (l !! j)) → Q (old, new, 0, length l) d) →
  wp (MoveBuffer (buffer_ d) (begin_ d) (end_ d) (replicate (n + 1) None)) Q d.
Proof.
  intros Hrep Hn HQ. pose proof Hrep as [Hs Hh].
  assert (∀ j x, buffer_ d !! j = Some x → j < cap d) as Hin by (by intros ???%lookup_lt_Some).
  unfold MoveBuffer. destruct (Nat.ltb_spec (begin_ d) (end_ d)) as [Hlt|Hge];
    [|destruct (Nat.ltb_spec (end_ d) (begin_ d)) as [Hgt|Hle]].
  - destruct Hs as [|(Hb&Hl&He)]; [lia|].
    assert (end_ d = begin_ d + length l ∧ begin_ d + length l < cap d) as [He' Hc] by ring_lia.
    do 2 (apply wp_bind, wp_address; [unfold cap, VectorBuffer.capacity in *; lia|]).
    apply wp_bind, wp_MoveRange_across; [lia|..].
    { intros x Hx. apply (rep_live d l); [done|ring_lia..]. }
    { intros x Hx. apply lookup_raw. lia. }
    intros c1 c2 _ Hl2 H1 H2. apply wp_bind, wp_usub; [lia|]. apply wp_ret. cbn [fst snd].
    replace (end_ d - begin_ d) with (length l) by lia. apply HQ.
    + intros j x Hj. rewrite H1 in Hj.
      destruct (Nat.leb_spec (begin_ d) j), (Nat.ltb_spec j (end_ d)); simplify_eq/=; try done;
        rewrite Hh in Hj by eauto; injection Hj as <-; apply lookup_ge_None; ring_lia.
    + by rewrite Hl2, length_replicate.
    + intros j Hj. rewrite H2. ring_lia; simpl.
      * rewrite Hh by lia. do 2 f_equal. ring_lia.
      * rewrite lookup_raw by done. f_equal. symmetry. apply lookup_ge_None. lia.
  - destruct Hs as [|(Hb&Hl&He)]; [lia|].
    assert (end_ d + cap d = begin_ d + length l) as He' by ring_lia.
    do 2 (apply wp_bind, wp_address; [unfold cap, VectorBuffer.capacity in *; lia|]).
    change (VectorBuffer.capacity (buffer_ d)) with (cap d).
    apply wp_bind, wp_MoveRange_across; [lia|..].
    { intros x Hx. apply (rep_live d l); [done|ring_lia..]. }
    { intros x Hx. apply lookup_raw. lia. }
    intros c1 c2 Hl1 Hl2 H1 H2. apply wp_bind, wp_usub; [lia|]. cbn [fst snd].
    rewrite length_replicate in Hl2. change (length c1 = cap d) in Hl1.
    do 3 (apply wp_bind, wp_address; [lia|]).
    apply wp_bind, wp_MoveRange_across; [lia|..].
    { intros x Hx. rewrite H1. ring_lia. simpl. apply (rep_live d l); [done|ring_lia..]. }
    { intros x Hx. rewrite H2. ring_lia; simpl; apply lookup_raw; lia. }
    intros e1 e2 _ Hl2' H1' H2'. apply wp_ret. cbn [fst snd].
    replace (cap d - begin_ d + end_ d) with (length l) by lia. apply HQ.
    + intros j x Hj. rewrite H1', H1 in Hj.
      destruct (Nat.leb_spec 0 j), (Nat.ltb_spec j (end_ d)), (Nat.leb_spec (begin_ d) j),
        (Nat.ltb_spec j (cap d)); simplify_eq/=; try done; try lia;
        pose proof (Hin _ _ Hj); try lia.
      rewrite Hh in Hj by lia. injection Hj as <-. apply lookup_ge_None. ring_lia.
    + lia.
    + intros j Hj. rewrite H2', H1, H2. ring_lia; simpl; try lia.
      all: try (rewrite Hh by lia; do 2 f_equal; ring_lia).
      all: rewrite lookup_raw by done; f_equal; symmetry; apply lookup_ge_None; lia.
  - assert (length l = 0) as E by (destruct Hs as [(_&?&_)|(?&?&?)]; [done|ring_lia]).
    apply wp_ret. cbn [fst snd].
    assert (∀ old new, Q (old, new, 0, length l) d → Q (old, new, 0, 0) d) as HE by (by rewrite E).
    apply HE, HQ.
    + intros j x Hj. rewrite Hh in Hj by eauto. injection Hj as <-. apply lookup_ge_None. lia.
    + by rewrite length_replicate.
    + intros j Hj. rewrite lookup_raw by done. f_equal. symmetry. apply lookup_ge_None. lia.
Qed.

Lemma wp_SetCapacityTo d l n (Q : unit → _ → Prop) : rep d l → length l ≤ n →
  (sizeof_T * Z.of_nat (n + 1) < 2 ^ 64)%Z →
  (∀ d', rep d' l → cap d' = n + 1 → generation_ d' = generation_ d → Q tt d') →
  wp (SetCapacityTo sizeof_T n) Q d.
Proof.
  intros Hrep Hn Hsz HQ. unfold SetCapacityTo. apply wp_bind, wp_construct; [done|].
  apply wp_bind, wp_get. apply wp_bind, (wp_MoveBuffer d l n); [done..|].
  intros old new Hold Hl Hnew. apply wp_bind, wp_modify, wp_bind, wp_modify, wp_bind.
  apply wp_storage_release; [done|]. apply wp_modify, HQ; [|done|done]. cbn.
  split; [right|]; unfold cap, VectorBuffer.capacity; simpl; rewrite ?Hl.
  - split_and!; [lia|lia|]. ring_lia.
  - intros j Hj. simpl in *. unfold cap, VectorBuffer.capacity in *. simpl in *.
    rewrite Hnew by lia. do 2 f_equal. ring_lia.
Qed.

(** The generation after [n] more modifications. *)
Definition bump (g : Z) : Z := if RTC_DCHECK_IS_ON then wrap_u 64 (g + 1) else g.
Definition bumps (n : nat) (g : Z) : Z := Nat.iter n bump g.

Lemma bumps_S n g : bumps n (bump g) = bumps (n + 1) g.
Proof. unfold bumps. rewrite Nat.iter_add. done. Qed.

Lemma bumps_add n m g : bumps n (bumps m g) = bumps (n + m) g.
Proof. unfold bumps. by rewrite Nat.iter_add. Qed.

Lemma wp_IncrementGeneration d (Q : unit → _ → Prop) :
  Q tt (mkDeque (buffer_ d) (begin_ d) (end_ d) (bump (generation_ d))) → wp IncrementGeneration Q d.
Proof.
  unfold IncrementGeneration, bump. destruct d, RTC_DCHECK_IS_ON; by intros HQ.
Qed.

(** The same objects, seen from another beginning. *)
Lemma holds_rebegin d f b e g : begin_ d < cap d → b < cap d → holds d f →
  holds (mkDeque (buffer_ d) b e g) (λ i, f (offset (cap d) (begin_ d) (slot (cap d) b i))).
Proof.
  intros Hb Hb' Hh j Hj. change (j < cap d) in Hj. change (cap (mkDeque (buffer_ d) b e g)) with (cap d).
  simpl. rewrite slot_offset by done. by apply Hh.
Qed.

(** Destroying the objects at the offsets [a..b). *)
Definition without (f : nat → option T) (a b : nat) : nat → option T :=
  λ i, if (a <=? i) && (i <? b) then None else f i.

Lemma wp_destruct_range d n f a b i j (Q : unit → _ → Prop) : shape d n → holds d f →
  a ≤ b ≤ n → (∀ k, a ≤ k < b → is_Some (f k)) →
  i = slot (cap d) (begin_ d) a → j = slot (cap d) (begin_ d) b →
  (∀ buf, let d' := mkDeque buf (begin_ d) (end_ d) (generation_ d) in
     cap d' = cap d → holds d' (without f a b) → Q tt d') →
  wp (DestructRange i j) Q d.
Proof.
  intros Hs Hh Hab Hlive -> -> HQ. unfold DestructRange.
  destruct (Nat.eqb_spec (slot (cap d) (begin_ d) b) (slot (cap d) (begin_ d) a)) as [E|Hne].
  - assert (a = b ∨ cap d = 0) as Hab' by (destruct Hs as [|(?&?&?)]; [lia|ring_lia]).
    assert (holds d (without f a b)) as Hw.
    { intros x Hx. rewrite Hh by done. f_equal. unfold without.
      destruct (Nat.leb_spec a (offset (cap d) (begin_ d) x)),
        (Nat.ltb_spec (offset (cap d) (begin_ d) x) b); try done. lia. }
    apply wp_ret. destruct d as [buf bg en g]. exact (HQ _ eq_refl Hw).
  - destruct Hs as [|(Hb&Hn&He)]; [unfold shape in *; exfalso; apply Hne; f_equal; lia|].
    assert (∀ x, x < cap d → a ≤ offset (cap d) (begin_ d) x < b → ∃ v, buffer_ d !! x = Some (Some v))
      as Hobj.
    { intros x Hx Ho. rewrite Hh by done. destruct (Hlive _ Ho) as [v ->]. eauto. }
    pose proof (slot_lt (cap d) (begin_ d) a ltac:(lia) ltac:(lia)).
    pose proof (slot_lt (cap d) (begin_ d) b ltac:(lia) ltac:(lia)).
    apply wp_bind, wp_deque_self.
    destruct (Nat.ltb_spec (slot (cap d) (begin_ d) a) (slot (cap d) (begin_ d) b)) as [Hlt|Hge].
    + do 2 (apply wp_bind, wp_address; [unfold cap, VectorBuffer.capacity in *; lia|]).
      apply wp_bind, wp_DestructRange; [lia|intros x Hx; apply Hobj; ring_lia|].
      intros buf Hl Hbuf. apply wp_modify, HQ; [done|].
      intros x Hx. unfold cap, VectorBuffer.capacity in *. simpl in *. rewrite Hl in *.
      rewrite Hbuf, Hh by done. unfold without. ring_lia; done.
    + do 2 (apply wp_bind, wp_address; [unfold cap, VectorBuffer.capacity in *; lia|]).
      change (VectorBuffer.capacity (buffer_ d)) with (cap d).
      apply wp_bind, wp_DestructRange; [lia|intros x Hx; apply Hobj; ring_lia|].
      intros buf Hl Hbuf. change (length buf = cap d) in Hl.
      do 2 (apply wp_bind, wp_address; [lia|]).
      apply wp_bind, wp_DestructRange; [lia| |].
      { intros x Hx. rewrite Hbuf.
        destruct (Nat.leb_spec (slot (cap d) (begin_ d) a) x); [lia|]. simpl. apply Hobj; ring_lia. }
      intros buf' Hl' Hbuf'. apply wp_modify, HQ; [change (length buf' = cap d); lia|].
      intros x Hx. unfold cap, VectorBuffer.capacity in *. simpl in *. rewrite Hl', Hl in *.
      rewrite Hbuf', Hbuf, Hh by done. unfold without. ring_lia; done.
Qed.

Lemma wp_place_at d f i j v (Q : unit → _ → Prop) : begin_ d < cap d → i < cap d → holds d f →
  f i = None → j = slot (cap d) (begin_ d) i →
  (∀ buf, let d' := mkDeque buf (begin_ d) (end_ d) (generation_ d) in
     cap d' = cap d → holds d' (λ k, if k =? i then Some v else f k) → Q tt d') →
  wp (place_at j v) Q d.
Proof.
  intros Hb Hi Hh Hf -> HQ. unfold place_at. apply wp_bind, wp_deque_self.
  apply wp_bind, wp_address; [pose proof (slot_lt (cap d) (begin_ d) i Hb Hi);
    unfold cap, VectorBuffer.capacity in *; lia|].
  apply wp_bind, wp_place; [by rewrite (holds_slot d f), Hf|].
  apply wp_modify, HQ; [by unfold cap, VectorBuffer.capacity; simpl; rewrite length_insert|].
  by apply holds_insert.
Qed.

Lemma wp_destruct_at d f i j (Q : unit → _ → Prop) : begin_ d < cap d → i < cap d → holds d f →
  is_Some (f i) → j = slot (cap d) (begin_ d) i →
  (∀ buf, let d' := mkDeque buf (begin_ d) (end_ d) (generation_ d) in
     cap d' = cap d → holds d' (λ k, if k =? i then None else f k) → Q tt d') →
  wp (destruct_at j) Q d.
Proof.
  intros Hb Hi Hh [v Hf] -> HQ. pose proof (slot_lt (cap d) (begin_ d) i Hb Hi).
  unfold destruct_at. apply wp_bind, wp_deque_self.
  do 2 (apply wp_bind, wp_address; [unfold cap, VectorBuffer.capacity in *; lia|]).
  apply wp_bind, wp_DestructRange; [lia| |].
  { intros k Hk. exists v. replace k with (slot (cap d) (begin_ d) i) by lia.
    by rewrite (holds_slot d f), Hf. }
  intros buf Hl Hbuf.
  assert (buf = <[slot (cap d) (begin_ d) i := None]> (buffer_ d)) as ->.
  { apply list_eq. intros k. rewrite Hbuf, list_lookup_insert.
    unfold cap, VectorBuffer.capacity in *. repeat case_decide; ring_lia; simpl; try done. }
  apply wp_modify, HQ; [by unfold cap, VectorBuffer.capacity; simpl; rewrite length_insert|].
  by apply holds_insert.
Qed.
End Rules.
End DequeRules.
