(* ===== verification/CircularDequeOps.v ===== *)
(** The operations of the deque as list operations: one rule per operation, for
    deques of up to [N] elements whose storage fits the address space. *)
From S2P Require Import Prelude CircularDeque CircularDequeLemmas.
From Stdlib Require Import ZArith Lia.
From stdpp Require Import base tactics numbers strings list.

Open Scope nat_scope.
Import Deque DequeRules.

Section Ops.
Context `{!BuildConfig} {T : Type} (sizeof_T : Z) (N : nat).
(** Room for [N] elements and a quarter more. *)
Context (Hroom : (sizeof_T * Z.of_nat (2 * N + 4) < 2 ^ 64)%Z) (Hsizeof : (0 ≤ sizeof_T)%Z).
Implicit Types d : circular_deque T.
Implicit Types l : list T.

Definition ok d l : Prop := rep d l ∧ cap d ≤ 2 * N + 4.

Lemma room_for n : n ≤ 2 * N + 4 → (sizeof_T * Z.of_nat n < 2 ^ 64)%Z.
Proof. intros Hn. assert (Z.of_nat n ≤ Z.of_nat (2 * N + 4))%Z by lia. nia. Qed.

Lemma ok_shape d l : ok d l → shape d (length l).
Proof. intros [[? _] _]. done. Qed.

Lemma ok_generation d l g : ok d l → ok (mkDeque (buffer_ d) (begin_ d) (end_ d) g) l.
Proof. exact id. Qed.

(** Room makes the storage present. *)
Lemma ok_present d l k : ok d l → 0 < k → length l + k ≤ cap d - 1 →
  begin_ d < cap d ∧ end_ d = slot (cap d) (begin_ d) (length l) ∧ holds d (λ i, l !! i).
Proof. intros [[[|(?&?&?)] Hh] _] ??; [lia|done]. Qed.

Lemma wp_Expand d l k (Q : unit → _ → Prop) : ok d l → length l + k ≤ N →
  (∀ d', ok d' l → length l + k ≤ cap d' - 1 → generation_ d' = generation_ d →
     (length l + k ≤ cap d - 1 → d' = d) →
     (cap d - 1 < length l + k → cap d - 1 + (cap d - 1) / 4 ≤ cap d' - 1) → Q tt d') →
  wp (ExpandCapacityIfNecessary sizeof_T k) Q d.
Proof.
  intros [Hrep Hc] Hk HQ. unfold ExpandCapacityIfNecessary.
  apply wp_bind, (wp_size d (length l)); [apply Hrep|]. apply wp_bind, wp_capacity.
  destruct (Nat.leb_spec (length l + k) (cap d - 1)) as [Hle|Hgt].
  - apply wp_ret, HQ; try done; lia.
  - pose proof (Nat.Div0.div_le_upper_bound (cap d - 1) 4 N ltac:(lia)).
    apply (wp_SetCapacityTo _ d l); [done|lia| |].
    + apply room_for. unfold kCircularBufferInitialCapacity. lia.
    + intros d' Hrep' Hc' Hg. apply HQ; try done; try lia. split; [done|].
      rewrite Hc'. unfold kCircularBufferInitialCapacity. lia.
Qed.

Lemma wp_Shrink d l (Q : unit → _ → Prop) : ok d l → length l ≤ N →
  (∀ d', ok d' l → generation_ d' = generation_ d → cap d' - 1 ≤ Nat.max 3 (2 * length l) → Q tt d') →
  wp (ShrinkCapacityIfNecessary sizeof_T) Q d.
Proof.
  intros [Hrep Hc] Hl HQ. unfold ShrinkCapacityIfNecessary, kCircularBufferInitialCapacity.
  apply wp_bind, wp_capacity.
  destruct (Nat.leb_spec (cap d - 1) 3); [apply wp_ret, HQ; try done; lia|].
  apply wp_bind, (wp_size d (length l)); [apply Hrep|].
  assert (length l ≤ cap d - 1) by (destruct Hrep as [[|] _]; lia).
  apply wp_bind, wp_usub; [done|].
  destruct (Nat.ltb_spec (cap d - 1 - length l) (length l)); [apply wp_ret, HQ; try done; lia|].
  pose proof (Nat.Div0.div_le_upper_bound (length l) 4 (length l) ltac:(lia)).
  destruct (Nat.ltb_spec (Nat.max 3 (length l + length l / 4)) (cap d - 1)).
  - apply (wp_SetCapacityTo _ d l); [done|lia|apply room_for; lia|].
    intros d' Hrep' Hc' Hg. apply HQ; [split; [done|lia]|done|lia].
  - apply wp_ret, HQ; try done; lia.
Qed.

Lemma wp_reserve d l n (Q : unit → _ → Prop) : ok d l → n ≤ N →
  (∀ d', ok d' l → generation_ d' = generation_ d → n ≤ cap d' - 1 → Q tt d') →
  wp (reserve sizeof_T n) Q d.
Proof.
  intros [Hrep Hc] Hn HQ. unfold reserve. apply wp_bind, wp_capacity.
  destruct (Nat.ltb_spec (cap d - 1) n); [|by apply wp_ret, HQ].
  assert (length l ≤ cap d - 1) by (destruct Hrep as [[|] _]; lia).
  apply (wp_SetCapacityTo _ d l); [done|lia|apply room_for; lia|].
  intros d' ? Hc' ?. apply HQ; [split; [done|lia]|done|lia].
Qed.

Lemma lookup_snoc_eqb l v k : (l ++ [v]) !! k = if k =? length l then Some v else l !! k.
Proof.
  destruct (Nat.eqb_spec k (length l)) as [->|Hne]; [by rewrite list_lookup_middle|].
  destruct (Nat.lt_ge_cases k (length l)); [by rewrite lookup_app_l|].
  rewrite !(proj2 (lookup_ge_None _ _)); [done|lia|rewrite length_app; simpl; lia].
Qed.

(** ** Reading *)

Lemma wp_at d l i v (Q : T → _ → Prop) : ok d l → l !! i = Some v → Q v d → wp (at_ i) Q d.
Proof.
  intros [[Hs Hh] Hc] Hi HQ. pose proof (lookup_lt_Some _ _ _ Hi) as Hlt. unfold at_.
  apply wp_bind, (wp_size d (length l)); [done|].
  apply wp_bind, wp_dcheck; [intros _; by apply Nat.ltb_lt|]. apply wp_bind, wp_get.
  destruct Hs as [|(Hb&Hn&He)]; [lia|]. apply wp_bind, wp_usub; [lia|].
  pose proof (holds_slot d _ i Hb ltac:(lia) Hh) as Hj. simpl in Hj. rewrite Hi in Hj.
  pose proof (slot_lt (cap d) (begin_ d) i Hb ltac:(lia)) as Hj'.
  destruct ((begin_ d <=? end_ d) || (i <? cap d - begin_ d)) eqn:E.
  - replace (begin_ d + i) with (slot (cap d) (begin_ d) i)
      by (rewrite He in E; ring_lia; simpl in E; try done; lia).
    apply wp_bind, wp_address; [unfold cap, VectorBuffer.capacity in *; lia|]. by eapply wp_object.
  - apply orb_false_iff in E as [_ E%Nat.ltb_ge]. apply wp_bind, wp_usub; [lia|].
    replace (i - (cap d - begin_ d)) with (slot (cap d) (begin_ d) i) by ring_lia.
    apply wp_bind, wp_address; [unfold cap, VectorBuffer.capacity in *; lia|]. by eapply wp_object.
Qed.

Lemma wp_front d l v (Q : T → _ → Prop) : ok d l → head l = Some v → Q v d → wp front Q d.
Proof.
  intros [[Hs Hh] Hc] Hv HQ. destruct l as [|x l]; simplify_eq/=. unfold front.
  apply wp_bind, (wp_empty d (S (length l))); [done|]. apply wp_bind, wp_dcheck; [done|].
  apply wp_bind, wp_get. destruct Hs as [|(Hb&Hn&He)]; [lia|].
  apply wp_bind, wp_address; [unfold cap, VectorBuffer.capacity in *; lia|].
  apply (wp_object _ _ v); [|done]. rewrite Hh by done.
  by replace (offset (cap d) (begin_ d) (begin_ d)) with 0 by ring_lia.
Qed.

Lemma wp_back d l v (Q : T → _ → Prop) : ok d l → last l = Some v → Q v d → wp back Q d.
Proof.
  intros [[Hs Hh] Hc] Hv HQ. destruct l as [|x l _] using rev_ind; [done|].
  rewrite last_snoc in Hv. simplify_eq. rewrite length_app in Hs. simpl in Hs. unfold back.
  apply wp_bind, (wp_empty d (length l + 1)); [done|].
  apply wp_bind, wp_dcheck; [intros _; by rewrite Nat.add_1_r|].
  apply wp_bind, (wp_end_it d (length l + 1)); [done|]. intros it Hp.
  apply wp_bind, (wp_Decrement d (length l + 1) it (length l + 1)); [done|done|lia|]. intros it' Hp'.
  eapply (wp_iterator_read d (length l + 1)); [done|exact Hh|exact Hp'|lia| |done].
  simpl. rewrite Nat.add_sub. by apply list_lookup_middle.
Qed.

(** Assembling a deque: the slots hold the elements, seen from the beginning. *)
Lemma mk_ok buf b e g f l : let d := mkDeque buf b e g in
  b < length buf → length l < length buf → length buf ≤ 2 * N + 4 →
  e = slot (length buf) b (length l) → holds d f → (∀ i, i < length buf → f i = l !! i) → ok d l.
Proof.
  intros d Hb Hl Hc He Hh Hf. split; [split|done]; [by right|].
  by apply (holds_ext _ f).
Qed.

(** ** Both ends *)

Lemma wp_emplace_back d l v (Q : T → _ → Prop) : ok d l → length l < N →
  (∀ d', ok d' (l ++ [v]) → generation_ d' = bump (generation_ d) → Q v d') →
  wp (emplace_back sizeof_T v) Q d.
Proof.
  intros Hok Hl HQ. unfold emplace_back. apply wp_bind, (wp_Expand d l); [done|lia|].
  clear Hok. intros d1 Hok Hk Hg _ _. destruct (ok_present d1 l 1 Hok ltac:(lia) Hk) as (Hb&He&Hh).
  apply wp_bind, wp_deque_self.
  apply wp_bind, (wp_place_at d1 (λ i, l !! i) (length l)); [done|lia|done| |done|].
  { by apply lookup_ge_None. }
  intros buf. cbn zeta. intros Hc Hh2. apply wp_bind, wp_get. apply wp_bind, wp_usub; [lia|].
  rewrite Hc. apply wp_bind, wp_modify. apply wp_bind, wp_IncrementGeneration. cbn.
  match goal with |- wp _ _ ?d => assert (ok d (l ++ [v])) as Hok' end.
  { destruct Hok as [_ Hcap]. change (length buf = cap d1) in Hc.
    eapply mk_ok; rewrite ?Hc, ?length_app; simpl; [lia..| |exact Hh2|].
    - rewrite He. ring_lia.
    - intros i _. by rewrite lookup_snoc_eqb. }
  apply (wp_back _ _ v Q Hok'); [by rewrite last_snoc|]. apply HQ; [done|]. simpl. by rewrite Hg.
Qed.

Lemma wp_emplace_front d l v (Q : T → _ → Prop) : ok d l → length l < N →
  (∀ d', ok d' (v :: l) → generation_ d' = bump (generation_ d) → Q v d') →
  wp (emplace_front sizeof_T v) Q d.
Proof.
  intros Hok Hl HQ. unfold emplace_front. apply wp_bind, (wp_Expand d l); [done|lia|].
  clear Hok. intros d1 Hok Hk Hg _ _. destruct (ok_present d1 l 1 Hok ltac:(lia) Hk) as (Hb&He&Hh).
  apply wp_bind, wp_get. apply wp_bind.
  set (b := slot (cap d1) (begin_ d1) (cap d1 - 1)).
  assert (b < cap d1) as Hb' by (apply slot_lt; lia).
  assert (wp (if begin_ d1 =? 0 then usub (cap d1) 1 else usub (begin_ d1) 1) (λ i d', i = b ∧ d' = d1) d1)
    as Hi.
  { destruct (Nat.eqb_spec (begin_ d1) 0); apply wp_usub; try lia; (split; [|done]); unfold b; ring_lia. }
  eapply wp_mono; [exact Hi|]. intros ? ? [-> ->]. clear Hi.
  apply wp_bind, wp_modify. apply wp_bind, wp_IncrementGeneration. apply wp_bind, wp_deque_self. cbn.
  pose proof (holds_rebegin d1 _ b (end_ d1) (bump (generation_ d1)) Hb Hb' Hh) as Hh1.
  apply wp_bind. eapply (wp_place_at _ _ 0); [exact Hb'| |exact Hh1| | |].
  { change (0 < cap d1). lia. }
  { simpl. apply lookup_ge_None. unfold b. ring_lia. }
  { simpl. change (cap (mkDeque (buffer_ d1) b (end_ d1) (bump (generation_ d1)))) with (cap d1). ring_lia. }
  intros buf. cbn zeta. intros Hc Hh2. simpl in *.
  change (length buf = cap d1) in Hc.
  match goal with |- wp _ _ ?d => assert (ok d (v :: l)) as Hok' end.
  { destruct Hok as [_ Hcap]. eapply mk_ok; rewrite ?Hc; simpl; [lia..| |exact Hh2|].
    - rewrite He. unfold b. ring_lia.
    - intros [|i] Hi; [done|]. simpl. f_equal. unfold b. ring_lia. }
  apply (wp_front _ _ v Q Hok'); [done|]. apply HQ; [done|]. simpl. by rewrite Hg.
Qed.

Lemma wp_pop_front d l v (Q : unit → _ → Prop) : ok d (v :: l) → length l < N →
  (∀ d', ok d' l → generation_ d' = bump (generation_ d) →
     cap d' - 1 ≤ Nat.max 3 (2 * length l) → Q tt d') →
  wp (pop_front sizeof_T) Q d.
Proof.
  intros [[Hs Hh] Hcap] Hl HQ. unfold pop_front. apply wp_bind, (wp_size d (S (length l))); [done|].
  apply wp_bind, wp_dcheck; [done|]. apply wp_bind, wp_get.
  destruct Hs as [|(Hb&Hn&He)]; [simpl in *; lia|]. simpl in *.
  apply wp_bind. eapply (wp_destruct_at d _ 0); [done|lia|exact Hh|done|ring_lia|].
  intros buf. cbn zeta. intros Hc Hh1. apply wp_bind, wp_modify. cbn.
  change (length buf = cap d) in Hc.
  set (b := if begin_ d + 1 =? cap d then 0 else begin_ d + 1).
  assert (b < cap d) as Hb' by (unfold b; ring_lia).
  apply wp_bind, (wp_Shrink _ l); [|lia|].
  { eapply mk_ok; rewrite ?Hc; [lia|lia|lia| | |].
    - rewrite He. unfold b. ring_lia.
    - apply (holds_rebegin _ _ b (end_ d) (generation_ d)) in Hh1; [exact Hh1|..];
        unfold cap, VectorBuffer.capacity; simpl; lia.
    - intros i Hi. simpl. change (cap (mkDeque buf (begin_ d) (end_ d) (generation_ d))) with (length buf).
      rewrite Hc. replace (offset (cap d) (begin_ d) (slot (cap d) b i)) with
        (if i + 1 <? cap d then S i else 0) by (unfold b; ring_lia).
      destruct (Nat.ltb_spec (i + 1) (cap d)); [done|]. simpl. symmetry. apply lookup_ge_None. lia. }
  intros d' Hok' Hg Hc'. apply wp_IncrementGeneration, HQ; [done|simpl; by rewrite Hg|done].
Qed.

Lemma wp_pop_back d l v (Q : unit → _ → Prop) : ok d (l ++ [v]) → length l < N →
  (∀ d', ok d' l → generation_ d' = bump (generation_ d) →
     cap d' - 1 ≤ Nat.max 3 (2 * length l) → Q tt d') →
  wp (pop_back sizeof_T) Q d.
Proof.
  intros [[Hs Hh] Hcap] Hl HQ. rewrite length_app in Hs. simpl in Hs.
  unfold pop_back. apply wp_bind, (wp_size d (length l + 1)); [done|].
  apply wp_bind, wp_dcheck; [intros _; by rewrite Nat.add_1_r|]. apply wp_bind, wp_get.
  destruct Hs as [|(Hb&Hn&He)]; [lia|]. apply wp_bind.
  set (e := slot (cap d) (begin_ d) (length l)).
  assert (wp (if end_ d =? 0 then usub (cap d) 1 else usub (end_ d) 1) (λ i d', i = e ∧ d' = d) d) as Hi.
  { rewrite He. destruct (Nat.eqb_spec (slot (cap d) (begin_ d) (length l + 1)) 0);
      (apply wp_usub; [lia|]); (split; [|done]); unfold e; ring_lia. }
  eapply wp_mono; [exact Hi|]. intros ? ? [-> ->]. clear Hi.
  apply wp_bind, wp_modify. cbn. apply wp_bind.
  eapply (wp_destruct_at _ _ (length l)); [exact Hb|change (length l < cap d); lia|exact Hh| |done|].
  { cbn beta. by rewrite list_lookup_middle. }
  intros buf. cbn zeta. intros Hc Hh1. simpl in *. change (length buf = cap d) in Hc.
  apply wp_bind, (wp_Shrink _ l); [|lia|].
  { eapply mk_ok; rewrite ?Hc; [lia|lia|lia|done|exact Hh1|].
    intros i _. cbn beta. rewrite lookup_snoc_eqb.
    destruct (Nat.eqb_spec i (length l)) as [->|]; [|done]. symmetry. by apply lookup_ge_None. }
  intros d' Hok' Hg Hc'. apply wp_IncrementGeneration, HQ; [done|simpl; by rewrite Hg|done].
Qed.

(** ** Clearing and filling *)

Lemma ok_raw d : ok d [] → ∀ j x, buffer_ d !! j = Some x → x = None.
Proof.
  intros [[_ Hh] _] j x Hj. rewrite Hh in Hj; [by injection Hj|]. by apply lookup_lt_Some in Hj.
Qed.

(** Destroying all objects leaves raw storage. *)
Lemma wp_destruct_all d l (Q : unit → _ → Prop) : ok d l →
  (∀ buf, length buf = cap d → (∀ j x, buf !! j = Some x → x = None) →
     Q tt (mkDeque buf (begin_ d) (end_ d) (generation_ d))) →
  wp (DestructRange (begin_ d) (end_ d)) Q d.
Proof.
  intros [[Hs Hh] Hcap] HQ. eapply (wp_destruct_range d (length l) _ 0 (length l)).
  - done.
  - exact Hh.
  - lia.
  - intros k Hk. apply lookup_lt_is_Some_2. lia.
  - by eapply shape_begin.
  - by eapply shape_end.
  - intros buf. cbn zeta. intros Hc Hh'. apply HQ; [done|]. intros j x Hj.
    rewrite Hh' in Hj by (by apply lookup_lt_Some in Hj). injection Hj as <-. unfold without. simpl.
    destruct (Nat.ltb_spec (offset (cap (mkDeque buf (begin_ d) (end_ d) (generation_ d))) (begin_ d) j)
      (length l)); [done|]. by apply lookup_ge_None.
Qed.

Lemma ok_nil buf b e g : (∀ j x, buf !! j = Some x → x = None) → length buf ≤ 2 * N + 4 → b = e →
  (b < length buf ∨ length buf = 0) → ok (mkDeque buf b e g) [].
Proof.
  intros Hraw Hc -> Hb. split; [split|done].
  - unfold shape, cap, VectorBuffer.capacity. simpl. destruct Hb as [Hb|Hb]; [right|by left].
    split_and!; [done|lia|ring_lia].
  - intros j Hj. change (j < length buf) in Hj. apply lookup_lt_is_Some_2 in Hj as [x Hx].
    cbn [buffer_]. rewrite Hx. by rewrite (Hraw _ _ Hx).
Qed.

Lemma wp_ClearRetainCapacity d l (Q : unit → _ → Prop) : ok d l →
  (∀ d', ok d' [] → generation_ d' = bump (generation_ d) → Q tt d') →
  wp ClearRetainCapacity Q d.
Proof.
  intros Hok HQ. unfold ClearRetainCapacity. apply wp_bind, wp_get.
  apply wp_bind, (wp_destruct_all d l); [done|]. intros buf Hl Hraw.
  apply wp_bind, wp_modify, wp_bind, wp_modify, wp_IncrementGeneration, HQ; [|done].
  apply ok_nil; [done| |done|]; simpl; destruct Hok as [_ Hcap]; lia.
Qed.

Lemma wp_drop_buffer d (Q : unit → _ → Prop) : ok d [] →
  (∀ d', ok d' [] → generation_ d' = generation_ d → cap d' = 0 → Q tt d') → wp drop_buffer Q d.
Proof.
  intros Hok HQ. apply wp_bind, wp_deque_self. apply wp_bind, wp_storage_release; [by apply ok_raw|].
  apply wp_modify, HQ; [|done|done]. apply ok_nil; simpl; try lia; [by intros ??|].
  destruct Hok as [[[(_&_&?)|(?&?&He)] _] _]; [done|]. simpl in *. rewrite He. ring_lia.
Qed.

Lemma wp_clear d l (Q : unit → _ → Prop) : ok d l →
  (∀ d', ok d' [] → generation_ d' = bump (generation_ d) → cap d' = 0 → Q tt d') → wp clear Q d.
Proof.
  intros Hok HQ. apply wp_bind, (wp_ClearRetainCapacity d l); [done|]. intros d1 Hok1 Hg.
  apply wp_drop_buffer; [done|]. intros d2 Hok2 Hg2 ?. apply HQ; [done|congruence|done].
Qed.

Lemma wp_shrink_to_fit d l (Q : unit → _ → Prop) : ok d l → length l ≤ N →
  (∀ d', ok d' l → generation_ d' = generation_ d → cap d' - 1 = length l → Q tt d') →
  wp (shrink_to_fit sizeof_T) Q d.
Proof.
  intros Hok Hl HQ. apply wp_bind, (wp_empty d (length l)); [by apply ok_shape|].
  destruct l as [|v l]; simpl.
  - apply wp_bind, wp_deque_self. destruct (Nat.eqb_spec (cap d) 0) as [E|]; [apply wp_ret, HQ; [done|done|by rewrite E]|].
    apply wp_drop_buffer; [done|]. intros d' ? ? Hc. apply HQ; [done|done|by rewrite Hc].
  - apply wp_bind, (wp_size d (S (length l))); [by apply ok_shape in Hok|].
    apply (wp_SetCapacityTo _ d (v :: l)); [apply Hok|done|apply room_for; simpl in *; lia|].
    intros d' ? Hc ?. apply HQ; [split; [done|simpl in *; lia]|done|simpl; lia].
Qed.

Lemma wp_destruct_ d l (Q : unit → _ → Prop) : ok d l →
  (∀ d', (∀ j x, buffer_ d' !! j = Some x → x = None) → Q tt d') → wp destruct_ Q d.
Proof.
  intros Hok HQ. apply wp_bind, wp_get. apply wp_bind, (wp_destruct_all d l); [done|].
  intros buf _ Hraw. apply wp_bind, wp_deque_self. apply wp_storage_release; [done|]. by apply HQ.
Qed.

Lemma wp_push_all items : ∀ d l (Q : unit → _ → Prop), ok d l → length l + length items ≤ N →
  (∀ d', ok d' (l ++ items) → generation_ d' = bumps (length items) (generation_ d) → Q tt d') →
  wp (for_each (push_back sizeof_T) items) Q d.
Proof.
  induction items as [|v items IH]; intros d l Q Hok Hl HQ; simpl in *.
  - apply wp_ret, HQ; [by rewrite app_nil_r|done].
  - apply wp_bind. apply wp_bind, (wp_emplace_back d l); [done|lia|]. intros d1 Hok1 Hg1.
    apply wp_ret. apply (IH d1 (l ++ [v])); [done|rewrite length_app; simpl; lia|].
    intros d2 Hok2 Hg2. apply HQ; [by rewrite <-app_assoc in Hok2|].
    rewrite Hg2, Hg1, bumps_S, Nat.add_1_r. done.
Qed.

Lemma wp_push_all_front n v : ∀ d l (Q : unit → _ → Prop), ok d l → length l + n ≤ N →
  (∀ d', ok d' (replicate n v ++ l) → generation_ d' = bumps n (generation_ d) → Q tt d') →
  wp (for_each (push_front sizeof_T) (replicate n v)) Q d.
Proof.
  induction n as [|n IH]; intros d l Q Hok Hl HQ; simpl in *.
  - by apply wp_ret, HQ.
  - apply wp_bind. apply wp_bind, (wp_emplace_front d l); [done|lia|]. intros d1 Hok1 Hg1.
    apply wp_ret. apply (IH d1 (v :: l)); [done|simpl; lia|].
    intros d2 Hok2 Hg2. apply HQ.
    + replace (v :: replicate n v ++ l) with (replicate n v ++ v :: l); [done|].
      rewrite (app_comm_cons _ l), <-replicate_S, replicate_S_end, <-app_assoc. done.
    + rewrite Hg2, Hg1, bumps_S, Nat.add_1_r. done.
Qed.

Lemma wp_assign_range d l items (Q : unit → _ → Prop) : ok d l → length items ≤ N →
  (∀ d', ok d' items → generation_ d' = bumps (length items + 2) (generation_ d) → Q tt d') →
  wp (assign_range sizeof_T items) Q d.
Proof.
  intros Hok Hl HQ. apply wp_bind, (wp_ClearRetainCapacity d l); [done|]. intros d1 Hok1 Hg1.
  apply wp_bind, (wp_push_all items d1 []); [done|done|]. intros d2 Hok2 Hg2.
  apply wp_IncrementGeneration, HQ; [done|]. simpl. rewrite Hg2, Hg1.
  change (bump (bumps (length items) (bump (generation_ d)))) with
    (bumps 1 (bumps (length items) (bumps 1 (generation_ d)))).
  rewrite !bumps_add. f_equal. lia.
Qed.

Lemma wp_assign_count d l n v (Q : unit → _ → Prop) : ok d l → n ≤ N →
  (∀ d', ok d' (replicate n v) → generation_ d' = bumps (n + 2) (generation_ d) → Q tt d') →
  wp (assign_count sizeof_T n v) Q d.
Proof.
  intros Hok Hl HQ. apply wp_bind, (wp_ClearRetainCapacity d l); [done|]. intros d1 Hok1 Hg1.
  apply wp_bind, (wp_reserve d1 []); [done|done|]. intros d2 Hok2 Hg2 _.
  apply wp_bind, (wp_push_all _ d2 []); [done|by rewrite length_replicate|]. intros d3 Hok3 Hg3.
  apply wp_IncrementGeneration, HQ; [done|]. simpl. rewrite Hg3, Hg2, Hg1, length_replicate.
  change (bump (bumps n (bump (generation_ d)))) with (bumps 1 (bumps n (bumps 1 (generation_ d)))).
  rewrite !bumps_add. f_equal. lia.
Qed.

Lemma wp_assign_list d l items (Q : unit → _ → Prop) : ok d l → length items ≤ N →
  (∀ d', ok d' items → generation_ d' = bumps (length items + 2) (generation_ d) → Q tt d') →
  wp (assign_list sizeof_T items) Q d.
Proof.
  intros Hok Hl HQ. apply wp_bind, (wp_reserve d l); [done|done|]. intros d1 Hok1 Hg1 _.
  apply (wp_assign_range d1 l); [done|done|]. by rewrite Hg1.
Qed.

(** ** Iteration and resizing *)

Lemma wp_elements d l it it' a b (Q : list T → _ → Prop) : ok d l → points d it a → points d it' b →
  a ≤ b ≤ length l → Q (take (b - a) (drop a l)) d → wp (elements it it') Q d.
Proof.
  intros [[Hs Hh] Hc] Hp Hp' Hab HQ. apply wp_bind, wp_deque_self. apply wp_bind.
  apply (wp_while _ _ _ (λ n st s, s = d ∧ ∃ o, points d st.1 o ∧ a ≤ o ≤ b ∧
    st.2 = take (o - a) (drop a l) ∧ n = b - o)) with (n := b - a).
  - split; [done|]. exists a. rewrite Nat.sub_diag. split_and!; try done; lia.
  - destruct Hs as [|(?&?&?)]; lia.
  - intros n [cur acc] s (->&o&Ho&Hr&Hacc&->). simpl in *.
    apply (wp_iterator_ne d (length l) cur o it' b); [done|done|done|lia|lia|].
    destruct (Nat.eqb_spec o b) as [->|Hne]; simpl; [by rewrite Hacc|].
    destruct (lookup_lt_is_Some_2 l o) as [v Hv]; [lia|].
    exists (b - (o + 1)). split; [lia|].
    apply wp_bind. eapply (wp_iterator_read d (length l)); [done|exact Hh|exact Ho|lia|exact Hv|].
    apply wp_bind, (wp_Increment d (length l) cur o); [done|done|lia|]. intros cur' Ho'.
    apply wp_ret. split; [done|]. exists (o + 1). split_and!; [done|lia|lia| |lia].
    simpl. rewrite Hacc. replace (o + 1 - a) with (S (o - a)) by lia. symmetry. apply take_S_r.
    rewrite lookup_drop. by replace (a + (o - a)) with o by lia.
Qed.

Lemma wp_resize d l n v (Q : unit → _ → Prop) : ok d l → length l ≤ N → n ≤ N →
  (∀ d', ok d' (take n l ++ replicate (n - length l) v) → generation_ d' = bumps (n - length l + 1) (generation_ d) → Q tt d') →
  wp (Deque.resize sizeof_T n v) Q d.
Proof.
  intros Hok Hl Hn HQ. apply wp_bind, (wp_size d (length l)); [by apply ok_shape|].
  apply wp_bind. destruct (Nat.ltb_spec (length l) n) as [Hlt|Hge];
    [|destruct (Nat.ltb_spec n (length l)) as [Hlt|Heq]].
  - apply wp_bind, wp_usub; [lia|]. apply wp_bind, (wp_Expand d l); [done|lia|].
    intros d1 Hok1 _ Hg1 _ _.
    apply (wp_while _ _ _ (λ k _ s, ∃ m, ok s (l ++ replicate m v) ∧ length l + m + k = n ∧
      generation_ s = bumps m (generation_ d))) with (n := n - length l); [|lia|].
    { exists 0. rewrite app_nil_r. split_and!; [done|lia|done]. }
    clear d1 Hok1 Hg1. intros k [] s (m&Hs&Hm&Hg).
    apply wp_bind, (wp_size s (length l + m)).
    { apply ok_shape in Hs. by rewrite length_app, length_replicate in Hs. }
    apply wp_ret. destruct (Nat.ltb_spec (length l + m) n).
    + exists (k - 1). split; [lia|].
      apply wp_bind, (wp_emplace_back s (l ++ replicate m v)); [done|rewrite length_app, length_replicate; lia|].
      intros s' Hs' Hg'. apply wp_ret. exists (m + 1).
      rewrite Nat.add_1_r, replicate_S_end, app_assoc. split_and!; [done|lia|]. by rewrite Hg', Hg.
    + apply wp_IncrementGeneration, HQ; simpl.
      * rewrite take_ge by lia. by replace (n - length l) with m by lia.
      * rewrite Hg. replace (n - length l + 1) with (1 + m) by lia. done.
  - pose proof Hok as [[Hs Hh] Hcap]. apply wp_bind, wp_get.
    destruct Hs as [|(Hb&Hc&He)]; [lia|]. apply wp_bind, wp_umod; [lia|].
    rewrite slot_mod by lia. apply wp_bind.
    eapply (wp_destruct_range d (length l) _ n (length l)); [by apply ok_shape|exact Hh|lia| |done|done|].
    { intros k Hk. apply lookup_lt_is_Some_2. lia. }
    intros buf. cbn zeta. intros Hcb Hh1. apply wp_bind, wp_modify. cbn.
    change (length buf = cap d) in Hcb.
    apply (wp_Shrink _ (take n l)); [|rewrite length_take; lia|].
    { eapply mk_ok; rewrite ?Hcb, ?length_take; [lia|lia|lia| |exact Hh1|].
      - by replace (n `min` length l) with n by lia.
      - intros i _. unfold without. destruct (Nat.leb_spec n i); simpl.
        + rewrite lookup_take_ge by done. destruct (Nat.ltb_spec i (length l)); [done|]. by apply lookup_ge_None.
        + by rewrite lookup_take_lt. }
    intros d' Hok' Hg _. apply wp_IncrementGeneration, HQ; simpl.
    { replace (n - length l) with 0 by lia. by rewrite app_nil_r. }
    rewrite Hg. by replace (n - length l + 1) with 1 by lia.
  - apply wp_ret. apply wp_IncrementGeneration, HQ; simpl.
    + rewrite take_ge by lia. replace (n - length l) with 0 by lia. by rewrite app_nil_r.
    + by replace (n - length l + 1) with 1 by lia.
Qed.

(** ** The middle *)

(** Iterators outlive changes of the slots alone. *)
Lemma points_frame d d' it o : cap d' = cap d → begin_ d' = begin_ d → generation_ d' = generation_ d →
  points d it o → points d' it o.
Proof. intros Hc Hb Hg [? ?]. unfold points. by rewrite Hc, Hb, Hg. Qed.

Lemma wp_move_slot d f i j x y v (Q : unit → _ → Prop) : begin_ d < cap d → i < cap d → j < cap d →
  holds d f → i ≠ j → f i = Some v → f j = None →
  x = slot (cap d) (begin_ d) i → y = slot (cap d) (begin_ d) j →
  (∀ buf, let d' := mkDeque buf (begin_ d) (end_ d) (generation_ d) in
     cap d' = cap d → holds d' (λ k, if k =? i then None else if k =? j then Some v else f k) → Q tt d') →
  wp (move_slot x y) Q d.
Proof.
  intros Hb Hi Hj Hh Hne Hfi Hfj -> -> HQ. unfold move_slot. apply wp_bind, wp_deque_self.
  pose proof (slot_lt (cap d) (begin_ d) i Hb Hi). pose proof (slot_lt (cap d) (begin_ d) j Hb Hj).
  do 3 (apply wp_bind, wp_address; [unfold cap, VectorBuffer.capacity in *; lia|]).
  apply wp_bind, (wp_MoveRange_within _ _ _ v).
  - ring_lia.
  - by rewrite (holds_slot d f), Hfi.
  - by rewrite (holds_slot d f), Hfj.
  - apply wp_modify, HQ; [by unfold cap, VectorBuffer.capacity; simpl; rewrite !length_insert|].
    pose proof (holds_insert d f j (Some v) Hb Hj Hh) as Hins.
    apply (holds_insert _ _ i None) in Hins; [|unfold cap, VectorBuffer.capacity in *; simpl; rewrite length_insert; lia..].
    cbn [begin_ buffer_ end_ generation_ fst] in *. unfold cap in Hins. cbn [buffer_] in Hins.
    unfold VectorBuffer.capacity in Hins. rewrite length_insert in Hins. exact Hins.
Qed.

(** The elements with a hole of [k] raw slots at offset [o]. *)
Definition hole l (o k : nat) : nat → option T :=
  λ i, if i <? o then l !! i else if i <? o + k then None else l !! (i - k).

(** A deque with room at offset [o], and the iterators around it. *)
Definition roomy d l (o k : nat) (r : iterator * iterator) : Prop :=
  begin_ d < cap d ∧ shape d (length l + k) ∧ holds d (hole l o k) ∧ cap d ≤ 2 * N + 4 ∧
  points d r.1 o ∧ points d r.2 (o + k).

Lemma wp_MakeRoomFor d l it o k (Q : iterator * iterator → _ → Prop) : ok d l → points d it o →
  o ≤ length l → 0 < k → length l + k ≤ N →
  (∀ d' r, roomy d' l o k r → generation_ d' = generation_ d → Q r d') →
  wp (MakeRoomFor sizeof_T k it) Q d.
Proof.
  intros Hok Hp Ho Hk Hl HQ. unfold MakeRoomFor. destruct (Nat.eqb_spec k 0); [lia|].
  apply wp_bind, (wp_OffsetFromBegin d (length l) it o); [by apply ok_shape|done|apply Hp|].
  apply wp_bind, (wp_Expand d l); [done|done|]. intros d1 Hok1 Hk1 Hg1 _ _.
  destruct (ok_present d1 l k Hok1 Hk Hk1) as (Hb&He&Hh). destruct Hok1 as [_ Hcap].
  apply wp_bind, wp_get. apply wp_bind, wp_umod; [lia|]. rewrite slot_mod by lia.
  apply wp_bind, wp_umod; [lia|]. rewrite slot_mod by (try apply slot_lt; lia).
  rewrite slot_slot by lia. apply wp_bind, wp_bind, wp_deque_self, wp_ret.
  apply wp_bind, wp_bind, wp_deque_self, wp_bind, wp_deque_self, wp_ret.
  apply wp_bind, wp_umod; [lia|].
  assert ((end_ d1 + k) mod cap d1 = slot (cap d1) (begin_ d1) (length l + k)) as Ee.
  { rewrite He, slot_mod by (try apply slot_lt; lia). by apply slot_slot; lia. }
  rewrite Ee. apply wp_bind, wp_modify. apply wp_bind, wp_bind, wp_deque_self, wp_bind, wp_deque_self, wp_ret. cbn.
  set (d2 := mkDeque (buffer_ d1) (begin_ d1) (slot (cap d1) (begin_ d1) (length l + k)) (generation_ d1)).
  set (ib := mkIterator (slot (cap d1) (begin_ d1) o) (created_generation_ it)).
  assert (∀ s : circular_deque T, cap s = cap d1 → begin_ s = begin_ d1 → end_ s = end_ d2 → generation_ s = generation_ d1 →
    shape s (length l + k) ∧ points s ib o) as Hfr.
  { intros s Ec Eb Een Eg. split; [right; rewrite Ec, Eb, Een; split_and!; [done|lia|done]|].
    split; simpl; rewrite ?Ec, ?Eb, ?Eg; [done|]. destruct Hp as [_ ->]. congruence. }
  apply wp_bind, (wp_while _ _ _ (λ n st s, cap s = cap d1 ∧ begin_ s = begin_ d1 ∧ end_ s = end_ d2 ∧
    generation_ s = generation_ d1 ∧ ∃ m, holds s (hole l m k) ∧ points s st.1 m ∧
    points s st.2 (m + k) ∧ o ≤ m ≤ length l ∧ n = m - o)) with (n := length l - o).
  - split_and!; try done. exists (length l). split_and!; try done.
    + apply (holds_ext d2 (λ i, l !! i)); [|done|done]. intros i _. unfold hole.
      destruct (Nat.ltb_spec i (length l)); [done|].
      rewrite (proj2 (lookup_ge_None l i)) by done.
      destruct (Nat.ltb_spec i (length l + k)); [done|]. symmetry. apply lookup_ge_None. lia.
  - lia.
  - intros n0 [src dst] s (Ec&Eb&Een&Eg&m&Hhs&Hsrc&Hdst&Hm&->). simpl in Hsrc, Hdst.
    destruct (Hfr s Ec Eb Een Eg) as [Hsh Hib].
    apply (wp_iterator_ne s (length l + k) _ m _ o); [done|done|done|lia|lia|].
    destruct (Nat.eqb_spec m o) as [->|Hne]; simpl.
    + apply wp_ret, HQ; [|congruence]. unfold roomy.
      split_and!; [lia|done|done|lia|done|]. split; simpl; rewrite ?Ec, ?Eb; [done|congruence].
    + exists (m - 1 - o). split; [lia|].
      apply wp_bind, (wp_Decrement s (length l + k) src m); [done|done|lia|]. intros src' Hsrc'.
      apply wp_bind, (wp_Decrement s (length l + k) dst (m + k)); [done|done|lia|]. intros dst' Hdst'.
      destruct (lookup_lt_is_Some_2 l (m - 1)) as [v Hv]; [lia|].
      apply wp_bind. eapply (wp_move_slot s _ (m - 1) (m + k - 1) _ _ v);
        [lia|lia|lia|exact Hhs|lia| | |apply Hsrc'|apply Hdst'|].
      { unfold hole. destruct (Nat.ltb_spec (m - 1) m); [done|lia]. }
      { unfold hole. ring_lia; done. }
      intros buf. cbn zeta. intros Hc Hh2. apply wp_ret. cbn.
      split_and!; [exact (eq_trans Hc Ec)|done|done|done|]. exists (m - 1). split_and!; [| | |lia|lia|done].
      * eapply holds_ext; [|change (begin_ s < cap (mkDeque buf (begin_ s) (end_ s) (generation_ s))); lia|exact Hh2].
        intros i _. unfold hole. ring_lia; try done; try (f_equal; lia).
        all: rewrite <-Hv; f_equal; lia.
      * by eapply points_frame.
      * replace (m - 1 + k) with (m + k - 1) by lia. by eapply points_frame.
Qed.

(** The room after [j] of [items] were put into it. *)
Definition filled l (o k : nat) (items : list T) (j : nat) : nat → option T :=
  λ i, if (o <=? i) && (i <? o + j) then items !! (i - o) else hole l o k i.

Lemma filled_all l o items i : o ≤ length l →
  filled l o (length items) items (length items) i = (take o l ++ items ++ drop o l) !! i.
Proof.
  intros Ho. unfold filled, hole.
  destruct (Nat.lt_ge_cases i o).
  - rewrite lookup_app_l by (rewrite length_take; lia). rewrite lookup_take_lt by done. ring_lia; done.
  - rewrite lookup_app_r by (rewrite length_take; lia). rewrite length_take, Nat.min_l by done.
    destruct (Nat.lt_ge_cases i (o + length items)).
    + rewrite lookup_app_l by lia. ring_lia; done.
    + rewrite lookup_app_r, lookup_drop by lia. ring_lia; simpl; try done. f_equal. lia.
Qed.

Lemma wp_fill_room d l o r items (Q : unit → _ → Prop) : roomy d l o (length items) r → o ≤ length l →
  (∀ d', ok d' (take o l ++ items ++ drop o l) → generation_ d' = generation_ d → Q tt d') →
  wp (fill_room r.1 r.2 items) Q d.
Proof.
  destruct r as [cur stop]. intros (Hb&Hs&Hh&Hcap&Hcur&Hstop) Ho HQ. simpl in *.
  apply wp_bind, (wp_while _ _ _ (λ n st s, cap s = cap d ∧ begin_ s = begin_ d ∧ end_ s = end_ d ∧
    generation_ s = generation_ d ∧ ∃ j, holds s (filled l o (length items) items j) ∧ points s st.1 (o + j) ∧
    st.2 = drop j items ∧ j ≤ length items ∧ n = length items - j)) with (n := length items); [|done|].
  - split_and!; try done. exists 0. rewrite Nat.add_0_r, Nat.sub_0_r. split_and!; try done; [|lia].
    apply (holds_ext d (hole l o (length items))); [|done|done].
    intros i _. unfold filled. ring_lia; done.
  - intros n [it rest] s (Ec&Eb&Een&Eg&j&Hhs&Hit&Hrest&Hj&->). simpl in Hit, Hrest. subst rest.
    assert (shape s (length l + length items)) as Hsh
      by (unfold shape in *; rewrite Ec, Eb, Een; exact Hs).
    assert (points s stop (o + length items)) as Hstop' by (by eapply points_frame).
    apply (wp_iterator_lt s (length l + length items) _ (o + j) _ (o + length items)); [done|done|done|lia|lia|].
    destruct (Nat.ltb_spec (o + j) (o + length items)); simpl.
    + exists (length items - (j + 1)). split; [lia|].
      destruct (lookup_lt_is_Some_2 items j) as [v Hv]; [lia|].
      rewrite (drop_S _ _ _ Hv). apply wp_bind, (wp_deref _ _ v); [done|]. apply wp_bind.
      destruct Hsh as [|(Hbs&Hns&Hes)]; [lia|].
      eapply (wp_place_at s _ (o + j)); [done|lia|exact Hhs| |apply Hit|].
      { unfold filled, hole. ring_lia; done. }
      intros buf. cbn zeta. intros Hc Hh2. apply wp_bind.
      eapply (wp_Increment _ (length l + length items) it (o + j)); [|by eapply points_frame|lia|].
      { right. rewrite Hc. done. }
      intros it' Hit'. apply wp_ret. cbn.
      split_and!; [exact (eq_trans Hc Ec)|done|done|done|]. exists (j + 1).
      split_and!; [|by replace (o + (j + 1)) with (o + j + 1) by lia|by rewrite Nat.add_1_r|lia|lia].
      eapply holds_ext; [|change (begin_ s < cap (mkDeque buf (begin_ s) (end_ s) (generation_ s))); lia|exact Hh2].
      intros i _. unfold filled.
      destruct (Nat.eqb_spec i (o + j)) as [->|Hne]; [|ring_lia; done].
      rewrite <-Hv. ring_lia; simpl; f_equal; lia.
    + apply wp_ret, HQ; [|done]. replace j with (length items) in * by lia. split; [split|lia].
      * rewrite !length_app, length_take, length_drop.
        by replace (o `min` length l + (length items + (length l - o))) with (length l + length items) by lia.
      * eapply holds_ext; [|lia|exact Hhs]. intros i _. by apply filled_all.
Qed.

Lemma wp_insert_count d l it o n v (Q : unit → _ → Prop) : ok d l → points d it o → o ≤ length l →
  length l + n ≤ N →
  (∀ d', ok d' (take o l ++ replicate n v ++ drop o l) →
     generation_ d' = bumps (if o =? 0 then n else 1) (generation_ d) → Q tt d') →
  wp (insert_count sizeof_T it n v) Q d.
Proof.
  intros Hok Hp Ho Hn HQ. pose proof (ok_shape d l Hok) as Hs.
  apply wp_bind, (wp_CheckUnstableUsage d it o); [done|].
  apply wp_bind, (wp_begin d (length l)); [done|]. intros b Hb.
  apply wp_bind, (wp_iterator_eq d (length l) it o b 0); [done|done|done|lia|lia|].
  destruct (Nat.eqb_spec o 0) as [->|Hne]; simpl.
  - apply wp_bind, (wp_Expand d l); [done|done|]. intros d1 Hok1 _ Hg1 _ _.
    apply (wp_push_all_front n v d1 l); [done|done|]. intros d2 Hok2 Hg2.
    apply HQ; [by rewrite drop_0|by rewrite Hg2, Hg1].
  - apply wp_bind, (wp_iterator_at d (length l) o); [done|apply Hp|]. intros cur Hcur.
    apply wp_bind. destruct n as [|n].
    + unfold MakeRoomFor. apply wp_ret. cbn. apply wp_bind, wp_bind.
      apply wp_bind, (wp_iterator_lt d (length l) cur o cur o); [done..|]. rewrite Nat.ltb_irrefl.
      apply wp_ret, wp_ret. apply wp_IncrementGeneration, HQ; [|done]. simpl. by rewrite take_drop.
    + apply (wp_MakeRoomFor d l cur o); [done|done|done|lia|done|]. intros d1 r Hr Hg1.
      rewrite <-(length_replicate (S n) v) in Hr.
      apply wp_bind, (wp_fill_room d1 l o r _); [done|done|]. intros d2 Hok2 Hg2.
      apply wp_IncrementGeneration, HQ; [done|]. simpl. by rewrite Hg2, Hg1.
Qed.

(** The room in front of all elements is made by moving the beginning. *)
Lemma roomy_front d l k : ok d l → 0 < k → length l + k ≤ cap d - 1 →
  let b := (begin_ d + cap d - k) mod cap d in
  roomy (mkDeque (buffer_ d) b (end_ d) (generation_ d)) l 0 k
    (mkIterator b (generation_ d), mkIterator (begin_ d) (generation_ d)).
Proof.
  intros Hok Hk Hl b. destruct (ok_present d l k Hok Hk Hl) as (Hb&He&Hh).
  assert (b = slot (cap d) (begin_ d) (cap d - k)) as Eb.
  { unfold b. rewrite <-Nat.add_sub_assoc, slot_mod by lia. done. }
  assert (b < cap d) as Hb' by (rewrite Eb; apply slot_lt; lia).
  pose proof (holds_rebegin d _ b (end_ d) (generation_ d) Hb Hb' Hh) as Hh'.
  unfold roomy. split_and!.
  - exact Hb'.
  - right. change (cap (mkDeque (buffer_ d) b (end_ d) (generation_ d))) with (cap d). simpl.
    split_and!; [done|lia|]. rewrite He, Eb. ring_lia.
  - eapply holds_ext; [|exact Hb'|exact Hh'].
    intros i Hi. change (cap (mkDeque (buffer_ d) b (end_ d) (generation_ d))) with (cap d) in Hi.
    unfold hole. simpl. destruct (Nat.ltb_spec i k).
    + apply lookup_ge_None. rewrite Eb. ring_lia.
    + f_equal. rewrite Eb. ring_lia.
  - apply Hok.
  - split; [|done]. change (cap (mkDeque (buffer_ d) b (end_ d) (generation_ d))) with (cap d). simpl. ring_lia.
  - split; [|done]. change (cap (mkDeque (buffer_ d) b (end_ d) (generation_ d))) with (cap d). simpl.
    rewrite Eb. ring_lia.
Qed.

Lemma wp_insert_range d l it o items (Q : unit → _ → Prop) : ok d l → points d it o → o ≤ length l →
  length l + length items ≤ N →
  (∀ d', ok d' (take o l ++ items ++ drop o l) →
     generation_ d' = bumps (if length items =? 0 then 0 else 1) (generation_ d) → Q tt d') →
  wp (insert_range sizeof_T it items) Q d.
Proof.
  intros Hok Hp Ho Hn HQ. pose proof (ok_shape d l Hok) as Hs.
  apply wp_bind, (wp_CheckUnstableUsage d it o); [done|].
  cbn zeta. destruct (Nat.eqb_spec (length items) 0) as [E|Hne].
  { apply wp_ret, HQ; [|done]. destruct items; [|done]. simpl. by rewrite take_drop. }
  apply wp_bind, (wp_begin d (length l)); [done|]. intros b Hb.
  apply wp_bind, (wp_iterator_eq d (length l) it o b 0); [done|done|done|lia|lia|].
  apply wp_bind. destruct (Nat.eqb_spec o 0) as [->|Hne0].
  - apply wp_bind, (wp_Expand d l); [done|done|]. intros d1 Hok1 Hk1 Hg1 _ _.
    apply wp_bind, wp_bind, wp_deque_self, wp_bind, wp_deque_self, wp_ret. apply wp_bind, wp_get.
    pose proof (roomy_front d1 l (length items) Hok1 ltac:(lia) Hk1) as Hr.
    destruct (ok_present d1 l (length items) Hok1 ltac:(lia) Hk1) as (Hb1&_&_).
    apply wp_bind, wp_usub; [lia|]. apply wp_bind, wp_umod; [lia|]. apply wp_bind, wp_modify.
    apply wp_bind, wp_bind, wp_deque_self, wp_bind, wp_deque_self, wp_ret. apply wp_ret. cbn [generation_].
    apply wp_bind, (wp_fill_room _ l 0 _ _ _ Hr); [lia|]. intros d2 Hok2 Hg2.
    apply wp_IncrementGeneration, HQ; [done|]. simpl. by rewrite Hg2; simpl; rewrite Hg1.
  - apply wp_bind, (wp_iterator_at d (length l) o); [done|apply Hp|]. intros cur Hcur.
    apply (wp_MakeRoomFor d l cur o); [done|done|done|lia|done|]. intros d1 r Hr Hg1.
    apply wp_bind, (wp_fill_room d1 l o r _); [done|done|]. intros d2 Hok2 Hg2.
    apply wp_IncrementGeneration, HQ; [done|]. simpl. by rewrite Hg2, Hg1.
Qed.

Lemma wp_emplace d l it o v (Q : iterator → _ → Prop) : ok d l → points d it o → o ≤ length l →
  length l < N →
  (∀ d' it', ok d' (take o l ++ v :: drop o l) → points d' it' o →
     generation_ d' = bump (generation_ d) → Q it' d') →
  wp (emplace sizeof_T it v) Q d.
Proof.
  intros Hok Hp Ho Hn HQ. pose proof (ok_shape d l Hok) as Hs.
  apply wp_bind, (wp_CheckUnstableUsage d it o); [done|].
  apply wp_bind, (wp_begin d (length l)); [done|]. intros b Hb.
  apply wp_bind, (wp_iterator_eq d (length l) it o b 0); [done|done|done|lia|lia|].
  destruct (Nat.eqb_spec o 0) as [->|Hne].
  - apply wp_bind, (wp_emplace_front d l); [done|done|]. intros d1 Hok1 Hg1.
    apply (wp_begin d1 (S (length l))); [by apply ok_shape in Hok1|]. intros it' Hp'.
    by apply HQ.
  - apply wp_bind, wp_IncrementGeneration.
    apply wp_bind, (wp_iterator_at _ (length l) o); [exact Hs|apply Hp|]. intros cur Hcur.
    apply wp_bind, (wp_MakeRoomFor _ l cur o); [by apply ok_generation|done|done|lia|lia|].
    intros d1 [ib ie] (Hb1&Hs1&Hh1&Hcap1&Hib&_) Hg1. cbn [fst] in *. apply wp_bind.
    destruct Hs1 as [|(Hbs&Hns&Hes)]; [lia|].
    eapply (wp_place_at d1 _ o); [done|lia|exact Hh1| |apply Hib|].
    { unfold hole. ring_lia; done. }
    intros buf. cbn zeta. intros Hc Hh2. apply wp_ret, HQ; [|by eapply points_frame|done].
    split; [split|by rewrite Hc].
    + right. rewrite Hc. simpl. rewrite length_app, length_take. simpl. rewrite length_drop.
      replace (o `min` length l + S (length l - o)) with (length l + 1) by lia. done.
    + eapply holds_ext; [|by rewrite Hc|exact Hh2]. intros i _.
      change (take o l ++ v :: drop o l) with (take o l ++ [v] ++ drop o l).
      cbn beta. rewrite <-(filled_all l o [v] i Ho). unfold filled. simpl.
      destruct (Nat.eqb_spec i o) as [->|]; [|ring_lia; done].
      rewrite Nat.leb_refl, (proj2 (Nat.ltb_lt o (o + 1))) by lia. simpl. by rewrite Nat.sub_diag.
Qed.

Lemma wp_at_assign d l i v (Q : unit → _ → Prop) : ok d l → i < length l →
  (∀ d', ok d' (<[i := v]> l) → generation_ d' = generation_ d → Q tt d') → wp (at_assign i v) Q d.
Proof.
  intros [[Hs Hh] Hc] Hlt HQ. destruct (lookup_lt_is_Some_2 l i Hlt) as [w Hw]. unfold at_assign.
  apply wp_bind, (wp_size d (length l)); [done|].
  apply wp_bind, wp_dcheck; [intros _; by apply Nat.ltb_lt|]. apply wp_bind, wp_get.
  destruct Hs as [|(Hb&Hn&He)]; [lia|]. apply wp_bind, wp_usub; [lia|]. apply wp_bind.
  pose proof (holds_slot d _ i Hb ltac:(lia) Hh) as Hj. cbn beta in Hj. rewrite Hw in Hj.
  pose proof (slot_lt (cap d) (begin_ d) i Hb ltac:(lia)) as Hj'.
  assert (wp (if (begin_ d <=? end_ d) || (i <? cap d - begin_ d) then mret (begin_ d + i)
              else usub i (cap d - begin_ d)) (λ k d', k = slot (cap d) (begin_ d) i ∧ d' = d) d) as Hk.
  { destruct ((begin_ d <=? end_ d) || (i <? cap d - begin_ d)) eqn:E.
    - apply wp_ret. split; [|done]. rewrite He in E. ring_lia; simpl in E; try done; lia.
    - apply orb_false_iff in E as [_ E%Nat.ltb_ge]. apply wp_usub; [lia|]. split; [ring_lia|done]. }
  eapply wp_mono; [exact Hk|]. intros ? ? [-> ->]. clear Hk.
  apply wp_bind, wp_address; [unfold cap, VectorBuffer.capacity in *; lia|].
  apply wp_bind. eapply wp_object; [exact Hj|]. apply wp_modify, HQ; [|done].
  eapply mk_ok; [| | | |by apply (holds_insert d _ i (Some v) Hb ltac:(lia) Hh)|];
    rewrite ?length_insert; change (length (buffer_ d)) with (cap d); try done.
  intros k _. cbn beta. destruct (Nat.eqb_spec k i) as [->|].
  - by rewrite list_lookup_insert_eq.
  - by rewrite list_lookup_insert_ne.
Qed.

(** ** Erasing *)

(** The elements while those of [b..] move down to [a..]: [m] of them moved. *)
Definition closing l (a b m : nat) : nat → option T :=
  λ i, if i <? a then l !! i else if i <? a + m then l !! (i + (b - a))
       else if i <? b + m then None else l !! i.

Lemma closing_all l a b i : a ≤ b ≤ length l →
  closing l a b (length l - b) i = (take a l ++ drop b l) !! i.
Proof.
  intros Hab. unfold closing. destruct (Nat.lt_ge_cases i a).
  - rewrite lookup_app_l by (rewrite length_take; lia). rewrite lookup_take_lt by done. ring_lia; done.
  - rewrite lookup_app_r by (rewrite length_take; lia).
    rewrite length_take, Nat.min_l, lookup_drop by lia.
    destruct (Nat.lt_ge_cases i (a + (length l - b))).
    + ring_lia; f_equal; lia.
    + rewrite (proj2 (lookup_ge_None l (b + (i - a)))) by lia.
      ring_lia; try done. apply lookup_ge_None. lia.
Qed.

(** The loop of [erase]. *)
Lemma wp_close d l a b src stop dst (Q : iterator * iterator → _ → Prop) :
  shape d (length l) → begin_ d < cap d → holds d (closing l a b 0) → a < b ≤ length l →
  points d src b → points d stop (length l) → points d dst a →
  (∀ d' r, cap d' = cap d → begin_ d' = begin_ d → end_ d' = end_ d → generation_ d' = generation_ d →
     holds d' (closing l a b (length l - b)) → points d' r.2 (a + (length l - b)) → Q r d') →
  wp (while_ (cap d) (λ st, iterator_lt st.1 stop)
        (λ st, _ ← move_slot (index_ st.1) (index_ st.2);
               src ← Increment st.1; dest ← Increment st.2; mret (src, dest)) (src, dst)) Q d.
Proof.
  intros Hs Hb Hh Hab Hsrc Hstop Hdst HQ.
  assert (length l < cap d) as Hlc by (destruct Hs; lia).
  apply (wp_while _ _ _ (λ n st s, cap s = cap d ∧ begin_ s = begin_ d ∧ end_ s = end_ d ∧
    generation_ s = generation_ d ∧ ∃ m, holds s (closing l a b m) ∧ points s st.1 (b + m) ∧
    points s st.2 (a + m) ∧ m ≤ length l - b ∧ n = length l - b - m)) with (n := length l - b); [|lia|].
  - split_and!; try done. exists 0. rewrite !Nat.add_0_r, Nat.sub_0_r. split_and!; try done. lia.
  - intros n [cur to] s (Ec&Eb&Een&Eg&m&Hhs&Hcur&Hto&Hm&->). cbn [fst snd] in *.
    assert (shape s (length l)) as Hsh by (unfold shape in *; rewrite Ec, Eb, Een; exact Hs).
    apply (wp_iterator_lt s (length l) _ (b + m) _ (length l));
      [done|done|by eapply points_frame|lia|lia|].
    destruct (Nat.ltb_spec (b + m) (length l)).
    + exists (length l - b - (m + 1)). split; [lia|].
      destruct (lookup_lt_is_Some_2 l (b + m)) as [v Hv]; [lia|].
      apply wp_bind. eapply (wp_move_slot s _ (b + m) (a + m) _ _ v);
        [lia|lia|lia|exact Hhs|lia| | |apply Hcur|apply Hto|].
      { unfold closing. ring_lia; done. }
      { unfold closing. ring_lia; done. }
      intros buf. cbn zeta. intros Hc Hh2.
      assert (shape (mkDeque buf (begin_ s) (end_ s) (generation_ s)) (length l)) as Hsh2
        by (unfold shape in *; rewrite Hc; exact Hsh).
      apply wp_bind. eapply (wp_Increment _ (length l) cur (b + m)); [done|by eapply points_frame|lia|].
      intros cur' Hcur'. apply wp_bind.
      eapply (wp_Increment _ (length l) to (a + m)); [done|by eapply points_frame|lia|].
      intros to' Hto'. apply wp_ret. cbn [fst snd begin_ end_ generation_].
      split_and!; [exact (eq_trans Hc Ec)|done|done|done|]. exists (m + 1).
      rewrite !Nat.add_assoc. split_and!; [|done|done|lia|done].
      eapply holds_ext; [|change (begin_ s < cap (mkDeque buf (begin_ s) (end_ s) (generation_ s))); lia|exact Hh2].
      intros i _. unfold closing. ring_lia; try done; try (f_equal; lia).
      all: rewrite <-Hv; f_equal; lia.
    + apply HQ; try done; by replace (length l - b) with m by lia.
Qed.

(** Erasing from the beginning only moves the beginning. *)
Lemma ok_erase_front d l b i : shape d (length l) → begin_ d < cap d → cap d ≤ 2 * N + 4 →
  holds d (closing l 0 b 0) → 0 < b ≤ length l → i = slot (cap d) (begin_ d) b →
  ok (mkDeque (buffer_ d) i (end_ d) (generation_ d)) (drop b l).
Proof.
  intros Hs Hb Hcap Hh Hbl Hi. destruct Hs as [|(_&Hn&He)]; [lia|].
  assert (i < cap d) as Hi' by (rewrite Hi; apply slot_lt; lia).
  pose proof (holds_rebegin d _ i (end_ d) (generation_ d) Hb Hi' Hh) as Hh'.
  eapply mk_ok; [exact Hi'| |exact Hcap| |exact Hh'|]; change (length (buffer_ d)) with (cap d).
  - rewrite length_drop. lia.
  - rewrite length_drop, He, Hi. ring_lia.
  - intros j Hj. rewrite lookup_drop, Hi. unfold closing. destruct (Nat.lt_ge_cases (b + j) (cap d)).
    + replace (offset _ _ _) with (b + j) by ring_lia. ring_lia; done.
    + rewrite (proj2 (lookup_ge_None l (b + j))) by lia.
      replace (offset _ _ _) with (b + j - cap d) by ring_lia. ring_lia; done.
Qed.

Lemma wp_erase_range d l first last a b (Q : iterator → _ → Prop) : ok d l →
  points d first a → points d last b → a ≤ b ≤ length l →
  (∀ d' it, ok d' (take a l ++ drop b l) → points d' it a →
     generation_ d' = bump (generation_ d) → Q it d') →
  wp (erase_range first last) Q d.
Proof.
  intros Hok [Hfi Hfg] [Hli Hlg] Hab HQ. pose proof Hok as [[Hs Hh] Hcap].
  apply wp_bind, (wp_CheckUnstableUsage d first a); [done|].
  apply wp_bind, (wp_CheckUnstableUsage d last b); [done|]. apply wp_bind, wp_IncrementGeneration.
  set (d1 := mkDeque (buffer_ d) (begin_ d) (end_ d) (bump (generation_ d))).
  destruct (Nat.eqb_spec (index_ first) (index_ last)) as [E|Hne].
  { assert (a = b) as -> by (rewrite Hfi, Hli in E; destruct Hs as [|(?&?&?)]; [lia|ring_lia]).
    apply (wp_iterator_at d1 (length l) b); [done|done|]. intros it Hit.
    apply HQ; [|done|done]. by rewrite take_drop. }
  assert (a < b) by (destruct (decide (a = b)) as [->|]; [congruence|lia]).
  destruct Hs as [|(Hb&Hn&He)]; [lia|]. apply wp_bind.
  eapply (wp_destruct_range d1 (length l) _ a b); [by right|exact Hh|lia| |done|done|].
  { intros k Hk. apply lookup_lt_is_Some_2. lia. }
  intros buf. cbn zeta. intros Hc Hh1. change (cap d1) with (cap d) in Hc.
  cbn [d1 begin_ end_ generation_] in *.
  set (d2 := mkDeque buf (begin_ d) (end_ d) (bump (generation_ d))) in *.
  assert (begin_ d2 < cap d2) as Hb2 by (rewrite Hc; exact Hb).
  assert (holds d2 (closing l a b 0)) as Hh2.
  { eapply holds_ext; [|exact Hb2|exact Hh1]. intros i _. unfold without, closing. ring_lia; done. }
  assert (shape d2 (length l)) as Hs2 by (right; rewrite Hc; done).
  apply wp_bind, wp_deque_self. change (begin_ d2) with (begin_ d).
  destruct (Nat.eqb_spec (index_ first) (begin_ d)) as [E|Hne0].
  - assert (a = 0) as -> by (rewrite Hfi in E; ring_lia).
    apply wp_bind, wp_modify. apply wp_bind, wp_deque_self, wp_ret, HQ; [| |done].
    + apply (ok_erase_front d2 l b); [done|done|lia|done|lia|by rewrite Hc].
    + split; [|done]. simpl. change (cap _) with (cap d2). rewrite Hc, Hli. ring_lia.
  - apply wp_bind, (wp_iterator_at d2 (length l) b); [done|by rewrite Hc|]. intros src Hsrc.
    apply wp_bind, (wp_end_it d2 (length l)); [done|]. intros stop Hstop.
    apply wp_bind, (wp_iterator_at d2 (length l) a); [done|by rewrite Hc|]. intros dst Hdst.
    apply wp_bind, wp_deque_self. apply wp_bind.
    apply (wp_close d2 l a b); [done|exact Hb2|done|lia|done..|].
    intros d3 r Ec Eb Een Eg Hh3 [Hr _]. apply wp_bind, wp_modify, wp_bind, wp_deque_self, wp_ret, HQ.
    + eapply mk_ok; [| | | |exact Hh3|]; change (length (buffer_ d3)) with (cap d3); rewrite ?Ec, ?Hc.
      * rewrite Eb. exact Hb.
      * rewrite length_app, length_take, length_drop. lia.
      * exact Hcap.
      * rewrite Hr, Ec, Eb, Hc. f_equal. rewrite length_app, length_take, length_drop. lia.
      * intros i _. apply closing_all. lia.
    + split; [|done]. change (cap _) with (cap d3). simpl. rewrite Ec, Eb, Hc. exact Hfi.
    + done.
Qed.
End Ops.
