(* ===== verification/CircularDequeTheorems.v ===== *)
(** Properties of the deque: it is a list, its iterators notice (most)
    modifications, its storage follows its size, and deques copy, move and swap
    as wholes. *)
From S2P Require Import Prelude CircularDeque CircularDequeLemmas CircularDequeOps.
From Stdlib Require Import ZArith Lia.
From stdpp Require Import base tactics numbers strings list.

Open Scope nat_scope.
Import Deque DequeRules.

(** * Clients *)

Section Client.
Context `{!BuildConfig} {T : Type} (sizeof_T : Z).

(** The modifications a client can make; positions are given as offsets, from
    which the client makes an iterator. *)
Inductive op :=
  | PushBack (v : T) | PushFront (v : T) | PopBack | PopFront
  | Clear | Reserve (n : nat) | ShrinkToFit | Resize (n : nat) (v : T)
  | Assign (items : list T) | AssignList (items : list T) | AssignCount (n : nat) (v : T)
  | AtAssign (i : nat) (v : T)
  | InsertCount (o n : nat) (v : T) | InsertRange (o : nat) (items : list T)
  | Emplace (o : nat) (v : T) | Erase (o : nat) | EraseRange (a b : nat).

(** [begin() + o] *)
Definition at_offset (o : nat) : M (circular_deque T) iterator :=
  it ← begin; iterator_plus it (Z.of_nat o).

Definition run (o : op) : M (circular_deque T) unit :=
  match o with
  | PushBack v => push_back sizeof_T v
  | PushFront v => push_front sizeof_T v
  | PopBack => pop_back sizeof_T
  | PopFront => pop_front sizeof_T
  | Clear => clear
  | Reserve n => reserve sizeof_T n
  | ShrinkToFit => shrink_to_fit sizeof_T
  | Resize n v => Deque.resize sizeof_T n v
  | Assign items => assign_range sizeof_T items
  | AssignList items => assign_list sizeof_T items
  | AssignCount n v => assign_count sizeof_T n v
  | AtAssign i v => at_assign i v
  | InsertCount o n v => it ← at_offset o; insert_count sizeof_T it n v
  | InsertRange o items => it ← at_offset o; insert_range sizeof_T it items
  | Emplace o v => it ← at_offset o; _ ← emplace sizeof_T it v; mret tt
  | Erase o => it ← at_offset o; _ ← erase it; mret tt
  | EraseRange a b => first ← at_offset a; last ← at_offset b; _ ← erase_range first last; mret tt
  end.

(** * The specification *)

(** What the modification does to a list, where it may be made. *)
Definition spec (o : op) (l : list T) : option (list T) :=
  match o with
  | PushBack v => Some (l ++ [v])
  | PushFront v => Some (v :: l)
  | PopBack => if length l =? 0 then None else Some (take (length l - 1) l)
  | PopFront => if length l =? 0 then None else Some (drop 1 l)
  | Clear => Some []
  | Reserve _ | ShrinkToFit => Some l
  | Resize n v => Some (take n l ++ replicate (n - length l) v)
  | Assign items | AssignList items => Some items
  | AssignCount n v => Some (replicate n v)
  | AtAssign i v => if i <? length l then Some (<[i := v]> l) else None
  | InsertCount o n v => if o <=? length l then Some (take o l ++ replicate n v ++ drop o l) else None
  | InsertRange o items => if o <=? length l then Some (take o l ++ items ++ drop o l) else None
  | Emplace o v => if o <=? length l then Some (take o l ++ v :: drop o l) else None
  | Erase o => if o <? length l then Some (take o l ++ drop (o + 1) l) else None
  | EraseRange a b => if (a <=? b) && (b <=? length l) then Some (take a l ++ drop b l) else None
  end.

(** How many elements it needs room for. *)
Definition demand (o : op) (l : list T) : nat :=
  match o with Reserve n => n | _ => default 0 (length <$> spec o l) end.

(** How often it marks the iterators as stale. *)
Definition changes (o : op) (l : list T) : nat :=
  match o with
  | Reserve _ | ShrinkToFit | AtAssign _ _ => 0
  | Resize n _ => n - length l + 1
  | Assign items | AssignList items => length items + 2
  | AssignCount n _ => n + 2
  | InsertCount o n _ => if o =? 0 then n else 1
  | InsertRange _ items => if length items =? 0 then 0 else 1
  | _ => 1
  end.

(** A sequence of modifications, none of which needs room for more than [N]. *)
Fixpoint specs (N : nat) (ops : list op) (l : list T) : option (list T) :=
  match ops with
  | [] => Some l
  | o :: ops => if demand o l <=? N then l' ← spec o l; specs N ops l' else None
  end.

(** What a client sees of a deque that holds [l]. *)
Definition observes (d : circular_deque T) (l : list T) : Prop :=
  size d = Ok (length l, d) ∧ empty d = Ok (length l =? 0, d) ∧
  (∀ i v, l !! i = Some v → at_ i d = Ok (v, d)) ∧
  (∀ v, head l = Some v → front d = Ok (v, d)) ∧
  (∀ v, last l = Some v → back d = Ok (v, d)) ∧
  (first ← begin; last ← end_it; elements first last) d = Ok (l, d) ∧
  (first ← begin; last ← end_it; iterator_distance last first) d = Ok (Z.of_nat (length l), d).

Context (N : nat) (Hroom : (sizeof_T * Z.of_nat (2 * N + 4) < 2 ^ 64)%Z) (Hsizeof : (0 ≤ sizeof_T)%Z).
#[local] Abbreviation ok := (ok N).

Lemma wp_at_offset d l o (Q : iterator → circular_deque T → Prop) : ok d l → o ≤ length l →
  (∀ it, points d it o → Q it d) → wp (at_offset o) Q d.
Proof.
  intros Hok Ho HQ. pose proof (ok_shape N d l Hok) as Hs.
  apply wp_bind, (wp_begin d (length l)); [done|]. intros it Hit.
  apply (wp_Add d (length l) it 0); [done|done|lia|lia|]. intros it' Hit'.
  apply HQ. by rewrite Z.add_0_l, Nat2Z.id in Hit'.
Qed.

(** Every modification does what the specification says. *)
Lemma wp_run o d l l' : ok d l → length l ≤ N → spec o l = Some l' → demand o l ≤ N →
  wp (run o) (λ _ d', ok d' l' ∧ generation_ d' = bumps (changes o l) (generation_ d)) d.
Proof.
  intros Hok Hl Hspec Hd. destruct o; unfold demand in Hd; rewrite ?Hspec in Hd; simpl in *; simplify_eq/=;
    repeat match goal with
    | H : (if ?x =? ?y then _ else _) = _ |- _ => destruct (Nat.eqb_spec x y); simplify_eq
    | H : (if ?x <? ?y then _ else _) = _ |- _ => destruct (Nat.ltb_spec x y); simplify_eq
    | H : (if ?x <=? ?y then _ else _) = _ |- _ => destruct (Nat.leb_spec x y); simplify_eq
    end.
  - rewrite length_app in Hd. simpl in Hd.
    apply wp_bind, (wp_emplace_back _ N Hroom Hsizeof d l); [done|lia|]. by intros.
  - apply wp_bind, (wp_emplace_front _ N Hroom Hsizeof d l); [done|lia|]. by intros.
  - destruct l as [|x l _] using rev_ind; [done|]. rewrite length_app in *. simpl in *.
    rewrite Nat.add_sub, take_app_length.
    apply (wp_pop_back _ N Hroom Hsizeof d l x); [done|lia|]. by intros.
  - destruct l as [|x l]; [done|]. simpl in *.
    apply (wp_pop_front _ N Hroom Hsizeof d l x); [done|lia|]. by intros.
  - apply (wp_clear _ N Hroom d l); [done|]. by intros.
  - apply (wp_reserve _ N Hroom Hsizeof d l'); [done|done|]. by intros.
  - apply (wp_shrink_to_fit _ N Hroom Hsizeof d l'); [done|done|]. by intros.
  - rewrite length_app, length_take, length_replicate in Hd.
    apply (wp_resize _ N Hroom Hsizeof d l); [done|done|lia|]. by intros.
  - apply (wp_assign_range _ N Hroom Hsizeof d l); [done|done|]. by intros.
  - apply (wp_assign_list _ N Hroom Hsizeof d l); [done|done|]. by intros.
  - rewrite length_replicate in Hd. apply (wp_assign_count _ N Hroom Hsizeof d l); [done|done|]. by intros.
  - apply (wp_at_assign _ N Hroom d l); [done|done|]. by intros.
  - rewrite !length_app, length_take, length_drop, length_replicate in Hd.
    apply wp_bind, (wp_at_offset d l o); [done|done|]. intros it Hit.
    apply (wp_insert_count _ N Hroom Hsizeof d l it o); [done|done|done|lia|]. by intros.
  - rewrite !length_app, length_take, length_drop in Hd.
    apply wp_bind, (wp_at_offset d l o); [done|done|]. intros it Hit.
    apply (wp_insert_range _ N Hroom Hsizeof d l it o); [done|done|done|lia|]. by intros.
  - rewrite !length_app, length_take in Hd. simpl in Hd. rewrite length_drop in Hd.
    apply wp_bind, (wp_at_offset d l o); [done|done|]. intros it Hit.
    apply wp_bind, (wp_emplace _ N Hroom Hsizeof d l it o); [done|done|done|lia|]. by intros.
  - apply wp_bind, (wp_at_offset d l o); [done|lia|]. intros it Hit. apply wp_bind, wp_bind.
    apply (wp_Add d (length l) it o); [by apply (ok_shape N)|done|lia|lia|]. intros next Hnext.
    replace (Z.to_nat (Z.of_nat o + 1)) with (o + 1) in Hnext by lia.
    apply (wp_erase_range _ N Hroom d l it next o (o + 1)); [done|done|done|lia|]. by intros.
  - destruct (Nat.leb_spec a b), (Nat.leb_spec b (length l)); simplify_eq/=.
    apply wp_bind, (wp_at_offset d l a); [done|lia|]. intros first Hfirst.
    apply wp_bind, (wp_at_offset d l b); [done|lia|]. intros last Hlast.
    apply wp_bind, (wp_erase_range _ N Hroom d l first last a b); [done|done|done|lia|]. by intros.
Qed.

Lemma wp_value {A} (m : M (circular_deque T) A) d a : wp m (λ a' d', a' = a ∧ d' = d) d → m d = Ok (a, d).
Proof. intros (?&?&?&->&->)%wp_ok_inv. done. Qed.

Lemma ok_observes d l : ok d l → observes d l.
Proof.
  intros Hok. pose proof (ok_shape N d l Hok) as Hs. unfold observes. split_and!.
  - by apply wp_value, (wp_size d (length l)).
  - by apply wp_value, (wp_empty d (length l)).
  - intros i v Hi. by apply wp_value, (wp_at _ N Hroom d l i v).
  - intros v Hv. by apply wp_value, (wp_front _ N Hroom d l v).
  - intros v Hv. by apply wp_value, (wp_back _ N Hroom d l v).
  - apply wp_value. apply wp_bind, (wp_begin d (length l)); [done|]. intros first Hf.
    apply wp_bind, (wp_end_it d (length l)); [done|]. intros stop Hl.
    apply (wp_elements _ N Hroom d l first stop 0 (length l)); [done|done|done|lia|].
    rewrite Nat.sub_0_r. split; [|done]. by rewrite drop_0, take_ge.
  - apply wp_value. apply wp_bind, (wp_begin d (length l)); [done|]. intros first Hf.
    apply wp_bind, (wp_end_it d (length l)); [done|]. intros stop Hl.
    apply wp_bind, (wp_CheckComparable d stop (length l) first 0); [done|done|].
    apply wp_bind, (wp_OffsetFromBegin d (length l) stop (length l)); [done|done|apply Hl|].
    apply wp_bind, (wp_OffsetFromBegin d (length l) first 0); [done|lia|apply Hf|].
    apply wp_ret. split; [lia|done].
Qed.

Lemma demand_length o l l' : spec o l = Some l' → demand o l ≤ N → length l ≤ N → length l' ≤ N.
Proof.
  intros Hs Hd Hl. destruct o; unfold demand in Hd; rewrite ?Hs in Hd; simpl in *; by simplify_eq.
Qed.

Lemma wp_run_all ops : ∀ d l l', ok d l → length l ≤ N → specs N ops l = Some l' →
  wp (for_each run ops) (λ _ d', ok d' l') d.
Proof.
  induction ops as [|o ops IH]; intros d l l' Hok Hl Hs; simpl in *; [by simplify_eq|].
  destruct (Nat.leb_spec (demand o l) N) as [Hd|]; [|done].
  destruct (spec o l) as [l1|] eqn:Hspec; [|done]. simpl in Hs.
  apply wp_bind. eapply wp_mono; [by apply (wp_run o d l l1)|]. intros [] d1 [Hok1 _].
  apply (IH d1 l1); [done|by eapply demand_length|done].
Qed.

Lemma changes_bound o l l' : spec o l = Some l' → demand o l ≤ N → changes o l ≤ N + 2.
Proof using Type.
  clear Hroom Hsizeof. intros Hs Hd. destruct o; unfold demand in Hd; rewrite ?Hs in Hd; simpl in *; simplify_eq/=; try lia.
  - rewrite length_app, length_replicate in Hd. lia.
  - rewrite length_replicate in Hd. lia.
  - destruct (o <=? length l); simplify_eq/=. rewrite !length_app, length_replicate in Hd.
    destruct (o =? 0); lia.
  - destruct (length items =? 0); lia.
Qed.

Lemma ok_default : ok (default_deque : circular_deque T) [].
Proof.
  split; [split; [by left|]|].
  - intros j Hj. by apply Nat.nlt_0_r in Hj.
  - apply Nat.le_0_l.
Qed.
End Client.

#[local] Instance checked : BuildConfig := true.

(** C7. The deque is a list.  Whatever a client does to a new deque (pushes, pops,
    assignments, insertions and erasures at any position, resizing, reserving and
    shrinking), in an order in which the list operations are defined, every step
    returns, the deque then shows exactly the list through its size, its accessors
    and its iterators, and its destructor ends the lifetime of each element.  The
    storage for [2 N + 4] elements must fit the address space, [N] being the
    longest the list gets. *)
Theorem deque_refines_list `{!BuildConfig} {T} (sizeof_T : Z) (N : nat) (ops : list (@op T)) l :
  (0 ≤ sizeof_T)%Z → (sizeof_T * Z.of_nat (2 * N + 4) < 2 ^ 64)%Z → specs N ops [] = Some l →
  ∃ d, for_each (run sizeof_T) ops default_deque = Ok (tt, d) ∧ observes d l ∧
       ∃ d', destruct_ d = Ok (tt, d') ∧ ∀ j x, buffer_ d' !! j = Some x → x = None.
Proof.
  intros Hsz Hroom Hs.
  destruct (wp_ok_inv _ _ _ (wp_run_all sizeof_T N Hroom Hsz ops default_deque [] l
    (ok_default N) ltac:(simpl; lia) Hs)) as ([]&d&Hd&Hok).
  exists d. split; [done|]. split; [by apply (ok_observes sizeof_T N Hroom)|].
  destruct (wp_ok_inv _ _ _ (wp_destruct_ sizeof_T N Hroom d l
    (λ _ d', ∀ j x, buffer_ d' !! j = Some x → x = None) Hok (λ d' Hd', Hd'))) as ([]&d'&?&?).
  by exists d'.
Qed.

Lemma deque_refines_list_witness :
  ∃ d, for_each (run 8) [PushBack 1; PushFront 2; InsertRange 1 [7; 8; 9]; PopFront; Erase 1]
         default_deque = Ok (tt, d) ∧ observes d [7; 9; 1].
Proof.
  destruct (deque_refines_list 8 10
    [PushBack 1; PushFront 2; InsertRange 1 [7; 8; 9]; PopFront; Erase 1] [7; 9; 1])
    as (d&Hd&Ho&_); [done|done|reflexivity|].
  exists d. split; [exact Hd|exact Ho].
Defined.

Lemma bumps_wrap k g : in_u 64 g → bumps k g = wrap_u 64 (g + Z.of_nat k).
Proof.
  intros Hg. induction k as [|k IH].
  - simpl. rewrite Z.add_0_r. symmetry. by apply wrap_u_id.
  - change (bumps (S k) g) with (wrap_u 64 (bumps k g + 1)). rewrite IH. unfold wrap_u.
    rewrite Zplus_mod_idemp_l. f_equal. lia.
Qed.

(** No generation comes back within 2^64 modifications. *)
Lemma bumps_differ k g : in_u 64 g → 0 < k → (Z.of_nat k < 2 ^ 64)%Z → bumps k g ≠ g.
Proof.
  intros Hg Hk Hlt. rewrite bumps_wrap by done. unfold in_u, wrap_u in *. intros E.
  pose proof (Z.div_mod (g + Z.of_nat k) (2 ^ 64) ltac:(lia)). nia.
Qed.

(** C33. A checked build notices the use of an iterator after a modification:
    after any operation that marks iterators stale (all of them but [reserve],
    [shrink_to_fit], the insertion of nothing and the assignment through a
    reference), reading through an iterator made before fails the check.
    [reserve] and [shrink_to_fit] do not mark them although they move the elements:
    in a checked build, too, an iterator from before can read another element. *)
Theorem stale_iterators {T} (sizeof_T : Z) (N : nat) (o : @op T) (l l' : list T) (d : circular_deque T) it :
  (0 < sizeof_T)%Z → (sizeof_T * Z.of_nat (2 * N + 4) < 2 ^ 64)%Z →
  ok N d l → length l ≤ N → spec o l = Some l' → demand o l ≤ N →
  created_generation_ it = generation_ d → in_u 64 (generation_ d) →
  (∃ d', run sizeof_T o d = Ok (tt, d') ∧
     (0 < changes o l → faults (read it) d') ∧
     (changes o l = 0 → generation_ d' = generation_ d)) ∧
  (∃ d it d', for_each (run 8) [PushBack 1; PushBack 2; PushBack 3; PopFront] default_deque = Ok (tt, d) ∧
     begin d = Ok (it, d) ∧ read it d = Ok (2, d) ∧
     reserve 8 10 d = Ok (tt, d') ∧ read it d' = Ok (3, d')).
Proof.
  intros Hpos Hroom Hok Hl Hspec Hd Hit Hu. split.
  - destruct (wp_ok_inv _ _ _ (wp_run sizeof_T N Hroom (Z.lt_le_incl _ _ Hpos) o d l l' Hok Hl Hspec Hd))
      as ([]&d'&Hrun&_&Hg).
    exists d'. split; [done|]. split; [|intros E; by rewrite Hg, E].
    intros Hc. apply faults_bind, wp_faults_bind, wp_deque_self, faults_dcheck; [done|].
    apply Z.eqb_neq. rewrite Hit, Hg. apply not_eq_sym, bumps_differ; [done|done|].
    pose proof (changes_bound N o l l' Hspec Hd). nia.
  - eexists _, _, _. split_and!; vm_compute; reflexivity.
Qed.

Lemma stale_iterators_witness :
  ∃ d', run 8 (PushBack 5) default_deque = Ok (tt, d') ∧ faults (read (mkIterator 0 0)) d'.
Proof.
  destruct (stale_iterators 8 10 (PushBack 5) [] [5] default_deque (mkIterator 0 0)) as [(d'&Hr&Hs&_) _];
    [lia|lia|apply ok_default|simpl; lia|reflexivity|simpl; lia|reflexivity|split; done|].
  exists d'. split; [exact Hr|]. apply Hs. simpl. lia.
Defined.

(** * Storage *)

(** The storage follows the size.  Where room for [k] more elements is made,
    the capacity is afterwards enough for them, and either nothing was moved or it
    grew by at least a quarter; after a pop it is at most twice the size (or the
    initial three); [shrink_to_fit] makes it the size, [clear] nothing, and
    [reserve] what was asked for, or more. *)
Theorem capacity_follows_size `{!BuildConfig} {T} (sizeof_T : Z) (N k n : nat) (l : list T) d :
  (0 ≤ sizeof_T)%Z → (sizeof_T * Z.of_nat (2 * N + 4) < 2 ^ 64)%Z →
  ok N d l → length l + k ≤ N → n ≤ N →
  (∃ c, capacity d = Ok (c, d) ∧
     wp (_ ← ExpandCapacityIfNecessary sizeof_T k; capacity)
        (λ c' d', ok N d' l ∧ length l + k ≤ c' ∧ (d' = d ∨ c + c / 4 ≤ c')) d) ∧
  (l ≠ [] → wp (_ ← pop_front sizeof_T; capacity) (λ c _, c ≤ Nat.max 3 (2 * (length l - 1))) d ∧
            wp (_ ← pop_back sizeof_T; capacity) (λ c _, c ≤ Nat.max 3 (2 * (length l - 1))) d) ∧
  wp (_ ← shrink_to_fit sizeof_T; capacity) (λ c _, c = length l) d ∧
  wp (_ ← clear; capacity) (λ c _, c = 0) d ∧
  wp (_ ← reserve sizeof_T n; capacity) (λ c _, n ≤ c) d.
Proof.
  intros Hsz Hroom Hok Hk Hn. split_and!.
  - exists (cap d - 1). split; [by apply wp_value, wp_capacity|].
    apply wp_bind, (wp_Expand _ N Hroom Hsz d l); [done|done|]. intros d' Hok' Hc _ Hsame Hgrow.
    apply wp_capacity. split_and!; [done|done|].
    destruct (Nat.le_gt_cases (length l + k) (cap d - 1)); [left|right]; auto.
  - intros Hne. split.
    + destruct l as [|v l]; [done|]. simpl in *. rewrite Nat.sub_0_r.
      apply wp_bind, (wp_pop_front _ N Hroom Hsz d l v); [done|lia|]. intros. by apply wp_capacity.
    + destruct l as [|v l _] using rev_ind; [done|]. rewrite length_app in *. simpl in *. rewrite Nat.add_sub.
      apply wp_bind, (wp_pop_back _ N Hroom Hsz d l v); [done|lia|]. intros. by apply wp_capacity.
  - apply wp_bind, (wp_shrink_to_fit _ N Hroom Hsz d l); [done|lia|]. intros. by apply wp_capacity.
  - apply wp_bind, (wp_clear _ N Hroom d l); [done|]. intros d' _ _ Hc. apply wp_capacity. by rewrite Hc.
  - apply wp_bind, (wp_reserve _ N Hroom Hsz d l); [done|done|]. intros. by apply wp_capacity.
Qed.

Lemma capacity_follows_size_witness :
  wp (_ ← reserve 8 7; capacity) (λ c _, 7 ≤ c) (default_deque : circular_deque nat).
Proof.
  apply (capacity_follows_size 8 10 0 7 [] default_deque);
    [lia|lia|apply ok_default|simpl; lia|lia].
Defined.

(** * Whole deques *)

(** Copying makes a deque with the same elements (the copy assignment also
    when it has elements of its own, and without touching the other deque); moving
    leaves the other deque empty and without storage; swapping exchanges the
    elements.  Both members of a swap keep working, but only the one it is called
    on marks its iterators as stale. *)
Theorem deques_transfer `{!BuildConfig} {T} (sizeof_T : Z) (N : nat) (l l' : list T) d other :
  (0 ≤ sizeof_T)%Z → (sizeof_T * Z.of_nat (2 * N + 4) < 2 ^ 64)%Z →
  ok N d l → ok N other l' → length l ≤ N → length l' ≤ N →
  wp (assign_copy sizeof_T other) (λ _ d', ok N d' l') d ∧
  wp (construct_copy sizeof_T other) (λ _ d', ok N d' l') d ∧
  wp (assign_move other) (λ other' d', ok N d' l' ∧ ok N other' [] ∧ cap other' = 0) d ∧
  wp (construct_move other) (λ other' d', ok N d' l' ∧ ok N other' [] ∧ cap other' = 0) d ∧
  wp (swap other) (λ other' d', ok N d' l' ∧ ok N other' l ∧
    generation_ d' = bump (generation_ d) ∧ generation_ other' = generation_ other) d.
Proof.
  intros Hsz Hroom Hok Hok' Hl Hl'. pose proof (ok_shape N other l' Hok') as Hs.
  assert (∀ Q : nat * list T → circular_deque T → Prop, Q (length l', l') other →
    wp (first ← begin; last ← end_it; n ← size; l ← elements first last; mret (n, l)) Q other) as Hread.
  { intros Q HQ. apply wp_bind, (wp_begin other (length l')); [done|]. intros first Hf.
    apply wp_bind, (wp_end_it other (length l')); [done|]. intros stop Hst.
    apply wp_bind, (wp_size other (length l')); [done|].
    apply wp_bind, (wp_elements _ N Hroom other l' first stop 0 (length l')); [done|done|done|lia|].
    apply wp_ret. by rewrite drop_0, Nat.sub_0_r, take_ge. }
  assert (∀ g, ok N (mkDeque (@nil (option T)) 0 0 g) []) as Hempty by (intros; apply (ok_default N)).
  split_and!.
  - apply wp_bind, wp_on_local, Hread. apply wp_bind, (wp_reserve _ N Hroom Hsz d l); [done|done|].
    intros d1 Hok1 _ _. by apply (wp_assign_range _ N Hroom Hsz d1 l).
  - apply wp_bind, wp_on_local, Hread.
    apply wp_bind, wp_construct; [apply (room_for sizeof_T N Hroom Hsz); lia|]. apply wp_bind, wp_put.
    apply (wp_assign_range _ N Hroom Hsz _ []); [|done|done].
    apply (ok_nil sizeof_T N Hroom); [intros j x [-> _]%lookup_replicate; done|rewrite length_replicate; lia|done|].
    rewrite length_replicate. lia.
  - apply wp_bind, (wp_ClearRetainCapacity _ N Hroom d l); [done|]. intros d1 Hok1 _.
    apply wp_bind, wp_deque_self, wp_bind, wp_storage_release; [by apply (ok_raw N)|].
    do 3 apply wp_bind, wp_modify. apply wp_bind, wp_IncrementGeneration, wp_ret. by split_and!.
  - apply wp_bind, wp_put, wp_ret. by split_and!.
  - apply wp_bind, wp_get. do 3 apply wp_bind, wp_modify. apply wp_bind, wp_IncrementGeneration, wp_ret.
    by split_and!.
Qed.

Lemma deques_transfer_witness :
  ∃ d, run 8 (PushBack 5) default_deque = Ok (tt, d) ∧
    wp (swap (default_deque : circular_deque nat)) (λ other' d', ok 10 d' [] ∧ ok 10 other' [5] ∧
      generation_ d' = bump (generation_ d) ∧ generation_ other' = 0%Z) d.
Proof.
  assert (wp (run 8 (PushBack 5)) (λ _ d, ok 10 d [5]) default_deque) as Hd.
  { eapply wp_mono; [apply (wp_run 8 10 ltac:(lia) ltac:(lia) (PushBack 5) default_deque [] [5])|];
      [apply ok_default|simpl; lia|reflexivity|simpl; lia|]. intros ? ? [? _]. assumption. }
  apply wp_ok_inv in Hd as ([]&d&Hd&Hok). exists d. split; [exact Hd|].
  apply (deques_transfer 8 10 [5] [] d default_deque);
    [lia|lia|exact Hok|apply ok_default|simpl; lia|simpl; lia].
Defined.
