(* ===== verification/CopyOnWriteBuffer.v ===== *)
(** [rtc::CopyOnWriteBuffer] (rtc_base/copy_on_write_buffer.h), the type of the
    payload of a data channel message: byte strings that share a counted
    [rtc::Buffer] until one of them is written to.

    The state has the [CopyOnWriteBuffer] objects by name: their members [buffer_]
    are smart pointers of RefCounting.v, [offset_] and [size_] are [slices]; and the
    [rtc::Buffer]s of Buffer.v inside the counted objects, which go with the last
    reference to them.

    Of the member functions that are defined outside the header, the inline code
    calls three: the copy constructor, the constructor with a capacity, and
    [UnshareAndEnsureCapacity].  They are a parameter (class [CopyOnWriteImpl]).
    Bytes passed in do not lie in the buffer they are added to. *)
From S2P Require Import Prelude RefCounting Buffer.
From Stdlib Require Import ZArith Lia.
From stdpp Require Import base tactics numbers strings gmap list.

Open Scope Z_scope.

Module CopyOnWriteBuffer.

Record Store := mkStore {
  pointers : PtrState;
  buffers : gmap nat (BufferT.BufferT Z);
  slices : gmap string (Z * Z);
  freed : list (list Z)
}.

(** The functions defined elsewhere. *)
Class CopyOnWriteImpl := {
  construct_copy : string → string → M Store unit;
  construct_capacity : string → Z → Z → M Store unit;
  UnshareAndEnsureCapacity : string → Z → M Store unit
}.

(** A buffer whose counted object is still there. *)
Definition still_counted (p : PtrState) (e : nat * BufferT.BufferT Z) : Prop :=
  is_Some (counters (ref_heap p) !! e.1).

#[export] Instance still_counted_dec p e : Decision (still_counted p e).
Proof. unfold still_counted. apply _. Defined.

Section Operations.
Context `{!Memory Z} `{!BuildConfig}.

#[local] Abbreviation CM := (M Store).

(** A statement on the smart pointers; the [Buffer] of an object it destroys is
    destroyed too. *)
Definition on_pointers {A} (m : M PtrState A) : CM A :=
  s ← get;
  '(a, p) ← on_local (pointers s) m;
  let gone := filter (λ e, ¬ still_counted p e) (buffers s) in
  _ ← put (mkStore p (filter (still_counted p) (buffers s)) (slices s)
             (freed s ++ omap (λ e, BufferT.data_ e.2) (map_to_list gone)));
  mret a.

(** [buffer_->m()] *)
Definition on_buffer {A} (a : nat) (m : M (BufferT.Arena Z) A) : CM A :=
  s ← get;
  match buffers s !! a with
  | Some b =>
      '(r, ar) ← on_local (BufferT.mkArena b (freed s)) m;
      _ ← put (mkStore (pointers s) (<[a := BufferT.buf ar]> (buffers s)) (slices s) (BufferT.freed ar));
      mret r
  | None => fail (UseAfterFree "buffer_")
  end.

(** [new RefCountedObject<Buffer>(...)] *)
Definition new_buffer (constructor : M (BufferT.Arena Z) unit) : CM nat :=
  a ← on_pointers (scoped_refptr.on_heap new_object);
  s ← get;
  '(_, ar) ← on_local (BufferT.mkArena (BufferT.mkBufferT 0 0 None) (freed s)) constructor;
  _ ← put (mkStore (pointers s) (<[a := BufferT.buf ar]> (buffers s)) (slices s) (BufferT.freed ar));
  mret a.

(** The members. *)
Definition buffer_ (x : string) : CM (option nat) := on_pointers (scoped_refptr.ptr_ x).

Definition slice (x : string) : CM (Z * Z) :=
  s ← get;
  match slices s !! x with
  | Some on => mret on
  | None => fail (UseAfterFree "CopyOnWriteBuffer")
  end.
Definition set_slice (x : string) (offset_ size_ : Z) : CM unit :=
  modify (λ s, mkStore (pointers s) (buffers s) (<[x := (offset_, size_)]> (slices s)) (freed s)).

Definition HasOneRef (a : nat) : CM bool :=
  on_pointers (scoped_refptr.on_heap (RefCountedObject.HasOneRef a)).

(** [buffer_ = p] *)
Definition set_buffer_ (x : string) (p : option nat) : CM unit :=
  on_pointers (scoped_refptr.assign_raw x p).

(** [std::memcpy] of [bytes] to the block of a buffer. *)
Definition write_block (pos : Z) (bytes : list Z) : M (BufferT.Arena Z) unit :=
  d ← BufferT.data;
  l ← deref "data()" d;
  if pos + Z.of_nat (length bytes) <=? Z.of_nat (length l) then
    BufferT.upd (λ b, BufferT.mkBufferT (BufferT.size_ b) (BufferT.capacity_ b)
                        (Some (BufferT.copy_at pos bytes l)))
  else fail (UndefinedBehaviour "write outside an array").

(** * Consistency and accessors *)

Definition IsConsistent (x : string) : CM bool :=
  p ← buffer_ x;
  '(offset_, size_) ← slice x;
  match p with
  | Some a =>
      c ← on_buffer a BufferT.capacity;
      z ← on_buffer a BufferT.size;
      mret ((0 <? c) && (offset_ <=? z) && (wrap_u 64 (offset_ + size_) <=? z))
  | None => mret ((size_ =? 0) && (offset_ =? 0))
  end.

Definition dcheck_consistent (x : string) : CM unit :=
  if RTC_DCHECK_IS_ON then b ← IsConsistent x; check b "IsConsistent()" else mret tt.

Definition size (x : string) : CM Z :=
  _ ← dcheck_consistent x;
  '(_, size_) ← slice x;
  mret size_.

Definition capacity (x : string) : CM Z :=
  _ ← dcheck_consistent x;
  p ← buffer_ x;
  match p with
  | Some a =>
      c ← on_buffer a BufferT.capacity;
      '(offset_, _) ← slice x;
      mret (wrap_u 64 (c - offset_))
  | None => mret 0
  end.

(** [cdata()]: what the pointer points to, up to the end of the block. *)
Definition cdata (x : string) : CM (option (list Z)) :=
  _ ← dcheck_consistent x;
  p ← buffer_ x;
  match p with
  | Some a =>
      d ← on_buffer a BufferT.data;
      '(offset_, _) ← slice x;
      mret (drop (Z.to_nat offset_) <$> d)
  | None => mret None
  end.

Definition index_read (x : string) (index : Z) : CM Z :=
  n ← size x;
  _ ← dcheck (index <? n) "index < size()";
  d ← cdata x;
  l ← deref "cdata()" d;
  match l !! Z.to_nat index with
  | Some v => mret v
  | None => fail (UndefinedBehaviour "read outside an array")
  end.

Section Inline.
Context `{!CopyOnWriteImpl}.

(** [data()]: a writable position, as the counted object and the offset in it. *)
Definition data (x : string) : CM (option (nat * Z)) :=
  _ ← dcheck_consistent x;
  p ← buffer_ x;
  match p with
  | Some _ =>
      c ← capacity x;
      _ ← UnshareAndEnsureCapacity x c;
      p ← buffer_ x;
      a ← deref "buffer_" p;
      '(offset_, _) ← slice x;
      mret (Some (a, offset_))
  | None => mret None
  end.

(** [x[index] = v] *)
Definition index_write (x : string) (index v : Z) : CM unit :=
  n ← size x;
  _ ← dcheck (index <? n) "index < size()";
  d ← data x;
  '(a, offset_) ← deref "data()" d;
  on_buffer a (write_block (offset_ + index) [v]).

(** [CopyOnWriteBuffer(const T* data, size_t size, size_t capacity)] *)
Definition construct_data_capacity (x : string) (data : list Z) (capacity : Z) : CM unit :=
  let size := Z.of_nat (length data) in
  _ ← construct_capacity x size capacity;
  p ← buffer_ x;
  match p with
  | Some a => _ ← on_buffer a (write_block 0 data); set_slice x 0 size
  | None => mret tt
  end.
Definition construct_data (x : string) (data : list Z) : CM unit :=
  construct_data_capacity x data (Z.of_nat (length data)).

(** * Assignment *)

Definition assign_copy (x buf : string) : CM unit :=
  _ ← dcheck_consistent x;
  _ ← dcheck_consistent buf;
  if bool_decide (x = buf) then mret tt
  else
    _ ← on_pointers (scoped_refptr.assign_copy x buf);
    '(offset_, size_) ← slice buf;
    set_slice x offset_ size_.

Definition assign_move (x buf : string) : CM unit :=
  _ ← dcheck_consistent x;
  _ ← dcheck_consistent buf;
  _ ← on_pointers (scoped_refptr.assign_move x buf);
  '(offset_, size_) ← slice buf;
  _ ← set_slice x offset_ size_;
  set_slice buf 0 0.

Definition swap (x y : string) : CM unit :=
  _ ← on_pointers (scoped_refptr.swap x y);
  '(o, n) ← slice x;
  '(o', n') ← slice y;
  _ ← set_slice x o' n';
  set_slice y o n.

Definition SetData (x : string) (data : list Z) : CM unit :=
  _ ← dcheck_consistent x;
  p ← buffer_ x;
  _ ← match p with
      | None =>
          if 0 <? Z.of_nat (length data) then
            a ← new_buffer (BufferT.construct_data data); set_buffer_ x (Some a)
          else set_buffer_ x None
      | Some a =>
          one ← HasOneRef a;
          if negb one then
            c ← capacity x;
            a' ← new_buffer (BufferT.construct_data_capacity data c); set_buffer_ x (Some a')
          else on_buffer a (BufferT.SetData 0 false data)
      end;
  _ ← set_slice x 0 (Z.of_nat (length data));
  dcheck_consistent x.

(** [SetData(const CopyOnWriteBuffer& buf)] *)
Definition SetData_buffer (x buf : string) : CM unit :=
  _ ← dcheck_consistent x;
  _ ← dcheck_consistent buf;
  if bool_decide (x = buf) then mret tt
  else
    _ ← on_pointers (scoped_refptr.assign_copy x buf);
    '(offset_, size_) ← slice buf;
    set_slice x offset_ size_.

Definition AppendData (x : string) (data : list Z) : CM unit :=
  let size := Z.of_nat (length data) in
  _ ← dcheck_consistent x;
  p ← buffer_ x;
  match p with
  | None =>
      a ← new_buffer (BufferT.construct_data data);
      _ ← set_buffer_ x (Some a);
      _ ← set_slice x 0 size;
      dcheck_consistent x
  | Some _ =>
      c ← capacity x;
      '(_, size_) ← slice x;
      _ ← UnshareAndEnsureCapacity x (Z.max c (wrap_u 64 (size_ + size)));
      p ← buffer_ x;
      a ← deref "buffer_" p;
      '(offset_, size_) ← slice x;
      _ ← on_buffer a (BufferT.SetSize 0 false (wrap_u 64 (offset_ + size_)));
      _ ← on_buffer a (BufferT.AppendData 0 false data);
      _ ← set_slice x offset_ (wrap_u 64 (size_ + size));
      dcheck_consistent x
  end.

(** [AppendData(const CopyOnWriteBuffer& buf)] *)
Definition AppendData_buffer (x buf : string) : CM unit :=
  d ← cdata buf;
  n ← size buf;
  AppendData x (take (Z.to_nat n) (default [] d)).

(** [CopyOnWriteBuffer slice = x.Slice(offset, length)] *)
Definition Slice (y x : string) (offset length : Z) : CM unit :=
  _ ← construct_copy y x;
  '(_, size_) ← slice x;
  _ ← dcheck (offset <=? size_) "offset <= size_";
  _ ← dcheck (wrap_u 64 (length + offset) <=? size_) "length + offset <= size_";
  '(offset_, _) ← slice y;
  set_slice y (wrap_u 64 (offset_ + offset)) length.

End Inline.
End Operations.
End CopyOnWriteBuffer.
