(* ===== verification/CopyOnWriteBufferLemmas.v ===== *)
(** What a store of copy-on-write buffers means, the laws of the functions the header
    only declares, and a rule per operation. *)
From S2P Require Import Prelude RefCounting Buffer CopyOnWriteBuffer.
From Stdlib Require Import ZArith Lia.
From stdpp Require Import base tactics numbers strings gmap list.

Open Scope Z_scope.
Import CopyOnWriteBuffer.

(** * Values *)

Section Values.
Context `{!Memory Z}.
Implicit Types s : Store.

#[local] Abbreviation ptrs_of s := (ptrs (pointers s)).

(** The bytes a pointer, an offset and a size stand for. *)
Definition slice_bytes (bufs : gmap nat (BufferT.BufferT Z)) (p : option nat) (o n : Z) : list Z :=
  match p ≫= λ a, bufs !! a with
  | Some b => take (Z.to_nat n) (drop (Z.to_nat o) (BufferT.contents b))
  | None => []
  end.

(** The bytes of the object [x]. *)
Definition value s (x : string) : option (list Z) :=
  p ← ptrs_of s !! x; '(o, n) ← slices s !! x; Some (slice_bytes (buffers s) p o n).

(** [IsConsistent()] *)
Definition fits (bufs : gmap nat (BufferT.BufferT Z)) (p : option nat) (o n : Z) : Prop :=
  match p with
  | None => o = 0 ∧ n = 0
  | Some a => ∃ b, bufs !! a = Some b ∧ 0 ≤ o ∧ 0 ≤ n ∧ o + n ≤ BufferT.size_ b
  end.

Definition good_buffers (bufs : gmap nat (BufferT.BufferT Z)) : Prop :=
  map_Forall (λ _ b, BufferT.wf b ∧ 0 < BufferT.capacity_ b) bufs.

(** A state between two operations: the counters tell the truth, the buffers are
    those referred to, and every object is consistent. *)
Record ok s : Prop := {
  ok_ptrs : ptr_ok (pointers s);
  ok_raw : raw_owned (pointers s) = [];
  ok_live : ∀ a, is_Some (buffers s !! a) ↔ a ∈ refs (ptrs_of s);
  ok_slices : ∀ x, is_Some (slices s !! x) ↔ is_Some (ptrs_of s !! x);
  ok_buffers : good_buffers (buffers s);
  ok_fits : ∀ x p o n, ptrs_of s !! x = Some p → slices s !! x = Some (o, n) → fits (buffers s) p o n
}.

(** Nobody but one object refers to [a]. *)
Definition sole s (a : nat) : Prop := occurrences a (refs (ptrs_of s)) = 1%nat.

#[export] Instance sole_dec s a : Decision (sole s a).
Proof. unfold sole. apply _. Defined.

(** * Sharing *)

Lemma elem_refs m a : a ∈ refs m ↔ ∃ x, m !! x = Some (Some a).
Proof.
  unfold refs. rewrite list_elem_of_bind. split.
  - intros ([x p] & Hp & Hin). apply elem_of_map_to_list in Hin. simpl in Hp. exists x.
    destruct p as [c|]; simpl in Hp; [|by apply not_elem_of_nil in Hp].
    by apply list_elem_of_singleton in Hp as ->.
  - intros [x Hx]. exists (x, Some a). simpl. split; [apply list_elem_of_singleton; done|].
    by apply elem_of_map_to_list.
Qed.

Lemma counted_refs p a : ptr_ok p → raw_owned p = [] →
  counters (ref_heap p) !! a =
  if (occurrences a (refs (ptrs p)) =? 0)%nat then None else Some (Z.of_nat (occurrences a (refs (ptrs p)))).
Proof.
  intros [Hh _] Hr. rewrite (holds_count _ _ Hh). unfold references. by rewrite Hr, app_nil_r.
Qed.

Lemma counted_iff p a : ptr_ok p → raw_owned p = [] →
  is_Some (counters (ref_heap p) !! a) ↔ a ∈ refs (ptrs p).
Proof.
  intros Hp Hr. rewrite counted_refs, occurrences_elem by done.
  destruct (Nat.eqb_spec (occurrences a (refs (ptrs p))) 0) as [->|Hne].
  - split; [by intros []|done].
  - split; [done|by eexists].
Qed.

Lemma sole_owner m x y a : occurrences a (refs m) = 1%nat →
  m !! x = Some (Some a) → m !! y = Some (Some a) → x = y.
Proof.
  intros Ho Hx Hy. destruct (decide (x = y)) as [|Hne]; [done|].
  rewrite (refs_delete _ _ _ Hx), (refs_delete _ y (Some a)) in Ho by (by rewrite lookup_delete_ne).
  simpl in Ho. rewrite !occurrences_cons, !decide_True in Ho by done. lia.
Qed.

(** The state after the pointers became [p'] and the slices [sl]. *)
Lemma ok_restore p' bufs sl fr : ptr_ok p' → raw_owned p' = [] → good_buffers bufs →
  (∀ x, is_Some (sl !! x) ↔ is_Some (ptrs p' !! x)) →
  (∀ x p o n, ptrs p' !! x = Some p → sl !! x = Some (o, n) → fits bufs p o n) →
  let s' := mkStore p' (filter (still_counted p') bufs) sl fr in
  ok s' ∧ ∀ y, value s' y = (p ← ptrs p' !! y; '(o, n) ← sl !! y; Some (slice_bytes bufs p o n)).
Proof.
  intros Hp Hr Hb Hsl Hfit s'.
  assert (∀ y a, ptrs p' !! y = Some (Some a) → filter (still_counted p') bufs !! a = bufs !! a) as Hkeep.
  { intros y a Hy. destruct (bufs !! a) as [b|] eqn:E.
    - apply map_lookup_filter_Some. split; [done|]. apply counted_iff; [done|done|]. apply elem_refs. eauto.
    - apply map_lookup_filter_None. by left. }
  split.
  - split; simpl; try done.
    + intros a. rewrite <-counted_iff by done. split.
      * by intros [b [_ Hc]%map_lookup_filter_Some].
      * intros Hc. pose proof (proj1 (counted_iff p' a Hp Hr) Hc) as [y Hy]%elem_refs.
        rewrite (Hkeep y a Hy). destruct (proj2 (Hsl y) ltac:(by eexists)) as [[o n] Hon].
        destruct (Hfit y (Some a) o n Hy Hon) as (b&Hba&_). by exists b.
    + intros a b [Hab _]%map_lookup_filter_Some. by apply (Hb a).
    + intros x p o n Hx Hon. pose proof (Hfit x p o n Hx Hon) as H. destruct p as [a|]; [|done].
      unfold fits in *. by rewrite (Hkeep x a Hx).
  - intros y. unfold value. simpl. destruct (ptrs p' !! y) as [p|] eqn:Hy; [|done]. simpl.
    destruct (sl !! y) as [[o n]|]; [|done]. simpl. f_equal. unfold slice_bytes.
    destruct p as [a|]; [|done]. simpl. by rewrite (Hkeep y a Hy).
Qed.

(** The state after the buffer only [x] refers to became [b']. *)
Lemma ok_in_place s x a b' o n fr : ok s → ptrs_of s !! x = Some (Some a) → sole s a →
  BufferT.wf b' → 0 < BufferT.capacity_ b' → 0 ≤ o → 0 ≤ n → o + n ≤ BufferT.size_ b' →
  let s' := mkStore (pointers s) (<[a := b']> (buffers s)) (<[x := (o, n)]> (slices s)) fr in
  ok s' ∧ ∀ y, value s' y = if decide (y = x) then Some (take (Z.to_nat n) (drop (Z.to_nat o) (BufferT.contents b')))
               else value s y.
Proof.
  intros Hok Hx Hsole Hwf Hcap Ho Hn Hfit s'. destruct Hok as [Hp Hr Hl Hs Hb Hf].
  assert (∀ y, y ≠ x → ptrs_of s !! y ≠ Some (Some a)) as Hother.
  { intros y Hne Hy. apply Hne. by apply (sole_owner (ptrs_of s) y x a). }
  assert (∀ y p, y ≠ x → ptrs_of s !! y = Some p →
    (p ≫= λ c, <[a := b']> (buffers s) !! c) = p ≫= λ c, buffers s !! c) as Hsame.
  { intros y [c|] Hne Hy; [|done]. simpl. apply lookup_insert_ne. intros <-. by apply (Hother y). }
  split.
  - split; simpl; try done.
    + intros c. rewrite <-Hl. destruct (decide (c = a)) as [->|Hne]; [|by rewrite lookup_insert_ne].
      rewrite lookup_insert_eq. split; [intros _|by eauto]. apply Hl, elem_refs. eauto.
    + intros y. rewrite <-Hs. destruct (decide (y = x)) as [->|Hne]; [|by rewrite lookup_insert_ne].
      rewrite lookup_insert_eq. split; [intros _|by eauto]. apply Hs. eauto.
    + by apply map_Forall_insert_2.
    + intros y p o' n' Hy. destruct (decide (y = x)) as [->|Hne].
      * rewrite Hx in Hy. injection Hy as <-. rewrite lookup_insert_eq. intros [= <- <-].
        exists b'. by rewrite lookup_insert_eq.
      * rewrite lookup_insert_ne by done. intros Hon. pose proof (Hf y p o' n' Hy Hon) as H.
        pose proof (Hsame y p Hne Hy) as Hsm. destruct p as [c|]; [|done]. simpl in *. by rewrite Hsm.
  - intros y. unfold value. simpl. destruct (decide (y = x)) as [->|Hne].
    + rewrite Hx. simpl. rewrite lookup_insert_eq. simpl. unfold slice_bytes. simpl. by rewrite lookup_insert_eq.
    + rewrite lookup_insert_ne by done. destruct (ptrs_of s !! y) as [p|] eqn:Hy; [|done]. simpl.
      destruct (slices s !! y) as [[o' n']|]; [|done]. simpl. f_equal. unfold slice_bytes. by rewrite (Hsame y p Hne Hy).
Qed.
End Values.

(** * Steps *)

Section Steps.
Context `{!Memory Z} `{!BuildConfig}.
Implicit Types s : Store.

#[local] Abbreviation ptrs_of s := (ptrs (pointers s)).

Lemma wp_on_pointers {A} (m : M PtrState A) (Q : A → Store → Prop) s :
  wp m (λ a p', ∀ fr, Q a (mkStore p' (filter (still_counted p') (buffers s)) (slices s) fr)) (pointers s) →
  wp (on_pointers m) Q s.
Proof.
  intros Hm. apply wp_bind, wp_get, wp_bind, wp_on_local. eapply wp_mono; [exact Hm|].
  intros a p' HQ. apply wp_bind, wp_put, wp_ret, HQ.
Qed.

(** Every buffer belongs to an object with a counter. *)
Definition all_counted s : Prop := map_Forall (λ a b, still_counted (pointers s) (a, b)) (buffers s).

Lemma ok_counted s : ok s → all_counted s.
Proof.
  intros Hok a b Hab. apply counted_iff; [by apply Hok|by apply Hok|]. apply (ok_live _ Hok). by exists b.
Qed.

Lemma filter_counted (p : PtrState) (bufs : gmap nat (BufferT.BufferT Z)) :
  map_Forall (λ a b, still_counted p (a, b)) bufs → filter (still_counted p) bufs = bufs.
Proof. intros Hc. apply map_filter_id. intros a b Hab. by apply (Hc a b). Qed.

Lemma wp_pointers_read {A} (m : M PtrState A) a (Q : A → Store → Prop) s :
  m (pointers s) = Ok (a, pointers s) → all_counted s → Q a s → wp (on_pointers m) Q s.
Proof.
  intros Hm Hc HQ. unfold on_pointers, on_local. apply wp_bind, wp_get. unfold wp, mbind, M_bind, put, mret, M_ret.
  rewrite Hm. simpl. rewrite filter_counted by done.
  assert (filter (λ e, ¬ still_counted (pointers s) e) (buffers s) = ∅) as ->.
  { apply map_empty. intros i. apply map_lookup_filter_None. right. intros b Hi Hn. by apply Hn, (Hc i b). }
  rewrite map_to_list_empty. simpl. rewrite app_nil_r. by destruct s.
Qed.

Lemma wp_buffer_ x p (Q : option nat → Store → Prop) s :
  all_counted s → ptrs_of s !! x = Some p → Q p s → wp (buffer_ x) Q s.
Proof.
  intros Hc Hx HQ. apply (wp_pointers_read _ p); [|done|done].
  unfold scoped_refptr.ptr_, mbind, M_bind, get. by rewrite Hx.
Qed.

Lemma wp_slice x o n (Q : Z * Z → Store → Prop) s : slices s !! x = Some (o, n) → Q (o, n) s → wp (slice x) Q s.
Proof. intros Hx HQ. apply wp_bind, wp_get. by rewrite Hx. Qed.

Lemma wp_on_buffer {A} a b (m : M (BufferT.Arena Z) A) (Q : A → Store → Prop) s : buffers s !! a = Some b →
  wp m (λ r ar, Q r (mkStore (pointers s) (<[a := BufferT.buf ar]> (buffers s)) (slices s) (BufferT.freed ar)))
     (BufferT.mkArena b (freed s)) →
  wp (on_buffer a m) Q s.
Proof.
  intros Ha Hm. apply wp_bind, wp_get. rewrite Ha. apply wp_bind, wp_on_local.
  eapply wp_mono; [exact Hm|]. done.
Qed.

(** Reading a member of a buffer. *)
Lemma wp_buffer_read {A} a b (f : BufferT.BufferT Z → A) (Q : A → Store → Prop) s :
  buffers s !! a = Some b → BufferT.wf b → Q (f b) s →
  wp (on_buffer a (_ ← BufferT.dcheck_consistent; BufferT.self f)) Q s.
Proof.
  intros Ha Hwf HQ. apply (wp_on_buffer a b); [done|]. apply wp_bind, BufferT.wp_dcheck_consistent; [done|].
  apply BufferT.wp_buffer_self. simpl. rewrite insert_id by done. by destruct s.
Qed.

Lemma wp_HasOneRef a (Q : bool → Store → Prop) s : ok s → a ∈ refs (ptrs_of s) →
  Q (bool_decide (sole s a)) s → wp (HasOneRef a) Q s.
Proof.
  intros Hok Ha HQ. apply (wp_pointers_read _ (bool_decide (sole s a))); [|by apply ok_counted|done].
  pose proof (counted_refs (pointers s) a (ok_ptrs _ Hok) (ok_raw _ Hok)) as Hc.
  apply occurrences_elem in Ha. destruct (Nat.eqb_spec (occurrences a (refs (ptrs_of s))) 0) as [|_]; [done|].
  unfold scoped_refptr.on_heap, on_local, RefCountedObject.HasOneRef, ref_count, mbind, M_bind, get, put, mret, M_ret.
  rewrite Hc. unfold RefCounter.HasOneRef, sole.
  replace (Z.of_nat (occurrences a (refs (ptrs_of s))) =? 1)
    with (bool_decide (occurrences a (refs (ptrs_of s)) = 1%nat)); [by destruct s as [[]]|].
  destruct (Z.eqb_spec (Z.of_nat (occurrences a (refs (ptrs_of s)))) 1); [apply bool_decide_true|apply bool_decide_false]; lia.
Qed.

(** An object in a good state, with the members its pointer leads to. *)
Lemma ok_object s x : ok s → is_Some (ptrs_of s !! x) → ∃ p o n,
  ptrs_of s !! x = Some p ∧ slices s !! x = Some (o, n) ∧ fits (buffers s) p o n.
Proof.
  intros Hok [p Hp]. destruct (proj2 (ok_slices _ Hok x) ltac:(by eexists)) as [[o n] Hon].
  exists p, o, n. split_and!; [done|done|]. by apply (ok_fits _ Hok x).
Qed.

Lemma ok_buffer s a b : ok s → buffers s !! a = Some b →
  BufferT.wf b ∧ 0 < BufferT.capacity_ b ∧ 0 ≤ BufferT.size_ b ≤ BufferT.capacity_ b ∧
  BufferT.capacity_ b ≤ max_elements ≤ 2 ^ 62.
Proof.
  intros Hok Ha. destruct (ok_buffers _ Hok a b Ha) as [Hwf Hc]. pose proof max_elements_bound.
  split_and!; [done|done|apply Hwf..|apply Hwf|lia].
Qed.

Lemma wp_dcheck_object x (Q : unit → Store → Prop) s :
  ok s → is_Some (ptrs_of s !! x) → Q tt s → wp (dcheck_consistent x) Q s.
Proof.
  intros Hok Hx HQ. unfold dcheck_consistent. destruct RTC_DCHECK_IS_ON; [|done].
  destruct (ok_object s x Hok Hx) as (p & o & n & Hp & Hon & Hf).
  apply wp_bind. unfold IsConsistent. apply wp_bind, (wp_buffer_ x p); [by apply ok_counted|done|].
  apply wp_bind, (wp_slice x o n); [done|]. destruct p as [a|].
  - destruct Hf as (b & Hb & Ho & Hn & Hfit). destruct (ok_buffer s a b Hok Hb) as (Hwf & Hc & Hs & Hm).
    apply wp_bind, (wp_buffer_read a b); [done|done|]. apply wp_bind, (wp_buffer_read a b); [done|done|].
    apply wp_ret, wp_check; [|done]. rewrite wrap_u_id by (unfold in_u; lia). lia.
  - destruct Hf as [-> ->]. by apply wp_ret, wp_check.
Qed.

Lemma wp_cow_size x o n (Q : Z → Store → Prop) s : ok s → is_Some (ptrs_of s !! x) → slices s !! x = Some (o, n) →
  Q n s → wp (size x) Q s.
Proof.
  intros Hok Hx Hon HQ. apply wp_bind, wp_dcheck_object; [done|done|]. by apply wp_bind, (wp_slice x o n).
Qed.

Lemma wp_cow_capacity x a b o n (Q : Z → Store → Prop) s : ok s → ptrs_of s !! x = Some (Some a) →
  slices s !! x = Some (o, n) → buffers s !! a = Some b →
  Q (BufferT.capacity_ b - o) s → wp (capacity x) Q s.
Proof.
  intros Hok Hx Hon Hb HQ. apply wp_bind, wp_dcheck_object; [done|by eexists|].
  apply wp_bind, (wp_buffer_ x (Some a)); [by apply ok_counted|done|].
  destruct (ok_buffer s a b Hok Hb) as (Hwf & Hc & Hs & Hm).
  destruct (ok_fits _ Hok x _ _ _ Hx Hon) as (b' & Hb' & Ho & Hn & Hfit). rewrite Hb in Hb'. injection Hb' as <-.
  apply wp_bind, (wp_buffer_read a b); [done|done|]. apply wp_bind, (wp_slice x o n); [done|].
  apply wp_ret. by rewrite wrap_u_id by (unfold in_u; lia).
Qed.

Lemma wp_cdata x (Q : option (list Z) → Store → Prop) s : ok s → is_Some (ptrs_of s !! x) →
  (∀ d o n, slices s !! x = Some (o, n) → value s x = Some (take (Z.to_nat n) (default [] d)) →
     (d = None → n = 0) → n ≤ Z.of_nat (length (default [] d)) → Q d s) → wp (cdata x) Q s.
Proof.
  intros Hok Hx HQ. destruct (ok_object s x Hok Hx) as (p & o & n & Hp & Hon & Hf).
  apply wp_bind, wp_dcheck_object; [done|done|].
  apply wp_bind, (wp_buffer_ x p); [by apply ok_counted|done|].
  assert (value s x = Some (slice_bytes (buffers s) p o n)) as Hv by (unfold value; rewrite Hp; simpl; by rewrite Hon).
  destruct p as [a|].
  - destruct Hf as (b & Hb & Ho & Hn & Hfit). destruct (ok_buffer s a b Hok Hb) as (Hwf & Hc & Hs & Hm).
    apply wp_bind, (wp_buffer_read a b); [done|done|]. apply wp_bind, (wp_slice x o n); [done|].
    apply wp_ret, (HQ _ o n); [done|..].
    + rewrite Hv. f_equal. unfold slice_bytes. simpl. rewrite Hb. unfold BufferT.contents, BufferT.block.
      destruct (BufferT.data_ b) as [l|]; simpl; [|by rewrite take_nil, drop_nil].
      rewrite skipn_firstn_comm, take_take. f_equal. lia.
    + intros Hd. destruct (BufferT.data_ b) eqn:E; [done|]. pose proof (BufferT.wf_data _ Hwf E). lia.
    + pose proof (BufferT.wf_block _ Hwf) as Hl. unfold BufferT.block in Hl.
      destruct (BufferT.data_ b) as [l|]; simpl in *; [rewrite length_drop; lia|lia].
  - destruct Hf as [-> ->]. apply wp_ret, (HQ _ 0 0); [done| |done|simpl; lia]. by rewrite Hv.
Qed.
End Steps.

(** * The functions defined elsewhere *)

(** The bytes of [x] became [l], and nobody else's changed. *)
Definition changes `{!Memory Z} (s : Store) (x : string) (l : list Z) (s' : Store) : Prop :=
  ok s' ∧ ∀ y, value s' y = if decide (y = x) then Some l else value s y.

(** Room for one more object and its reference. *)
Definition spare (p : PtrState) : Prop := Z.of_nat (base.size (ptrs p) + length (raw_owned p)) < 2 ^ 31 - 3.

(** What the comments of the header say about them: the copy constructor shares
    the data, a constructor with a size makes that many bytes, and unsharing makes
    a copy where the data is shared or has no room, which nobody can see. *)
Class CopyOnWriteLaws `{!Memory Z} `{!CopyOnWriteImpl} : Prop := {
  construct_copy_spec : ∀ s y x p o n, ok s → room (pointers s) →
    ptrs (pointers s) !! y = None → y ≠ temporary →
    ptrs (pointers s) !! x = Some p → slices s !! x = Some (o, n) →
    wp (construct_copy y x) (λ _ s', ok s' ∧ ptrs (pointers s') = <[y := p]> (ptrs (pointers s)) ∧
      slices s' = <[y := (o, n)]> (slices s) ∧ buffers s' = buffers s) s;
  construct_capacity_spec : ∀ s x n c, ok s → spare (pointers s) →
    ptrs (pointers s) !! x = None → x ≠ temporary → 0 ≤ n → 0 ≤ c → Z.max n c ≤ max_elements →
    wp (construct_capacity x n c) (λ _ s', (∃ l, Z.of_nat (length l) = n ∧ changes s x l s') ∧
      ∃ p, ptrs (pointers s') !! x = Some p ∧
        match p with
        | None => n = 0
        | Some a => sole s' a ∧ ∃ b, buffers s' !! a = Some b ∧ n ≤ BufferT.size_ b
        end) s;
  UnshareAndEnsureCapacity_spec : ∀ s x a o n c, ok s → room (pointers s) →
    ptrs (pointers s) !! x = Some (Some a) → slices s !! x = Some (o, n) → 0 < c ≤ max_elements → n ≤ c →
    wp (UnshareAndEnsureCapacity x c) (λ _ s', ok s' ∧ (∀ y, value s' y = value s y) ∧
      ∃ a' o' b, ptrs (pointers s') = <[x := Some a']> (ptrs (pointers s)) ∧
        slices s' = <[x := (o', n)]> (slices s) ∧ sole s' a' ∧
        buffers s' !! a' = Some b ∧ c ≤ BufferT.capacity_ b - o') s
}.

(** * The operations *)

Section Operations.
Context `{!Memory Z} `{!BuildConfig}.
Implicit Types s : Store.

#[local] Abbreviation ptrs_of s := (ptrs (pointers s)).

Lemma value_object s x p o n : ptrs_of s !! x = Some p → slices s !! x = Some (o, n) →
  value s x = Some (slice_bytes (buffers s) p o n).
Proof. intros Hp Hon. unfold value. rewrite Hp. simpl. by rewrite Hon. Qed.

(** The pointer of [x] became [p], where [bufs] may have new buffers. *)
Lemma ok_rebind s x p p' bufs o n fr : ok s → assigned x p (pointers s) p' → is_Some (ptrs_of s !! x) →
  good_buffers bufs → (∀ a, a ∈ refs (ptrs_of s) → bufs !! a = buffers s !! a) → fits bufs p o n →
  changes s x (slice_bytes bufs p o n) (mkStore p' (filter (still_counted p') bufs) (<[x := (o, n)]> (slices s)) fr).
Proof.
  intros Hok (Hp' & Hptrs & Hraw) Hx Hb Hold Hfit.
  assert (∀ y q, y ≠ x → ptrs_of s !! y = Some q → (q ≫= λ c, bufs !! c) = q ≫= λ c, buffers s !! c) as Hsame.
  { intros y [c|] Hne Hy; [|done]. simpl. apply Hold, elem_refs. eauto. }
  destruct (ok_restore p' bufs (<[x := (o, n)]> (slices s)) fr) as [Hok' Hv].
  - done.
  - by rewrite Hraw, (ok_raw _ Hok).
  - done.
  - intros y. rewrite Hptrs. destruct (decide (y = x)) as [->|Hne].
    + rewrite !lookup_insert_eq. split; intros _; by eexists.
    + rewrite !lookup_insert_ne by done. apply (ok_slices _ Hok).
  - intros y q o' n'. rewrite Hptrs. destruct (decide (y = x)) as [->|Hne].
    + rewrite !lookup_insert_eq. by intros [= <-] [= <- <-].
    + rewrite !lookup_insert_ne by done. intros Hy Hon. pose proof (ok_fits _ Hok y q o' n' Hy Hon) as Hf.
      pose proof (Hsame y q Hne Hy) as Hs. destruct q as [c|]; [|done]. simpl in *. by rewrite Hs.
  - split; [done|]. intros y. rewrite Hv, Hptrs. destruct (decide (y = x)) as [->|Hne].
    + rewrite !lookup_insert_eq. done.
    + rewrite !lookup_insert_ne by done. unfold value. destruct (ptrs_of s !! y) as [q|] eqn:Hy; [|done]. simpl.
      destruct (slices s !! y) as [[o' n']|]; [|done]. simpl. f_equal. unfold slice_bytes. by rewrite (Hsame y q Hne Hy).
Qed.

(** [buffer_ = buf.buffer_; offset_ = ...; size_ = ...;] *)
Lemma wp_share x buf (Q : unit → Store → Prop) s l : ok s → room (pointers s) → is_Some (ptrs_of s !! x) →
  x ≠ buf → value s buf = Some l → (∀ s', changes s x l s' → Q tt s') →
  wp (_ ← on_pointers (scoped_refptr.assign_copy x buf);
      '(offset_, size_) ← slice buf; set_slice x offset_ size_) Q s.
Proof.
  intros Hok Hroom Hx Hne Hl HQ. unfold value in Hl.
  destruct (ptrs_of s !! buf) as [p|] eqn:Hp; [|done]. simpl in Hl.
  destruct (slices s !! buf) as [[o n]|] eqn:Hon; [|done]. injection Hl as <-.
  apply wp_bind, wp_on_pointers. apply wp_bind, (wp_ptr_ buf p); [done|].
  eapply wp_mono; [apply wp_assign_raw; [apply Hok|done|done|]|].
  - intros a ->. unfold references. apply elem_of_app. left. apply elem_refs. eauto.
  - intros [] p' Hass fr. apply wp_bind, (wp_slice buf o n); [done|].
    apply wp_modify, HQ. simpl. apply (ok_rebind s); try done; [apply Hok|].
    by apply (ok_fits _ Hok buf).
Qed.

Lemma wp_cow_assign_copy x buf (Q : unit → Store → Prop) s l : ok s → room (pointers s) → is_Some (ptrs_of s !! x) →
  value s buf = Some l → (∀ s', changes s x l s' → Q tt s') →
  wp (assign_copy x buf) Q s ∧ wp (SetData_buffer x buf) Q s.
Proof.
  intros Hok Hroom Hx Hl HQ.
  assert (is_Some (ptrs_of s !! buf)) as Hbuf.
  { unfold value in Hl. destruct (ptrs_of s !! buf); [by eexists|done]. }
  split; (apply wp_bind, wp_dcheck_object; [done|done|]; apply wp_bind, wp_dcheck_object; [done|done|];
    case_bool_decide as E; [subst; apply wp_ret, HQ; split; [done|]; intros y; by case_decide; subst|];
    by apply (wp_share x buf Q s l)).
Qed.

Lemma wp_cow_assign_move x buf (Q : unit → Store → Prop) s l : ok s → room (pointers s) → is_Some (ptrs_of s !! x) →
  value s buf = Some l →
  (∀ s', ok s' → (∀ y, value s' y = if decide (y = buf) then Some []
                                    else if decide (y = x) then Some l else value s y) → Q tt s') →
  wp (assign_move x buf) Q s.
Proof.
  intros Hok Hroom Hx Hl HQ. unfold value in Hl.
  destruct (ptrs_of s !! buf) as [p|] eqn:Hp; [|done]. simpl in Hl.
  destruct (slices s !! buf) as [[o n]|] eqn:Hon; [|done]. injection Hl as <-.
  apply wp_bind, wp_dcheck_object; [done|done|]. apply wp_bind, wp_dcheck_object; [done|by eexists|].
  apply wp_bind, wp_on_pointers. eapply wp_mono; [by apply (wp_assign_move x buf p); [apply Hok|..]|].
  intros [] p' (Hp' & Hptrs & Hraw) fr. apply wp_bind, (wp_slice buf o n); [done|].
  apply wp_bind, wp_modify, wp_modify. simpl.
  assert (∀ y, ptrs p' !! y = if decide (y = x) then Some p else if decide (y = buf) then Some None
    else ptrs_of s !! y) as Hpy by (intros y; rewrite Hptrs; by repeat case_decide; simplify_map_eq).
  assert (∀ y, <[buf := (0, 0)]> (<[x := (o, n)]> (slices s)) !! y = if decide (y = buf) then Some (0, 0)
    else if decide (y = x) then Some (o, n) else slices s !! y) as Hsy
    by (intros y; by repeat case_decide; simplify_map_eq).
  destruct (ok_restore p' (buffers s) (<[buf := (0, 0)]> (<[x := (o, n)]> (slices s))) fr) as [Hok' Hv].
  - done.
  - by rewrite Hraw, (ok_raw _ Hok).
  - apply Hok.
  - intros y. rewrite Hpy, Hsy. repeat case_decide; try done. apply (ok_slices _ Hok).
  - intros y q o' n'. rewrite Hpy, Hsy. pose proof (ok_fits _ Hok buf _ _ _ Hp Hon) as Hfb.
    repeat case_decide; intros; simplify_eq; try done; [|by apply (ok_fits _ Hok y)].
    destruct q as [a|]; [|done]. destruct Hfb as (b & Hb & ?). exists b. split_and!; try done; lia.
  - apply HQ; [done|]. intros y. rewrite Hv, Hpy, Hsy. repeat case_decide; try done; simpl.
    f_equal. unfold slice_bytes. by destruct (p ≫= _).
Qed.

Lemma wp_cow_swap x y (Q : unit → Store → Prop) s l l' : ok s → value s x = Some l → value s y = Some l' →
  (∀ s', ok s' → (∀ z, value s' z = if decide (z = x) then Some l'
                                    else if decide (z = y) then Some l else value s z) → Q tt s') →
  wp (swap x y) Q s.
Proof.
  intros Hok Hl Hl' HQ. unfold value in Hl, Hl'.
  destruct (ptrs_of s !! x) as [p|] eqn:Hp; [|done]. destruct (ptrs_of s !! y) as [q|] eqn:Hq; [|done].
  simpl in Hl, Hl'. destruct (slices s !! x) as [[o n]|] eqn:Hon; [|done].
  destruct (slices s !! y) as [[o' n']|] eqn:Hon'; [|done]. injection Hl as <-. injection Hl' as <-.
  apply wp_bind, wp_on_pointers. eapply wp_mono; [by apply (wp_swap x y p q); [apply Hok|..]|].
  intros [] p' (Hp' & Hptrs & Hraw) fr. apply wp_bind, (wp_slice x o n); [done|].
  apply wp_bind, (wp_slice y o' n'); [done|]. apply wp_bind, wp_modify, wp_modify. simpl.
  assert (∀ z, ptrs p' !! z = if decide (z = y) then Some p else if decide (z = x) then Some q else ptrs_of s !! z)
    as Hpz.
  { intros z. rewrite Hptrs. repeat case_decide; subst; rewrite ?lookup_insert_eq, ?lookup_insert_ne by done; try done.
    rewrite lookup_insert_eq. done. }
  assert (∀ z, <[y := (o, n)]> (<[x := (o', n')]> (slices s)) !! z =
    if decide (z = y) then Some (o, n) else if decide (z = x) then Some (o', n') else slices s !! z) as Hsz.
  { intros z. repeat case_decide; subst; rewrite ?lookup_insert_eq, ?lookup_insert_ne by done; try done.
    rewrite lookup_insert_eq. done. }
  destruct (ok_restore p' (buffers s) (<[y := (o, n)]> (<[x := (o', n')]> (slices s))) fr) as [Hok' Hv].
  - done.
  - by rewrite Hraw, (ok_raw _ Hok).
  - apply Hok.
  - intros z. rewrite Hpz, Hsz. repeat case_decide; [split; intros _; by eexists..|]. apply (ok_slices _ Hok).
  - intros z r o2 n2. rewrite Hpz, Hsz. repeat case_decide.
    + intros [= <-] [= <- <-]. by apply (ok_fits _ Hok x).
    + intros [= <-] [= <- <-]. by apply (ok_fits _ Hok y).
    + apply (ok_fits _ Hok).
  - apply HQ; [done|]. intros z. rewrite Hv, Hpz, Hsz. repeat case_decide; subst; simpl; try done; simplify_eq; done.
Qed.

(** * New buffers *)

Lemma wp_construct_buffer l c (Q : unit → BufferT.Arena Z → Prop) ar :
  0 ≤ c → 0 < Z.max (Z.of_nat (length l)) c ≤ max_elements →
  (∀ ar', BufferT.wf (BufferT.buf ar') → BufferT.contents (BufferT.buf ar') = l →
     BufferT.size_ (BufferT.buf ar') = Z.of_nat (length l) →
     BufferT.capacity_ (BufferT.buf ar') = Z.max (Z.of_nat (length l)) c → Q tt ar') →
  wp (BufferT.construct_data_capacity l c) Q ar.
Proof.
  intros Hc Hm HQ. unfold BufferT.construct_data_capacity, BufferT.construct_capacity.
  set (m := Z.max _ c) in *. rewrite (proj2 (Z.ltb_lt 0 m)) by lia.
  apply wp_bind, wp_bind, wp_bind, wp_bind, wp_get, wp_bind, wp_check; [lia|]. apply wp_ret, wp_ret.
  apply wp_bind, BufferT.wp_buffer_upd. set (g := garbage _ m).
  assert (Z.of_nat (length g) = m) as Hg by (apply garbage_length; lia).
  assert (BufferT.wf (BufferT.mkBufferT (Z.of_nat (length l)) m (Some g))) as Hwf by (split; simpl; unfold BufferT.block; simpl; done || lia).
  apply BufferT.wp_dcheck_consistent; [done|]. apply BufferT.wp_buffer_upd. simpl.
  assert (length (BufferT.copy_at 0 l g) = length g) as Hlen by (apply BufferT.length_copy_at; simpl; lia).
  apply HQ; simpl.
  - split; simpl; unfold BufferT.block; simpl; try done; lia.
  - unfold BufferT.contents, BufferT.block. simpl. rewrite Nat2Z.id.
    rewrite BufferT.take_copy_at by (simpl; lia). done.
  - done.
  - done.
Qed.

(** [x.buffer_ = new RefCountedObject<Buffer>(l, size, c); x.offset_ = 0; x.size_ = size;] *)
Lemma wp_new_buffer x l c (Q : unit → Store → Prop) s : ok s → room (pointers s) → is_Some (ptrs_of s !! x) →
  0 ≤ c → 0 < Z.max (Z.of_nat (length l)) c ≤ max_elements →
  (∀ s', changes s x l s' →
     (∃ a b, ptrs_of s' = <[x := Some a]> (ptrs_of s) ∧ slices s' = <[x := (0, Z.of_nat (length l))]> (slices s) ∧
        sole s' a ∧ buffers s' !! a = Some b ∧ BufferT.capacity_ b = Z.max (Z.of_nat (length l)) c) → Q tt s') →
  wp (a ← new_buffer (BufferT.construct_data_capacity l c); set_buffer_ x (Some a))
     (λ _, wp (set_slice x 0 (Z.of_nat (length l))) Q) s.
Proof.
  intros Hok Hroom Hx Hc Hm HQ.
  destruct (wp_assign_new x (pointers s) (ok_ptrs _ Hok) Hx Hroom) as [Hnew Hass].
  set (a := fresh_object (ref_heap (pointers s))) in *. set (p1 := mkPtrState _ _ _) in *.
  assert (a ∉ refs (ptrs_of s)) as Hfresh.
  { intros Ha. destruct (ok_ptrs _ Hok) as [Hh _].
    assert ((a < fresh_object (ref_heap (pointers s)))%nat); [|unfold a in *; lia].
    apply (holds_bound _ _ Hh). unfold references. apply elem_of_app. by left. }
  assert (filter (still_counted p1) (buffers s) = buffers s) as Hkeep.
  { apply filter_counted. intros i b Hi. unfold still_counted. simpl.
    destruct (decide (i = a)) as [->|Hne]; [rewrite lookup_insert_eq; by eexists|].
    rewrite lookup_insert_ne by done. by apply (ok_counted s Hok i b). }
  apply wp_bind, wp_bind, wp_on_pointers. unfold wp at 1. rewrite Hnew. intros fr. rewrite Hkeep.
  apply wp_bind, wp_get, wp_bind, wp_on_local. apply wp_construct_buffer; [done|done|].
  intros ar Hwf Hcont Hsize Hcap. apply wp_bind, wp_put, wp_ret. simpl.
  apply wp_on_pointers. simpl. eapply wp_mono; [exact Hass|]. intros [] p' Hp' fr'.
  apply wp_modify. simpl. set (bufs := <[a := BufferT.buf ar]> (buffers s)).
  assert (∀ i, i ∈ refs (ptrs_of s) → bufs !! i = buffers s !! i) as Hold
    by (intros i Hi; apply lookup_insert_ne; by intros <-).
  assert (bufs !! a = Some (BufferT.buf ar)) as Ha by apply lookup_insert_eq.
  assert (changes s x l (mkStore p' (filter (still_counted p') bufs)
    (<[x := (0, Z.of_nat (length l))]> (slices s)) fr')) as Hch.
  { replace l with (slice_bytes bufs (Some a) 0 (Z.of_nat (length l))) at 1.
    - apply (ok_rebind s); try done; [apply map_Forall_insert_2; [split; [done|lia]|apply Hok]|].
      exists (BufferT.buf ar). split_and!; [done|lia|lia|lia].
    - unfold slice_bytes. simpl. rewrite Ha. rewrite Hcont, Nat2Z.id. apply firstn_all. }
  apply HQ; [done|]. destruct Hp' as (_ & Hptrs & _). exists a, (BufferT.buf ar). simpl. split_and!; try done.
  - unfold sole. simpl. rewrite Hptrs, refs_insert. simpl. rewrite occurrences_cons, decide_True by done.
    f_equal. destruct (decide (occurrences a (refs (delete x (ptrs_of s))) = 0)%nat) as [|Hn]; [done|].
    exfalso. apply Hfresh, elem_refs. apply occurrences_elem, elem_refs in Hn as [y Hy].
    apply lookup_delete_Some in Hy as [_ Hy]. by exists y.
  - destruct Hch as [Hok' _]. destruct (ok_fits _ Hok' x (Some a) 0 (Z.of_nat (length l))) as (b & Hb & _).
    + simpl. rewrite Hptrs. apply lookup_insert_eq.
    + simpl. apply lookup_insert_eq.
    + simpl in Hb. rewrite Hb. apply map_lookup_filter_Some in Hb as [Hb _]. congruence.
Qed.

(** * Changing the bytes *)

Lemma changes_live s x l s' : changes s x l s' → is_Some (ptrs_of s' !! x).
Proof.
  intros [_ Hv]. specialize (Hv x). rewrite decide_True in Hv by done. unfold value in Hv.
  destruct (ptrs_of s' !! x); [by eexists|done].
Qed.

(** The growth of a buffer stays within what can be allocated. *)
Lemma grown_small n c : 0 ≤ c ≤ max_elements → 3 * n ≤ 2 * max_elements → BufferT.grown true n c ≤ max_elements.
Proof.
  intros Hc Hn. unfold BufferT.grown. destruct (Z.leb_spec n c); [lia|].
  pose proof (Z.div_le_upper_bound c 2 (max_elements - c)). apply Z.max_lub; [lia|].
  pose proof (Z_div_mod_eq_full c 2). pose proof (Z.mod_pos_bound c 2). lia.
Qed.

(** The object has bytes of its own behind its offset. *)
Definition storage s (x : string) : Prop :=
  ∃ a b o n, ptrs_of s !! x = Some (Some a) ∧ slices s !! x = Some (o, n) ∧
    buffers s !! a = Some b ∧ o < BufferT.capacity_ b.

(** Setting an object that refers to nothing to no bytes. *)
Lemma wp_cow_clear x (Q : unit → Store → Prop) s : ok s → room (pointers s) → ptrs_of s !! x = Some None →
  (∀ s', changes s x [] s' → Q tt s') → wp (set_buffer_ x None) (λ _, wp (set_slice x 0 0) Q) s.
Proof.
  intros Hok Hroom Hx HQ. apply wp_on_pointers.
  eapply wp_mono; [apply wp_assign_raw; [apply Hok|by eexists|done|done]|].
  intros [] p' (Hp' & Hptrs & Hraw) fr. apply wp_modify, HQ. simpl. rewrite insert_id in Hptrs by done.
  destruct (ok_restore p' (buffers s) (<[x := (0, 0)]> (slices s)) fr) as [Hok' Hv].
  - done.
  - by rewrite Hraw, (ok_raw _ Hok).
  - apply Hok.
  - intros y. rewrite Hptrs. destruct (decide (y = x)) as [->|Hne]; [|rewrite lookup_insert_ne by done; apply (ok_slices _ Hok)].
    rewrite lookup_insert_eq, Hx. split; intros _; by eexists.
  - intros y q o n. rewrite Hptrs. destruct (decide (y = x)) as [->|Hne].
    + rewrite lookup_insert_eq, Hx. by intros [= <-] [= <- <-].
    + rewrite lookup_insert_ne by done. apply (ok_fits _ Hok).
  - split; [done|]. intros y. rewrite Hv, Hptrs. case_decide; subst.
    + by rewrite lookup_insert_eq, Hx.
    + by rewrite lookup_insert_ne by done.
Qed.

Lemma wp_cow_SetData x l (Q : unit → Store → Prop) s : ok s → room (pointers s) → is_Some (ptrs_of s !! x) →
  l ≠ [] ∨ (∀ a, ptrs_of s !! x = Some (Some a) → sole s a ∨ storage s x) →
  3 * Z.of_nat (length l) ≤ 2 * max_elements →
  (∀ s', changes s x l s' → Q tt s') → wp (SetData x l) Q s.
Proof.
  intros Hok Hroom Hx Hl Hsmall HQ.
  assert (l ≠ [] → 0 < Z.of_nat (length l)) as Hpos by (destruct l; [done|simpl; lia]).
  destruct (ok_object s x Hok Hx) as (p & o & n & Hp & Hon & Hf).
  apply wp_bind, wp_dcheck_object; [done|done|].
  apply wp_bind, (wp_buffer_ x p); [by apply ok_counted|done|].
  assert (∀ s', changes s x l s' → wp (dcheck_consistent x) Q s') as Hend.
  { intros s' Hch. apply wp_dcheck_object; [apply Hch|by eapply changes_live|by apply HQ]. }
  apply wp_bind. destruct p as [a|].
  - destruct Hf as (b & Hb & Ho & Hn & Hfit). destruct (ok_buffer s a b Hok Hb) as (Hwf & Hc & Hs & Hm).
    assert (a ∈ refs (ptrs_of s)) as Ha by (apply elem_refs; by exists x).
    apply wp_bind, wp_HasOneRef; [done|done|]. case_bool_decide as Hsole; simpl.
    + apply (wp_on_buffer a b); [done|]. apply BufferT.wp_SetData; [done|lia|apply grown_small; simpl; lia|].
      intros ar (Hwf' & Hcont & Hcap & _). apply wp_bind, wp_modify. simpl in *.
      pose proof (BufferT.contents_length _ Hwf') as Hlen. rewrite Hcont in Hlen.
      assert (BufferT.capacity_ b ≤ BufferT.capacity_ (BufferT.buf ar)) as Hge
        by (rewrite Hcap; unfold BufferT.grown; destruct (Z.leb_spec (Z.of_nat (length l)) (BufferT.capacity_ b)); lia).
      apply Hend. destruct (ok_in_place s x a (BufferT.buf ar) 0 (Z.of_nat (length l)) (BufferT.freed ar))
        as [Hok' Hv]; try done; try lia.
      split; [done|]. intros y. rewrite Hv. case_decide; [|done]. rewrite Hcont, Nat2Z.id. f_equal. apply firstn_all.
    + assert (0 < Z.max (Z.of_nat (length l)) (BufferT.capacity_ b - o)) as Hroom'.
      { destruct Hl as [?%Hpos|Hl]; [lia|]. destruct (Hl a Hp) as [|(a'&b'&o'&n'&E1&E2&E3&E4)]; [done|]. simplify_eq. lia. }
      apply wp_bind, (wp_cow_capacity x a b o n); [done..|].
      eapply wp_mono; [apply (wp_new_buffer x l _ (λ _ s', changes s x l s')); try done; try lia|].
      intros [] s1 Hset. apply wp_bind. eapply wp_mono; [exact Hset|]. intros [] s' Hch. by apply Hend.
  - destruct (Z.ltb_spec 0 (Z.of_nat (length l))) as [Hlt|Hge].
    + eapply wp_mono; [apply (wp_new_buffer x l (Z.of_nat (length l)) (λ _ s', changes s x l s')); try done; try lia|].
      intros [] s1 Hset. apply wp_bind. eapply wp_mono; [exact Hset|]. intros [] s' Hch. by apply Hend.
    + destruct l; [|simpl in Hge; lia].
      eapply wp_mono; [by apply (wp_cow_clear x (λ _ s', changes s x [] s'))|].
      intros [] s1 Hset. apply wp_bind. eapply wp_mono; [exact Hset|]. intros [] s' Hch. by apply Hend.
Qed.

Lemma wp_bind_assoc {S A B C} (m : M S A) (f : A → M S B) (g : B → M S C) Q st :
  wp ((a ← m; f a) ≫= g) Q st → wp (a ← m; f a ≫= g) Q st.
Proof. unfold wp, mbind, M_bind. by destruct (m st) as [[a st']|]. Qed.

(** A slice set on a freshly shared object. *)
Lemma changes_slice s s1 y p on o n : ok s → ok s1 → ptrs_of s1 = <[y := p]> (ptrs_of s) →
  slices s1 = <[y := on]> (slices s) → buffers s1 = buffers s → fits (buffers s1) p o n →
  changes s y (slice_bytes (buffers s) p o n) (mkStore (pointers s1) (buffers s1) (<[y := (o, n)]> (slices s1)) (freed s1)).
Proof.
  intros Hok Hok1 Hp Hs Hb Hfit. split.
  - destruct Hok1 as [H1 H2 H3 H4 H5 H6]. split; simpl; try done.
    + intros z. rewrite <-H4. destruct (decide (z = y)) as [->|Hne]; [|by rewrite lookup_insert_ne].
      rewrite lookup_insert_eq, Hs, lookup_insert_eq. split; intros _; by eexists.
    + intros z q o' n' Hz. destruct (decide (z = y)) as [->|Hne].
      * rewrite Hp, lookup_insert_eq in Hz. injection Hz as <-. rewrite lookup_insert_eq. by intros [= <- <-].
      * rewrite lookup_insert_ne by done. by apply H6.
  - intros z. unfold value. simpl. rewrite Hp, Hs, Hb, insert_insert_eq.
    destruct (decide (z = y)) as [->|Hne]; [by rewrite !lookup_insert_eq|by rewrite !lookup_insert_ne].
Qed.

(** Writing into a buffer, within its size. *)
Lemma take_copy_at_inside pos (l dst : list Z) (n : nat) : 0 ≤ pos →
  (Z.to_nat pos + length l ≤ n)%nat → (n ≤ length dst)%nat →
  take n (BufferT.copy_at pos l dst) = BufferT.copy_at pos l (take n dst).
Proof.
  intros Hp Hn Hd. unfold BufferT.copy_at.
  rewrite take_app_ge by (rewrite length_take; lia). rewrite length_take, (Nat.min_l (Z.to_nat pos)) by lia.
  rewrite take_app_ge by lia. rewrite take_take, (Nat.min_l (Z.to_nat pos) n) by lia. do 2 f_equal.
  rewrite skipn_firstn_comm. f_equal. lia.
Qed.

Lemma wp_write_block a b pos l (Q : unit → Store → Prop) s : buffers s !! a = Some b → BufferT.wf b →
  0 < BufferT.capacity_ b → 0 ≤ pos → pos + Z.of_nat (length l) ≤ BufferT.size_ b →
  (∀ b' fr, BufferT.wf b' → BufferT.capacity_ b' = BufferT.capacity_ b → BufferT.size_ b' = BufferT.size_ b →
     BufferT.contents b' = BufferT.copy_at pos l (BufferT.contents b) →
     Q tt (mkStore (pointers s) (<[a := b']> (buffers s)) (slices s) fr)) →
  wp (on_buffer a (write_block pos l)) Q s.
Proof.
  intros Ha Hwf Hc Hpos Hle HQ. apply (wp_on_buffer a b); [done|].
  apply wp_bind. unfold BufferT.data. apply wp_bind, BufferT.wp_dcheck_consistent; [done|].
  apply BufferT.wp_buffer_self. simpl. pose proof (BufferT.wf_block _ Hwf) as Hb.
  pose proof (BufferT.wf_size _ Hwf) as Hs. unfold BufferT.block in Hb.
  destruct (BufferT.data_ b) as [d|] eqn:Hd; [|pose proof (BufferT.wf_data _ Hwf Hd); lia]. simpl in Hb.
  apply wp_bind. eapply wp_deref; [done|]. rewrite (proj2 (Z.leb_le _ _)) by lia.
  apply BufferT.wp_buffer_upd. simpl.
  assert (length (BufferT.copy_at pos l d) = length d) as Hlen by (apply BufferT.length_copy_at; lia).
  apply HQ; try done.
  - destruct Hwf. split; simpl; try done. unfold BufferT.block. simpl. lia.
  - unfold BufferT.contents, BufferT.block. rewrite Hd. simpl. apply take_copy_at_inside; lia.
Qed.

Section WithImpl.
Context `{!CopyOnWriteImpl} `{!CopyOnWriteLaws}.

(** The object [x] alone refers to the buffer [b], which has [c] bytes of room from
    its offset on and contains its bytes [l]; otherwise [s1] is like [s]. *)
Record unshared s x n c l s1 (a : nat) (o : Z) (b : BufferT.BufferT Z) : Prop := {
  un_ok : ok s1;
  un_values : ∀ y, value s1 y = value s y;
  un_ptr : ptrs_of s1 !! x = Some (Some a);
  un_slice : slices s1 !! x = Some (o, n);
  un_sole : sole s1 a;
  un_buffer : buffers s1 !! a = Some b;
  un_room : c ≤ BufferT.capacity_ b - o;
  un_fits : 0 ≤ o ∧ 0 ≤ n ∧ o + n ≤ BufferT.size_ b;
  un_bytes : take (Z.to_nat n) (drop (Z.to_nat o) (BufferT.contents b)) = l
}.

Lemma wp_unshare s x a o n c l (Q : unit → Store → Prop) : ok s → room (pointers s) →
  ptrs_of s !! x = Some (Some a) → slices s !! x = Some (o, n) → value s x = Some l → 0 < c ≤ max_elements → n ≤ c →
  (∀ s1 a1 o1 b, unshared s x n c l s1 a1 o1 b → Q tt s1) → wp (UnshareAndEnsureCapacity x c) Q s.
Proof.
  intros Hok Hroom Hp Hon Hv Hc Hn HQ.
  eapply wp_mono; [by apply (UnshareAndEnsureCapacity_spec s x a o n)|].
  intros [] s1 (Hok1 & Hv1 & a' & o' & b' & Hp1 & Hs1 & Hsole & Hb' & Hcap).
  assert (ptrs_of s1 !! x = Some (Some a')) as Hx1 by (rewrite Hp1; apply lookup_insert_eq).
  assert (slices s1 !! x = Some (o', n)) as Hon1 by (rewrite Hs1; apply lookup_insert_eq).
  destruct (ok_fits _ Hok1 x _ _ _ Hx1 Hon1) as (b'' & Hb'' & Hfit').
  rewrite Hb' in Hb''. injection Hb'' as <-. apply (HQ s1 a' o' b'). split; try done.
  rewrite <-Hv1, (value_object s1 x _ _ _ Hx1 Hon1) in Hv. injection Hv as Hv. unfold slice_bytes in Hv. simpl in Hv.
  by rewrite Hb' in Hv.
Qed.

(** Writing to the unshared buffer, up to the end of its room. *)
Lemma unshared_write s x n c l s1 a o b b' n' l' fr : unshared s x n c l s1 a o b →
  BufferT.wf b' → BufferT.capacity_ b' = BufferT.capacity_ b → 0 ≤ n' → o + n' ≤ BufferT.size_ b' →
  take (Z.to_nat n') (drop (Z.to_nat o) (BufferT.contents b')) = l' →
  changes s x l' (mkStore (pointers s1) (<[a := b']> (buffers s1)) (<[x := (o, n')]> (slices s1)) fr).
Proof.
  intros [Hok1 Hv1 Hp Hs Hsole Hb Hroom Hfits Hl] Hwf Hcap Hn' Hle Hbytes.
  destruct (ok_buffer s1 a b Hok1 Hb) as (_ & Hc & _).
  destruct (ok_in_place s1 x a b' o n' fr) as [Hok' Hv']; try done; try lia.
  split; [done|]. intros y. rewrite Hv', Hv1. by rewrite Hbytes.
Qed.

(** [buffer_->SetSize(offset_ + size_); buffer_->AppendData(data, size);] *)
Lemma wp_append_tail s x n c l0 s1 a o b l (Q : unit → Store → Prop) : unshared s x n c l0 s1 a o b →
  n + Z.of_nat (length l) ≤ c →
  (∀ b' fr, BufferT.wf b' → BufferT.capacity_ b' = BufferT.capacity_ b →
     BufferT.size_ b' = o + n + Z.of_nat (length l) →
     take (Z.to_nat (n + Z.of_nat (length l))) (drop (Z.to_nat o) (BufferT.contents b')) = l0 ++ l →
     Q tt (mkStore (pointers s1) (<[a := b']> (buffers s1)) (slices s1) fr)) →
  wp (_ ← on_buffer a (BufferT.SetSize 0 false (o + n)); on_buffer a (BufferT.AppendData 0 false l)) Q s1.
Proof.
  intros [Hok1 Hv1 Hp Hs Hsole Hb Hroom (Ho & Hn & Hfit) Hl0] Hc HQ.
  destruct (ok_buffer s1 a b Hok1 Hb) as (Hwf & Hcap & Hsz & Hm).
  assert (∀ k, k ≤ BufferT.capacity_ b → BufferT.grown true k (BufferT.capacity_ b) = BufferT.capacity_ b) as Hg
    by (intros k Hk; unfold BufferT.grown; by rewrite (proj2 (Z.leb_le _ _)) by lia).
  apply wp_bind, (wp_on_buffer a b); [done|]. apply BufferT.wp_SetSize; [done|lia|simpl; rewrite Hg; lia|].
  simpl. intros ar1 Hwf1 Hsize1 Htake1 Hcap1 _. rewrite Hg in Hcap1 by lia.
  apply (wp_on_buffer a (BufferT.buf ar1)); [apply lookup_insert_eq|]. simpl.
  apply BufferT.wp_AppendData; [done|lia|simpl; rewrite Hsize1, Hcap1, Hg; lia|].
  intros ar2 (Hwf2 & Hcont2 & Hcap2 & _). cbn [BufferT.buf] in Hcont2, Hcap2.
  rewrite Hsize1, Hcap1, Hg in Hcap2 by lia. rewrite insert_insert_eq.
  pose proof (BufferT.contents_length _ Hwf1) as Hlen1. pose proof (BufferT.contents_length _ Hwf2) as Hlen2.
  pose proof (BufferT.contents_length _ Hwf) as Hlen. rewrite Hcont2, length_app in Hlen2.
  apply HQ; [done|done|lia|]. rewrite Hcont2.
  assert (BufferT.contents (BufferT.buf ar1) = take (Z.to_nat (o + n)) (BufferT.contents b)) as ->.
  { rewrite <-(Htake1 (Z.to_nat (o + n)) ltac:(lia) ltac:(lia)). symmetry. apply take_ge. lia. }
  rewrite drop_app_le, skipn_firstn_comm by (rewrite length_take; lia).
  replace (Z.to_nat (o + n) - Z.to_nat o)%nat with (Z.to_nat n) by lia. rewrite Hl0.
  apply take_ge. rewrite length_app, <-Hl0, length_take, length_drop. lia.
Qed.

Lemma wp_cow_AppendData x l l0 (Q : unit → Store → Prop) s : ok s → room (pointers s) → value s x = Some l0 →
  l ≠ [] ∨ storage s x → Z.of_nat (length l0 + length l) ≤ max_elements →
  (∀ s', changes s x (l0 ++ l) s' → Q tt s') → wp (AppendData x l) Q s.
Proof.
  intros Hok Hroom Hv0 Hl Hmax HQ. pose proof max_elements_bound as Hme.
  assert (l ≠ [] → 0 < Z.of_nat (length l)) as Hpos by (destruct l; [done|simpl; lia]).
  assert (is_Some (ptrs_of s !! x)) as Hx by (unfold value in Hv0; destruct (ptrs_of s !! x); [by eexists|done]).
  destruct (ok_object s x Hok Hx) as (p & o & n & Hp & Hon & Hf).
  pose proof Hv0 as Hbytes. rewrite (value_object s x p o n Hp Hon) in Hbytes. injection Hbytes as Hbytes.
  assert (∀ s', changes s x (l0 ++ l) s' → wp (dcheck_consistent x) Q s') as Hend.
  { intros s' Hch. apply wp_dcheck_object; [apply Hch|by eapply changes_live|by apply HQ]. }
  apply wp_bind, wp_dcheck_object; [done|done|].
  apply wp_bind, (wp_buffer_ x p); [by apply ok_counted|done|]. destruct p as [a|].
  - destruct Hf as (b & Hb & Ho & Hn & Hfit). destruct (ok_buffer s a b Hok Hb) as (Hwf & Hc & Hs & Hm).
    assert (Z.of_nat (length l0) = n) as Hl0.
    { rewrite <-Hbytes. unfold slice_bytes. simpl. rewrite Hb, length_take, length_drop.
      pose proof (BufferT.contents_length _ Hwf). lia. }
    assert (0 < Z.max (BufferT.capacity_ b - o) (n + Z.of_nat (length l))) as Hroom'.
    { destruct Hl as [?%Hpos|(a'&b'&o'&n'&E1&E2&E3&E4)]; [lia|]. simplify_eq. lia. }
    apply wp_bind, (wp_cow_capacity x a b o n); [done..|]. apply wp_bind, (wp_slice x o n); [done|].
    rewrite (wrap_u_id 64 (n + _)) by (unfold in_u; lia).
    apply wp_bind, (wp_unshare s x a o n _ l0); [done|done|done|done|done|lia|lia|].
    intros s1 a1 o1 b1 Hun. pose proof (un_ok _ _ _ _ _ _ _ _ _ Hun) as Hok1.
    destruct (un_fits _ _ _ _ _ _ _ _ _ Hun) as (Ho1 & _ & Hfit1).
    destruct (ok_buffer s1 a1 b1 Hok1 (un_buffer _ _ _ _ _ _ _ _ _ Hun)) as (_ & _ & Hs1 & Hm1).
    apply wp_bind, (wp_buffer_ x (Some a1)); [by apply ok_counted|apply Hun|].
    apply wp_bind. eapply wp_deref; [done|]. apply wp_bind, (wp_slice x o1 n); [apply Hun|].
    rewrite (wrap_u_id 64 (o1 + n)), (wrap_u_id 64 (n + _)) by (unfold in_u; lia).
    apply wp_bind_assoc, wp_bind. eapply wp_append_tail; [exact Hun|lia|].
    intros b' fr Hwf' Hcap' Hsize' Hbytes'. apply wp_bind, wp_modify, Hend. simpl.
    eapply unshared_write; [exact Hun|done|done|lia|lia|done].
  - destruct Hf as [-> ->]. simpl in Hbytes. subst l0. simpl in *.
    destruct Hl as [Hl|(a&b&o&n&E&_)]; [specialize (Hpos Hl)|by rewrite Hp in E].
    eapply wp_bind_assoc, wp_bind, wp_mono;
      [apply (wp_new_buffer x l (Z.of_nat (length l)) (λ _ s', changes s x l s')); try done; try lia|].
    intros [] s1 Hset. apply wp_bind. eapply wp_mono; [exact Hset|]. intros [] s' Hch. by apply Hend.
Qed.

(** * Single bytes, slices and construction *)

Lemma wp_cow_index_write x l i v (Q : unit → Store → Prop) s : ok s → room (pointers s) → value s x = Some l →
  0 ≤ i < Z.of_nat (length l) → (∀ s', changes s x (<[Z.to_nat i := v]> l) s' → Q tt s') →
  wp (index_write x i v) Q s.
Proof.
  intros Hok Hroom Hv Hi HQ.
  assert (is_Some (ptrs_of s !! x)) as Hx by (unfold value in Hv; destruct (ptrs_of s !! x); [by eexists|done]).
  destruct (ok_object s x Hok Hx) as (p & o & n & Hp & Hon & Hf).
  pose proof Hv as Hbytes. rewrite (value_object s x p o n Hp Hon) in Hbytes. injection Hbytes as Hbytes.
  destruct p as [a|]; [|simpl in Hbytes; subst l; simpl in Hi; lia].
  destruct Hf as (b & Hb & Ho & Hn & Hfit). destruct (ok_buffer s a b Hok Hb) as (Hwf & Hc & Hs & Hm).
  pose proof (BufferT.contents_length _ Hwf) as Hlen.
  assert (Z.of_nat (length l) = n) as Hl.
  { rewrite <-Hbytes. unfold slice_bytes. simpl. rewrite Hb, length_take, length_drop. lia. }
  apply wp_bind, (wp_cow_size x o n); [done..|]. apply wp_bind, wp_dcheck; [intros _; lia|].
  apply wp_bind. apply wp_bind, wp_dcheck_object; [done|done|].
  apply wp_bind, (wp_buffer_ x (Some a)); [by apply ok_counted|done|].
  apply wp_bind, (wp_cow_capacity x a b o n); [done..|].
  apply wp_bind, (wp_unshare s x a o n _ l); [done|done|done|done|done|lia|lia|].
  intros s1 a1 o1 b1 Hun. pose proof (un_ok _ _ _ _ _ _ _ _ _ Hun) as Hok1.
  apply wp_bind, (wp_buffer_ x (Some a1)); [by apply ok_counted|apply Hun|].
  apply wp_bind. eapply wp_deref; [done|]. apply wp_bind, (wp_slice x o1 n); [apply Hun|]. apply wp_ret.
  apply wp_bind. eapply wp_deref; [done|]. simpl.
  destruct Hun as [_ Hv1 Hp1 Hs1 Hsole Hb1 Hroom1 (Ho1 & _ & Hfit1) Hl1].
  destruct (ok_buffer s1 a1 b1 Hok1 Hb1) as (Hwf1 & Hc1 & Hsz1 & Hm1).
  pose proof (BufferT.contents_length _ Hwf1) as Hlen1.
  apply (wp_write_block a1 b1); [done|done|done|lia|simpl; lia|]. intros b' fr Hwf' Hcap' Hsize' Hcont'.
  apply HQ. rewrite <-(insert_id (slices s1) x (o1, n)) by done.
  apply (unshared_write s x n (BufferT.capacity_ b - o) l s1 a1 o1 b1); [by split|done|done|lia|lia|].
  rewrite Hcont'. replace (BufferT.copy_at (o1 + i) [v] (BufferT.contents b1))
    with (<[Z.to_nat (o1 + i) := v]> (BufferT.contents b1)).
  - rewrite drop_insert_ge, take_insert_lt, Hl1 by lia. f_equal. lia.
  - rewrite insert_take_drop by lia. unfold BufferT.copy_at. simpl. do 3 f_equal. lia.
Qed.

Lemma wp_cow_Slice y x l offset len (Q : unit → Store → Prop) s : ok s → room (pointers s) → value s x = Some l →
  ptrs_of s !! y = None → y ≠ temporary → 0 ≤ offset → 0 ≤ len → offset + len ≤ Z.of_nat (length l) →
  (∀ s', changes s y (take (Z.to_nat len) (drop (Z.to_nat offset) l)) s' → Q tt s') →
  wp (Slice y x offset len) Q s.
Proof.
  intros Hok Hroom Hv Hy Hyt Hoff Hlen Hle HQ.
  assert (is_Some (ptrs_of s !! x)) as Hx by (unfold value in Hv; destruct (ptrs_of s !! x); [by eexists|done]).
  assert (x ≠ y) as Hxy by (intros ->; rewrite Hy in Hx; by destruct Hx).
  destruct (ok_object s x Hok Hx) as (p & o & n & Hp & Hon & Hf).
  rewrite (value_object s x p o n Hp Hon) in Hv. injection Hv as Hv.
  apply wp_bind. eapply wp_mono; [by apply (construct_copy_spec s y x p o n)|].
  intros [] s1 (Hok1 & Hp1 & Hs1 & Hb1).
  apply wp_bind, (wp_slice x o n); [by rewrite Hs1, lookup_insert_ne|].
  assert (Z.of_nat (length l) = n ∧ 0 ≤ o ∧ o + n ≤ 2 ^ 62 ∧ fits (buffers s) p (o + offset) len ∧
    slice_bytes (buffers s) p (o + offset) len = take (Z.to_nat len) (drop (Z.to_nat offset) l)) as (Hl & Ho & Hb & Hfit & Hby).
  { destruct p as [a|].
    - destruct Hf as (b & Hba & Ho & Hn & Hfit). destruct (ok_buffer s a b Hok Hba) as (Hwf & Hc & Hs & Hm).
      pose proof (BufferT.contents_length _ Hwf) as Hlc. unfold slice_bytes in *. simpl in *. rewrite Hba in *.
      assert (Z.of_nat (length l) = n) as Hl by (rewrite <-Hv, length_take, length_drop; lia).
      split_and!; [done|done|lia|exists b; split_and!; [done|lia|lia|lia]|].
      rewrite <-Hv, skipn_firstn_comm, take_take, drop_drop. f_equal; [lia|f_equal; lia].
    - destruct Hf as [-> ->]. simpl in Hv. subst l. simpl in *.
      split_and!; try done; try lia. unfold slice_bytes. simpl. by rewrite drop_nil, take_nil. }
  apply wp_bind, wp_dcheck; [intros _; lia|]. apply wp_bind, wp_dcheck.
  { intros _. rewrite wrap_u_id by (unfold in_u; lia). lia. }
  apply wp_bind, (wp_slice y o n); [by rewrite Hs1, lookup_insert_eq|].
  apply wp_modify, HQ. rewrite wrap_u_id by (unfold in_u; lia). rewrite <-Hby.
  apply (changes_slice s s1 y p (o, n) (o + offset) len); try done. by rewrite Hb1.
Qed.

Lemma wp_cow_construct x l c (Q : unit → Store → Prop) s : ok s → spare (pointers s) →
  ptrs_of s !! x = None → x ≠ temporary → 0 ≤ c → Z.max (Z.of_nat (length l)) c ≤ max_elements →
  (∀ s', changes s x l s' → Q tt s') → wp (construct_data_capacity x l c) Q s.
Proof.
  intros Hok Hroom Hx Hxt Hc Hmax HQ.
  apply wp_bind. eapply wp_mono; [apply (construct_capacity_spec s x (Z.of_nat (length l)) c); try done; lia|].
  intros [] s1 ((l1 & Hlen & [Hok1 Hv1]) & p & Hp & Hpost).
  apply wp_bind, (wp_buffer_ x p); [by apply ok_counted|done|]. destruct p as [a|].
  - destruct Hpost as (Hsole & b & Hb & Hn). destruct (ok_buffer s1 a b Hok1 Hb) as (Hwf & Hcap & Hsz & Hm).
    apply wp_bind, (wp_write_block a b); [done|done|done|lia|lia|]. intros b' fr Hwf' Hcap' Hsize' Hcont'.
    apply wp_modify, HQ. simpl.
    destruct (ok_in_place s1 x a b' 0 (Z.of_nat (length l)) fr) as [Hok' Hv']; try done; try lia.
    split; [done|]. intros y. rewrite Hv', Hv1. case_decide; [|done]. f_equal. rewrite Hcont'.
    rewrite Nat2Z.id. unfold BufferT.copy_at. apply (take_app_length l).
  - apply wp_ret, HQ. split; [done|]. intros y. rewrite Hv1. case_decide; [|done].
    destruct l, l1; simpl in *; done || lia.
Qed.

Lemma wp_cow_AppendData_buffer x buf l l0 (Q : unit → Store → Prop) s : ok s → room (pointers s) →
  value s x = Some l0 → value s buf = Some l → l ≠ [] ∨ storage s x → Z.of_nat (length l0 + length l) ≤ max_elements →
  (∀ s', changes s x (l0 ++ l) s' → Q tt s') → wp (AppendData_buffer x buf) Q s.
Proof.
  intros Hok Hroom Hv0 Hv Hl Hmax HQ.
  assert (is_Some (ptrs_of s !! buf)) as Hx by (unfold value in Hv; destruct (ptrs_of s !! buf); [by eexists|done]).
  apply wp_bind, wp_cdata; [done|done|]. intros d o n Hon Hd _ _. apply wp_bind, (wp_cow_size buf o n); [done..|].
  rewrite Hv in Hd. injection Hd as <-. by apply (wp_cow_AppendData x l l0).
Qed.
End WithImpl.

(** Reading changes nothing. *)
Lemma wp_cow_read x l i v (Q : Z → Store → Prop) s : ok s → value s x = Some l → 0 ≤ i →
  l !! Z.to_nat i = Some v → Q v s → wp (index_read x i) Q s.
Proof.
  intros Hok Hv Hi Hl HQ. pose proof (lookup_lt_Some _ _ _ Hl) as Hlt.
  assert (is_Some (ptrs_of s !! x)) as Hx by (unfold value in Hv; destruct (ptrs_of s !! x); [by eexists|done]).
  destruct (ok_object s x Hok Hx) as (p & o & n & Hp & Hon & Hf).
  apply wp_bind, (wp_cow_size x o n); [done..|].
  assert (i < n) as Hin.
  { destruct (wp_ok_inv (cdata x) (λ d _, i < n) s) as (_&_&_&?); [|done].
    apply wp_cdata; [done|done|]. intros d o' n' Hon' Hd _ _. rewrite Hon in Hon'. injection Hon' as <- <-.
    rewrite Hv in Hd. injection Hd as ->. rewrite length_take in Hlt. lia. }
  apply wp_bind, wp_dcheck; [intros _; lia|]. apply wp_bind, wp_cdata; [done|done|].
  intros d o' n' Hon' Hd Hnone _. rewrite Hon in Hon'. injection Hon' as <- <-. rewrite Hv in Hd. injection Hd as ->.
  destruct d as [l'|]; [|rewrite (Hnone eq_refl) in *; lia]. apply wp_bind. eapply wp_deref; [done|]. simpl in *.
  apply lookup_take_Some in Hl as [Hl _]. by rewrite Hl.
Qed.
End Operations.
