(* ===== verification/CopyOnWriteBufferTheorems.v ===== *)
(** Copy-on-write buffers have value semantics: whatever they share, an operation
    on one of them changes its bytes and nobody else's. *)
From S2P Require Import Prelude RefCounting Buffer CopyOnWriteBuffer CopyOnWriteBufferLemmas.
From Stdlib Require Import ZArith Lia.
From stdpp Require Import base tactics numbers strings gmap list.

Open Scope Z_scope.
Import CopyOnWriteBuffer.

(** C9. Copy-on-write buffers have value semantics.  Whatever buffers the objects of
    a store share, the following operations return, keep the counters and the objects
    consistent, and change the bytes of one object as the operation on byte strings
    says, and those of no other: writing a byte, appending, replacing, assigning,
    slicing, constructing; moving leaves the source empty (also when an object is moved to
    itself), swapping exchanges, and reading answers the byte.  The conditions: sizes stay
    within what the memory can hold and positions within the bytes; an object is
    not appended to itself, nor bytes out of its own block to it; and no bytes at all are only appended to an object with
    storage behind its offset, and only replace an object that refers to nothing, owns its
    buffer alone or has such storage ([nothing_to_append] and [nothing_to_set] are the runs
    outside of these conditions, in which the object is left inconsistent). *)
Theorem cow_value_semantics `{!Memory Z, !BuildConfig, !CopyOnWriteImpl, !CopyOnWriteLaws} (s : Store) x l :
  ok s → spare (pointers s) → value s x = Some l →
  let fresh y := ptrs (pointers s) !! y = None ∧ y ≠ temporary in
  (∀ i v, l !! i = Some v → index_read x (Z.of_nat i) s = Ok (v, s)) ∧
  (∀ i v, (i < length l)%nat → wp (index_write x (Z.of_nat i) v) (λ _, changes s x (<[i := v]> l)) s) ∧
  (∀ l', l' ≠ [] ∨ storage s x → Z.of_nat (length l + length l') ≤ max_elements →
     wp (AppendData x l') (λ _, changes s x (l ++ l')) s ∧
     (∀ buf, buf ≠ x → value s buf = Some l' → wp (AppendData_buffer x buf) (λ _, changes s x (l ++ l')) s)) ∧
  (∀ l', l' ≠ [] ∨ (∀ a, ptrs (pointers s) !! x = Some (Some a) → sole s a ∨ storage s x) →
     3 * Z.of_nat (length l') ≤ 2 * max_elements → wp (SetData x l') (λ _, changes s x l') s) ∧
  (∀ buf l', value s buf = Some l' →
     wp (assign_copy x buf) (λ _, changes s x l') s ∧ wp (SetData_buffer x buf) (λ _, changes s x l') s) ∧
  (∀ buf l', value s buf = Some l' → wp (assign_move x buf) (λ _ s', ok s' ∧ ∀ y, value s' y =
     if decide (y = buf) then Some [] else if decide (y = x) then Some l' else value s y) s) ∧
  (∀ buf l', value s buf = Some l' → wp (swap x buf) (λ _ s', ok s' ∧ ∀ y, value s' y =
     if decide (y = x) then Some l' else if decide (y = buf) then Some l else value s y) s) ∧
  (∀ y offset len, fresh y → (offset + len ≤ length l)%nat →
     wp (Slice y x (Z.of_nat offset) (Z.of_nat len)) (λ _, changes s y (take len (drop offset l))) s) ∧
  (∀ y l' c, fresh y → 0 ≤ c → Z.max (Z.of_nat (length l')) c ≤ max_elements →
     wp (construct_data_capacity y l' c) (λ _, changes s y l') s).
Proof.
  intros Hok Hspare Hv fresh. assert (room (pointers s)) as Hroom by (unfold room, spare in *; lia).
  assert (is_Some (ptrs (pointers s) !! x)) as Hx by (unfold value in Hv; destruct (ptrs (pointers s) !! x); [by eexists|done]).
  split_and!.
  - intros i v Hi. destruct (wp_ok_inv (index_read x (Z.of_nat i)) (λ r s', r = v ∧ s' = s) s) as (r & s' & -> & -> & ->);
      [|done]. apply (wp_cow_read x l _ v); [done|done|lia|by rewrite Nat2Z.id|done].
  - intros i v Hi. apply (wp_cow_index_write x l); [done|done|done|lia|]. by rewrite Nat2Z.id.
  - intros l' Hl' Hmax. split; [by apply (wp_cow_AppendData x l' l)|].
    intros buf Hne Hb. by apply (wp_cow_AppendData_buffer x buf l' l).
  - intros l' Hl' Hmax. by apply wp_cow_SetData.
  - intros buf l' Hb. by apply (wp_cow_assign_copy x buf (λ _, changes s x l') s l').
  - intros buf l' Hb. by apply (wp_cow_assign_move x buf _ s l').
  - intros buf l' Hb. by apply (wp_cow_swap x buf _ s l l').
  - intros y offset len [Hy Hyt] Hle. apply (wp_cow_Slice y x l); [done|done|done|done|done|lia|lia|lia|].
    by rewrite !Nat2Z.id.
  - intros y l' c [Hy Hyt] Hc Hmax. clear Hroom.
    apply wp_cow_construct; [exact Hok|exact Hspare|exact Hy|exact Hyt|exact Hc|exact Hmax|auto].
Qed.

(** * An implementation that keeps the laws *)

Section Sample.
Context `{!Memory Z} `{!BuildConfig}.
Implicit Types s : Store.

#[local] Abbreviation ptrs_of s := (ptrs (pointers s)).

Definition sample_copy (y x : string) : M Store unit :=
  _ ← on_pointers (scoped_refptr.construct_copy y x);
  '(o, n) ← slice x;
  set_slice y o n.

Definition sample_capacity (x : string) (n c : Z) : M Store unit :=
  _ ← on_pointers (scoped_refptr.construct x);
  _ ← set_slice x 0 0;
  if 0 <? Z.max n c then
    let l := replicate (Z.to_nat n) 0 in
    _ ← (a ← new_buffer (BufferT.construct_data_capacity l c); set_buffer_ x (Some a));
    set_slice x 0 (Z.of_nat (length l))
  else mret tt.

Definition sample_unshare (x : string) (c : Z) : M Store unit :=
  p ← buffer_ x;
  a ← deref "buffer_" p;
  one ← HasOneRef a;
  cap ← capacity x;
  if one && (c <=? cap) then mret tt
  else
    d ← cdata x;
    n ← size x;
    let l := take (Z.to_nat n) (default [] d) in
    _ ← (a ← new_buffer (BufferT.construct_data_capacity l c); set_buffer_ x (Some a));
    set_slice x 0 (Z.of_nat (length l)).

#[export] Instance sample_impl : CopyOnWriteImpl := {|
  construct_copy := sample_copy;
  construct_capacity := sample_capacity;
  UnshareAndEnsureCapacity := sample_unshare
|}.

(** A new object in a good state, with a pointer that fits. *)
Lemma ok_new_object s y p p' o n fr : ok s → assigned y p (pointers s) p' → ptrs_of s !! y = None →
  fits (buffers s) p o n → (∀ a, p = Some a → a ∈ refs (ptrs_of s)) →
  let s' := mkStore p' (filter (still_counted p') (buffers s)) (<[y := (o, n)]> (slices s)) fr in
  buffers s' = buffers s ∧ changes s y (slice_bytes (buffers s) p o n) s'.
Proof.
  intros Hok (Hp' & Hptrs & Hraw) Hy Hfit Hlive s'. rewrite (ok_raw _ Hok) in Hraw. split.
  - apply filter_counted. intros a b Hab. apply counted_iff; [done|done|]. rewrite Hptrs.
    assert (a ∈ refs (ptrs_of s)) as [z Hz]%elem_refs by (apply (ok_live _ Hok); by exists b).
    apply elem_refs. exists z. rewrite lookup_insert_ne; [done|]. intros <-. congruence.
  - assert (∀ z, is_Some (slices s !! z) ↔ is_Some (ptrs_of s !! z)) as Hsl by apply (ok_slices _ Hok).
    destruct (ok_restore p' (buffers s) (<[y := (o, n)]> (slices s)) fr) as [Hok' Hv]; try done; [apply Hok| | |].
    + intros z. rewrite Hptrs. destruct (decide (z = y)) as [->|Hne]; [|by rewrite !lookup_insert_ne].
      rewrite !lookup_insert_eq. split; intros _; by eexists.
    + intros z q o' n'. rewrite Hptrs. destruct (decide (z = y)) as [->|Hne].
      * rewrite !lookup_insert_eq. by intros [= <-] [= <- <-].
      * rewrite !lookup_insert_ne by done. apply (ok_fits _ Hok).
    + split; [done|]. intros z. rewrite Hv, Hptrs. destruct (decide (z = y)) as [->|Hne];
        [by rewrite !lookup_insert_eq|by rewrite !lookup_insert_ne].
Qed.

Lemma sample_copy_ok s y x p o n : ok s → room (pointers s) → ptrs_of s !! y = None → y ≠ temporary →
  ptrs_of s !! x = Some p → slices s !! x = Some (o, n) →
  wp (sample_copy y x) (λ _ s', ok s' ∧ ptrs_of s' = <[y := p]> (ptrs_of s) ∧
    slices s' = <[y := (o, n)]> (slices s) ∧ buffers s' = buffers s) s.
Proof.
  intros Hok Hroom Hy Hyt Hp Hon. apply wp_bind, wp_on_pointers.
  eapply wp_mono; [by apply (wp_ptr_construct_copy y x p); [apply Hok|..]|]. intros [] p' Hass fr.
  apply wp_bind, (wp_slice x o n); [done|]. apply wp_modify. simpl.
  destruct (ok_new_object s y p p' o n fr) as [Hb [Hok' _]]; try done.
  - by apply (ok_fits _ Hok x).
  - intros a ->. apply elem_refs. by exists x.
  - split_and!; try done. apply Hass.
Qed.

Lemma sample_capacity_ok s x n c : ok s → spare (pointers s) → ptrs_of s !! x = None → x ≠ temporary →
  0 ≤ n → 0 ≤ c → Z.max n c ≤ max_elements →
  wp (sample_capacity x n c) (λ _ s', (∃ l, Z.of_nat (length l) = n ∧ changes s x l s') ∧
    ∃ p, ptrs_of s' !! x = Some p ∧
      match p with
      | None => n = 0
      | Some a => sole s' a ∧ ∃ b, buffers s' !! a = Some b ∧ n ≤ BufferT.size_ b
      end) s.
Proof.
  intros Hok Hspare Hx Hxt Hn Hc Hmax. apply wp_bind, wp_on_pointers, wp_set_ptr_. intros fr.
  apply wp_bind, wp_modify. simpl. set (p' := mkPtrState _ _ _).
  assert (assigned x None (pointers s) p') as Hass.
  { split; [|done]. destruct (ok_ptrs _ Hok) as [Hh Ht]. split; simpl; [|by rewrite lookup_insert_ne].
    unfold references. simpl. by rewrite refs_insert_new. }
  destruct (ok_new_object s x None p' 0 0 fr) as [_ [Hok0 Hv0]]; try done. set (s0 := mkStore p' _ _ fr) in *.
  assert (is_Some (ptrs_of s0 !! x)) as Hx0 by (simpl; rewrite lookup_insert_eq; by eexists).
  assert (room (pointers s0)) as Hroom0.
  { unfold room, spare in *. simpl. rewrite map_size_insert_None by done. lia. }
  destruct (Z.ltb_spec 0 (Z.max n c)).
  - apply wp_bind, (wp_new_buffer x (replicate (Z.to_nat n) 0) c); try done; rewrite ?length_replicate; try lia.
    intros s' [Hok' Hv'] (a & b & Hp & Hs & Hsole & Hb & Hcap).
    assert (ptrs_of s' !! x = Some (Some a)) as Hxa by (rewrite Hp; apply lookup_insert_eq).
    assert (slices s' !! x = Some (0, Z.of_nat (Z.to_nat n))) as Hxs by (rewrite Hs; apply lookup_insert_eq).
    split.
    + exists (replicate (Z.to_nat n) 0). rewrite length_replicate. split; [lia|]. split; [done|].
      intros y. rewrite Hv', Hv0. by case_decide.
    + exists (Some a). split; [done|]. split; [done|]. exists b. split; [done|].
      destruct (ok_fits _ Hok' x _ _ _ Hxa Hxs) as (b' & Hb' & _ & _ & Hfit). rewrite Hb in Hb'. injection Hb' as <-. lia.
  - apply wp_ret. split.
    + exists []. split; [simpl; lia|]. by split.
    + exists None. split; [simpl; apply lookup_insert_eq|lia].
Qed.

Lemma sample_unshare_ok s x a o n c : ok s → room (pointers s) → ptrs_of s !! x = Some (Some a) →
  slices s !! x = Some (o, n) → 0 < c ≤ max_elements → n ≤ c →
  wp (sample_unshare x c) (λ _ s', ok s' ∧ (∀ y, value s' y = value s y) ∧
    ∃ a' o' b, ptrs_of s' = <[x := Some a']> (ptrs_of s) ∧ slices s' = <[x := (o', n)]> (slices s) ∧ sole s' a' ∧
      buffers s' !! a' = Some b ∧ c ≤ BufferT.capacity_ b - o') s.
Proof.
  intros Hok Hroom Hp Hon Hc Hnc. assert (is_Some (ptrs_of s !! x)) as Hx by (by eexists).
  destruct (ok_fits _ Hok x _ _ _ Hp Hon) as (b & Hb & Ho & Hn & Hfit).
  apply wp_bind, (wp_buffer_ x (Some a)); [by apply ok_counted|done|].
  apply wp_bind. eapply wp_deref; [done|].
  apply wp_bind, wp_HasOneRef; [done|apply elem_refs; by exists x|].
  apply wp_bind, (wp_cow_capacity x a b o n); [done..|].
  case_bool_decide as Hsole; [destruct (Z.leb_spec c (BufferT.capacity_ b - o)) as [Hle|Hgt]|].
  { apply wp_ret. split_and!; [done|done|]. exists a, o, b. rewrite !insert_id by done. by split_and!. }
  all: apply wp_bind, wp_cdata; [done|done|]; intros d o' n' Hon' Hv _ Hlen;
    rewrite Hon in Hon'; injection Hon' as <- <-; apply wp_bind, (wp_cow_size x o n); [done..|];
    assert (length (take (Z.to_nat n) (default [] d)) = Z.to_nat n) as Hl by (rewrite length_take; lia);
    apply wp_bind, wp_new_buffer; [done|done|done|lia|rewrite Hl; lia|];
    intros s' [Hok' Hv'] (a' & b' & Hp' & Hs' & Hsole' & Hb' & Hcap'); rewrite Hl in *;
    rewrite (Z2Nat.id n) in * by lia; split_and!; [done| |exists a', 0, b'; split_and!; done || lia];
    intros y; rewrite Hv'; by case_decide; subst.
Qed.

#[export] Instance sample_laws : CopyOnWriteLaws.
Proof. split; [exact sample_copy_ok|exact sample_capacity_ok|exact sample_unshare_ok]. Qed.
End Sample.

(** * Runs *)

#[local] Instance cow_checked : BuildConfig := true.

#[local] Instance zeroed_memory : Memory Z.
Proof.
  refine {| garbage := λ _ n, replicate (Z.to_nat n) 0; max_elements := 2 ^ 20 |}.
  - intros _ n Hn. rewrite length_replicate. lia.
  - done.
Defined.

(** Two empty buffers. *)
Definition two_buffers : Store :=
  mkStore (mkPtrState (mkRefHeap ∅ 0 []) {["a" := None; "b" := None]} []) ∅ {["a" := (0, 0); "b" := (0, 0)]} [].

Lemma two_buffers_ok : ok two_buffers.
Proof.
  split; simpl; try done.
  - split; [|done]. split; try done; simpl.
    + intros a Ha. by apply not_elem_of_nil in Ha.
    + intros a. split; [intros Ha; by apply not_elem_of_nil in Ha|lia].
    + apply NoDup_nil_2.
  - intros a. split; [by intros []|]. intros [x Hx]%elem_refs.
    apply lookup_insert_Some in Hx as [[_ Hx]|[_ Hx]]; [done|]. by apply lookup_singleton_Some in Hx as [_ ?].
  - intros x. destruct (decide (x = "a")) as [->|Ha]; [split; by eexists|].
    destruct (decide (x = "b")) as [->|Hb]; [split; by eexists|].
    rewrite !lookup_insert_ne, !lookup_singleton_ne by done. done.
  - intros x p o n Hp Hs. apply lookup_insert_Some in Hp as [[<- <-]|[Ha Hp]].
    + apply lookup_insert_Some in Hs as [[_ Hs]|[? _]]; [by injection Hs as <- <-|done].
    + apply lookup_singleton_Some in Hp as [<- <-]. rewrite lookup_insert_ne, lookup_singleton_eq in Hs by done.
      by injection Hs as <- <-.
Qed.

Lemma cow_value_semantics_witness :
  wp (_ ← AppendData "a" [1; 2]; _ ← assign_copy "b" "a"; _ ← index_write "b" 0 9; index_read "a" 0)
     (λ r s', r = 1 ∧ value s' "a" = Some [1; 2] ∧ value s' "b" = Some [9; 2]) two_buffers ∧
  wp (AppendData "a" [1; 2]) (λ _, changes two_buffers "a" [1; 2]) two_buffers.
Proof.
  split; [by vm_compute|].
  destruct (cow_value_semantics two_buffers "a" [] two_buffers_ok ltac:(by vm_compute) ltac:(by vm_compute))
    as (_&_&Happend&_).
  destruct (Happend [1; 2] ltac:(left; discriminate) ltac:(by vm_compute)) as [H _]. exact H.
Defined.

(** Two calls with no bytes that leave an inconsistent object: appending nothing to
    an empty buffer, and setting a slice at the end of a full buffer to nothing. *)
Lemma nothing_to_append : AppendData "a" [] two_buffers = Fault (CheckFailed "IsConsistent()").
Proof. by vm_compute. Qed.

Lemma nothing_to_set :
  (_ ← AppendData "a" [1; 2]; _ ← Slice "c" "a" 2 0; SetData "c" []) two_buffers =
  Fault (CheckFailed "IsConsistent()").
Proof. by vm_compute. Qed.
