(* ===== verification/SafeConversions.v ===== *)
(** base/numerics/safe_conversions_impl.h and safe_conversions.h, for the integer types:
    range checks, comparisons and casts between integers of different width and sign.

    A C++ integer type is an [int_type]; a value of it is a [Z].  What the compiler
    selects by template specialisation is here selected by the types, which are ordinary
    arguments.  The limits of a destination are the default ones, [std::numeric_limits].
    Conversions to a signed type that cannot represent the value wrap around, as they do
    on the compilers the library supports. *)
From S2P Require Import Prelude.
From Stdlib Require Import ZArith Lia.
From stdpp Require Import base tactics numbers strings list.

Open Scope Z_scope.

(** * Integer types *)

Inductive int_type := Int8 | UInt8 | Int16 | UInt16 | Int32 | UInt32 | Int64 | UInt64.

#[global] Instance int_type_eq_dec : EqDecision int_type.
Proof. solve_decision. Defined.

Definition int_signed (T : int_type) : bool :=
  match T with Int8 | Int16 | Int32 | Int64 => true | _ => false end.

(** [IntegerBitsPlusSign] *)
Definition int_bits (T : int_type) : Z :=
  match T with
  | Int8 | UInt8 => 8 | Int16 | UInt16 => 16 | Int32 | UInt32 => 32 | Int64 | UInt64 => 64
  end.

(** [std::numeric_limits<T>::digits], [max()] and [lowest()] *)
Definition digits (T : int_type) : Z := if int_signed T then int_bits T - 1 else int_bits T.
Definition numeric_max (T : int_type) : Z := 2 ^ digits T - 1.
Definition numeric_lowest (T : int_type) : Z := if int_signed T then - 2 ^ digits T else 0.

Definition make_unsigned (T : int_type) : int_type :=
  match T with
  | Int8 | UInt8 => UInt8 | Int16 | UInt16 => UInt16 | Int32 | UInt32 => UInt32 | Int64 | UInt64 => UInt64
  end.
Definition make_signed (T : int_type) : int_type :=
  match T with
  | Int8 | UInt8 => Int8 | Int16 | UInt16 => Int16 | Int32 | UInt32 => Int32 | Int64 | UInt64 => Int64
  end.

(** [static_cast<T>(z)] *)
Definition cast (T : int_type) (z : Z) : Z :=
  if int_signed T then wrap_s (int_bits T) z else wrap_u (int_bits T) z.

(** The values of a type. *)
Definition fits (T : int_type) (z : Z) : bool := (numeric_lowest T <=? z) && (z <=? numeric_max T).

(** [decltype(T() + U())]: the integer promotions and the usual arithmetic conversions. *)
Definition promote (T : int_type) : int_type := if int_bits T <? 32 then Int32 else T.
Definition common_type (T U : int_type) : int_type :=
  let T := promote T in
  let U := promote U in
  if eqb (int_signed T) (int_signed U) then if int_bits U <=? int_bits T then T else U
  else
    let '(s, u) := if int_signed T then (T, U) else (U, T) in
    if int_bits s <=? int_bits u then u else s.

(** * Helpers *)

Definition MaxExponent (T : int_type) : Z := digits T + 1.

Definition IsValueNegative (T : int_type) (value : Z) : bool :=
  if int_signed T then value <? 0 else false.

Definition ConditionalNegate (T : int_type) (x : Z) (is_negative : bool) : Z :=
  cast (make_signed T)
    (Z.lxor (cast (make_unsigned T) x) (- Z.b2z is_negative) + Z.b2z is_negative).

Definition SafeUnsignedAbs (T : int_type) (value : Z) : Z :=
  let UnsignedT := make_unsigned T in
  if IsValueNegative T value then cast UnsignedT (0 - cast UnsignedT value)
  else cast UnsignedT value.

Definition as_signed (T : int_type) (value : Z) : Z := cast (make_signed T) value.
Definition as_unsigned (T : int_type) (value : Z) : Z := cast (make_unsigned T) value.

(** [StaticDstRangeRelationToSrcRange], true for [NUMERIC_RANGE_CONTAINED] *)
Definition StaticDstRangeRelationToSrcRange (Dst Src : int_type) : bool :=
  match int_signed Dst, int_signed Src with
  | true, true | false, false => MaxExponent Src <=? MaxExponent Dst
  | true, false => MaxExponent Src <? MaxExponent Dst
  | false, true => false
  end.
Definition IsTypeInRangeForNumericType (Dst Src : int_type) : bool :=
  StaticDstRangeRelationToSrcRange Dst Src.

(** ** Range checks *)

Record RangeCheck := mkRangeCheck { is_underflow_ : bool; is_overflow_ : bool }.
Definition range_check (is_in_lower_bound is_in_upper_bound : bool) : RangeCheck :=
  mkRangeCheck (negb is_in_lower_bound) (negb is_in_upper_bound).
Definition rc_IsValid (r : RangeCheck) : bool := negb (is_overflow_ r) && negb (is_underflow_ r).
Definition rc_IsInvalid (r : RangeCheck) : bool := is_overflow_ r && is_underflow_ r.
Definition rc_IsOverflow (r : RangeCheck) : bool := is_overflow_ r && negb (is_underflow_ r).
Definition rc_IsUnderflow (r : RangeCheck) : bool := negb (is_overflow_ r) && is_underflow_ r.
Definition rc_eq (r s : RangeCheck) : bool :=
  eqb (is_underflow_ r) (is_underflow_ s) && eqb (is_overflow_ r) (is_overflow_ s).
Definition rc_ne (r s : RangeCheck) : bool := negb (rc_eq r s).

(** [NarrowingRange<Dst, Src, std::numeric_limits>] *)
Definition kShift (Dst Src : int_type) : Z :=
  if (MaxExponent Dst <? MaxExponent Src) && (digits Src <? digits Dst)
  then digits Dst - digits Src else 0.
Definition Adjust (Dst Src : int_type) (value : Z) : Z :=
  let T := common_type (make_unsigned Dst) Dst in
  cast Dst (ConditionalNegate T
    (Z.land (SafeUnsignedAbs Dst value) (cast T (Z.lnot (Z.shiftl 1 (kShift Dst Src) - 1))))
    (IsValueNegative Dst value)).
Definition narrowing_max (Dst Src : int_type) : Z := Adjust Dst Src (numeric_max Dst).
Definition narrowing_lowest (Dst Src : int_type) : Z := Adjust Dst Src (numeric_lowest Dst).

(** The five specialisations of [DstRangeRelationToSrcRangeImpl::Check]. *)
Definition Check_contained (Dst Src : int_type) (value : Z) : RangeCheck :=
  range_check
    ((narrowing_lowest Dst Src <=? cast Dst (numeric_lowest Src)) ||
     (narrowing_lowest Dst Src <=? cast Dst value))
    ((cast Dst (numeric_max Src) <=? narrowing_max Dst Src) ||
     (cast Dst value <=? narrowing_max Dst Src)).
Definition Check_signed (Dst Src : int_type) (value : Z) : RangeCheck :=
  range_check (narrowing_lowest Dst Src <=? value) (value <=? narrowing_max Dst Src).
Definition Check_unsigned (Dst Src : int_type) (value : Z) : RangeCheck :=
  range_check ((narrowing_lowest Dst Src =? 0) || (narrowing_lowest Dst Src <=? value))
    (value <=? narrowing_max Dst Src).
Definition Check_unsigned_to_signed (Dst Src : int_type) (value : Z) : RangeCheck :=
  let Promotion := common_type Src Dst in
  range_check
    ((narrowing_lowest Dst Src <=? 0) ||
     (cast Promotion (narrowing_lowest Dst Src) <=? cast Promotion value))
    (cast Promotion value <=? cast Promotion (narrowing_max Dst Src)).
Definition Check_signed_to_unsigned (Dst Src : int_type) (value : Z) : RangeCheck :=
  let Promotion := common_type Src Dst in
  range_check
    ((0 <=? value) && ((narrowing_lowest Dst Src =? 0) || (narrowing_lowest Dst Src <=? cast Dst value)))
    ((cast Promotion (numeric_max Src) <=? cast Promotion (narrowing_max Dst Src)) ||
     (cast Promotion value <=? cast Promotion (narrowing_max Dst Src))).

Definition DstRangeRelationToSrcRange (Dst Src : int_type) (value : Z) : RangeCheck :=
  if StaticDstRangeRelationToSrcRange Dst Src then Check_contained Dst Src value
  else
    match int_signed Dst, int_signed Src with
    | true, true => Check_signed Dst Src value
    | false, false => Check_unsigned Dst Src value
    | true, false => Check_unsigned_to_signed Dst Src value
    | false, true => Check_signed_to_unsigned Dst Src value
    end.

(** ** Promotions *)

(** [TwiceWiderInteger]; there is none of more than 64 bits, and none is asked for. *)
Definition TwiceWiderInteger (T : int_type) (IsSigned : bool) : int_type :=
  match make_signed T, IsSigned with
  | Int8, true => Int16 | Int8, false => UInt16
  | Int16, true => Int32 | Int16, false => UInt32
  | _, true => Int64 | _, false => UInt64
  end.

Definition MaxExponentPromotion (Lhs Rhs : int_type) : int_type :=
  if MaxExponent Rhs <? MaxExponent Lhs then Lhs else Rhs.

Definition LowestValuePromotion (Lhs Rhs : int_type) : int_type :=
  match int_signed Lhs, int_signed Rhs with
  | true, true => if MaxExponent Rhs <? MaxExponent Lhs then Lhs else Rhs
  | true, false => Lhs
  | false, true => Rhs
  | false, false => if MaxExponent Lhs <? MaxExponent Rhs then Lhs else Rhs
  end.

(** [BigEnoughPromotion]: the type, and [is_contained]. *)
Definition BigEnoughPromotion (Lhs Rhs : int_type) : int_type * bool :=
  let T := MaxExponentPromotion Lhs Rhs in
  let is_intmax_type := int_bits T =? 64 in
  let is_max_exponent :=
    StaticDstRangeRelationToSrcRange T Lhs && StaticDstRangeRelationToSrcRange T Rhs in
  if is_max_exponent then (T, true)
  else if negb is_intmax_type then (TwiceWiderInteger T (int_signed Lhs || int_signed Rhs), true)
  else (T, false).

Definition IsIntegerArithmeticSafe (T Lhs Rhs : int_type) : bool :=
  implb (int_signed Lhs) (int_signed T) && (2 * int_bits Lhs <=? int_bits T) &&
  implb (int_signed Rhs) (int_signed T) && (2 * int_bits Rhs <=? int_bits T).

Definition FastIntegerArithmeticPromotion (Lhs Rhs : int_type) : int_type :=
  let s := int_signed Lhs || int_signed Rhs in
  let T := MaxExponentPromotion Lhs Rhs in
  if IsIntegerArithmeticSafe (if s then Int64 else UInt64) T T then TwiceWiderInteger T s
  else fst (BigEnoughPromotion Lhs Rhs).

(** ** Comparisons *)

Inductive comparison_op := IsLess | IsLessOrEqual | IsGreater | IsGreaterOrEqual | IsEqual | IsNotEqual.

Definition IsLessImpl (L R : int_type) (lhs rhs : Z) (l_range r_range : RangeCheck) : bool :=
  rc_IsUnderflow l_range || rc_IsOverflow r_range ||
  (rc_eq l_range r_range && (cast (common_type L R) lhs <? cast (common_type L R) rhs)).
Definition IsLessOrEqualImpl (L R : int_type) (lhs rhs : Z) (l_range r_range : RangeCheck) : bool :=
  rc_IsUnderflow l_range || rc_IsOverflow r_range ||
  (rc_eq l_range r_range && (cast (common_type L R) lhs <=? cast (common_type L R) rhs)).
Definition IsGreaterImpl (L R : int_type) (lhs rhs : Z) (l_range r_range : RangeCheck) : bool :=
  rc_IsOverflow l_range || rc_IsUnderflow r_range ||
  (rc_eq l_range r_range && (cast (common_type L R) rhs <? cast (common_type L R) lhs)).
Definition IsGreaterOrEqualImpl (L R : int_type) (lhs rhs : Z) (l_range r_range : RangeCheck) : bool :=
  rc_IsOverflow l_range || rc_IsUnderflow r_range ||
  (rc_eq l_range r_range && (cast (common_type L R) rhs <=? cast (common_type L R) lhs)).

(** [C<L, R>::Test(lhs, rhs)] *)
Definition Test (C : comparison_op) (L R : int_type) (lhs rhs : Z) : bool :=
  let l_range := DstRangeRelationToSrcRange R L lhs in
  let r_range := DstRangeRelationToSrcRange L R rhs in
  match C with
  | IsLess => IsLessImpl L R lhs rhs l_range r_range
  | IsLessOrEqual => IsLessOrEqualImpl L R lhs rhs l_range r_range
  | IsGreater => IsGreaterImpl L R lhs rhs l_range r_range
  | IsGreaterOrEqual => IsGreaterOrEqualImpl L R lhs rhs l_range r_range
  | IsEqual => rc_eq l_range r_range && (cast (common_type L R) lhs =? cast (common_type L R) rhs)
  | IsNotEqual => rc_ne l_range r_range || negb (cast (common_type L R) lhs =? cast (common_type L R) rhs)
  end.

Definition SafeCompare (C : comparison_op) (L R : int_type) (lhs rhs : Z) : bool :=
  let '(BigType, is_contained) := BigEnoughPromotion L R in
  if is_contained then Test C BigType BigType (cast BigType (cast L lhs)) (cast BigType (cast R rhs))
  else Test C L R lhs rhs.

(** ** Limits in common *)

Definition IsMaxInRangeForNumericType (Dst Src : int_type) : bool :=
  Test IsGreaterOrEqual Dst Src (numeric_max Dst) (numeric_max Src).
Definition IsMinInRangeForNumericType (Dst Src : int_type) : bool :=
  Test IsLessOrEqual Dst Src (numeric_lowest Dst) (numeric_lowest Src).
Definition CommonMax (Dst Src : int_type) : Z :=
  if negb (IsMaxInRangeForNumericType Dst Src) then cast Dst (numeric_max Dst)
  else cast Dst (numeric_max Src).
Definition CommonMin (Dst Src : int_type) : Z :=
  if negb (IsMinInRangeForNumericType Dst Src) then cast Dst (numeric_lowest Dst)
  else cast Dst (numeric_lowest Src).
Definition CommonMaxOrMin (Dst Src : int_type) (is_min : bool) : Z :=
  if is_min then CommonMin Dst Src else CommonMax Dst Src.

(** * Casts *)

(** [IsValueInRangeFastOp::Do], and [None] where it is not supported. *)
Definition IsValueInRangeFastOp (Dst Src : int_type) (value : Z) : option bool :=
  if IsTypeInRangeForNumericType Dst Src then None
  else
    match int_signed Dst, int_signed Src with
    | true, true => Some (value =? cast Dst value)
    | false, true => Some (as_unsigned Src value <=? as_unsigned Src (CommonMax Src Dst))
    | _, _ => None
    end.

Definition IsValueInRangeForNumericType (Dst Src : int_type) (value : Z) : bool :=
  match IsValueInRangeFastOp Dst Src value with
  | Some b => b
  | None => rc_IsValid (DstRangeRelationToSrcRange Dst Src value)
  end.

(** [CheckOnFailure::HandleFailure]: a crash. *)
Definition HandleFailure {S A} : M S A := fail (CheckFailed "numeric boundary").

Definition checked_cast {S} (Dst Src : int_type) (value : Z) : M S Z :=
  if IsValueInRangeForNumericType Dst Src value then mret (cast Dst (cast Src value))
  else HandleFailure.

(** [SaturationDefaultLimits], for integers *)
Definition saturation_NaN : Z := 0.
Definition saturation_Overflow (T : int_type) : Z := numeric_max T.
Definition saturation_Underflow (T : int_type) : Z := numeric_lowest T.

Definition saturated_cast_impl (Dst : int_type) (value : Z) (constraint : RangeCheck) : Z :=
  if negb (is_overflow_ constraint) then
    if negb (is_underflow_ constraint) then cast Dst value else saturation_Underflow Dst
  else saturation_Overflow Dst.

(** [SaturateFastOp::Do], where there are no saturation instructions *)
Definition SaturateFastOp (Dst Src : int_type) (value : Z) : Z :=
  let saturated := CommonMaxOrMin Dst Src
    (IsMaxInRangeForNumericType Dst Src ||
     (negb (IsMinInRangeForNumericType Dst Src) && IsValueNegative Src value)) in
  if IsValueInRangeForNumericType Dst Src value then cast Dst value else saturated.

(** [constant] is [IsCompileTimeConstant(value)]. *)
Definition saturated_cast (constant : bool) (Dst Src : int_type) (value : Z) : Z :=
  if negb constant then SaturateFastOp Dst Src (cast Src value)
  else saturated_cast_impl Dst (cast Src value) (DstRangeRelationToSrcRange Dst Src (cast Src value)).

(** [strict_cast]: [None] is the failed static assertion. *)
Definition strict_cast (Dst Src : int_type) (value : Z) : option Z :=
  if StaticDstRangeRelationToSrcRange Dst Src then Some (cast Dst (cast Src value)) else None.
