(* ===== verification/SafeConversionsTheorems.v ===== *)
(** What the range checks, comparisons and casts of base/numerics answer: the facts about
    the integers themselves. *)
From S2P Require Import Prelude SafeConversions.
From Stdlib Require Import ZArith Lia.
From stdpp Require Import base tactics numbers strings list.

Open Scope Z_scope.

(** * Values and casts *)

Definition in_range (T : int_type) (z : Z) : Prop := numeric_lowest T ≤ z ≤ numeric_max T.

Lemma fits_spec T z : fits T z = true ↔ in_range T z.
Proof. unfold fits, in_range. rewrite andb_true_iff, !Z.leb_le. done. Qed.

#[global] Instance in_range_dec T z : Decision (in_range T z).
Proof. unfold in_range. apply _. Defined.

(** The limits, as numbers. *)
Ltac limits T :=
  destruct T; cbv [in_range numeric_lowest numeric_max digits int_signed int_bits Z.sub Z.opp Z.add
    Z.pow Z.pow_pos Pos.iter Z.mul Pos.mul Pos.add Z.pos_sub Pos.pred_double Pos.sub Pos.sub_mask
    Pos.double_mask Pos.succ_double_mask Pos.double_pred_mask Pos.pred_mask Pos.add_carry Pos.succ] in *.

Lemma in_range_signed T z : in_range T z ↔
  if int_signed T then in_s (int_bits T) z else in_u (int_bits T) z.
Proof. unfold in_s, in_u. limits T; lia. Qed.

Lemma cast_range T z : in_range T (cast T z).
Proof.
  apply in_range_signed. unfold cast. destruct (int_signed T) eqn:E.
  - apply wrap_s_range. by destruct T.
  - apply wrap_u_range. by destruct T.
Qed.

Lemma cast_id T z : in_range T z → cast T z = z.
Proof.
  rewrite in_range_signed. unfold cast. destruct (int_signed T).
  - apply wrap_s_id. by destruct T.
  - apply wrap_u_id.
Qed.

Lemma cast_eq T z : cast T z = z ↔ in_range T z.
Proof. split; [|apply cast_id]. intros <-. apply cast_range. Qed.

(** A cast keeps the value modulo the size of the type, and is determined by it. *)
Lemma cast_mod T z : cast T z mod 2 ^ int_bits T = z mod 2 ^ int_bits T.
Proof.
  unfold cast. destruct (int_signed T).
  - apply wrap_s_mod. by destruct T.
  - unfold wrap_u. by rewrite Z.mod_mod by by destruct T.
Qed.

Lemma cast_unique T z y : in_range T y → y mod 2 ^ int_bits T = z mod 2 ^ int_bits T → cast T z = y.
Proof.
  intros Hy Hm. transitivity (cast T y); [|by apply cast_id].
  unfold cast, wrap_s, wrap_u. destruct (int_signed T); [|done].
  by rewrite <-Zplus_mod_idemp_l, <-Hm, Zplus_mod_idemp_l.
Qed.

Lemma cast_cast T z : cast T (cast T z) = cast T z.
Proof. apply cast_id, cast_range. Qed.

(** Casting between types of the same width does not lose anything. *)
Lemma cast_via T U z : int_bits U = int_bits T → cast T (cast U z) = cast T z.
Proof.
  intros Hb. apply cast_unique; [apply cast_range|]. rewrite cast_mod, <-Hb.
  by rewrite cast_mod.
Qed.

#[export] Hint Resolve cast_range cast_id : spitfire.

(** * Range checks *)

Lemma contains_spec Dst Src :
  StaticDstRangeRelationToSrcRange Dst Src = true ↔
  numeric_lowest Dst ≤ numeric_lowest Src ∧ numeric_max Src ≤ numeric_max Dst.
Proof. destruct Dst, Src; vm_compute; naive_solver. Qed.

Lemma contains_range Dst Src z :
  StaticDstRangeRelationToSrcRange Dst Src = true → in_range Src z → in_range Dst z.
Proof. rewrite contains_spec. unfold in_range. lia. Qed.

(** The limits of [NarrowingRange] are those of the type, for integers. *)
Lemma narrowing_limits Dst Src :
  narrowing_lowest Dst Src = numeric_lowest Dst ∧ narrowing_max Dst Src = numeric_max Dst.
Proof. by destruct Dst, Src; vm_compute. Qed.

(** The promoted type of the checks on different signs holds the values it is asked for. *)
Lemma promotion_holds Dst Src z :
  int_signed Dst ≠ int_signed Src → 0 ≤ z → in_range Src z ∨ in_range Dst z →
  in_range (common_type Src Dst) z.
Proof.
  intros Hs Hz H. unfold in_range in *.
  assert (numeric_lowest (common_type Src Dst) ≤ 0 ∧
    numeric_max Src ≤ numeric_max (common_type Src Dst) ∧
    numeric_max Dst ≤ numeric_max (common_type Src Dst)) as (H1&H2&H3); [|lia].
  by destruct Dst, Src; try done; vm_compute.
Qed.

Lemma lowest_unsigned T : int_signed T = false → numeric_lowest T = 0.
Proof. unfold numeric_lowest. by intros ->. Qed.

Lemma zero_in_range T : in_range T 0.
Proof. unfold in_range. by destruct T. Qed.

Lemma max_in_range T : in_range T (numeric_max T).
Proof. unfold in_range. by destruct T. Qed.

Lemma lowest_in_range T : in_range T (numeric_lowest T).
Proof. unfold in_range. by destruct T. Qed.

(** A narrower unsigned destination is compared in a type that has the source. *)
Lemma narrower_unsigned Dst Src z :
  int_signed Dst = false → int_signed Src = true → numeric_max Dst < numeric_max Src →
  in_range Src z → in_range (common_type Src Dst) z.
Proof.
  intros Hd Hs Hlt Hz. apply (contains_range _ Src); [|done].
  destruct Dst, Src; try done; vm_compute in Hlt |- *; by try discriminate Hlt.
Qed.

Lemma range_check_to_signed Dst Src value :
  int_signed Dst = true → int_signed Src = false → in_range Src value →
  Check_unsigned_to_signed Dst Src value =
  range_check (numeric_lowest Dst <=? value) (value <=? numeric_max Dst).
Proof.
  intros Ed Es Hv. unfold Check_unsigned_to_signed. destruct (narrowing_limits Dst Src) as [-> ->].
  pose proof (lowest_unsigned _ Es) as Hl. pose proof (zero_in_range Dst) as H0.
  assert (0 ≤ value) as Hpos by (unfold in_range in Hv; lia). unfold in_range in H0.
  rewrite (cast_id _ value) by (apply promotion_holds; [congruence|lia|by left]).
  rewrite (cast_id _ (numeric_max Dst))
    by (apply promotion_holds; [congruence|lia|right; apply max_in_range]).
  by rewrite (proj2 (Z.leb_le (numeric_lowest Dst) 0)), (proj2 (Z.leb_le (numeric_lowest Dst) value)) by lia.
Qed.

Lemma range_check_to_unsigned Dst Src value :
  int_signed Dst = false → int_signed Src = true → in_range Src value →
  Check_signed_to_unsigned Dst Src value =
  range_check (numeric_lowest Dst <=? value) (value <=? numeric_max Dst).
Proof.
  intros Ed Es Hv. unfold Check_signed_to_unsigned. destruct (narrowing_limits Dst Src) as [-> ->].
  rewrite (lowest_unsigned _ Ed), Z.eqb_refl, orb_true_l, andb_true_r. f_equal.
  pose proof (zero_in_range Dst) as H0. pose proof (zero_in_range Src) as H0'. unfold in_range in *.
  rewrite (cast_id _ (numeric_max Src))
    by (apply promotion_holds; [congruence|lia|left; apply max_in_range]).
  rewrite (cast_id _ (numeric_max Dst))
    by (apply promotion_holds; [congruence|lia|right; apply max_in_range]).
  destruct (Z.leb_spec (numeric_max Src) (numeric_max Dst)).
  - symmetry. apply Z.leb_le. lia.
  - by rewrite (cast_id _ value) by by apply narrower_unsigned.
Qed.

(** The check answers which limits the value keeps. *)
Lemma range_check_spec Dst Src value :
  in_range Src value →
  DstRangeRelationToSrcRange Dst Src value =
  range_check (numeric_lowest Dst <=? value) (value <=? numeric_max Dst).
Proof.
  intros Hv. unfold DstRangeRelationToSrcRange.
  destruct (StaticDstRangeRelationToSrcRange Dst Src) eqn:Ec.
  - unfold Check_contained. destruct (narrowing_limits Dst Src) as [-> ->].
    pose proof (contains_range _ _ _ Ec Hv) as Hd.
    rewrite (cast_id Dst value) by done.
    rewrite (cast_id Dst (numeric_lowest Src)) by (apply (contains_range _ _ _ Ec), lowest_in_range).
    rewrite (cast_id Dst (numeric_max Src)) by (apply (contains_range _ _ _ Ec), max_in_range).
    apply contains_spec in Ec as [H1 H2]. unfold in_range in *.
    by rewrite !(proj2 (Z.leb_le _ _)) by lia.
  - destruct (int_signed Dst) eqn:Ed, (int_signed Src) eqn:Es.
    + unfold Check_signed. by destruct (narrowing_limits Dst Src) as [-> ->].
    + by apply range_check_to_signed.
    + by apply range_check_to_unsigned.
    + unfold Check_unsigned. destruct (narrowing_limits Dst Src) as [-> ->].
      unfold in_range in Hv. rewrite (lowest_unsigned _ Es) in Hv.
      rewrite (lowest_unsigned _ Ed), Z.eqb_refl. simpl.
      by rewrite (proj2 (Z.leb_le 0 value)) by lia.
Qed.

(** * Comparisons *)

(** Both operands fit into both types: so they do into the common one. *)
Lemma common_holds L R z : in_range L z → in_range R z → in_range (common_type L R) z.
Proof.
  intros Hl Hr. unfold in_range in *.
  assert ((numeric_lowest (common_type L R) ≤ numeric_lowest L ∨
           numeric_lowest (common_type L R) ≤ numeric_lowest R) ∧
          (numeric_max L ≤ numeric_max (common_type L R) ∨
           numeric_max R ≤ numeric_max (common_type L R))) as [H1 H2]; [|lia].
  destruct L, R; (split; first [left; by vm_compute | right; by vm_compute]).
Qed.

Definition compare_spec (C : comparison_op) (x y : Z) : bool :=
  match C with
  | IsLess => x <? y | IsLessOrEqual => x <=? y | IsGreater => y <? x
  | IsGreaterOrEqual => y <=? x | IsEqual => x =? y | IsNotEqual => negb (x =? y)
  end.

Lemma Test_spec C L R lhs rhs :
  in_range L lhs → in_range R rhs → Test C L R lhs rhs = compare_spec C lhs rhs.
Proof.
  intros Hl Hr. unfold Test. rewrite !range_check_spec by done.
  destruct (decide (in_range R lhs ∧ in_range L rhs)) as [[Hl' Hr']|Hout].
  - unfold IsLessImpl, IsLessOrEqualImpl, IsGreaterImpl, IsGreaterOrEqualImpl.
    rewrite !(cast_id (common_type L R)) by by apply common_holds. unfold in_range in *.
    rewrite !(proj2 (Z.leb_le _ _)) by lia. by destruct C.
  - unfold in_range in *.
    destruct C; unfold IsLessImpl, IsLessOrEqualImpl, IsGreaterImpl, IsGreaterOrEqualImpl, compare_spec,
      range_check, rc_IsUnderflow, rc_IsOverflow, rc_eq, rc_ne; cbn [is_underflow_ is_overflow_].
    all: destruct (Z.leb_spec (numeric_lowest R) lhs), (Z.leb_spec lhs (numeric_max R)),
      (Z.leb_spec (numeric_lowest L) rhs), (Z.leb_spec rhs (numeric_max L)); simpl; try lia;
      symmetry; rewrite ?Z.ltb_lt, ?Z.ltb_ge, ?Z.leb_le, ?Z.leb_gt, ?Z.eqb_neq, ?negb_true_iff, ?Z.eqb_neq; lia.
Qed.

(** A type called big enough has the values of both sides. *)
Lemma big_enough_contains L R B :
  BigEnoughPromotion L R = (B, true) →
  StaticDstRangeRelationToSrcRange B L = true ∧ StaticDstRangeRelationToSrcRange B R = true.
Proof. destruct L, R; vm_compute; by intros [= <-]. Qed.

Lemma SafeCompare_spec C L R lhs rhs :
  in_range L lhs → in_range R rhs → SafeCompare C L R lhs rhs = compare_spec C lhs rhs.
Proof.
  intros Hl Hr. unfold SafeCompare. destruct (BigEnoughPromotion L R) as [B []] eqn:EB; [|by apply Test_spec].
  apply big_enough_contains in EB as [Bl Br].
  rewrite (cast_id L), (cast_id R) by done.
  rewrite !(cast_id B) by eauto using contains_range. apply Test_spec; eauto using contains_range.
Qed.

(** * Limits and casts *)

Lemma CommonMax_spec Dst Src : CommonMax Dst Src = Z.min (numeric_max Dst) (numeric_max Src).
Proof. by destruct Dst, Src; vm_compute. Qed.

Lemma CommonMin_spec Dst Src : CommonMin Dst Src = Z.max (numeric_lowest Dst) (numeric_lowest Src).
Proof. by destruct Dst, Src; vm_compute. Qed.

Lemma signed_limits T : int_signed T = true →
  2 ^ int_bits T = 2 * (numeric_max T + 1) ∧ numeric_lowest T = - (numeric_max T + 1) ∧ 0 < numeric_max T.
Proof. by destruct T; vm_compute. Qed.

Lemma unsigned_limits T : int_signed T = false →
  2 ^ int_bits T = numeric_max T + 1 ∧ numeric_lowest T = 0 ∧ 0 < numeric_max T.
Proof. by destruct T; vm_compute. Qed.

Lemma as_unsigned_signed Src value : int_signed Src = true → in_range Src value →
  as_unsigned Src value = if value <? 0 then value + 2 ^ int_bits Src else value.
Proof.
  intros Hs Hv. unfold as_unsigned, cast, wrap_u. replace (int_signed (make_unsigned Src)) with false by by destruct Src.
  replace (int_bits (make_unsigned Src)) with (int_bits Src) by by destruct Src.
  destruct (signed_limits Src Hs) as (Hp&Hl&Hm). unfold in_range in Hv.
  destruct (Z.ltb_spec value 0).
  - symmetry. apply Z.mod_unique with (-1); [left|]; lia.
  - apply Z.mod_small. lia.
Qed.

Lemma in_range_check Dst Src value : in_range Src value →
  IsValueInRangeForNumericType Dst Src value = fits Dst value.
Proof.
  intros Hv. unfold IsValueInRangeForNumericType, IsValueInRangeFastOp, IsTypeInRangeForNumericType.
  assert (rc_IsValid (DstRangeRelationToSrcRange Dst Src value) = fits Dst value) as Hrc.
  { rewrite range_check_spec by done. unfold rc_IsValid, fits. simpl. by rewrite !negb_involutive, andb_comm. }
  destruct (StaticDstRangeRelationToSrcRange Dst Src) eqn:Ec; [done|].
  destruct (int_signed Dst) eqn:Ed, (int_signed Src) eqn:Es; [|done| |done].
  - apply eq_true_iff_eq. rewrite fits_spec, Z.eqb_eq, <-cast_eq. naive_solver.
  - pose proof (zero_in_range Dst) as H0. destruct (signed_limits Src Es) as (Hp&Hlow&Hmax).
    assert (in_range Src (Z.min (numeric_max Src) (numeric_max Dst))) as Hmin
      by (unfold in_range in *; lia).
    rewrite CommonMax_spec, (as_unsigned_signed _ _ Es Hv), (as_unsigned_signed _ _ Es Hmin).
    apply eq_true_iff_eq. rewrite fits_spec, Z.leb_le.
    unfold in_range in *. rewrite (lowest_unsigned _ Ed) in *.
    destruct (Z.ltb_spec value 0), (Z.ltb_spec (Z.min (numeric_max Src) (numeric_max Dst)) 0); lia.
Qed.

(** The value of the type nearest to an integer. *)
Definition clamp (T : int_type) (z : Z) : Z := Z.max (numeric_lowest T) (Z.min (numeric_max T) z).

Lemma clamp_id T z : in_range T z → clamp T z = z.
Proof. unfold clamp, in_range. lia. Qed.

Lemma clamp_range T z : in_range T (clamp T z).
Proof. pose proof (zero_in_range T). unfold clamp, in_range in *. lia. Qed.

Lemma clamp_high T z : numeric_max T ≤ z → clamp T z = numeric_max T.
Proof. pose proof (zero_in_range T). unfold clamp, in_range in *. lia. Qed.

Lemma clamp_low T z : z ≤ numeric_lowest T → clamp T z = numeric_lowest T.
Proof. pose proof (zero_in_range T). unfold clamp, in_range in *. lia. Qed.

Lemma min_in_range_spec Dst Src :
  IsMinInRangeForNumericType Dst Src = (numeric_lowest Dst <=? numeric_lowest Src).
Proof. apply (Test_spec IsLessOrEqual); apply lowest_in_range. Qed.

Lemma max_in_range_spec Dst Src :
  IsMaxInRangeForNumericType Dst Src = (numeric_max Src <=? numeric_max Dst).
Proof. apply (Test_spec IsGreaterOrEqual); apply max_in_range. Qed.

Lemma IsValueNegative_spec T value : in_range T value → IsValueNegative T value = (value <? 0).
Proof.
  intros H. unfold IsValueNegative. destruct (int_signed T) eqn:E; [done|].
  unfold in_range in H. rewrite (lowest_unsigned _ E) in H. symmetry. apply Z.ltb_ge. lia.
Qed.

Lemma SaturateFastOp_spec Dst Src value : in_range Src value → SaturateFastOp Dst Src value = clamp Dst value.
Proof.
  intros Hv. unfold SaturateFastOp. rewrite in_range_check by done.
  destruct (fits Dst value) eqn:Ef.
  - apply fits_spec in Ef. by rewrite cast_id, clamp_id.
  - assert (¬ in_range Dst value) as Hout by (rewrite <-fits_spec; congruence).
    rewrite max_in_range_spec, min_in_range_spec, IsValueNegative_spec by done.
    unfold CommonMaxOrMin. rewrite CommonMax_spec, CommonMin_spec.
    pose proof (zero_in_range Dst). unfold in_range, clamp in *.
    destruct (Z.leb_spec (numeric_max Src) (numeric_max Dst)); simpl; [lia|].
    destruct (Z.leb_spec (numeric_lowest Dst) (numeric_lowest Src)); simpl; [lia|].
    destruct (Z.ltb_spec value 0); lia.
Qed.

Lemma checked_cast_spec {S} Dst Src value (s : S) : in_range Src value →
  checked_cast Dst Src value s =
  if fits Dst value then Ok (value, s) else Fault (CheckFailed "numeric boundary").
Proof.
  intros Hv. unfold checked_cast. rewrite in_range_check by done. destruct (fits Dst value) eqn:E; [|done].
  apply fits_spec in E. by rewrite (cast_id Src), (cast_id Dst).
Qed.

Lemma saturated_cast_spec constant Dst Src value : in_range Src value →
  saturated_cast constant Dst Src value = clamp Dst value.
Proof.
  intros Hv. unfold saturated_cast. rewrite (cast_id Src) by done.
  destruct constant; simpl; [|by apply SaturateFastOp_spec].
  rewrite range_check_spec by done. unfold saturated_cast_impl, range_check, clamp. cbn [is_overflow_ is_underflow_].
  pose proof (zero_in_range Dst). unfold in_range, saturation_Overflow, saturation_Underflow in *.
  destruct (Z.leb_spec value (numeric_max Dst)), (Z.leb_spec (numeric_lowest Dst) value); simpl; try lia.
  rewrite cast_id by (unfold in_range; lia). lia.
Qed.

(** Between any two integer types: a value is reported in range exactly when the
    destination has it; [checked_cast] returns it unchanged then and crashes otherwise;
    [saturated_cast] gives the nearest value of the destination, in the fast and in the
    constant version; [strict_cast] compiles exactly when every value survives. *)
Theorem casts_exact {S} Dst Src value constant (s : S) :
  in_range Src value →
  IsValueInRangeForNumericType Dst Src value = fits Dst value ∧
  checked_cast Dst Src value s =
    (if fits Dst value then Ok (value, s) else Fault (CheckFailed "numeric boundary")) ∧
  saturated_cast constant Dst Src value = clamp Dst value ∧
  (strict_cast Dst Src value = Some value ∨
   strict_cast Dst Src value = None ∧ ∃ v, in_range Src v ∧ ¬ in_range Dst v).
Proof.
  intros Hv. pose proof (in_range_check Dst Src value Hv) as Hr. split; [done|]. split; [|split].
  - by apply checked_cast_spec.
  - by apply saturated_cast_spec.
  - unfold strict_cast. destruct (StaticDstRangeRelationToSrcRange Dst Src) eqn:E.
    + left. rewrite (cast_id Src), (cast_id Dst); eauto using contains_range.
    + right. split; [done|]. destruct (decide (numeric_lowest Dst ≤ numeric_lowest Src)) as [Hlo|Hlo].
      * exists (numeric_max Src). split; [apply max_in_range|]. intros [_ Hmax].
        by rewrite (proj2 (contains_spec Dst Src)) in E.
      * exists (numeric_lowest Src). split; [apply lowest_in_range|]. by intros [Hl _].
Qed.

(** Comparisons between integers of any two types, with and without promotion, are
    the comparisons of the numbers. *)
Theorem comparisons_exact C L R lhs rhs :
  in_range L lhs → in_range R rhs →
  SafeCompare C L R lhs rhs = compare_spec C lhs rhs ∧ Test C L R lhs rhs = compare_spec C lhs rhs.
Proof. intros Hl Hr. split; [by apply SafeCompare_spec|by apply Test_spec]. Qed.

Lemma casts_exact_witness :
  saturated_cast false UInt8 Int32 300 = 255 ∧ saturated_cast false UInt8 Int32 (-3) = 0.
Proof.
  destruct (casts_exact UInt8 Int32 300 false tt) as (_&_&H&_); [by vm_compute|].
  destruct (casts_exact UInt8 Int32 (-3) false tt) as (_&_&H'&_); [by vm_compute|].
  rewrite H, H'. done.
Defined.

Lemma comparisons_exact_witness : SafeCompare IsLess Int64 UInt64 (-1) 0 = true.
Proof.
  destruct (comparisons_exact IsLess Int64 UInt64 (-1) 0) as [H _]; [by vm_compute..|].
  rewrite H. reflexivity.
Defined.
