(* ===== verification/CheckedMath.v ===== *)
(** base/numerics/checked_math_impl.h, checked_math.h and the parts of
    safe_math_shared_impl.h they use: arithmetic on integers of any two types that reports
    a result it cannot represent, and the class [CheckedNumeric] that carries the report
    along.

    The code is the portable one: the versions that use compiler built-ins are compiled
    where those exist ([BASE_HAS_OPTIMIZED_SAFE_MATH]).  The operations [Do(x, y, &result)]
    are computations whose state is [*result]; what C++ leaves undefined (a division that
    overflows) is a fault.  [intptr_t] is the integer of the size of a pointer. *)
From S2P Require Import Prelude SafeConversions.
From Stdlib Require Import ZArith Lia.
From stdpp Require Import base tactics numbers strings list.

Open Scope Z_scope.

(** The platform: the type of [intptr_t]. *)
Class Platform := intptr_t : int_type.

(** * Wrappers of the unary operators *)

Definition NegateWrapper (T : int_type) (value : Z) : Z :=
  cast T (cast (make_unsigned T) (0 - cast (make_unsigned T) value)).
Definition InvertWrapper (T : int_type) (value : Z) : Z := cast (make_unsigned T) (Z.lnot value).
Definition AbsWrapper (T : int_type) (value : Z) : Z := cast T (SafeUnsignedAbs T value).

(** * Binary operations *)

(** [Promotion(x) / Promotion(y)] and [%]: computed in the promoted type; undefined for a
    zero divisor and where the quotient cannot be represented. *)
Definition c_div {S} (P : int_type) (a b : Z) : M S Z :=
  if b =? 0 then fail (UndefinedBehaviour "division by zero")
  else if fits (promote P) (Z.quot a b) then mret (cast P (Z.quot a b))
  else fail (UndefinedBehaviour "quotient out of range").
Definition c_rem {S} (P : int_type) (a b : Z) : M S Z :=
  if b =? 0 then fail (UndefinedBehaviour "division by zero")
  else if fits (promote P) (Z.quot a b) then mret (cast P (Z.rem a b))
  else fail (UndefinedBehaviour "quotient out of range").

Definition CheckedAddImpl (T : int_type) (x y : Z) : M Z bool :=
  let UnsignedDst := make_unsigned T in
  let SignedDst := make_signed T in
  let ux := cast UnsignedDst x in
  let uy := cast UnsignedDst y in
  let uresult := cast UnsignedDst (ux + uy) in
  _ ← put (cast T uresult);
  mret (if int_signed T
        then 0 <=? cast SignedDst (Z.land (Z.lxor uresult ux) (Z.lxor uresult uy))
        else uy <=? uresult).

Definition CheckedSubImpl (T : int_type) (x y : Z) : M Z bool :=
  let UnsignedDst := make_unsigned T in
  let SignedDst := make_signed T in
  let ux := cast UnsignedDst x in
  let uy := cast UnsignedDst y in
  let uresult := cast UnsignedDst (ux - uy) in
  _ ← put (cast T uresult);
  mret (if int_signed T
        then 0 <=? cast SignedDst (Z.land (Z.lxor uresult ux) (Z.lxor ux uy))
        else y <=? x).

(** Run with a type of 64 bits only, in which the product of the absolute values is one
    of unsigned integers. *)
Definition CheckedMulImpl (T : int_type) (x y : Z) : M Z bool :=
  let UnsignedDst := make_unsigned T in
  let SignedDst := make_signed T in
  let ux := SafeUnsignedAbs T x in
  let uy := SafeUnsignedAbs T y in
  let uresult := cast UnsignedDst (ux * uy) in
  let is_negative := int_signed T && (cast SignedDst (Z.lxor x y) <? 0) in
  _ ← put (cast T (if is_negative then cast UnsignedDst (0 - uresult) else uresult));
  mret ((uy <=? cast UnsignedDst (Z.b2z (negb (int_signed T) || is_negative))) ||
        (ux <=? (numeric_max T + Z.b2z is_negative) / uy)).

Section ops.
Context {PF : Platform}.

(** The type the sum and the difference are computed in. *)
Definition AddPromotion (T U : int_type) : int_type :=
  let FastPromotion := FastIntegerArithmeticPromotion T U in
  if int_bits intptr_t <? int_bits FastPromotion then fst (BigEnoughPromotion T U) else FastPromotion.

Definition CheckedAddOp (T U V : int_type) (x y : Z) : M Z bool :=
  let Promotion := AddPromotion T U in
  if negb (IsValueInRangeForNumericType Promotion T x) || negb (IsValueInRangeForNumericType Promotion U y)
  then mret false
  else
    r ← (if IsIntegerArithmeticSafe Promotion T U
         then mret (true, cast Promotion (cast Promotion x + cast Promotion y))
         else on_local 0 (CheckedAddImpl Promotion (cast Promotion x) (cast Promotion y)));
    _ ← put (cast V r.2);
    mret (r.1 && IsValueInRangeForNumericType V Promotion r.2).

Definition CheckedSubOp (T U V : int_type) (x y : Z) : M Z bool :=
  let Promotion := AddPromotion T U in
  if negb (IsValueInRangeForNumericType Promotion T x) || negb (IsValueInRangeForNumericType Promotion U y)
  then mret false
  else
    r ← (if IsIntegerArithmeticSafe Promotion T U
         then mret (true, cast Promotion (cast Promotion x - cast Promotion y))
         else on_local 0 (CheckedSubImpl Promotion (cast Promotion x) (cast Promotion y)));
    _ ← put (cast V r.2);
    mret (r.1 && IsValueInRangeForNumericType V Promotion r.2).

Definition CheckedMulOp (T U V : int_type) (x y : Z) : M Z bool :=
  let Promotion := FastIntegerArithmeticPromotion T U in
  if (negb (IsValueInRangeForNumericType Promotion T x) || negb (IsValueInRangeForNumericType Promotion U y)) &&
     negb (x =? 0) && negb (y =? 0)
  then mret false
  else
    r ← (if IsIntegerArithmeticSafe Promotion T U
         then mret (true, cast Promotion (cast Promotion x * cast Promotion y))
         else on_local 0 (CheckedMulImpl Promotion (cast Promotion x) (cast Promotion y)));
    _ ← put (cast V r.2);
    mret (r.1 && IsValueInRangeForNumericType V Promotion r.2).

Definition CheckedDivOp (T U V : int_type) (x y : Z) : M Z bool :=
  if y =? 0 then mret false
  else
    let Promotion := fst (BigEnoughPromotion T U) in
    if int_signed T && int_signed U && IsTypeInRangeForNumericType T Promotion &&
       (cast Promotion x =? numeric_lowest Promotion) && (y =? cast U (-1))
    then mret false
    else if (negb (IsValueInRangeForNumericType Promotion T x) ||
             negb (IsValueInRangeForNumericType Promotion U y)) && negb (x =? 0)
    then mret false
    else
      presult ← c_div Promotion (cast Promotion x) (cast Promotion y);
      _ ← put (cast V presult);
      mret (IsValueInRangeForNumericType V Promotion presult).

Definition CheckedModOp (T U V : int_type) (x y : Z) : M Z bool :=
  let Promotion := fst (BigEnoughPromotion T U) in
  if negb (y =? 0) then
    presult ← c_rem Promotion (cast Promotion x) (cast Promotion y);
    _ ← put (cast V (cast Promotion presult));
    mret (IsValueInRangeForNumericType V Promotion presult)
  else mret false.

(** The destination of a left shift is the type [T] of its left operand. *)
Definition CheckedLshOp (T U : int_type) (x shift : Z) : M Z bool :=
  if negb (IsValueNegative T x) && (as_unsigned U shift <? as_unsigned Int32 (digits T)) then
    _ ← put (cast T (cast (promote (make_unsigned T)) (Z.shiftl (as_unsigned T x) shift)));
    result ← get;
    mret (Z.shiftr result shift =? x)
  else mret (int_signed T && (x =? 0) && (as_unsigned U shift =? as_unsigned Int32 (digits T))).

Definition CheckedRshOp (T U V : int_type) (x shift : Z) : M Z bool :=
  if as_unsigned U shift <? int_bits T then
    let tmp := cast T (Z.shiftr x shift) in
    _ ← put (cast V tmp);
    mret (IsValueInRangeForNumericType V T tmp)
  else mret false.

Definition bitwise_type (T U : int_type) : int_type := make_unsigned (MaxExponentPromotion T U).

Definition CheckedAndOp (T U V : int_type) (x y : Z) : M Z bool :=
  let result_type := bitwise_type T U in
  let tmp := Z.land (cast result_type x) (cast result_type y) in
  _ ← put (cast V tmp);
  mret (IsValueInRangeForNumericType V result_type tmp).
Definition CheckedOrOp (T U V : int_type) (x y : Z) : M Z bool :=
  let result_type := bitwise_type T U in
  let tmp := Z.lor (cast result_type x) (cast result_type y) in
  _ ← put (cast V tmp);
  mret (IsValueInRangeForNumericType V result_type tmp).
Definition CheckedXorOp (T U V : int_type) (x y : Z) : M Z bool :=
  let result_type := bitwise_type T U in
  let tmp := Z.lxor (cast result_type x) (cast result_type y) in
  _ ← put (cast V tmp);
  mret (IsValueInRangeForNumericType V result_type tmp).

Definition CheckedMaxOp (T U V : int_type) (x y : Z) : M Z bool :=
  let result_type := MaxExponentPromotion T U in
  let tmp := if Test IsGreater T U x y then cast result_type x else cast result_type y in
  _ ← put (cast V tmp);
  mret (IsValueInRangeForNumericType V result_type tmp).
Definition CheckedMinOp (T U V : int_type) (x y : Z) : M Z bool :=
  let result_type := LowestValuePromotion T U in
  let tmp := if Test IsLess T U x y then cast result_type x else cast result_type y in
  _ ← put (cast V tmp);
  mret (IsValueInRangeForNumericType V result_type tmp).

(** The operations as a template argument. *)
Inductive math_op := OpAdd | OpSub | OpMul | OpDiv | OpMod | OpLsh | OpRsh | OpAnd | OpOr | OpXor | OpMax | OpMin.

Definition result_type (op : math_op) (T U : int_type) : int_type :=
  match op with
  | OpAdd | OpSub | OpMul | OpDiv | OpMod | OpMax => MaxExponentPromotion T U
  | OpLsh | OpRsh => T
  | OpAnd | OpOr | OpXor => bitwise_type T U
  | OpMin => LowestValuePromotion T U
  end.

Definition checked_Do (op : math_op) (T U V : int_type) (x y : Z) : M Z bool :=
  match op with
  | OpAdd => CheckedAddOp T U V x y
  | OpSub => CheckedSubOp T U V x y
  | OpMul => CheckedMulOp T U V x y
  | OpDiv => CheckedDivOp T U V x y
  | OpMod => CheckedModOp T U V x y
  | OpLsh => CheckedLshOp T U x y
  | OpRsh => CheckedRshOp T U V x y
  | OpAnd => CheckedAndOp T U V x y
  | OpOr => CheckedOrOp T U V x y
  | OpXor => CheckedXorOp T U V x y
  | OpMax => CheckedMaxOp T U V x y
  | OpMin => CheckedMinOp T U V x y
  end.
End ops.

(** * CheckedNumeric *)

(** [CheckedNumericState] of an integer type. *)
Record CheckedNumeric := mkChecked { is_valid_ : bool; value_ : Z }.

(** An operand: a number, or a [CheckedNumeric]; its type goes beside it. *)
Inductive operand := Plain (v : Z) | Checked (c : CheckedNumeric).

Module Checked.
Section Checked.
Context {PF : Platform}.
Implicit Types (c rhs : CheckedNumeric).

(** Conversions of an integer are always defined. *)
Definition WellDefinedConversionOrZero (T : int_type) (value : Z) : Z := cast T value.

(** The constructors: default, from a value with a flag, and from a value. *)
Definition default_state : CheckedNumeric := mkChecked true 0.
Definition from_parts (T Src : int_type) (value : Z) (is_valid : bool) : CheckedNumeric :=
  mkChecked (is_valid && IsValueInRangeForNumericType T Src value) (WellDefinedConversionOrZero T value).
Definition from_value (T Src : int_type) (value : Z) : CheckedNumeric :=
  mkChecked (IsValueInRangeForNumericType T Src value) (WellDefinedConversionOrZero T value).

(** [IsValid<Dst>()] of a [CheckedNumeric<T>] *)
Definition IsValid (T Dst : int_type) c : bool :=
  is_valid_ c && IsValueInRangeForNumericType Dst T (value_ c).

(** [CheckedNumeric<T>(const CheckedNumeric<Src>& rhs)], and [Cast<Dst>()] *)
Definition convert (T Src : int_type) rhs : CheckedNumeric := from_parts T Src (value_ rhs) (IsValid Src Src rhs).
Definition Cast (T Dst : int_type) c : CheckedNumeric := convert Dst T c.

(** The state is the destination [*result]. *)
Definition AssignIfValid (T Dst : int_type) c : M Z bool :=
  if IsValid T Dst c then _ ← put (cast Dst (value_ c)); mret true else mret false.
Definition ValueOrDie {S} (T Dst : int_type) c : M S Z :=
  if IsValid T Dst c then mret (cast Dst (value_ c)) else HandleFailure.
Definition ValueOrDefault {S} (T Dst Src : int_type) (default_value : Z) c : M S Z :=
  if IsValid T Dst c then mret (cast Dst (value_ c)) else checked_cast Dst Src default_value.

(** [Wrapper<Src>] *)
Definition wrapper_is_valid (Src : int_type) (o : operand) : bool :=
  match o with Plain _ => true | Checked c => IsValid Src Src c end.
Definition wrapper_value (o : operand) : Z :=
  match o with Plain v => v | Checked c => value_ c end.

(** The static [MathOp(lhs, rhs)] of [CheckedNumeric<T>]. *)
Definition MathOp {S} (op : math_op) (T L R : int_type) (lhs rhs : operand) : M S CheckedNumeric :=
  r ← (if wrapper_is_valid L lhs && wrapper_is_valid R rhs
       then on_local 0 (checked_Do op L R T (wrapper_value lhs) (wrapper_value rhs))
       else mret (false, 0));
  mret (from_parts T T r.2 r.1).

(** The member [MathOp(rhs)], behind the assignment operators. *)
Definition MathOp_assign (op : math_op) (T R : int_type) (rhs : operand) : M CheckedNumeric unit :=
  c ← get;
  r ← (if is_valid_ c && wrapper_is_valid R rhs
       then on_local 0 (checked_Do op T R T (value_ c) (wrapper_value rhs))
       else mret (false, 0));
  put (from_parts T T r.2 r.1).

(** [CheckAdd(lhs, rhs)] and the like, and the operators. *)
Definition CheckMathOp {S} (op : math_op) (L R : int_type) (lhs rhs : operand) : M S CheckedNumeric :=
  MathOp op (result_type op L R) L R lhs rhs.

(** With more arguments: from the left. *)
Fixpoint CheckMathOp_args {S} (op : math_op) (L : int_type) (lhs : operand)
    (args : list (int_type * operand)) : M S (int_type * operand) :=
  match args with
  | [] => mret (L, lhs)
  | (R, rhs) :: args' =>
    c ← CheckMathOp op L R lhs rhs;
    CheckMathOp_args op (result_type op L R) (Checked c) args'
  end.

Definition FastRuntimeNegate {S} (T : int_type) c : M S CheckedNumeric :=
  r ← on_local 0 (CheckedSubOp T T T (cast T 0) (value_ c));
  mret (from_parts T T r.2 (IsValid T T c && r.1)).

(** [operator-]; [constant] is [MustTreatAsConstexpr(state_.value())]. *)
Definition negate {S} (constant : bool) (T : int_type) c : M S CheckedNumeric :=
  if constant || negb (int_signed T)
  then mret (from_parts T T (NegateWrapper T (value_ c))
         (IsValid T T c && (negb (int_signed T) || negb (NegateWrapper T (value_ c) =? numeric_lowest T))))
  else FastRuntimeNegate T c.

(** [operator~] *)
Definition invert (T : int_type) c : CheckedNumeric :=
  let U := make_unsigned T in
  convert T U (from_parts U U (InvertWrapper T (value_ c)) (IsValid T T c)).

Definition Abs {S} (constant : bool) (T : int_type) c : M S CheckedNumeric :=
  if negb (IsValueNegative T (value_ c)) then mret c else negate constant T c.

(** The operands of [?:] are brought to their common type first. *)
Definition Max (T R : int_type) c (rhs : operand) : CheckedNumeric :=
  let result_type := MaxExponentPromotion T R in
  let C := common_type T R in
  from_parts result_type result_type
    (cast result_type
      (if Test IsGreater T R (value_ c) (wrapper_value rhs) then cast C (value_ c) else cast C (wrapper_value rhs)))
    (is_valid_ c && wrapper_is_valid R rhs).
Definition Min (T R : int_type) c (rhs : operand) : CheckedNumeric :=
  let result_type := LowestValuePromotion T R in
  let C := common_type T R in
  from_parts result_type result_type
    (cast result_type
      (if Test IsLess T R (value_ c) (wrapper_value rhs) then cast C (value_ c) else cast C (wrapper_value rhs)))
    (is_valid_ c && wrapper_is_valid R rhs).

Definition UnsignedAbs (T : int_type) c : CheckedNumeric :=
  from_parts (make_unsigned T) (make_unsigned T) (SafeUnsignedAbs T (value_ c)) (is_valid_ c).

(** [operator++] and [operator--]: the literal 1 is an [int]. *)
Definition increment (T : int_type) : M CheckedNumeric unit := MathOp_assign OpAdd T Int32 (Plain 1).
Definition decrement (T : int_type) : M CheckedNumeric unit := MathOp_assign OpSub T Int32 (Plain 1).
Definition post_increment (T : int_type) : M CheckedNumeric CheckedNumeric :=
  value ← get; _ ← increment T; mret value.
Definition post_decrement (T : int_type) : M CheckedNumeric CheckedNumeric :=
  value ← get; _ ← decrement T; mret value.

(** [IsValidForType], [ValueOrDieForType], [ValueOrDefaultForType] and [MakeCheckedNum] *)
Definition IsValidForType (Dst Src : int_type) c : bool := IsValid Src Dst c.
Definition ValueOrDieForType {S} (Dst Src : int_type) c : M S Z := ValueOrDie Src Dst c.
Definition ValueOrDefaultForType {S} (Dst Src Default : int_type) (default_value : Z) c : M S Z :=
  ValueOrDefault Src Dst Default default_value c.
Definition MakeCheckedNum (T : int_type) (o : operand) : CheckedNumeric :=
  match o with Plain v => from_value T T v | Checked c => convert T T c end.

(** Pointers as numbers: [lhs + rhs] and [lhs - rhs] in steps of [sizeof(L)]; [size_t] is
    the unsigned integer of the size of a pointer. *)
Definition pointer_step {S} (op : math_op) (sizeof_L : Z) (R : int_type) (lhs rhs : Z) : M S Z :=
  let uintptr_t := make_unsigned intptr_t in
  offset ← CheckMathOp OpMul uintptr_t R (Plain sizeof_L) (Plain rhs);
  sum ← CheckMathOp op uintptr_t (result_type OpMul uintptr_t R) (Plain lhs) (Checked offset);
  ValueOrDie (result_type op uintptr_t (result_type OpMul uintptr_t R)) uintptr_t sum.
Definition pointer_plus {S} := @pointer_step S OpAdd.
Definition pointer_minus {S} := @pointer_step S OpSub.
End Checked.
End Checked.
