(* ===== verification/CheckedMathLemmas.v ===== *)
(** What each operation of checked_math_impl.h answers, for any two types of operands and
    any type of result: the flag as a condition on the exact result, and the result. *)
From S2P Require Import Prelude SafeConversions SafeConversionsTheorems CheckedMath.
From Stdlib Require Import ZArith Lia.
From stdpp Require Import base tactics numbers strings list.

Open Scope Z_scope.

(** * Sign bits *)

Lemma testbit_congr w a b : 0 < w → a mod 2 ^ w = b mod 2 ^ w → Z.testbit a (w - 1) = Z.testbit b (w - 1).
Proof.
  intros Hw H. rewrite <-(Z.mod_pow2_bits_low a w), <-(Z.mod_pow2_bits_low b w) by lia. by rewrite H.
Qed.

Lemma wrap_s_cases w z : 0 < w → - 2 ^ w ≤ z < 2 ^ w →
  wrap_s w z = if z <? - 2 ^ (w - 1) then z + 2 ^ w else if z <? 2 ^ (w - 1) then z else z - 2 ^ w.
Proof.
  intros Hw Hz. pose proof (pow2_half w Hw) as Hh. pose proof (pow2_pos (w - 1) ltac:(lia)) as Hp.
  unfold wrap_s. destruct (Z.ltb_spec z (- 2 ^ (w - 1))); [|destruct (Z.ltb_spec z (2 ^ (w - 1)))].
  - rewrite <-(Z.mod_unique (z + 2 ^ (w - 1)) (2 ^ w) (-1) (z + 2 ^ (w - 1) + 2 ^ w)) by lia. lia.
  - rewrite Z.mod_small by lia. lia.
  - rewrite <-(Z.mod_unique (z + 2 ^ (w - 1)) (2 ^ w) 1 (z + 2 ^ (w - 1) - 2 ^ w)) by lia. lia.
Qed.

(** A number read as signed is negative when its top bit is set. *)
Lemma wrap_s_sign w n : 0 < w → (wrap_s w n <? 0) = Z.testbit n (w - 1).
Proof.
  intros Hw. set (m := n mod 2 ^ w).
  assert (0 ≤ m < 2 ^ w) as Hm by (apply Z.mod_pos_bound, pow2_pos; lia).
  assert (m mod 2 ^ w = n mod 2 ^ w) as Hmn by (apply Z.mod_mod; lia).
  rewrite (testbit_congr w n m) by done.
  replace (wrap_s w n) with (wrap_s w m).
  2:{ unfold wrap_s. by rewrite <-Zplus_mod_idemp_l, Hmn, Zplus_mod_idemp_l. }
  pose proof (pow2_half w Hw) as Hh. pose proof (pow2_pos (w - 1) ltac:(lia)) as Hp.
  rewrite wrap_s_cases, Z.testbit_odd, Z.shiftr_div_pow2 by lia.
  destruct (Z.ltb_spec m (- 2 ^ (w - 1))); [lia|]. destruct (Z.ltb_spec m (2 ^ (w - 1))).
  - rewrite Z.div_small by lia. simpl. apply Z.ltb_ge. lia.
  - replace (m / 2 ^ (w - 1)) with 1 by (apply Z.div_unique with (m - 2 ^ (w - 1)); lia).
    simpl. apply Z.ltb_lt. lia.
Qed.

Lemma bits_pos T : 0 < int_bits T.
Proof. by destruct T. Qed.

Lemma make_unsigned_bits T : int_bits (make_unsigned T) = int_bits T.
Proof. by destruct T. Qed.
Lemma make_signed_bits T : int_bits (make_signed T) = int_bits T.
Proof. by destruct T. Qed.

Lemma cast_make_signed T z : cast (make_signed T) z = wrap_s (int_bits T) z.
Proof. by destruct T. Qed.

Lemma cast_sign T n : (cast (make_signed T) n <? 0) = Z.testbit n (int_bits T - 1).
Proof. rewrite cast_make_signed. apply wrap_s_sign, bits_pos. Qed.

Lemma cast_sign_le T n : (0 <=? cast (make_signed T) n) = negb (Z.testbit n (int_bits T - 1)).
Proof. rewrite <-cast_sign. by rewrite Z.leb_antisym. Qed.

Lemma cast_congr T a b : a mod 2 ^ int_bits T = b mod 2 ^ int_bits T → cast T a = cast T b.
Proof. intros H. apply cast_unique; [apply cast_range|]. by rewrite cast_mod. Qed.

Lemma cast_unsigned_mod T z : cast (make_unsigned T) z mod 2 ^ int_bits T = z mod 2 ^ int_bits T.
Proof. rewrite <-(make_unsigned_bits T). apply cast_mod. Qed.

Lemma pow_bits_nz T : 2 ^ int_bits T ≠ 0.
Proof. pose proof (pow2_pos (int_bits T)). pose proof (bits_pos T). lia. Qed.

(** Sums, differences and products modulo the size of the type. *)
Lemma mod_add T a b : (cast (make_unsigned T) a + cast (make_unsigned T) b) mod 2 ^ int_bits T = (a + b) mod 2 ^ int_bits T.
Proof. by rewrite Zplus_mod, !cast_unsigned_mod, <-Zplus_mod. Qed.
Lemma mod_sub T a b : (cast (make_unsigned T) a - cast (make_unsigned T) b) mod 2 ^ int_bits T = (a - b) mod 2 ^ int_bits T.
Proof. by rewrite Zminus_mod, !cast_unsigned_mod, <-Zminus_mod. Qed.

Lemma testbit_cast_unsigned T z : Z.testbit (cast (make_unsigned T) z) (int_bits T - 1) = Z.testbit z (int_bits T - 1).
Proof. apply testbit_congr; [apply bits_pos|]. apply cast_unsigned_mod. Qed.

(** The sign of a number of a signed type, and of a sum or difference of two. *)
Lemma testbit_sign T z : int_signed T = true → in_range T z → Z.testbit z (int_bits T - 1) = (z <? 0).
Proof.
  intros Hs Hz. rewrite <-cast_sign. replace (make_signed T) with T by by destruct T.
  by rewrite cast_id.
Qed.

Lemma testbit_wide T z : int_signed T = true →
  2 * numeric_lowest T ≤ z ≤ 2 * numeric_max T + 1 →
  Z.testbit z (int_bits T - 1) =
  if z <? numeric_lowest T then false else if z <=? numeric_max T then z <? 0 else true.
Proof.
  intros Hs Hz. destruct (signed_limits T Hs) as (Hp&Hl&Hm).
  rewrite <-cast_sign, cast_make_signed, wrap_s_cases by (apply bits_pos || lia).
  assert (2 ^ (int_bits T - 1) = numeric_max T + 1) as ->
    by (pose proof (pow2_half (int_bits T) (bits_pos T)); lia).
  destruct (Z.ltb_spec z (- (numeric_max T + 1))), (Z.ltb_spec z (numeric_lowest T)),
    (Z.ltb_spec z (numeric_max T + 1)), (Z.leb_spec z (numeric_max T)); try lia;
    first [done | apply Z.ltb_lt; lia | apply Z.ltb_ge; lia].
Qed.

(** * Addition, subtraction and multiplication in one type *)

Lemma fits_true T z : in_range T z → fits T z = true.
Proof. apply fits_spec. Qed.
Lemma fits_false T z : ¬ in_range T z → fits T z = false.
Proof. intros H. destruct (fits T z) eqn:E; [|done]. by apply fits_spec in E. Qed.

Lemma CheckedAddImpl_spec T x y r : in_range T x → in_range T y →
  CheckedAddImpl T x y r = Ok (fits T (x + y), cast T (x + y)).
Proof.
  intros Hx Hy. unfold CheckedAddImpl, put, mbind, M_bind, mret, M_ret. f_equal. f_equal.
  - destruct (int_signed T) eqn:Es.
    + rewrite cast_sign_le, Z.land_spec, !Z.lxor_spec, !testbit_cast_unsigned.
      rewrite (testbit_congr _ _ (x + y)) by (apply bits_pos || apply mod_add).
      rewrite (testbit_sign T x), (testbit_sign T y) by done. destruct (signed_limits T Es) as (Hp&Hl&Hm).
      unfold in_range in *. rewrite testbit_wide by (done || lia). unfold fits.
      destruct (Z.ltb_spec (x + y) (numeric_lowest T)), (Z.leb_spec (x + y) (numeric_max T)),
        (Z.leb_spec (numeric_lowest T) (x + y)); try lia;
      destruct (Z.ltb_spec x 0), (Z.ltb_spec y 0), (Z.ltb_spec (x + y) 0); simpl; try done; lia.
    + destruct (unsigned_limits T Es) as (Hp&Hl&Hm). replace (make_unsigned T) with T by by destruct T.
      rewrite (cast_id T x), (cast_id T y) by done. unfold in_range in *.
      unfold cast at 1. rewrite Es. unfold wrap_u. rewrite Hp. unfold fits.
      destruct (Z.le_gt_cases (x + y) (numeric_max T)).
      * rewrite Z.mod_small by lia. rewrite !(proj2 (Z.leb_le _ _)) by lia. done.
      * rewrite <-(Z.mod_unique (x + y) (numeric_max T + 1) 1 (x + y - (numeric_max T + 1))) by lia.
        rewrite (proj2 (Z.leb_gt y _)), (proj2 (Z.leb_gt (x + y) _)) by lia. by rewrite andb_comm.
  - rewrite cast_via by by apply make_unsigned_bits. apply cast_congr, mod_add.
Qed.

Lemma CheckedSubImpl_spec T x y r : in_range T x → in_range T y →
  CheckedSubImpl T x y r = Ok (fits T (x - y), cast T (x - y)).
Proof.
  intros Hx Hy. unfold CheckedSubImpl, put, mbind, M_bind, mret, M_ret. f_equal. f_equal.
  - destruct (int_signed T) eqn:Es.
    + rewrite cast_sign_le, Z.land_spec, !Z.lxor_spec, !testbit_cast_unsigned.
      rewrite (testbit_congr _ _ (x - y)) by (apply bits_pos || apply mod_sub).
      rewrite (testbit_sign T x), (testbit_sign T y) by done. destruct (signed_limits T Es) as (Hp&Hl&Hm).
      unfold in_range in *. rewrite testbit_wide by (done || lia). unfold fits.
      destruct (Z.ltb_spec (x - y) (numeric_lowest T)), (Z.leb_spec (x - y) (numeric_max T)),
        (Z.leb_spec (numeric_lowest T) (x - y)); try lia;
      destruct (Z.ltb_spec x 0), (Z.ltb_spec y 0), (Z.ltb_spec (x - y) 0); simpl; try done; lia.
    + destruct (unsigned_limits T Es) as (Hp&Hl&Hm). unfold in_range, fits in *. rewrite Hl in *.
      rewrite (proj2 (Z.leb_le (x - y) _)), andb_true_r by lia.
      destruct (Z.leb_spec y x), (Z.leb_spec 0 (x - y)); done || lia.
  - rewrite cast_via by by apply make_unsigned_bits. apply cast_congr, mod_sub.
Qed.

Lemma unsigned_fits_abs T x : in_range T x → in_range (make_unsigned T) (Z.abs x).
Proof.
  intros Hx. unfold in_range in *. destruct (int_signed T) eqn:Es.
  - destruct (signed_limits T Es) as (_&Hl&Hm).
    assert (numeric_lowest (make_unsigned T) = 0 ∧ numeric_max (make_unsigned T) = 2 * numeric_max T + 1)
      as [-> ->] by (by destruct T). lia.
  - destruct (unsigned_limits T Es) as (_&Hl&Hm). replace (make_unsigned T) with T by by destruct T. lia.
Qed.

Lemma SafeUnsignedAbs_spec T x : in_range T x → SafeUnsignedAbs T x = Z.abs x.
Proof.
  intros Hx. unfold SafeUnsignedAbs. rewrite IsValueNegative_spec by done.
  pose proof (unsigned_fits_abs T x Hx) as Ha. destruct (Z.ltb_spec x 0).
  - rewrite (cast_congr (make_unsigned T) _ (Z.abs x)); [by apply cast_id|].
    rewrite make_unsigned_bits, Zminus_mod, cast_unsigned_mod, <-Zminus_mod. f_equal. lia.
  - rewrite cast_id; [lia|]. by replace x with (Z.abs x) by lia.
Qed.

Lemma div_bound a b q : 0 < b → (q <=? a / b) = (b * q <=? a).
Proof.
  intros Hb. apply eq_true_iff_eq. rewrite !Z.leb_le. split.
  - intros Hq. pose proof (Z.mul_div_le a b Hb). nia.
  - apply Z.div_le_lower_bound. done.
Qed.

(** A product from the absolute values and the signs. *)
Lemma product_sign x y :
  x * y = if xorb (x <? 0) (y <? 0) then - (Z.abs x * Z.abs y) else Z.abs x * Z.abs y.
Proof.
  destruct (Z.ltb_spec x 0), (Z.ltb_spec y 0); simpl;
    rewrite ?(Z.abs_neq x), ?(Z.abs_neq y), ?(Z.abs_eq x), ?(Z.abs_eq y) by lia; lia.
Qed.

Lemma mul_negative T x y : in_range T x → in_range T y →
  (int_signed T && (cast (make_signed T) (Z.lxor x y) <? 0)) = xorb (x <? 0) (y <? 0).
Proof.
  intros Hx Hy. destruct (int_signed T) eqn:Es; simpl.
  - by rewrite cast_sign, Z.lxor_spec, !(testbit_sign T).
  - unfold in_range in *. rewrite (lowest_unsigned _ Es) in *.
    by rewrite !(proj2 (Z.ltb_ge _ _)) by lia.
Qed.

Lemma mul_valid T x y : in_range T x → in_range T y →
  let neg := xorb (x <? 0) (y <? 0) in
  (Z.abs y <=? Z.b2z (negb (int_signed T) || neg)) ||
  (Z.abs x <=? (numeric_max T + Z.b2z neg) / Z.abs y) = fits T (x * y).
Proof.
  intros Hx Hy neg. pose proof (product_sign x y) as Hxy. fold neg in Hxy.
  assert (0 ≤ Z.abs x) as Hax by lia. assert (0 ≤ Z.abs y) as Hay by lia.
  assert (int_signed T = false → (x <? 0) = false ∧ neg = false) as Hneg.
  { intros Es. unfold in_range in *. rewrite (lowest_unsigned _ Es) in *. subst neg.
    by rewrite !(proj2 (Z.ltb_ge _ _)) by lia. }
  assert (Z.abs x ≤ numeric_max T + Z.b2z (x <? 0)) as Hbx.
  { unfold in_range in *. destruct (int_signed T) eqn:Es.
    - destruct (signed_limits T Es) as (_&Hl&Hm). destruct (Z.ltb_spec x 0); simpl; lia.
    - rewrite (lowest_unsigned _ Es) in *. destruct (Z.ltb_spec x 0); simpl; lia. }
  assert (numeric_lowest T = if int_signed T then - (numeric_max T + 1) else 0) as Hlow.
  { destruct (int_signed T) eqn:Es; [apply (signed_limits T Es)|by apply lowest_unsigned]. }
  assert (0 < numeric_max T) as Hm by by destruct T.
  remember (Z.abs x) as a eqn:Ea. remember (Z.abs y) as b eqn:Eb.
  assert (fits T (x * y) = (a * b <=? numeric_max T + Z.b2z (int_signed T && neg))) as ->.
  { apply eq_true_iff_eq. rewrite fits_spec, Z.leb_le, Hxy. unfold in_range. rewrite Hlow.
    assert (0 ≤ a * b) by lia. destruct (int_signed T), neg; simpl; lia. }
  assert (int_signed T && neg = neg) as ->.
  { destruct (int_signed T); [done|]. by destruct (Hneg eq_refl) as [_ ->]. }
  destruct (decide (b = 0)) as [->|Hb].
  { replace (0 <=? Z.b2z (negb (int_signed T) || neg)) with true by by destruct (negb (int_signed T) || neg).
    symmetry. apply Z.leb_le. destruct neg; simpl; lia. }
  rewrite div_bound, (Z.mul_comm b a) by lia.
  destruct (Z.leb_spec b (Z.b2z (negb (int_signed T) || neg))) as [Hle|Hgt]; [|done]. symmetry. apply Z.leb_le.
  assert (b = 1) as -> by (destruct (negb (int_signed T) || neg); simpl in Hle; lia).
  destruct neg; simpl in *; [destruct (Z.ltb_spec x 0); simpl in *; lia|].
  destruct (int_signed T); simpl in Hle; [lia|]. destruct (Hneg eq_refl) as [Hx0 _].
  rewrite Hx0 in Hbx. simpl in Hbx. lia.
Qed.

Lemma CheckedMulImpl_spec T x y r : in_range T x → in_range T y →
  CheckedMulImpl T x y r = Ok (fits T (x * y), cast T (x * y)).
Proof.
  intros Hx Hy. unfold CheckedMulImpl, put, mbind, M_bind, mret, M_ret.
  rewrite !SafeUnsignedAbs_spec, mul_negative by done. f_equal. f_equal.
  - rewrite <-mul_valid by done. do 2 f_equal. apply cast_id.
    destruct (negb (int_signed T) || _); simpl; [by destruct T; vm_compute|apply zero_in_range].
  - rewrite (product_sign x y). destruct (xorb _ _).
    + rewrite cast_via by by apply make_unsigned_bits. apply cast_congr.
      by rewrite Zminus_mod, cast_unsigned_mod, <-Zminus_mod.
    + by rewrite cast_via by by apply make_unsigned_bits.
Qed.

(** * The operations on two types *)

Lemma cast_zero T : cast T 0 = 0.
Proof. apply cast_id, zero_in_range. Qed.

(** The flag and the result of an operation: valid under [ok], and then the result is
    [z]. *)
Definition answers (m : M Z bool) (r : Z) (ok : bool) (z : Z) : Prop :=
  ∃ r', m r = Ok (ok, r') ∧ (ok = true → r' = z).

Lemma answers_intro m r ok z r' : m r = Ok (ok, r') → (ok = true → r' = z) → answers m r ok z.
Proof. by exists r'. Qed.

(** Storing a result of type [P] and checking it against [V]. *)
Lemma store_answers P V valid presult r z ok :
  in_range P presult →
  (valid && fits V presult = true → presult = z) → ok = (valid && fits V presult) →
  answers (_ ← put (cast V presult); mret (valid && IsValueInRangeForNumericType V P presult)) r ok z.
Proof.
  intros Hp Hv ->. eapply answers_intro.
  - unfold put, mbind, M_bind, mret, M_ret. by rewrite in_range_check.
  - intros Hok. rewrite <-(Hv Hok). apply cast_id. by apply andb_true_iff in Hok as [_ Hf%fits_spec].
Qed.

(** Storing what one of the [Impl] functions left in a local variable. *)
Lemma store_impl P V z r :
  answers (_ ← put (cast V (cast P z));
    mret (fits P z && IsValueInRangeForNumericType V P (cast P z))) r (fits P z && fits V z) z.
Proof.
  apply (store_answers P V (fits P z) (cast P z)); [apply cast_range| |].
  - intros [Hz%fits_spec _]%andb_true_iff. by apply cast_id.
  - destruct (fits P z) eqn:Ez; [|done]. apply fits_spec in Ez. by rewrite cast_id.
Qed.

Lemma answers_local (m : M Z bool) (f : bool * Z → M Z bool) l a l' r ok z :
  m l = Ok (a, l') → answers (f (a, l')) r ok z → answers (x ← on_local l m; f x) r ok z.
Proof.
  intros Hm (r'&Hf&Hz). exists r'. split; [|done]. unfold mbind, M_bind, on_local. by rewrite Hm.
Qed.

Lemma mul_corners a b c d x y lo hi :
  a ≤ x ≤ b → c ≤ y ≤ d →
  lo ≤ a * c ≤ hi → lo ≤ a * d ≤ hi → lo ≤ b * c ≤ hi → lo ≤ b * d ≤ hi → lo ≤ x * y ≤ hi.
Proof.
  intros Hx Hy H1 H2 H3 H4.
  assert (lo ≤ x * c ≤ hi) as Hc by (destruct (Z.le_gt_cases 0 c); nia).
  assert (lo ≤ x * d ≤ hi) as Hd by (destruct (Z.le_gt_cases 0 d); nia).
  destruct (Z.le_gt_cases 0 x); nia.
Qed.

(** In a type called safe for the operands sums do not overflow, nor do products in the
    one chosen for them. *)
Lemma safe_sum P T U x y : IsIntegerArithmeticSafe P T U = true →
  in_range T x → in_range U y → in_range P (x + y).
Proof.
  intros Hs Hx Hy. unfold in_range in *.
  assert (numeric_lowest P ≤ numeric_lowest T + numeric_lowest U ∧
          numeric_max T + numeric_max U ≤ numeric_max P) as [H1 H2]; [|lia].
  by destruct P, T, U; try discriminate Hs; vm_compute.
Qed.

Lemma safe_product T U x y :
  let P := FastIntegerArithmeticPromotion T U in
  IsIntegerArithmeticSafe P T U = true → in_range T x → in_range U y → in_range P (x * y).
Proof.
  intros P Hs Hx Hy. unfold in_range in *.
  apply (mul_corners (numeric_lowest T) (numeric_max T) (numeric_lowest U) (numeric_max U)); [done..| | | |];
    clear Hx Hy; subst P; destruct T, U; try discriminate Hs; by vm_compute.
Qed.

Lemma safe_contains P T U : IsIntegerArithmeticSafe P T U = true →
  StaticDstRangeRelationToSrcRange P T = true ∧ StaticDstRangeRelationToSrcRange P U = true.
Proof. by destruct P, T, U. Qed.

(** A difference in an unsigned type that is safe: when it is negative it wraps to more
    than the types of the operands hold. *)
Lemma safe_difference P T U V x y : IsIntegerArithmeticSafe P T U = true →
  V = T ∨ V = MaxExponentPromotion T U →
  in_range T x → in_range U y →
  in_range P (x - y) ∨ (¬ in_range V (x - y) ∧ ¬ in_range V (cast P (x - y))).
Proof.
  intros Hs HV Hx Hy. destruct (decide (in_range P (x - y))) as [|Hout]; [by left|right].
  destruct (int_signed P) eqn:Ep.
  { exfalso. apply Hout. unfold in_range in *.
    assert (numeric_lowest P ≤ numeric_lowest T - numeric_max U ∧
            numeric_max T - numeric_lowest U ≤ numeric_max P) as [H1 H2]; [|lia].
    destruct P, T, U; try discriminate Hs; try discriminate Ep; by vm_compute. }
  destruct (unsigned_limits P Ep) as (Hp&Hl&Hm).
  assert (numeric_lowest T = 0 ∧ numeric_lowest U = 0 ∧ numeric_lowest V = 0 ∧
    numeric_max T ≤ numeric_max P ∧ numeric_max V + numeric_max U < 2 ^ int_bits P) as (H1&H2&H3&H4&H5).
  { destruct HV as [->| ->]; destruct P, T, U; try discriminate Hs; try discriminate Ep; by vm_compute. }
  pose proof (zero_in_range V). unfold in_range in *. split; [lia|].
  replace (cast P (x - y)) with (x - y + 2 ^ int_bits P); [lia|].
  unfold cast. rewrite Ep. unfold wrap_u. apply Z.mod_unique with (-1); [left|]; lia.
Qed.

Section ops.
Context {PF : Platform}.

Lemma CheckedAddOp_spec T U V x y r : in_range T x → in_range U y →
  let P := AddPromotion T U in
  answers (CheckedAddOp T U V x y) r (fits P x && fits P y && fits P (x + y) && fits V (x + y)) (x + y).
Proof.
  intros Hx Hy P. unfold CheckedAddOp. fold P. rewrite !in_range_check by done.
  destruct (fits P x) eqn:Ex; [|by apply (answers_intro _ _ _ _ r)].
  destruct (fits P y) eqn:Ey; [|by apply (answers_intro _ _ _ _ r)]. simpl.
  apply fits_spec in Ex, Ey. rewrite (cast_id P x), (cast_id P y) by done.
  destruct (IsIntegerArithmeticSafe P T U) eqn:Es.
  - pose proof (safe_sum P T U x y Es Hx Hy) as Hs. rewrite (cast_id P (x + y)), (fits_true P) by done.
    apply (store_answers P V true (x + y)); done.
  - eapply answers_local; [by apply CheckedAddImpl_spec|]. apply store_impl.
Qed.

Lemma CheckedSubOp_spec T U V x y r : in_range T x → in_range U y →
  V = T ∨ V = MaxExponentPromotion T U →
  let P := AddPromotion T U in
  answers (CheckedSubOp T U V x y) r (fits P x && fits P y && fits P (x - y) && fits V (x - y)) (x - y).
Proof.
  intros Hx Hy HV P. unfold CheckedSubOp. fold P. rewrite !in_range_check by done.
  destruct (fits P x) eqn:Ex; [|by apply (answers_intro _ _ _ _ r)].
  destruct (fits P y) eqn:Ey; [|by apply (answers_intro _ _ _ _ r)]. simpl.
  apply fits_spec in Ex, Ey. rewrite (cast_id P x), (cast_id P y) by done.
  destruct (IsIntegerArithmeticSafe P T U) eqn:Es.
  - destruct (safe_difference P T U V x y Es HV Hx Hy) as [Hd|[Hd1 Hd2]].
    + rewrite (cast_id P (x - y)), (fits_true P) by done. by apply (store_answers P V true (x - y)).
    + apply (store_answers P V true (cast P (x - y))); [apply cast_range| |].
      * rewrite fits_false by done. done.
      * rewrite (fits_false V (x - y)), (fits_false V (cast P (x - y))) by done. by rewrite andb_false_r.
  - eapply answers_local; [by apply CheckedSubImpl_spec|]. apply store_impl.
Qed.

Lemma CheckedMulOp_spec T U V x y r : in_range T x → in_range U y →
  let P := FastIntegerArithmeticPromotion T U in
  answers (CheckedMulOp T U V x y) r
    (((x =? 0) || (y =? 0) || (fits P x && fits P y)) && fits P (x * y) && fits V (x * y)) (x * y).
Proof.
  intros Hx Hy P. unfold CheckedMulOp. fold P. rewrite !in_range_check by done.
  assert (((negb (fits P x) || negb (fits P y)) && negb (x =? 0) && negb (y =? 0)) =
    negb ((x =? 0) || (y =? 0) || (fits P x && fits P y))) as ->.
  { by destruct (x =? 0), (y =? 0), (fits P x), (fits P y). }
  destruct ((x =? 0) || (y =? 0) || (fits P x && fits P y)) eqn:Ein; simpl;
    [|by apply (answers_intro _ _ _ _ r)].
  assert (cast P x * cast P y = x * y) as Hxy.
  { apply orb_true_iff in Ein as [[->%Z.eqb_eq| ->%Z.eqb_eq]%orb_true_iff|[Ex%fits_spec Ey%fits_spec]%andb_true_iff].
    - by rewrite cast_zero. - by rewrite cast_zero, !Z.mul_0_r. - by rewrite !cast_id. }
  destruct (IsIntegerArithmeticSafe P T U) eqn:Es.
  - pose proof (safe_product T U x y Es Hx Hy) as Hp. rewrite Hxy, (cast_id P (x * y)), (fits_true P) by done.
    by apply (store_answers P V true (x * y)).
  - eapply answers_local; [apply CheckedMulImpl_spec; apply cast_range|]. rewrite Hxy. apply store_impl.
Qed.

(** ** Division *)

(** The type of a quotient is at least as wide as the operands, so that no divisor is
    converted to zero. *)
Lemma big_enough_wide T U : int_bits T ≤ int_bits (fst (BigEnoughPromotion T U)) ∧
  int_bits U ≤ int_bits (fst (BigEnoughPromotion T U)).
Proof. by destruct T, U; vm_compute. Qed.

Lemma cast_nonzero P U y : int_bits U ≤ int_bits P → in_range U y → y ≠ 0 → cast P y ≠ 0.
Proof.
  intros Hb Hy Hy0 H0. pose proof (cast_mod P y) as Hm. rewrite H0, Z.mod_0_l in Hm by apply pow_bits_nz.
  symmetry in Hm. apply Z.mod_divide in Hm as [q Hq]; [|apply pow_bits_nz].
  pose proof (Z.pow_le_mono_r 2 _ _ ltac:(lia) Hb) as Hpow.
  assert (Z.abs y < 2 ^ int_bits U) as Ha.
  { unfold in_range in Hy. destruct (int_signed U) eqn:Es.
    - destruct (signed_limits U Es) as (?&?&?). lia.
    - destruct (unsigned_limits U Es) as (?&?&?). lia. }
  assert (q ≠ 0) by (intros ->; lia). nia.
Qed.

(** The only quotient of two values that leaves their type. *)
Lemma quotient_range P a b : in_range P a → in_range P b → b ≠ 0 →
  in_range P (Z.quot a b) ∨ (int_signed P = true ∧ a = numeric_lowest P ∧ b = -1 ∧ ¬ in_range P (Z.quot a b)).
Proof.
  intros Ha Hb Hb0.
  assert (Z.abs (Z.quot a b) ≤ Z.abs a) as Habs.
  { rewrite <-Z.quot_abs by done. apply Z.quot_le_upper_bound; nia. }
  unfold in_range in *. destruct (int_signed P) eqn:Es.
  - destruct (signed_limits P Es) as (_&Hl&Hm).
    destruct (decide (a = numeric_lowest P ∧ b = -1)) as [[-> ->]|Hne].
    + right. split; [done|]. split; [done|]. split; [done|].
      change (-1) with (- (1)). rewrite Z.quot_opp_r, Z.quot_1_r by lia. lia.
    + left. destruct (decide (a = numeric_lowest P)) as [->|]; [|lia].
      destruct (decide (b = 1)) as [->|]; [rewrite Z.quot_1_r; lia|].
      assert (b ≠ -1) by naive_solver.
      assert (Z.abs (Z.quot (numeric_lowest P) b) < Z.abs (numeric_lowest P)); [|lia].
      rewrite <-Z.quot_abs by done. apply Z.quot_lt; lia.
  - left. rewrite (lowest_unsigned _ Es) in *. pose proof (Z.quot_pos a b ltac:(lia) ltac:(lia)). lia.
Qed.

Lemma promote_contains P z : in_range P z → in_range (promote P) z.
Proof. apply contains_range. by destruct P. Qed.

(** The overflow guard of the division is taken exactly for that quotient. *)
Lemma div_guard T U x y :
  in_range T x → in_range U y →
  let P := fst (BigEnoughPromotion T U) in
  in_range P x → in_range P y →
  (int_signed T && int_signed U && IsTypeInRangeForNumericType T P &&
   (cast P x =? numeric_lowest P) && (y =? cast U (-1))) =
  (int_signed P && (x =? numeric_lowest P) && (y =? -1)).
Proof.
  intros Hx Hy P HxP HyP. rewrite (cast_id P x) by done.
  destruct (Z.eqb_spec x (numeric_lowest P)) as [Ex|]; [|by rewrite !andb_false_r].
  destruct (int_signed U) eqn:Eu.
  - rewrite (cast_id U (-1)) by (by destruct U; vm_compute).
    destruct (Z.eqb_spec y (-1)) as [Ey|]; [|by rewrite !andb_false_r]. rewrite !andb_true_r.
    unfold in_range in *. subst x y. subst P.
    destruct T, U; try discriminate Eu; vm_compute in Hx, HyP |- *; first [done | exfalso; naive_solver].
  - rewrite andb_false_r. simpl. destruct (Z.eqb_spec y (-1)) as [->|]; [|by rewrite andb_false_r].
    unfold in_range in Hy. rewrite (lowest_unsigned _ Eu) in Hy. lia.
Qed.

Lemma CheckedDivOp_spec T U V x y r : in_range T x → in_range U y →
  let P := fst (BigEnoughPromotion T U) in
  answers (CheckedDivOp T U V x y) r
    (negb (y =? 0) && ((x =? 0) || (fits P x && fits P y)) && fits P (Z.quot x y) && fits V (Z.quot x y))
    (Z.quot x y).
Proof.
  intros Hx Hy P. unfold CheckedDivOp. fold P.
  destruct (Z.eqb_spec y 0) as [|Hy0]; [by apply (answers_intro _ _ _ _ r)|]. simpl.
  rewrite !in_range_check by done.
  assert (cast P y ≠ 0) as Hy0' by (apply (cast_nonzero P U); [apply big_enough_wide|done..]).
  destruct (decide (in_range P x ∧ in_range P y)) as [[HxP HyP]|Hout].
  - rewrite (fits_true P x), (fits_true P y) by done. rewrite orb_true_r. simpl.
    pose proof (div_guard T U x y Hx Hy HxP HyP) as Hg. fold P in Hg. rewrite Hg. clear Hg.
    destruct (quotient_range P x y HxP HyP Hy0) as [Hq|(Es&->&->&Hq)].
    + destruct (int_signed P && (x =? numeric_lowest P) && (y =? -1)) eqn:Eg.
      { exfalso. apply andb_true_iff in Eg as [[Es ->%Z.eqb_eq]%andb_true_iff ->%Z.eqb_eq].
        destruct (signed_limits P Es) as (_&Hl&Hm). unfold in_range in Hq.
        change (-1) with (- (1)) in Hq. rewrite Z.quot_opp_r, Z.quot_1_r in Hq by lia. lia. }
      rewrite (fits_true P (Z.quot x y)) by done. rewrite (cast_id P x), (cast_id P y) by done. unfold c_div.
      rewrite (proj2 (Z.eqb_neq y 0)), (fits_true (promote P)) by (done || by apply promote_contains).
      rewrite (cast_id P (Z.quot x y)) by done. by apply (store_answers P V true (Z.quot x y)).
    + rewrite Es, !Z.eqb_refl. simpl. rewrite (fits_false P (Z.quot _ _)) by done.
      by apply (answers_intro _ _ _ _ r).
  - assert (fits P x && fits P y = false) as Hf.
    { destruct (fits P x) eqn:E1, (fits P y) eqn:E2; try done. by apply fits_spec in E1, E2; destruct Hout. }
    assert (negb (fits P x) || negb (fits P y) = true) as -> by by destruct (fits P x), (fits P y).
    rewrite Hf, orb_false_r. cbn [andb negb]. destruct (Z.eqb_spec x 0) as [->|Hx0]; cbn [andb negb].
    + rewrite cast_zero, Z.quot_0_l by done. rewrite !(fits_true _ 0) by apply zero_in_range. cbn [andb].
      assert (int_signed T && int_signed U && IsTypeInRangeForNumericType T P && (0 =? numeric_lowest P) = false)
        as -> by (subst P; by destruct T, U). cbn [andb]. unfold c_div.
      rewrite (proj2 (Z.eqb_neq _ 0) Hy0'), Z.quot_0_l, (fits_true (promote P)), cast_zero
        by (done || apply zero_in_range).
      apply (store_answers P V true 0); [apply zero_in_range|done|].
      by rewrite (fits_true V) by apply zero_in_range.
    + destruct (_ && (y =? cast U (-1))); by apply (answers_intro _ _ _ _ r).
Qed.

(** ** Remainder *)

Lemma remainder_range P a b : in_range P a → in_range P b → b ≠ 0 → in_range P (Z.rem a b).
Proof.
  intros Ha Hb Hb0. unfold in_range in *. pose proof (zero_in_range P) as H0. unfold in_range in H0.
  assert (Z.abs (Z.rem a b) ≤ Z.abs a) as Habs.
  { rewrite <-Z.rem_abs by done. apply Z.rem_le; lia. }
  destruct (Z.le_gt_cases 0 a).
  - pose proof (Z.rem_nonneg a b Hb0 ltac:(lia)). lia.
  - pose proof (Z.rem_nonpos a b Hb0 ltac:(lia)). lia.
Qed.

(** With both operands in the type of the computation the remainder is exact, except for
    the one quotient that does not exist, where the code divides all the same. *)
Lemma CheckedModOp_spec T U V x y r : in_range T x → in_range U y →
  let P := fst (BigEnoughPromotion T U) in
  in_range P x → in_range P y →
  if int_signed P && (x =? numeric_lowest P) && (y =? -1) && (32 <=? int_bits P)
  then CheckedModOp T U V x y r = Fault (UndefinedBehaviour "quotient out of range")
  else answers (CheckedModOp T U V x y) r (negb (y =? 0) && fits V (Z.rem x y)) (Z.rem x y).
Proof.
  intros Hx Hy P HxP HyP. unfold CheckedModOp. fold P. rewrite (cast_id P x), (cast_id P y) by done.
  destruct (Z.eqb_spec y 0) as [->|Hy0].
  { rewrite andb_false_r. simpl. by apply (answers_intro _ _ _ _ r). }
  cbn [negb andb]. unfold c_rem. rewrite (proj2 (Z.eqb_neq y 0) Hy0).
  pose proof (remainder_range P x y HxP HyP Hy0) as Hr.
  assert (fits (promote P) (Z.quot x y) =
    negb (int_signed P && (x =? numeric_lowest P) && (y =? -1) && (32 <=? int_bits P))) as ->.
  { destruct (quotient_range P x y HxP HyP Hy0) as [Hq|(Es&->&->&Hq)].
    - rewrite fits_true by by apply promote_contains.
      destruct (int_signed P && (x =? numeric_lowest P) && (y =? -1)) eqn:Eg; [|done]. exfalso.
      apply andb_true_iff in Eg as [[Es ->%Z.eqb_eq]%andb_true_iff ->%Z.eqb_eq].
      destruct (signed_limits P Es) as (_&Hl&Hm). unfold in_range in Hq.
      change (-1) with (- (1)) in Hq. rewrite Z.quot_opp_r, Z.quot_1_r in Hq by lia. lia.
    - rewrite Es, !Z.eqb_refl. cbn [andb]. clear -Es. by destruct P. }
  destruct (_ && (32 <=? int_bits P)); cbn [negb]; [done|].
  rewrite (cast_id P (Z.rem x y)) by done.
  change (answers (_ ← put (cast V (cast P (Z.rem x y)));
    mret (true && IsValueInRangeForNumericType V P (Z.rem x y))) r (fits V (Z.rem x y)) (Z.rem x y)).
  rewrite (cast_id P) by done. by apply (store_answers P V true (Z.rem x y)).
Qed.

(** ** Shifts *)

Lemma cast_narrow T W z : int_bits T ≤ int_bits W → cast T (cast W z) = cast T z.
Proof.
  intros Hb. apply cast_congr.
  pose proof (bits_pos T). replace (int_bits W) with (int_bits T + (int_bits W - int_bits T)) in * by lia.
  assert (∀ a, a mod 2 ^ int_bits T = (a mod 2 ^ int_bits W) mod 2 ^ int_bits T) as Hd.
  { intros a. symmetry. apply Z.mod_mod_divide. exists (2 ^ (int_bits W - int_bits T)).
    rewrite <-Z.pow_add_r by lia. f_equal. lia. }
  by rewrite Hd, cast_mod, <-Hd.
Qed.

(** A shift count is in bounds when it is not negative and small enough. *)
Lemma shift_count U shift n : in_range U shift → 0 ≤ n ≤ 64 →
  (as_unsigned U shift <? n) = (0 <=? shift) && (shift <? n) ∧
  (as_unsigned U shift =? n) = (shift =? n).
Proof.
  intros Hs Hn. destruct (int_signed U) eqn:Es.
  - rewrite as_unsigned_signed by done. destruct (signed_limits U Es) as (Hp&Hl&Hm).
    assert (127 ≤ numeric_max U) by (by destruct U; try discriminate Es; vm_compute).
    unfold in_range in Hs. destruct (Z.ltb_spec shift 0).
    + rewrite (proj2 (Z.leb_gt 0 shift)), (proj2 (Z.ltb_ge _ n)), (proj2 (Z.eqb_neq _ n)),
        (proj2 (Z.eqb_neq shift n)) by lia. done.
    + by rewrite (proj2 (Z.leb_le 0 shift)) by lia.
  - unfold as_unsigned. replace (make_unsigned U) with U by by destruct U.
    rewrite cast_id by done. unfold in_range in Hs. rewrite (lowest_unsigned _ Es) in Hs.
    by rewrite (proj2 (Z.leb_le 0 shift)) by lia.
Qed.

Lemma digits_bound T : 0 < digits T ≤ 64 ∧ as_unsigned Int32 (digits T) = digits T ∧
  digits T ≤ int_bits T.
Proof. by destruct T; vm_compute. Qed.

(** Shifting back finds out whether anything was lost. *)
Lemma shift_reversed T x s : 0 ≤ s ≤ int_bits T →
  (Z.shiftr (cast T (x * 2 ^ s)) s =? x) = fits T (x * 2 ^ s).
Proof.
  intros Hs. pose proof (pow2_pos s ltac:(lia)) as Hp. rewrite Z.shiftr_div_pow2 by lia.
  apply eq_true_iff_eq. rewrite Z.eqb_eq, fits_spec. split.
  - intros Hd. pose proof (Z.div_mod (cast T (x * 2 ^ s)) (2 ^ s) ltac:(lia)) as Hdm.
    pose proof (Z.mod_pos_bound (cast T (x * 2 ^ s)) (2 ^ s) Hp) as Hb. rewrite Hd in Hdm.
    set (t := cast T (x * 2 ^ s) mod 2 ^ s) in *.
    assert (t = 0) as Ht.
    { pose proof (cast_mod T (x * 2 ^ s)) as Hm. rewrite Hdm in Hm.
      apply (f_equal (λ a, (a - x * 2 ^ s) mod 2 ^ int_bits T)) in Hm.
      rewrite !Zminus_mod_idemp_l in Hm. rewrite Z.sub_diag, Z.mod_0_l in Hm by apply pow_bits_nz.
      replace (2 ^ s * x + t - x * 2 ^ s) with t in Hm by lia.
      pose proof (Z.pow_le_mono_r 2 _ _ ltac:(lia) (proj2 Hs)). rewrite Z.mod_small in Hm by lia. done. }
    replace (x * 2 ^ s) with (cast T (x * 2 ^ s)) by lia. apply cast_range.
  - intros Hf. rewrite cast_id by done. apply Z.div_mul. lia.
Qed.

Lemma CheckedLshOp_spec T U x shift : in_range T x → in_range U shift →
  answers (CheckedLshOp T U x shift) 0
    ((0 <=? x) && (0 <=? shift) &&
     ((shift <? digits T) && fits T (x * 2 ^ shift) || int_signed T && (x =? 0) && (shift =? digits T)))
    (x * 2 ^ shift).
Proof.
  intros Hx Hs. unfold CheckedLshOp. destruct (digits_bound T) as (Hd&->&Hb).
  destruct (shift_count U shift (digits T) Hs ltac:(lia)) as [-> ->].
  rewrite IsValueNegative_spec by done. rewrite <-Z.leb_antisym.
  destruct (Z.leb_spec 0 x) as [Hx0|Hx0]; simpl.
  2:{ rewrite (proj2 (Z.eqb_neq x 0)) by lia. rewrite andb_false_r. by apply (answers_intro _ _ _ _ 0). }
  destruct (Z.leb_spec 0 shift) as [Hs0|Hs0]; simpl.
  2:{ rewrite (proj2 (Z.eqb_neq shift (digits T))) by lia. rewrite andb_false_r.
      by apply (answers_intro _ _ _ _ 0). }
  destruct (Z.ltb_spec shift (digits T)) as [Hlt|Hge]; simpl.
  - rewrite (proj2 (Z.eqb_neq shift (digits T))), andb_false_r, orb_false_r by lia.
    assert (cast T (cast (promote (make_unsigned T)) (Z.shiftl (as_unsigned T x) shift)) =
      cast T (x * 2 ^ shift)) as ->.
    { rewrite cast_narrow by (by destruct T; vm_compute). rewrite Z.shiftl_mul_pow2 by lia.
      unfold as_unsigned. apply cast_congr. by rewrite Zmult_mod, cast_unsigned_mod, <-Zmult_mod. }
    eapply answers_intro.
    { unfold put, get, mbind, M_bind, mret, M_ret. by rewrite shift_reversed by lia. }
    intros Hf%fits_spec. by apply cast_id.
  - apply (answers_intro _ _ _ _ 0); [done|].
    intros [[_ ->%Z.eqb_eq]%andb_true_iff _]%andb_true_iff. lia.
Qed.

Lemma shiftr_range T x s : in_range T x → 0 ≤ s → in_range T (x / 2 ^ s).
Proof.
  intros Hx Hs. pose proof (pow2_pos s Hs). pose proof (zero_in_range T) as Hzero. unfold in_range in *.
  destruct (Z.le_gt_cases 0 x).
  - pose proof (Z.div_pos x (2 ^ s) ltac:(lia) ltac:(lia)).
    pose proof (Z.div_le_upper_bound x (2 ^ s) x ltac:(lia) ltac:(nia)). lia.
  - pose proof (Z.div_le_lower_bound x (2 ^ s) x ltac:(lia) ltac:(nia)).
    pose proof (Z.div_le_upper_bound x (2 ^ s) 0 ltac:(lia) ltac:(lia)). lia.
Qed.

Lemma CheckedRshOp_spec T U V x shift r : in_range T x → in_range U shift →
  answers (CheckedRshOp T U V x shift) r
    ((0 <=? shift) && (shift <? int_bits T) && fits V (x / 2 ^ shift)) (x / 2 ^ shift).
Proof.
  intros Hx Hs. unfold CheckedRshOp.
  destruct (shift_count U shift (int_bits T) Hs ltac:(by destruct T)) as [-> _].
  destruct (Z.leb_spec 0 shift) as [Hs0|]; [|by apply (answers_intro _ _ _ _ r)].
  destruct (Z.ltb_spec shift (int_bits T)); [|by apply (answers_intro _ _ _ _ r)]. cbn [andb].
  rewrite Z.shiftr_div_pow2 by done. pose proof (shiftr_range T x shift Hx Hs0) as Hr.
  rewrite (cast_id T) by done. by apply (store_answers T V true (x / 2 ^ shift)).
Qed.

(** ** Maximum and minimum *)

Lemma max_held T U x y : in_range T x → in_range U y → in_range (MaxExponentPromotion T U) (Z.max x y).
Proof.
  intros Hx Hy. unfold in_range in *.
  assert (numeric_max T ≤ numeric_max (MaxExponentPromotion T U) ∧
    numeric_max U ≤ numeric_max (MaxExponentPromotion T U) ∧
    (numeric_lowest (MaxExponentPromotion T U) ≤ numeric_lowest T ∨
     numeric_lowest (MaxExponentPromotion T U) ≤ numeric_lowest U)) as (H1&H2&H3); [|lia].
  destruct T, U; (split; [by vm_compute|]; split; [by vm_compute|];
    first [left; by vm_compute | right; by vm_compute]).
Qed.

Lemma min_held T U x y : in_range T x → in_range U y → in_range (LowestValuePromotion T U) (Z.min x y).
Proof.
  intros Hx Hy. unfold in_range in *.
  assert (numeric_lowest (LowestValuePromotion T U) ≤ numeric_lowest T ∧
    numeric_lowest (LowestValuePromotion T U) ≤ numeric_lowest U ∧
    (numeric_max T ≤ numeric_max (LowestValuePromotion T U) ∨
     numeric_max U ≤ numeric_max (LowestValuePromotion T U))) as (H1&H2&H3); [|lia].
  destruct T, U; (split; [by vm_compute|]; split; [by vm_compute|];
    first [left; by vm_compute | right; by vm_compute]).
Qed.

Lemma CheckedMaxOp_spec T U V x y r : in_range T x → in_range U y →
  answers (CheckedMaxOp T U V x y) r (fits V (Z.max x y)) (Z.max x y).
Proof.
  intros Hx Hy. unfold CheckedMaxOp. rewrite Test_spec by done. simpl.
  pose proof (max_held T U x y Hx Hy) as Hm.
  replace (if y <? x then _ else _) with (Z.max x y).
  - by apply (store_answers (MaxExponentPromotion T U) V true (Z.max x y)).
  - destruct (Z.ltb_spec y x).
    + replace (Z.max x y) with x in * by lia. by rewrite cast_id.
    + replace (Z.max x y) with y in * by lia. by rewrite cast_id.
Qed.

Lemma CheckedMinOp_spec T U V x y r : in_range T x → in_range U y →
  answers (CheckedMinOp T U V x y) r (fits V (Z.min x y)) (Z.min x y).
Proof.
  intros Hx Hy. unfold CheckedMinOp. rewrite Test_spec by done. simpl.
  pose proof (min_held T U x y Hx Hy) as Hm.
  replace (if x <? y then _ else _) with (Z.min x y).
  - by apply (store_answers (LowestValuePromotion T U) V true (Z.min x y)).
  - destruct (Z.ltb_spec x y).
    + replace (Z.min x y) with x in * by lia. by rewrite cast_id.
    + replace (Z.min x y) with y in * by lia. by rewrite cast_id.
Qed.
End ops.
