(* ===== verification/CheckedMathTheorems.v ===== *)
(** Checked arithmetic: a result is reported valid only if it is the exact one, and
    exactly when that can be represented, except where the types mix a sign with the
    widest unsigned type; what is wrong there; and whole expressions. *)
From S2P Require Import Prelude SafeConversions SafeConversionsTheorems CheckedMath CheckedMathLemmas.
From Stdlib Require Import ZArith Lia.
From stdpp Require Import base tactics numbers strings list.

Open Scope Z_scope.

(** The exact result of an operation, where it has one. *)
Definition exact (op : math_op) (T U : int_type) (x y : Z) : option Z :=
  match op with
  | OpAdd => Some (x + y)
  | OpSub => Some (x - y)
  | OpMul => Some (x * y)
  | OpDiv => if y =? 0 then None else Some (Z.quot x y)
  | OpMod => if y =? 0 then None else Some (Z.rem x y)
  | OpLsh =>
    if (0 <=? x) && (0 <=? y) && ((y <? digits T) || int_signed T && (x =? 0) && (y =? digits T))
    then Some (x * 2 ^ y) else None
  | OpRsh => if (0 <=? y) && (y <? int_bits T) then Some (x / 2 ^ y) else None
  | OpAnd => Some (Z.land (cast (bitwise_type T U) x) (cast (bitwise_type T U) y))
  | OpOr => Some (Z.lor (cast (bitwise_type T U) x) (cast (bitwise_type T U) y))
  | OpXor => Some (Z.lxor (cast (bitwise_type T U) x) (cast (bitwise_type T U) y))
  | OpMax => Some (Z.max x y)
  | OpMin => Some (Z.min x y)
  end.

(** A signed type together with [uint64_t]: no type has the values of both. *)
Definition mixed64 (T U : int_type) : bool :=
  match T, U with
  | UInt64, _ => int_signed U
  | _, UInt64 => int_signed T
  | _, _ => false
  end.

(** The remainder the processor cannot compute: the smallest number by minus one, in a
    type of 32 or 64 bits. *)
Definition mod_overflows (T U : int_type) (x y : Z) : bool :=
  let P := fst (BigEnoughPromotion T U) in
  int_signed P && (x =? numeric_lowest P) && (y =? -1) && (32 <=? int_bits P).

(** The one operation that is not guarded. *)
Definition undefined_op (op : math_op) (T U : int_type) (x y : Z) : bool :=
  match op with OpMod => mod_overflows T U x y | _ => false end.

Definition represents (V : int_type) (o : option Z) : bool :=
  match o with Some z => fits V z | None => false end.

Section theorems.
Context {PF : Platform}.

Lemma unmixed_contains T U : mixed64 T U = false →
  StaticDstRangeRelationToSrcRange (AddPromotion T U) T = true ∧
  StaticDstRangeRelationToSrcRange (AddPromotion T U) U = true ∧
  StaticDstRangeRelationToSrcRange (FastIntegerArithmeticPromotion T U) T = true ∧
  StaticDstRangeRelationToSrcRange (FastIntegerArithmeticPromotion T U) U = true ∧
  StaticDstRangeRelationToSrcRange (fst (BigEnoughPromotion T U)) T = true ∧
  StaticDstRangeRelationToSrcRange (fst (BigEnoughPromotion T U)) U = true.
Proof.
  unfold AddPromotion. destruct intptr_t, T, U; vm_compute; try discriminate; by intros _.
Qed.

Lemma promotions_contain_result T U V : mixed64 T U = false →
  V = T ∨ V = MaxExponentPromotion T U →
  StaticDstRangeRelationToSrcRange (AddPromotion T U) V = true ∧
  StaticDstRangeRelationToSrcRange (FastIntegerArithmeticPromotion T U) V = true ∧
  StaticDstRangeRelationToSrcRange (fst (BigEnoughPromotion T U)) V = true.
Proof.
  intros Hm HV. destruct (unmixed_contains T U Hm) as (H1&H2&H3&H4&H5&H6).
  assert (V = T ∨ V = U) as [-> | ->]; [|done..].
  destruct HV as [->| ->]; [by left|]. unfold MaxExponentPromotion. destruct (_ <? _); auto.
Qed.

Lemma fits_within P V z : StaticDstRangeRelationToSrcRange P V = true → fits P z && fits V z = fits V z.
Proof.
  intros Hc. destruct (fits V z) eqn:E; [|by rewrite andb_false_r].
  apply fits_spec in E. by rewrite fits_true by eauto using contains_range.
Qed.

Lemma answers_weaken m r ok ok' z : answers m r ok z → ok = ok' → answers m r ok' z.
Proof. by intros H <-. Qed.

Lemma bitwise_answers (f : Z → Z → Z) T U V x y r :
  (∀ a b, in_range (bitwise_type T U) a → in_range (bitwise_type T U) b → in_range (bitwise_type T U) (f a b)) →
  let tmp := f (cast (bitwise_type T U) x) (cast (bitwise_type T U) y) in
  answers (_ ← put (cast V tmp); mret (IsValueInRangeForNumericType V (bitwise_type T U) tmp)) r (fits V tmp) tmp.
Proof.
  intros Hf tmp. apply (store_answers (bitwise_type T U) V true tmp); [|done|done].
  apply Hf; apply cast_range.
Qed.

(** The bitwise operations stay within an unsigned type. *)
Lemma bitwise_range (f : Z → Z → Z) (g : bool → bool → bool) B :
  (∀ a b i, 0 ≤ i → Z.testbit (f a b) i = g (Z.testbit a i) (Z.testbit b i)) → g false false = false →
  (∀ a b, 0 ≤ a → 0 ≤ b → 0 ≤ f a b) → int_signed B = false →
  ∀ a b, in_range B a → in_range B b → in_range B (f a b).
Proof.
  intros Hbit Hg Hpos Hs a b Ha Hb. destruct (unsigned_limits B Hs) as (Hp&Hl&Hm).
  unfold in_range in *. rewrite Hl in *. specialize (Hpos a b ltac:(lia) ltac:(lia)).
  assert (f a b < 2 ^ int_bits B); [|lia].
  replace (f a b) with (f a b mod 2 ^ int_bits B); [apply Z.mod_pos_bound; lia|].
  apply Z.bits_inj'. intros i Hi. pose proof (bits_pos B).
  destruct (Z.lt_ge_cases i (int_bits B)).
  - by rewrite Z.mod_pow2_bits_low by lia.
  - rewrite Z.mod_pow2_bits_high, Hbit by lia.
    rewrite <-(Z.mod_small a (2 ^ int_bits B)), <-(Z.mod_small b (2 ^ int_bits B)) by lia.
    by rewrite !Z.mod_pow2_bits_high, Hg by lia.
Qed.

Lemma bitwise_type_unsigned T U : int_signed (bitwise_type T U) = false.
Proof. unfold bitwise_type. by destruct (MaxExponentPromotion T U). Qed.

Lemma answers_invalid m r z z' : answers m r false z → answers m r false z'.
Proof. intros (r'&Hr&_). by exists r'. Qed.

Lemma lsh_exact T U x y : in_range T x → in_range U y →
  answers (CheckedLshOp T U x y) 0 (represents T (exact OpLsh T U x y)) (default 0 (exact OpLsh T U x y)).
Proof.
  intros Hx Hy. pose proof (CheckedLshOp_spec T U x y Hx Hy) as Hd. unfold exact.
  destruct ((0 <=? x) && (0 <=? y)); simpl in *; [|by eapply answers_invalid].
  destruct (y <? digits T) eqn:E2; simpl in *.
  - by rewrite (proj2 (Z.eqb_neq y (digits T))), andb_false_r, orb_false_r in Hd by lia.
  - destruct (int_signed T && (x =? 0) && (y =? digits T)) eqn:E3; simpl in *; [|by eapply answers_invalid].
    apply andb_true_iff in E3 as [[_ ->%Z.eqb_eq]%andb_true_iff _].
    eapply answers_weaken; [exact Hd|]. symmetry. apply fits_true, zero_in_range.
Qed.

Lemma rsh_exact T U V x y : in_range T x → in_range U y →
  answers (CheckedRshOp T U V x y) 0 (represents V (exact OpRsh T U x y)) (default 0 (exact OpRsh T U x y)).
Proof.
  intros Hx Hy. pose proof (CheckedRshOp_spec T U V x y 0 Hx Hy) as Hd. unfold exact.
  destruct ((0 <=? y) && (y <? int_bits T)); simpl in *; [done|by eapply answers_invalid].
Qed.

Lemma bitwise_exact op T U V x y : op = OpAnd ∨ op = OpOr ∨ op = OpXor →
  answers (checked_Do op T U V x y) 0 (represents V (exact op T U x y)) (default 0 (exact op T U x y)).
Proof.
  intros [->|[->| ->]].
  - apply (bitwise_answers Z.land), (bitwise_range Z.land andb);
      auto using Z.land_spec, bitwise_type_unsigned. intros a b Ha _. apply Z.land_nonneg. by left.
  - apply (bitwise_answers Z.lor), (bitwise_range Z.lor orb);
      auto using Z.lor_spec, bitwise_type_unsigned. intros a b Ha Hb. by apply Z.lor_nonneg.
  - apply (bitwise_answers Z.lxor), (bitwise_range Z.lxor xorb);
      auto using Z.lxor_spec, bitwise_type_unsigned. intros a b Ha Hb. by apply Z.lxor_nonneg.
Qed.

Lemma checked_Do_exact op T U V x y :
  in_range T x → in_range U y → V = T ∨ V = result_type op T U →
  mixed64 T U = false → (op = OpMod → mod_overflows T U x y = false) →
  answers (checked_Do op T U V x y) 0 (represents V (exact op T U x y)) (default 0 (exact op T U x y)).
Proof.
  intros Hx Hy HV Hm Hmod. destruct (unmixed_contains T U Hm) as (HA1&HA2&HF1&HF2&HB1&HB2).
  destruct op; cbn [checked_Do exact represents default result_type] in *.
  - eapply answers_weaken; [by apply CheckedAddOp_spec|].
    rewrite (fits_true _ x), (fits_true _ y) by eauto using contains_range.
    apply fits_within, (promotions_contain_result T U V Hm HV).
  - eapply answers_weaken; [by apply CheckedSubOp_spec|].
    rewrite (fits_true _ x), (fits_true _ y) by eauto using contains_range.
    apply fits_within, (promotions_contain_result T U V Hm HV).
  - eapply answers_weaken; [by apply CheckedMulOp_spec|].
    rewrite (fits_true _ x), (fits_true _ y), orb_true_r by eauto using contains_range.
    apply fits_within, (promotions_contain_result T U V Hm HV).
  - pose proof (CheckedDivOp_spec T U V x y 0 Hx Hy) as Hd. cbv zeta in Hd.
    rewrite (fits_true _ x), (fits_true _ y), orb_true_r in Hd by eauto using contains_range.
    destruct (y =? 0); simpl in *; [by eapply answers_invalid|].
    eapply answers_weaken; [exact Hd|]. apply fits_within, (promotions_contain_result T U V Hm HV).
  - pose proof (CheckedModOp_spec T U V x y 0 Hx Hy) as Hd. cbv zeta in Hd.
    specialize (Hd ltac:(eauto using contains_range) ltac:(eauto using contains_range)).
    specialize (Hmod eq_refl). unfold mod_overflows in Hmod. rewrite Hmod in Hd.
    destruct (y =? 0); simpl in *; [by eapply answers_invalid|done].
  - assert (V = T) as -> by by destruct HV. by apply lsh_exact.
  - by apply rsh_exact.
  - apply (bitwise_exact OpAnd); auto.
  - apply (bitwise_exact OpOr); auto.
  - apply (bitwise_exact OpXor); auto.
  - by apply CheckedMaxOp_spec.
  - by apply CheckedMinOp_spec.
Qed.

Lemma checked_Do_undefined op T U V x y :
  in_range T x → in_range U y → mixed64 T U = false → undefined_op op T U x y = true →
  checked_Do op T U V x y 0 = Fault (UndefinedBehaviour "quotient out of range").
Proof.
  intros Hx Hy Hm Hu. destruct op; try done.
  destruct (unmixed_contains T U Hm) as (_&_&_&_&HB1&HB2).
  pose proof (CheckedModOp_spec T U V x y 0 Hx Hy) as Hd. cbv zeta in Hd.
  specialize (Hd ltac:(eauto using contains_range) ltac:(eauto using contains_range)).
  unfold undefined_op, mod_overflows in Hu. by rewrite Hu in Hd.
Qed.

(** C23. Every operation, for operands of any two integer types except a signed one with
    [uint64_t]: the remainder of the smallest number by minus one, in a promoted type of 32
    or 64 bits, is undefined behaviour; in every other case the operation returns, and it
    reports success exactly when the exact result exists and fits the destination, which
    then has it. *)
Theorem checked_ops_exact op T U V x y :
  in_range T x → in_range U y → V = T ∨ V = result_type op T U → mixed64 T U = false →
  if undefined_op op T U x y
  then checked_Do op T U V x y 0 = Fault (UndefinedBehaviour "quotient out of range")
  else answers (checked_Do op T U V x y) 0 (represents V (exact op T U x y)) (default 0 (exact op T U x y)).
Proof.
  intros Hx Hy HV Hm. destruct (undefined_op op T U x y) eqn:Hu; [by apply checked_Do_undefined|].
  apply checked_Do_exact; [done..|]. by intros ->.
Qed.

(** Whatever the types, an operation other than the remainder returns, and what it
    reports valid is the exact result. *)
Theorem checked_ops_sound op T U V x y :
  in_range T x → in_range U y → V = T ∨ V = result_type op T U → op ≠ OpMod →
  ∃ ok r, checked_Do op T U V x y 0 = Ok (ok, r) ∧
    (ok = true → exact op T U x y = Some r ∧ in_range V r).
Proof.
  intros Hx Hy HV Hop.
  assert (∃ ok, answers (checked_Do op T U V x y) 0 ok (default 0 (exact op T U x y)) ∧
    (ok = true → represents V (exact op T U x y) = true)) as (ok&(r&Hr&Hz)&Hrep).
  { destruct op; try done; cbn [checked_Do result_type] in *.
    - eexists. split; [by apply CheckedAddOp_spec|]. by intros [_ ?]%andb_true_iff.
    - eexists. split; [by apply CheckedSubOp_spec|]. by intros [_ ?]%andb_true_iff.
    - eexists. split; [by apply CheckedMulOp_spec|]. by intros [_ ?]%andb_true_iff.
    - pose proof (CheckedDivOp_spec T U V x y 0 Hx Hy) as Hd. cbv zeta in Hd. simpl.
      destruct (y =? 0); simpl in *; [exists false; split; [by eapply answers_invalid|done]|].
      eexists. split; [exact Hd|]. by intros [_ ?]%andb_true_iff.
    - assert (V = T) as -> by by destruct HV. eexists. split; [by apply lsh_exact|done].
    - eexists. split; [by apply rsh_exact|done].
    - eexists. split; [apply (bitwise_exact OpAnd); auto|done].
    - eexists. split; [apply (bitwise_exact OpOr); auto|done].
    - eexists. split; [apply (bitwise_exact OpXor); auto|done].
    - eexists. split; [by apply CheckedMaxOp_spec|done].
    - eexists. split; [by apply CheckedMinOp_spec|done]. }
  exists ok, r. split; [done|]. intros Hok. rewrite (Hz Hok). specialize (Hrep Hok).
  destruct (exact op T U x y) as [z|]; [|done]. simpl in *. by apply fits_spec in Hrep.
Qed.

(** The remainder has no check of its operands: minus one by ten is reported as the
    valid result five when the divisor is a [uint64_t], and the smallest number by minus
    one is divided although its quotient does not exist; and the sum of minus one and a
    [uint64_t] is refused although it is representable. *)
Theorem checked_mod_unchecked :
  CheckedModOp Int64 UInt64 UInt64 (-1) 10 0 = Ok (true, 5) ∧
  faults (CheckedModOp Int32 Int32 Int32 (numeric_lowest Int32) (-1)) 0 ∧
  faults (CheckedModOp Int64 Int64 Int64 (numeric_lowest Int64) (-1)) 0 ∧
  CheckedAddOp Int64 UInt64 UInt64 (-1) 10 0 = Ok (false, 0).
Proof. split; [done|]. split; [done|]. split; [done|]. unfold CheckedAddOp, AddPromotion. by destruct intptr_t. Qed.

(** ** Expressions of one type *)

(** A [CheckedNumeric] stands for a number of its type, or for none. *)
Definition stands_for (T : int_type) (c : CheckedNumeric) (o : option Z) : Prop :=
  in_range T (value_ c) ∧
  match o with Some z => is_valid_ c = true ∧ value_ c = z | None => is_valid_ c = false end.

Definition represented (T : int_type) (o : option Z) : option Z :=
  match o with Some z => if fits T z then Some z else None | None => None end.

Lemma from_value_stands T Src z : in_range Src z →
  stands_for T (Checked.from_value T Src z) (represented T (Some z)).
Proof.
  intros Hz. unfold Checked.from_value, stands_for, represented. simpl. split; [apply cast_range|].
  rewrite in_range_check by done. destruct (fits T z) eqn:E; [|done].
  apply fits_spec in E. split; [done|]. by apply cast_id.
Qed.

Lemma from_parts_stands T r ok z o :
  (ok = true → r = z ∧ o = Some z ∧ in_range T z) → (ok = false → o = None) →
  stands_for T (Checked.from_parts T T r ok) o.
Proof.
  intros Hok Hno. unfold Checked.from_parts, stands_for. simpl. split; [apply cast_range|].
  destruct ok.
  - destruct (Hok eq_refl) as (->&->&Hz). rewrite in_range_check, fits_true by done.
    split; [done|]. by apply cast_id.
  - by rewrite (Hno eq_refl).
Qed.

Lemma invalid_stands T r : stands_for T (Checked.from_parts T T r false) None.
Proof. by apply (from_parts_stands _ _ _ 0). Qed.

Lemma IsValid_same T c : in_range T (value_ c) → Checked.IsValid T T c = is_valid_ c.
Proof. intros Hc. unfold Checked.IsValid. by rewrite in_range_check, fits_true, andb_true_r. Qed.

(** A binary operation that stays in the type, on two values that may be invalid. *)
Lemma CheckMathOp_stands {S} op T a b oa ob (s : S) :
  result_type op T T = T → stands_for T a oa → stands_for T b ob →
  match oa, ob with
  | Some x, Some y =>
    if undefined_op op T T x y
    then Checked.CheckMathOp op T T (Checked a) (Checked b) s =
           Fault (UndefinedBehaviour "quotient out of range")
    else ∃ c, Checked.CheckMathOp op T T (Checked a) (Checked b) s = Ok (c, s) ∧
              stands_for T c (represented T (exact op T T x y))
  | _, _ => ∃ c, Checked.CheckMathOp op T T (Checked a) (Checked b) s = Ok (c, s) ∧ stands_for T c None
  end.
Proof.
  intros HT [Ha Hoa] [Hb Hob]. unfold Checked.CheckMathOp, Checked.MathOp. rewrite HT. simpl.
  rewrite !IsValid_same by done.
  destruct oa as [x|]; [destruct Hoa as [-> Hx]|rewrite Hoa; eexists; split; [done|]; apply invalid_stands].
  destruct ob as [y|]; [destruct Hob as [-> Hy]|rewrite Hob; eexists; split; [done|]; apply invalid_stands].
  rewrite Hx, Hy in *. simpl.
  assert (mixed64 T T = false) as Hm by by destruct T.
  destruct (undefined_op op T T x y) eqn:Hu.
  { apply fault_bind. unfold on_local. by rewrite checked_Do_undefined. }
  destruct (checked_Do_exact op T T T x y Ha Hb (or_introl eq_refl) Hm) as (r&Hr&Hz); [by intros ->|].
  rewrite (bind_run _ _ _ ((represents T (exact op T T x y)), r) s) by (unfold on_local; by rewrite Hr).
  eexists. split; [done|]. simpl. unfold represents, represented in *.
  destruct (exact op T T x y) as [z|]; simpl in *; [|apply invalid_stands].
  destruct (fits T z) eqn:Ef; [|apply invalid_stands]. apply fits_spec in Ef.
  apply (from_parts_stands _ _ _ z); [|done]. intros _. by rewrite Hz.
Qed.

Lemma NegateWrapper_spec T v : NegateWrapper T v = cast T (- v).
Proof.
  unfold NegateWrapper. rewrite cast_via by apply make_unsigned_bits. apply cast_congr.
  by rewrite Zminus_mod, cast_unsigned_mod, <-Zminus_mod.
Qed.

Lemma negate_stands {S} constant T a oa (s : S) : int_signed T = true → stands_for T a oa →
  ∃ c, Checked.negate constant T a s = Ok (c, s) ∧
    stands_for T c (match oa with Some x => represented T (Some (- x)) | None => None end).
Proof.
  intros Hs [Ha Hoa]. destruct (signed_limits T Hs) as (_&Hl&Hm). unfold Checked.negate. rewrite Hs, orb_false_r.
  assert (represents T (Some (- value_ a)) = negb (cast T (- value_ a) =? numeric_lowest T)) as Hfit.
  { simpl. destruct (fits T (- value_ a)) eqn:Ef.
    - apply fits_spec in Ef. rewrite cast_id by done. symmetry. apply negb_true_iff, Z.eqb_neq.
      unfold in_range in *. lia.
    - symmetry. apply negb_false_iff, Z.eqb_eq.
      assert (value_ a = numeric_lowest T) as ->.
      { destruct (decide (in_range T (- value_ a))) as [Hin|Hout]; [by rewrite fits_true in Ef|].
        unfold in_range in *. lia. }
      clear -Hs. by destruct T. }
  assert (∀ r ok, (is_valid_ a = true → ok = represents T (Some (- value_ a))) →
    (is_valid_ a && ok = true → r = - value_ a) →
    stands_for T (Checked.from_parts T T r (is_valid_ a && ok))
      (match oa with Some x => represented T (Some (- x)) | None => None end)) as Hstands.
  { intros r ok Hok Hr. destruct oa as [x|]; [destruct Hoa as [Hv Hx]|rewrite Hoa; apply invalid_stands].
    rewrite Hv in *. rewrite Hx in *. rewrite (Hok eq_refl) in *. simpl in *.
    destruct (fits T (- x)) eqn:Ef; [|apply invalid_stands]. apply fits_spec in Ef.
    apply (from_parts_stands _ _ _ (- x)); [|done]. intros _. by rewrite Hr. }
  destruct constant; simpl.
  - eexists. split; [done|]. rewrite IsValid_same, NegateWrapper_spec by done. apply Hstands; [done|].
    intros [_ Hn]%andb_true_iff. rewrite <-Hfit in Hn. simpl in Hn. apply fits_spec in Hn. by apply cast_id.
  - unfold Checked.FastRuntimeNegate. rewrite cast_zero.
    assert (mixed64 T T = false) as Hmix by by destruct T.
    destruct (checked_Do_exact OpSub T T T 0 (value_ a) (zero_in_range T) Ha (or_introl eq_refl) Hmix ltac:(done))
      as (r&Hr&Hz). simpl in Hr, Hz.
    rewrite (bind_run _ _ _ (fits T (- value_ a), r) s) by (unfold on_local; by rewrite Hr).
    eexists. split; [done|]. rewrite IsValid_same by done. simpl. apply Hstands; [done|].
    intros [_ Hn]%andb_true_iff. rewrite Hz by done. lia.
Qed.

(** The negation of an unsigned number is reported valid, and is taken modulo the range. *)
Lemma negate_unsigned_stands {S} constant T a oa (s : S) : int_signed T = false → stands_for T a oa →
  ∃ c, Checked.negate constant T a s = Ok (c, s) ∧
    stands_for T c (match oa with Some x => Some (- x mod 2 ^ int_bits T) | None => None end).
Proof.
  intros Hs [Ha Hoa]. unfold Checked.negate. rewrite Hs, orb_true_r. cbn [negb orb].
  eexists. split; [done|]. rewrite IsValid_same, andb_true_r, NegateWrapper_spec by done.
  destruct oa as [x|]; [destruct Hoa as [-> <-]|rewrite Hoa; apply invalid_stands].
  assert (cast T (- value_ a) = - value_ a mod 2 ^ int_bits T) as E by (unfold cast; by rewrite Hs).
  apply (from_parts_stands _ _ _ (- value_ a mod 2 ^ int_bits T)); [|done].
  intros _. rewrite E. split_and!; [done..|]. rewrite <-E. apply cast_range.
Qed.

(** Expressions over variables converted to [CheckedNumeric<T>]. *)
Inductive expr := Lit (Src : int_type) (z : Z) | Bin (op : math_op) (e1 e2 : expr) | Neg (e : expr).

Fixpoint eval {S} (constant : bool) (T : int_type) (e : expr) : M S CheckedNumeric :=
  match e with
  | Lit Src z => mret (Checked.from_value T Src z)
  | Bin op e1 e2 =>
    c1 ← eval constant T e1; c2 ← eval constant T e2;
    Checked.CheckMathOp op T T (Checked c1) (Checked c2)
  | Neg e => c ← eval constant T e; Checked.negate constant T c
  end.

(** What the evaluation amounts to: [None] is undefined behaviour; [Some None] an invalid
    result, because something on the way cannot be represented; otherwise it is the value
    over the integers, with the negation of unsigned numbers taken modulo their range. *)
Fixpoint meaning (T : int_type) (e : expr) : option (option Z) :=
  match e with
  | Lit Src z => Some (represented T (Some z))
  | Bin op e1 e2 =>
    match meaning T e1, meaning T e2 with
    | Some (Some x), Some (Some y) =>
      if undefined_op op T T x y then None else Some (represented T (exact op T T x y))
    | Some _, Some _ => Some None
    | _, _ => None
    end
  | Neg e =>
    match meaning T e with
    | Some (Some x) =>
      Some (if int_signed T then represented T (Some (- x)) else Some (- x mod 2 ^ int_bits T))
    | o => o
    end
  end.

(** The literals have their types, and every binary operation gives a result of type [T]
    (the bitwise ones of a signed type do not: their result is unsigned). *)
Fixpoint well_typed (T : int_type) (e : expr) : Prop :=
  match e with
  | Lit Src z => in_range Src z
  | Bin op e1 e2 => result_type op T T = T ∧ well_typed T e1 ∧ well_typed T e2
  | Neg e => well_typed T e
  end.

Lemma eval_stands {S} constant T e (s : S) : well_typed T e →
  match meaning T e with
  | Some o => ∃ c, eval constant T e s = Ok (c, s) ∧ stands_for T c o
  | None => eval constant T e s = Fault (UndefinedBehaviour "quotient out of range")
  end.
Proof.
  induction e as [Src z|op e1 IH1 e2 IH2|e IH]; simpl.
  - intros Hz. eexists. split; [done|]. by apply from_value_stands.
  - intros (HT&H1&H2). specialize (IH1 H1). specialize (IH2 H2).
    destruct (meaning T e1) as [o1|]; [destruct IH1 as (c1&Hr1&Hs1)|by apply fault_bind].
    rewrite (bind_run _ _ _ _ _ Hr1). destruct (meaning T e2) as [o2|];
      [destruct IH2 as (c2&Hr2&Hs2)|by destruct o1; apply fault_bind].
    rewrite (bind_run _ _ _ _ _ Hr2). pose proof (CheckMathOp_stands op T c1 c2 o1 o2 s HT Hs1 Hs2) as Hc.
    destruct o1, o2; try done. by destruct (undefined_op op T T z z0).
  - intros Ht. specialize (IH Ht). destruct (meaning T e) as [o|]; [|by apply fault_bind].
    destruct IH as (c&Hr&Hc). rewrite (bind_run _ _ _ _ _ Hr). destruct (int_signed T) eqn:Hs.
    + destruct (negate_stands constant T c o s Hs Hc) as (c'&Hn&Hc'). destruct o; by exists c'.
    + destruct (negate_unsigned_stands constant T c o s Hs Hc) as (c'&Hn&Hc'). destruct o; by exists c'.
Qed.

(** C22. An expression in one type, evaluated with [CheckedNumeric]: [ValueOrDie] returns
    its value over the integers when that and every intermediate result can be
    represented, and stops the program otherwise; [ValueOrDefault] gives the default
    then.  There are two exceptions, both in [meaning]: the negation of an unsigned number is
    reported valid and taken modulo the range of the type; and the remainder of the smallest
    [int] or [int64_t] by minus one is undefined behaviour.  Nothing else is undefined on
    the way. *)
Theorem checked_expressions {S} constant T e Src default_value (s : S) :
  well_typed T e → in_range Src default_value → in_range T default_value →
  (c ← eval constant T e; Checked.ValueOrDie T T c) s =
    match meaning T e with
    | Some (Some z) => Ok (z, s)
    | Some None => Fault (CheckFailed "numeric boundary")
    | None => Fault (UndefinedBehaviour "quotient out of range")
    end ∧
  (c ← eval constant T e; Checked.ValueOrDefault T T Src default_value c) s =
    match meaning T e with
    | Some o => Ok (default default_value o, s)
    | None => Fault (UndefinedBehaviour "quotient out of range")
    end.
Proof.
  intros Ht Hd HdT. pose proof (eval_stands constant T e s Ht) as Hm.
  destruct (meaning T e) as [o|]; [|split; by apply fault_bind]. destruct Hm as (c&Hr&Hc&Ho).
  rewrite !(bind_run _ _ _ _ _ Hr). unfold Checked.ValueOrDie, Checked.ValueOrDefault.
  rewrite IsValid_same by done. destruct o as [z|]; [destruct Ho as [-> <-]|rewrite Ho].
  - by rewrite cast_id.
  - split; [done|]. by rewrite checked_cast_spec, fits_true.
Qed.
End theorems.

(** * Witnesses *)

#[local] Instance x64 : Platform := Int64.

Lemma checked_ops_exact_witness :
  answers (checked_Do OpAdd Int32 UInt32 Int32 (-5) 7) 0 true 2 ∧
  answers (checked_Do OpMul Int64 Int64 Int64 (2 ^ 40) (2 ^ 40)) 0 false (2 ^ 80) ∧
  checked_Do OpMod Int32 Int32 Int32 (- 2 ^ 31) (-1) 0 =
    Fault (UndefinedBehaviour "quotient out of range").
Proof.
  split; [|split].
  - exact (checked_ops_exact OpAdd Int32 UInt32 Int32 (-5) 7 ltac:(by vm_compute) ltac:(by vm_compute)
      (or_introl eq_refl) eq_refl).
  - exact (checked_ops_exact OpMul Int64 Int64 Int64 (2 ^ 40) (2 ^ 40) ltac:(by vm_compute) ltac:(by vm_compute)
      (or_introl eq_refl) eq_refl).
  - exact (checked_ops_exact OpMod Int32 Int32 Int32 (- 2 ^ 31) (-1) ltac:(by vm_compute) ltac:(by vm_compute)
      (or_introl eq_refl) eq_refl).
Defined.

Lemma checked_ops_sound_witness :
  ∃ ok r, checked_Do OpSub UInt64 Int32 UInt64 10 3 0 = Ok (ok, r) ∧ (ok = true → r = 7).
Proof.
  destruct (checked_ops_sound OpSub UInt64 Int32 UInt64 10 3) as (ok&r&Hr&Hok);
    [by vm_compute|by vm_compute|by left|discriminate|].
  exists ok, r. split; [exact Hr|]. intros H. destruct (Hok H) as [He _]. vm_compute in He. congruence.
Defined.

Lemma checked_expressions_witness :
  (c ← eval true Int8 (Bin OpMul (Bin OpAdd (Lit Int32 3) (Lit UInt8 4)) (Neg (Lit Int16 9)));
   Checked.ValueOrDie Int8 Int8 c) tt = Ok (-63, tt).
Proof.
  destruct (checked_expressions true Int8
    (Bin OpMul (Bin OpAdd (Lit Int32 3) (Lit UInt8 4)) (Neg (Lit Int16 9))) Int32 0 tt) as [H _].
  - simpl. repeat split; (discriminate || by vm_compute).
  - by vm_compute.
  - by vm_compute.
  - rewrite H. reflexivity.
Defined.
