(* ===== verification/ClampedMath.v ===== *)
(** base/numerics/clamped_math_impl.h, clamped_math.h and ranges.h: arithmetic that gives
    the nearest number of its type instead of overflowing.  Like CheckedMath.v for the
    integer types and the portable code; the operations may stop where a remainder is
    undefined. *)
From S2P Require Import Prelude SafeConversions CheckedMath.
From Stdlib Require Import ZArith Lia.
From stdpp Require Import base tactics numbers strings list.

Open Scope Z_scope.

Definition SaturatedNegWrapper (T : int_type) (value : Z) : Z :=
  if int_signed T
  then if negb (NegateWrapper T value =? numeric_lowest T) then NegateWrapper T value else numeric_max T
  else 0.

(** The unsigned absolute value is tested for its sign as a [T]. *)
Definition SaturatedAbsWrapper (T : int_type) (value : Z) : Z :=
  cast T (SafeUnsignedAbs T value - Z.b2z (IsValueNegative T (cast T (SafeUnsignedAbs T value)))).

Section ops.
Context {PF : Platform}.

(** An operation of the checked kind on a local variable [V result = {}]. *)
Definition try_checked {S} (m : M Z bool) : M S (option Z) :=
  r ← on_local 0 m;
  mret (if r.1 : bool then Some r.2 else None).

Definition ClampedAddOp {S} (T U V : int_type) (x y : Z) : M S Z :=
  let saturated := CommonMaxOrMin V V (IsValueNegative U y) in
  result ← try_checked (CheckedAddOp T U V x y);
  mret (default saturated result).

Definition ClampedSubOp {S} (T U V : int_type) (x y : Z) : M S Z :=
  let saturated := CommonMaxOrMin V V (negb (IsValueNegative U y)) in
  result ← try_checked (CheckedSubOp T U V x y);
  mret (default saturated result).

Definition ClampedMulOp {S} (T U V : int_type) (x y : Z) : M S Z :=
  let saturated := CommonMaxOrMin V V (xorb (IsValueNegative T x) (IsValueNegative U y)) in
  result ← try_checked (CheckedMulOp T U V x y);
  mret (default saturated result).

Definition ClampedDivOp {S} (T U V : int_type) (x y : Z) : M S Z :=
  result ← try_checked (CheckedDivOp T U V x y);
  match result with
  | Some result => mret result
  | None =>
    mret (if negb (x =? 0) then CommonMaxOrMin V V (xorb (IsValueNegative T x) (IsValueNegative U y))
          else saturation_NaN)
  end.

Definition ClampedModOp {S} (T U V : int_type) (x y : Z) : M S Z :=
  result ← try_checked (CheckedModOp T U V x y);
  mret (match result with Some result => result | None => cast V x end).

(** For a count of an unsigned type; the destination is the type of the left operand. *)
Definition ClampedLshOp {S} (T : int_type) (x shift : Z) : M S Z :=
  let saturated := if negb (x =? 0) then CommonMaxOrMin T T (IsValueNegative T x) else 0 in
  if shift <? digits T then
    let result := cast T (cast (promote (make_unsigned T)) (Z.shiftl (as_unsigned T x) shift)) in
    if Z.shiftr result shift =? x then mret result else mret saturated
  else mret saturated.

Definition ClampedRshOp {S} (T V : int_type) (x shift : Z) : M S Z :=
  let saturated := cast V (as_unsigned V (cast V 0) - Z.b2z (IsValueNegative T x)) in
  mret (if shift <? int_bits T
        then saturated_cast false V (promote T) (Z.shiftr x shift)
        else saturated).

Definition ClampedAndOp {S} (T U V : int_type) (x y : Z) : M S Z :=
  mret (cast V (Z.land (cast (bitwise_type T U) x) (cast (bitwise_type T U) y))).
Definition ClampedOrOp {S} (T U V : int_type) (x y : Z) : M S Z :=
  mret (cast V (Z.lor (cast (bitwise_type T U) x) (cast (bitwise_type T U) y))).
Definition ClampedXorOp {S} (T U V : int_type) (x y : Z) : M S Z :=
  mret (cast V (Z.lxor (cast (bitwise_type T U) x) (cast (bitwise_type T U) y))).

Definition ClampedMaxOp {S} (T U V : int_type) (x y : Z) : M S Z :=
  mret (if Test IsGreater T U x y then saturated_cast false V T x else saturated_cast false V U y).
Definition ClampedMinOp {S} (T U V : int_type) (x y : Z) : M S Z :=
  mret (if Test IsLess T U x y then saturated_cast false V T x else saturated_cast false V U y).

Definition clamped_Do {S} (op : math_op) (T U V : int_type) (x y : Z) : M S Z :=
  match op with
  | OpAdd => ClampedAddOp T U V x y
  | OpSub => ClampedSubOp T U V x y
  | OpMul => ClampedMulOp T U V x y
  | OpDiv => ClampedDivOp T U V x y
  | OpMod => ClampedModOp T U V x y
  | OpLsh => ClampedLshOp T x y
  | OpRsh => ClampedRshOp T V x y
  | OpAnd => ClampedAndOp T U V x y
  | OpOr => ClampedOrOp T U V x y
  | OpXor => ClampedXorOp T U V x y
  | OpMax => ClampedMaxOp T U V x y
  | OpMin => ClampedMinOp T U V x y
  end.
End ops.

(** * ClampedNumeric *)

(** A [ClampedNumeric<T>] is its [value_]. *)
Module Clamped.
Section Clamped.
Context {PF : Platform}.

(** The constructors and conversions between types saturate. *)
Definition from_value (T Src : int_type) (value : Z) : Z := saturated_cast false T Src value.
Definition convert (T Src : int_type) (rhs : Z) : Z := saturated_cast false T Src rhs.
Definition Cast (T Dst : int_type) (c : Z) : Z := convert Dst T c.
Definition conversion_operator (T Dst : int_type) (c : Z) : Z := saturated_cast false Dst T c.
Definition RawValue (c : Z) : Z := c.

Definition negate (T : int_type) (c : Z) : Z := from_value T T (SaturatedNegWrapper T c).
Definition invert (T : int_type) (c : Z) : Z :=
  convert T (make_unsigned T) (from_value (make_unsigned T) (make_unsigned T) (InvertWrapper T c)).
Definition Abs (T : int_type) (c : Z) : Z := from_value T T (SaturatedAbsWrapper T c).
Definition UnsignedAbs (T : int_type) (c : Z) : Z :=
  from_value (make_unsigned T) (make_unsigned T) (SafeUnsignedAbs T c).

(** The static and the member [MathOp]; the operands are plain values here. *)
Definition MathOp {S} (op : math_op) (T L R : int_type) (lhs rhs : Z) : M S Z :=
  v ← clamped_Do op L R T lhs rhs;
  mret (from_value T T v).
Definition MathOp_assign (op : math_op) (T R : int_type) (rhs : Z) : M Z unit :=
  c ← get;
  v ← clamped_Do op T R T c rhs;
  put (from_value T T v).

Definition Max {S} (T U : int_type) (c rhs : Z) : M S Z :=
  let result_type := MaxExponentPromotion T U in
  v ← ClampedMaxOp T U result_type c rhs; mret (from_value result_type result_type v).
Definition Min {S} (T U : int_type) (c rhs : Z) : M S Z :=
  let result_type := LowestValuePromotion T U in
  v ← ClampedMinOp T U result_type c rhs; mret (from_value result_type result_type v).

Definition increment (T : int_type) : M Z unit := MathOp_assign OpAdd T Int32 1.
Definition decrement (T : int_type) : M Z unit := MathOp_assign OpSub T Int32 1.
Definition post_increment (T : int_type) : M Z Z := value ← get; _ ← increment T; mret value.
Definition post_decrement (T : int_type) : M Z Z := value ← get; _ ← decrement T; mret value.

(** [ClampAdd(lhs, rhs)] and the like, and the operators; with more arguments from the left. *)
Definition ClampMathOp {S} (op : math_op) (L R : int_type) (lhs rhs : Z) : M S Z :=
  MathOp op (result_type op L R) L R lhs rhs.
Fixpoint ClampMathOp_args {S} (op : math_op) (L : int_type) (lhs : Z)
    (args : list (int_type * Z)) : M S (int_type * Z) :=
  match args with
  | [] => mret (L, lhs)
  | (R, rhs) :: args' =>
    c ← ClampMathOp op L R lhs rhs;
    ClampMathOp_args op (result_type op L R) c args'
  end.
End Clamped.
End Clamped.

(** [base::ClampToRange], for integers *)
Definition ClampToRange (value min max : Z) : Z := Z.min (Z.max value min) max.
