(* ===== verification/ClampedMathTheorems.v ===== *)
(** Clamped arithmetic: which operations give the number of the type that is nearest to
    the exact result, and which do not. *)
From S2P Require Import Prelude SafeConversions SafeConversionsTheorems CheckedMath.
From S2P Require Import CheckedMathLemmas CheckedMathTheorems ClampedMath.
From Stdlib Require Import ZArith Lia.
From stdpp Require Import base tactics numbers strings list.

Open Scope Z_scope.

(** The nearest number, where an exact result exists; otherwise what the operation has
    for it: an infinity of the sign of the dividend, or the dividend itself. *)
Definition nearest (op : math_op) (T U V : int_type) (x y : Z) : Z :=
  match op with
  | OpDiv =>
    if y =? 0 then if x =? 0 then 0 else if x <? 0 then numeric_lowest V else numeric_max V
    else clamp V (Z.quot x y)
  | OpMod => if y =? 0 then x else Z.rem x y
  | OpLsh => clamp V (x * 2 ^ y)
  | OpRsh => clamp V (x / 2 ^ y)
  | OpAnd | OpOr | OpXor => cast V (default 0 (exact op T U x y))
  | _ => clamp V (default 0 (exact op T U x y))
  end.

Section theorems.
Context {PF : Platform}.

Lemma limit_spec V b : CommonMaxOrMin V V b = if b then numeric_lowest V else numeric_max V.
Proof. unfold CommonMaxOrMin. rewrite CommonMax_spec, CommonMin_spec. destruct b; lia. Qed.

Lemma try_checked_spec {S A} m ok z (f : option Z → M S A) (s : S) : answers m 0 ok z →
  (r ← try_checked m; f r) s = f (if ok then Some z else None) s.
Proof.
  intros (r&Hr&Hz). unfold try_checked, on_local, mbind, M_bind, mret, M_ret. rewrite Hr. simpl.
  destruct ok; [by rewrite Hz|done].
Qed.

(** The exact result or the limit on its side. *)
Lemma clamp_or V z sat : (fits V z = false → sat = clamp V z) →
  default sat (if fits V z then Some z else None) = clamp V z.
Proof.
  intros Hs. destruct (fits V z) eqn:E; simpl; [|by apply Hs]. apply fits_spec in E. by rewrite clamp_id.
Qed.

Lemma fits_outside V z : fits V z = false → z < numeric_lowest V ∨ numeric_max V < z.
Proof. unfold fits. rewrite andb_false_iff, !Z.leb_gt. done. Qed.

(** The limit chosen by a sign is right when the sign says on which side the number is. *)
Lemma side_clamp V z b : fits V z = false → (b = true → z ≤ numeric_max V) → (b = false → numeric_lowest V ≤ z) →
  CommonMaxOrMin V V b = clamp V z.
Proof.
  intros Hf%fits_outside H1 H2. rewrite limit_spec. destruct b.
  - specialize (H1 eq_refl). rewrite clamp_low; [done|lia].
  - specialize (H2 eq_refl). rewrite clamp_high; [done|lia].
Qed.

Lemma result_max T U V : V = T ∨ V = MaxExponentPromotion T U → numeric_max T ≤ numeric_max V ∨ V = T.
Proof.
  intros [->| ->]; [by right|left]. by destruct T, U; vm_compute.
Qed.

Lemma exact_of op T U V x y :
  in_range T x → in_range U y → V = T ∨ V = result_type op T U → mixed64 T U = false → op ≠ OpMod →
  answers (checked_Do op T U V x y) 0 (represents V (exact op T U x y)) (default 0 (exact op T U x y)).
Proof. intros. by apply checked_Do_exact. Qed.

Lemma product_side x y : (xorb (x <? 0) (y <? 0) = true → x * y ≤ 0) ∧ (xorb (x <? 0) (y <? 0) = false → 0 ≤ x * y).
Proof. rewrite (product_sign x y). destruct (xorb _ _); split; intros; try done; lia. Qed.

Lemma quotient_side x y : y ≠ 0 →
  (xorb (x <? 0) (y <? 0) = true → Z.quot x y ≤ 0) ∧ (xorb (x <? 0) (y <? 0) = false → 0 ≤ Z.quot x y).
Proof.
  intros Hy. destruct (Z.ltb_spec x 0), (Z.ltb_spec y 0); simpl; split; intros; try done.
  - rewrite <-Z.quot_opp_opp by done. apply Z.quot_pos; lia.
  - rewrite <-(Z.opp_involutive x), Z.quot_opp_l by done. pose proof (Z.quot_pos (- x) y ltac:(lia) ltac:(lia)). lia.
  - rewrite <-(Z.opp_involutive y), Z.quot_opp_r by lia. pose proof (Z.quot_pos x (- y) ltac:(lia) ltac:(lia)). lia.
  - apply Z.quot_pos; lia.
Qed.

Lemma clamped_add {S} T U V x y (s : S) : in_range T x → in_range U y →
  V = T ∨ V = MaxExponentPromotion T U → mixed64 T U = false →
  StaticDstRangeRelationToSrcRange V T = true →
  ClampedAddOp T U V x y s = Ok (clamp V (x + y), s).
Proof.
  intros Hx Hy HV Hm Hc. unfold ClampedAddOp.
  rewrite (try_checked_spec _ _ _ _ _ (exact_of OpAdd T U V x y Hx Hy HV Hm ltac:(done))). simpl.
  unfold mret, M_ret. rewrite clamp_or; [done|]. intros Hf. rewrite IsValueNegative_spec by done.
  pose proof (contains_range _ _ _ Hc Hx) as [Hl Hh].
  apply side_clamp; [done| |]; intros Hb; [apply Z.ltb_lt in Hb|apply Z.ltb_ge in Hb]; lia.
Qed.

Lemma clamped_sub {S} T U V x y (s : S) : in_range T x → in_range U y →
  V = T ∨ V = MaxExponentPromotion T U → mixed64 T U = false →
  ClampedSubOp T U V x y s = Ok (clamp V (x - y), s).
Proof.
  intros Hx Hy HV Hm. unfold ClampedSubOp.
  rewrite (try_checked_spec _ _ _ _ _ (exact_of OpSub T U V x y Hx Hy HV Hm ltac:(done))). simpl.
  unfold mret, M_ret. rewrite clamp_or; [done|]. intros Hf. rewrite IsValueNegative_spec by done.
  assert (numeric_max T ≤ numeric_max V ∧ (y < 0 → numeric_lowest V ≤ numeric_lowest T)) as [H1 H2].
  { destruct HV as [->| ->]; [lia|]. unfold in_range in Hy. split; [by destruct T, U; vm_compute|].
    intros Hneg. assert (int_signed U = true) as Hs.
    { destruct (int_signed U) eqn:E; [done|]. rewrite (lowest_unsigned _ E) in Hy. lia. }
    clear -Hm Hs. by destruct T, U; try discriminate Hm; try discriminate Hs; vm_compute. }
  unfold in_range in *. apply side_clamp; [done| |]; intros Hb.
  - apply negb_true_iff, Z.ltb_ge in Hb. lia.
  - apply negb_false_iff, Z.ltb_lt in Hb. specialize (H2 Hb). lia.
Qed.

Lemma clamped_mul {S} T U V x y (s : S) : in_range T x → in_range U y →
  V = T ∨ V = MaxExponentPromotion T U → mixed64 T U = false →
  ClampedMulOp T U V x y s = Ok (clamp V (x * y), s).
Proof.
  intros Hx Hy HV Hm. unfold ClampedMulOp.
  rewrite (try_checked_spec _ _ _ _ _ (exact_of OpMul T U V x y Hx Hy HV Hm ltac:(done))). simpl.
  unfold mret, M_ret. rewrite clamp_or; [done|]. intros Hf. rewrite !IsValueNegative_spec by done.
  destruct (product_side x y) as [H1 H2]. pose proof (zero_in_range V) as [Hl Hh].
  apply side_clamp; [done| |]; intros Hb; [specialize (H1 Hb)|specialize (H2 Hb)]; lia.
Qed.

Lemma clamped_div {S} T U V x y (s : S) : in_range T x → in_range U y →
  V = T ∨ V = MaxExponentPromotion T U → mixed64 T U = false →
  ClampedDivOp T U V x y s = Ok (nearest OpDiv T U V x y, s).
Proof.
  intros Hx Hy HV Hm. unfold ClampedDivOp.
  rewrite (try_checked_spec _ _ _ _ _ (exact_of OpDiv T U V x y Hx Hy HV Hm ltac:(done))). simpl.
  rewrite !IsValueNegative_spec by done. pose proof (zero_in_range V) as [Hl Hh].
  destruct (Z.eqb_spec y 0) as [->|Hy0]; simpl.
  - rewrite limit_spec. destruct (Z.eqb_spec x 0) as [->|Hx0]; simpl; [done|].
    rewrite xorb_false_r. done.
  - destruct (fits V (Z.quot x y)) eqn:Ef; simpl.
    + apply fits_spec in Ef. by rewrite clamp_id.
    + destruct (Z.eqb_spec x 0) as [->|Hx0]; simpl.
      { rewrite Z.quot_0_l, fits_true in Ef by (done || apply zero_in_range). done. }
      destruct (quotient_side x y Hy0) as [H1 H2].
      rewrite (side_clamp V (Z.quot x y)); [done|done| |];
        intros Hb; [specialize (H1 Hb)|specialize (H2 Hb)]; lia.
Qed.

Lemma clamped_mod {S} T U V x y (s : S) : in_range T x → in_range U y →
  V = T ∨ V = MaxExponentPromotion T U → mixed64 T U = false →
  StaticDstRangeRelationToSrcRange V T = true → mod_overflows T U x y = false →
  ClampedModOp T U V x y s = Ok (if y =? 0 then x else Z.rem x y, s).
Proof.
  intros Hx Hy HV Hm Hc Ho. unfold ClampedModOp.
  pose proof (checked_Do_exact OpMod T U V x y Hx Hy HV Hm (λ _, Ho)) as Ha.
  rewrite (try_checked_spec _ _ _ _ _ Ha). simpl. pose proof (contains_range _ _ _ Hc Hx) as HxV.
  destruct (Z.eqb_spec y 0) as [->|Hy0]; simpl; [by rewrite cast_id|].
  rewrite fits_true; [done|].
  assert (Z.abs (Z.rem x y) ≤ Z.abs x) as Habs by (rewrite <-Z.rem_abs by done; apply Z.rem_le; lia).
  pose proof (zero_in_range V) as H0. unfold in_range in *. destruct (Z.le_gt_cases 0 x).
  - pose proof (Z.rem_nonneg x y Hy0 ltac:(lia)). lia.
  - pose proof (Z.rem_nonpos x y Hy0 ltac:(lia)). lia.
Qed.

Lemma clamped_lsh {S} T x y (s : S) : in_range T x → 0 ≤ y →
  ClampedLshOp T x y s = Ok (clamp T (x * 2 ^ y), s).
Proof.
  intros Hx Hy. unfold ClampedLshOp. destruct (digits_bound T) as (Hd&_&Hb).
  assert (∀ z, fits T z = false → (x < 0 → z < 0) → (0 < x → 0 < z) → (x = 0 → z = 0) →
    (if negb (x =? 0) then CommonMaxOrMin T T (IsValueNegative T x) else 0) = clamp T z) as Hsat.
  { intros z Hf H1 H2 H3. pose proof (zero_in_range T) as [Hl Hh]. rewrite IsValueNegative_spec by done.
    destruct (Z.eqb_spec x 0); simpl; [rewrite H3, clamp_id by (done || apply zero_in_range); done|].
    apply side_clamp; [done| |]; intros Hneg; [apply Z.ltb_lt in Hneg|apply Z.ltb_ge in Hneg]; lia. }
  pose proof (pow2_pos y Hy) as Hp. destruct (Z.ltb_spec y (digits T)) as [Hlt|Hge].
  - assert (cast T (cast (promote (make_unsigned T)) (Z.shiftl (as_unsigned T x) y)) = cast T (x * 2 ^ y)) as ->.
    { rewrite cast_narrow by (by destruct T; vm_compute). rewrite Z.shiftl_mul_pow2 by lia.
      unfold as_unsigned. apply cast_congr. by rewrite Zmult_mod, cast_unsigned_mod, <-Zmult_mod. }
    rewrite shift_reversed by lia. destruct (fits T (x * 2 ^ y)) eqn:Ef.
    + apply fits_spec in Ef. by rewrite cast_id, clamp_id.
    + rewrite (Hsat (x * 2 ^ y)); [done|done|nia|nia|nia].
  - destruct (fits T (x * 2 ^ y)) eqn:Ef; [|rewrite (Hsat (x * 2 ^ y)); [done|done|nia|nia|nia]].
    apply fits_spec in Ef. rewrite clamp_id by done. unfold mret, M_ret. f_equal. f_equal.
    pose proof (Z.pow_le_mono_r 2 _ _ ltac:(lia) Hge) as Hpow.
    assert (numeric_max T = 2 ^ digits T - 1 ∧ (int_signed T = true → numeric_lowest T = - 2 ^ digits T))
      as [Hmax Hlow] by (split; [done|]; unfold numeric_lowest; by intros ->).
    rewrite IsValueNegative_spec, limit_spec by done. unfold in_range in *.
    destruct (Z.eqb_spec x 0) as [->|]; [done|]. simpl. destruct (Z.ltb_spec x 0); [|nia].
    destruct (int_signed T) eqn:Es; [specialize (Hlow eq_refl); nia|]. rewrite (lowest_unsigned _ Es) in Hx. lia.
Qed.

Lemma clamped_rsh {S} T x y (s : S) : in_range T x → 0 ≤ y →
  ClampedRshOp T T x y s = Ok (clamp T (x / 2 ^ y), s).
Proof.
  intros Hx Hy. unfold ClampedRshOp, mret, M_ret. f_equal. f_equal.
  pose proof (shiftr_range T x y Hx Hy) as Hr. rewrite (clamp_id T) by done.
  destruct (Z.ltb_spec y (int_bits T)) as [|Hge].
  - rewrite Z.shiftr_div_pow2 by done. rewrite saturated_cast_spec by by apply promote_contains.
    by apply clamp_id.
  - unfold as_unsigned. rewrite !cast_zero, IsValueNegative_spec by done.
    pose proof (Z.pow_le_mono_r 2 _ _ ltac:(lia) Hge) as Hpow.
    assert (Z.abs x < 2 ^ int_bits T) as Ha.
    { unfold in_range in Hx. destruct (int_signed T) eqn:Es.
      - destruct (signed_limits T Es) as (?&?&?). lia.
      - destruct (unsigned_limits T Es) as (?&?&?). lia. }
    destruct (Z.ltb_spec x 0); simpl.
    + assert (x / 2 ^ y = -1) as E by (symmetry; apply Z.div_unique with (x + 2 ^ y); [left|]; lia).
      rewrite E in *. by apply cast_id.
    + rewrite Z.div_small by lia. apply cast_zero.
Qed.

Lemma clamped_max_min {S} T U V x y (s : S) : in_range T x → in_range U y →
  ClampedMaxOp T U V x y s = Ok (clamp V (Z.max x y), s) ∧
  ClampedMinOp T U V x y s = Ok (clamp V (Z.min x y), s).
Proof.
  intros Hx Hy. unfold ClampedMaxOp, ClampedMinOp. rewrite !Test_spec by done. simpl.
  rewrite (saturated_cast_spec _ V T x), (saturated_cast_spec _ V U y) by done. unfold mret, M_ret.
  split; do 2 f_equal; [destruct (Z.ltb_spec y x)|destruct (Z.ltb_spec x y)]; f_equal; lia.
Qed.

(** The operation a clamped operator or function performs gives the number of the
    destination nearest to the exact result, or the limit on the side of the dividend for
    a division by zero, for operands of any two types except a signed one with
    [uint64_t], provided that, for a sum or a remainder, the destination has the values of
    the left operand; shift counts are unsigned. *)
Theorem clamped_ops_nearest {S} op T U V x y (s : S) :
  in_range T x → in_range U y → V = T ∨ V = result_type op T U → mixed64 T U = false →
  (op = OpAdd ∨ op = OpMod → StaticDstRangeRelationToSrcRange V T = true) →
  (op = OpMod → mod_overflows T U x y = false) → (op = OpLsh ∨ op = OpRsh → 0 ≤ y) →
  clamped_Do op T U V x y s = Ok (nearest op T U V x y, s).
Proof.
  intros Hx Hy HV Hm Hc Ho Hs. destruct op; cbn [clamped_Do nearest exact default result_type] in *.
  - apply clamped_add; auto.
  - by apply clamped_sub.
  - by apply clamped_mul.
  - by apply clamped_div.
  - apply clamped_mod; auto.
  - assert (V = T) as -> by by destruct HV. apply clamped_lsh; auto.
  - assert (V = T) as -> by by destruct HV. apply clamped_rsh; auto.
  - done.
  - done.
  - done.
  - by apply (clamped_max_min T U V x y s).
  - by apply (clamped_max_min T U V x y s).
Qed.

(** Where the destination of a clamped sum is unsigned and the left operand negative,
    the sum saturates at the wrong end: minus ten and five give the greatest number and
    not zero; with [uint64_t] even sums that can be represented do, and a product
    assigned back saturates although it fits. *)
Theorem clamped_wrong_end :
  Clamped.ClampMathOp OpAdd Int32 UInt32 (-10) 5 tt = Ok (2 ^ 32 - 1, tt) ∧
  clamp UInt32 (-10 + 5) = 0 ∧
  Clamped.ClampMathOp OpAdd Int64 UInt64 (-1) 5 tt = Ok (2 ^ 64 - 1, tt) ∧
  Clamped.MathOp_assign OpMul Int64 UInt64 3 (-2) = Ok (tt, - 2 ^ 63).
Proof.
  unfold Clamped.ClampMathOp, Clamped.MathOp, Clamped.MathOp_assign, clamped_Do, ClampedAddOp, CheckedAddOp, AddPromotion.
  destruct intptr_t; by vm_compute.
Qed.

(** Negation and absolute value: the nearest numbers too, and the absolute value as an
    unsigned number is exact. *)
Theorem clamped_unary T v : in_range T v →
  Clamped.negate T v = clamp T (- v) ∧ Clamped.Abs T v = clamp T (Z.abs v) ∧
  Clamped.UnsignedAbs T v = Z.abs v.
Proof.
  intros Hv. unfold Clamped.negate, Clamped.Abs, Clamped.UnsignedAbs, Clamped.from_value.
  pose proof (unsigned_fits_abs T v Hv) as Hu.
  assert (SaturatedNegWrapper T v = clamp T (- v)) as ->.
  { unfold SaturatedNegWrapper. destruct (int_signed T) eqn:Es.
    - destruct (signed_limits T Es) as (Hp&Hl&Hm). rewrite NegateWrapper_spec.
      destruct (decide (v = numeric_lowest T)) as [->|Hne].
      + assert (cast T (- numeric_lowest T) = numeric_lowest T) as -> by by destruct T.
        rewrite Z.eqb_refl, clamp_high by lia. done.
      + unfold in_range in Hv. rewrite cast_id, (proj2 (Z.eqb_neq _ _)), clamp_id by (unfold in_range; lia). done.
    - destruct (unsigned_limits T Es) as (_&Hl&_). unfold in_range in Hv. rewrite clamp_low by lia. lia. }
  assert (SaturatedAbsWrapper T v = clamp T (Z.abs v)) as ->.
  { unfold SaturatedAbsWrapper. rewrite SafeUnsignedAbs_spec, IsValueNegative_spec by (done || apply cast_range).
    destruct (decide (in_range T (Z.abs v))) as [Ha|Ha].
    - rewrite (cast_id T (Z.abs v)) by done. rewrite (proj2 (Z.ltb_ge (Z.abs v) 0)) by lia.
      simpl. rewrite Z.sub_0_r. by rewrite cast_id, clamp_id.
    - destruct (int_signed T) eqn:Es.
      + destruct (signed_limits T Es) as (Hp&Hl&Hm). assert (Z.abs v = - numeric_lowest T) as -> by (unfold in_range in *; lia).
        rewrite clamp_high by lia. clear -Es. by destruct T.
      + unfold in_range in *. rewrite (lowest_unsigned _ Es) in *. lia. }
  rewrite !saturated_cast_spec by apply clamp_range. rewrite !(clamp_id T (clamp _ _)) by apply clamp_range.
  split; [done|]. split; [done|]. rewrite SafeUnsignedAbs_spec, saturated_cast_spec by done. by apply clamp_id.
Qed.
End theorems.

(** * Witnesses *)

#[local] Instance clamped_x64 : Platform := Int64.

Lemma clamped_ops_nearest_witness :
  clamped_Do OpAdd Int8 Int32 Int8 100 1000 tt = Ok (127, tt) ∧
  clamped_Do OpLsh Int16 UInt8 Int16 (-3) 15 tt = Ok (-32768, tt).
Proof.
  split.
  - refine (eq_trans (clamped_ops_nearest OpAdd Int8 Int32 Int8 100 1000 tt _ _ _ _ _ _ _) _);
      [by vm_compute|by vm_compute|by left|done|done|discriminate|by intros [?|?]|reflexivity].
  - refine (eq_trans (clamped_ops_nearest OpLsh Int16 UInt8 Int16 (-3) 15 tt _ _ _ _ _ _ _) _);
      [by vm_compute|by vm_compute|by left|done|by intros [?|?]|discriminate|done|reflexivity].
Defined.
