(* ===== verification/Time.v ===== *)
(** base/time/time.h: spans of time, [TimeDelta], and points in time, [TimeBase], in
    microseconds.  The arithmetic is that of base/numerics (CheckedMath.v, ClampedMath.v);
    where the code uses the operators of [int64_t] instead, an overflow is a fault.

    The operations with a number are for the integer types.  The clocks, calendar time and
    the conversions to other units are defined in files that are not headers. *)
From S2P Require Import Prelude SafeConversions CheckedMath ClampedMath.
From Stdlib Require Import ZArith Lia.
From stdpp Require Import base tactics numbers strings list.

Open Scope Z_scope.

(** The result of an operator of [int64_t]. *)
Definition int64 {S} (z : Z) : M S Z :=
  if fits Int64 z then mret z else fail (UndefinedBehaviour "int64_t overflow").

Record TimeDelta := mkTimeDelta { delta_ : Z }.

Module TimeDelta.
Section TimeDelta.
Context {PF : Platform} `{BuildConfig}.
Context {S : Type}.
Implicit Types (d other a : TimeDelta).

Definition zero : TimeDelta := mkTimeDelta 0.
Definition FromInternalValue (delta : Z) : TimeDelta := mkTimeDelta delta.
Definition ToInternalValue d : Z := delta_ d.
Definition Max : TimeDelta := mkTimeDelta (numeric_max Int64).
Definition Min : TimeDelta := mkTimeDelta (numeric_lowest Int64).

Definition is_zero d : bool := delta_ d =? 0.
Definition is_max d : bool := delta_ d =? numeric_max Int64.
Definition is_min d : bool := delta_ d =? numeric_lowest Int64.

(** [mask] has all bits set for a negative number. *)
Definition magnitude d : M S TimeDelta :=
  let mask := Z.shiftr (delta_ d) (64 - 1) in
  sum ← int64 (delta_ d + mask);
  mret (mkTimeDelta (Z.lxor sum mask)).

Definition InMicroseconds d : Z := delta_ d.

(** ** [time_internal::SaturatedAdd] and [SaturatedSub] *)

Definition SaturatedAdd (value : Z) (delta : TimeDelta) : M S Z :=
  if is_max delta then
    _ ← check (numeric_lowest Int64 <? value) "value > std::numeric_limits<int64_t>::min()";
    mret (numeric_max Int64)
  else if is_min delta then
    _ ← check (value <? numeric_max Int64) "value < std::numeric_limits<int64_t>::max()";
    mret (numeric_lowest Int64)
  else Clamped.ClampMathOp OpAdd Int64 Int64 value (delta_ delta).

Definition SaturatedSub (value : Z) (delta : TimeDelta) : M S Z :=
  if is_max delta then
    _ ← check (value <? numeric_max Int64) "value < std::numeric_limits<int64_t>::max()";
    mret (numeric_lowest Int64)
  else if is_min delta then
    _ ← check (numeric_lowest Int64 <? value) "value > std::numeric_limits<int64_t>::min()";
    mret (numeric_max Int64)
  else Clamped.ClampMathOp OpSub Int64 Int64 value (delta_ delta).

(** ** Operators *)

Definition plus d other : M S TimeDelta := z ← SaturatedAdd (delta_ d) other; mret (mkTimeDelta z).
Definition minus d other : M S TimeDelta := z ← SaturatedSub (delta_ d) other; mret (mkTimeDelta z).

(** The unary [operator-] *)
Definition opposite d : M S TimeDelta :=
  if is_max d then mret Min
  else if is_min d then mret Max
  else z ← int64 (- delta_ d); mret (mkTimeDelta z).

(** [operator*(T a)] and [operator/(T a)] *)
Definition times (T : int_type) d (a : Z) : M S TimeDelta :=
  r ← on_local (Checked.from_value Int64 Int64 (delta_ d)) (Checked.MathOp_assign OpMul Int64 T (Plain a));
  let rv := r.2 in
  if Checked.IsValid Int64 Int64 rv then z ← Checked.ValueOrDie Int64 Int64 rv; mret (mkTimeDelta z)
  else if xorb (delta_ d <? 0) (a <? 0) then mret (mkTimeDelta (numeric_lowest Int64))
  else mret (mkTimeDelta (numeric_max Int64)).

Definition divided (T : int_type) d (a : Z) : M S TimeDelta :=
  r ← on_local (Checked.from_value Int64 Int64 (delta_ d)) (Checked.MathOp_assign OpDiv Int64 T (Plain a));
  let rv := r.2 in
  if Checked.IsValid Int64 Int64 rv then z ← Checked.ValueOrDie Int64 Int64 rv; mret (mkTimeDelta z)
  else if xorb (delta_ d <? 0) (a <=? 0) then mret (mkTimeDelta (numeric_lowest Int64))
  else mret (mkTimeDelta (numeric_max Int64)).

(** [operator/(TimeDelta a)]: the limits stand for infinities. *)
Definition ratio d a : M S Z :=
  if delta_ a =? 0 then
    mret (if delta_ d <? 0 then numeric_lowest Int64 else numeric_max Int64)
  else if is_max d then
    mret (if delta_ a <? 0 then numeric_lowest Int64 else numeric_max Int64)
  else if is_min d then
    mret (if 0 <? delta_ a then numeric_lowest Int64 else numeric_max Int64)
  else if is_max a then mret 0
  else c_div Int64 (delta_ d) (delta_ a).

(** [operator%] *)
Definition remainder d a : M S TimeDelta :=
  if is_min a || is_max a then mret (mkTimeDelta (delta_ d))
  else z ← c_rem Int64 (delta_ d) (delta_ a); mret (mkTimeDelta z).

Definition eq d other : bool := delta_ d =? delta_ other.
Definition ne d other : bool := negb (delta_ d =? delta_ other).
Definition lt d other : bool := delta_ d <? delta_ other.
Definition le d other : bool := delta_ d <=? delta_ other.
Definition gt d other : bool := delta_ other <? delta_ d.
Definition ge d other : bool := delta_ other <=? delta_ d.

(** ** Units of time *)

Definition kHoursPerDay : Z := 24.
Definition kMicrosecondsPerMillisecond : Z := 1000.
Definition kMillisecondsPerSecond : Z := 1000.
Definition kMicrosecondsPerSecond : Z := kMicrosecondsPerMillisecond * kMillisecondsPerSecond.
Definition kMicrosecondsPerMinute : Z := kMicrosecondsPerSecond * 60.
Definition kMicrosecondsPerHour : Z := kMicrosecondsPerMinute * 60.
Definition kMicrosecondsPerDay : Z := kMicrosecondsPerHour * kHoursPerDay.
Definition kNanosecondsPerMicrosecond : Z := 1000.

Definition FromDays (days : Z) : M S TimeDelta :=
  if days =? numeric_max Int32 then mret Max
  else z ← int64 (days * kMicrosecondsPerDay); mret (mkTimeDelta z).
Definition FromHours (hours : Z) : M S TimeDelta :=
  if hours =? numeric_max Int32 then mret Max
  else z ← int64 (hours * kMicrosecondsPerHour); mret (mkTimeDelta z).
Definition FromMinutes (minutes : Z) : M S TimeDelta :=
  if minutes =? numeric_max Int32 then mret Max
  else z ← int64 (minutes * kMicrosecondsPerMinute); mret (mkTimeDelta z).

Definition FromProduct (value positive_value : Z) : M S TimeDelta :=
  _ ← dcheck (0 <? positive_value) "positive_value > 0";
  high ← c_div Int64 (numeric_max Int64) positive_value;
  if high <? value then mret Max
  else
    low ← c_div Int64 (numeric_lowest Int64) positive_value;
    if value <? low then mret Min
    else z ← int64 (value * positive_value); mret (mkTimeDelta z).

Definition FromSeconds (secs : Z) : M S TimeDelta := FromProduct secs kMicrosecondsPerSecond.
Definition FromMilliseconds (ms : Z) : M S TimeDelta := FromProduct ms kMicrosecondsPerMillisecond.
Definition FromMicroseconds (us : Z) : TimeDelta := mkTimeDelta us.
Definition FromNanoseconds (ns : Z) : M S TimeDelta :=
  z ← c_div Int64 ns kNanosecondsPerMicrosecond; mret (mkTimeDelta z).

(** The operators with the span on the right *)
Definition times_left (T : int_type) (a : Z) (td : TimeDelta) : M S TimeDelta := times T td a.

End TimeDelta.

(** [operator+=], [operator-=], [operator*=], [operator/=] and [operator%=] *)
Definition plus_assign {PF : Platform} (other : TimeDelta) : M TimeDelta unit :=
  d ← get; d' ← plus d other; put d'.
Definition minus_assign {PF : Platform} (other : TimeDelta) : M TimeDelta unit :=
  d ← get; d' ← minus d other; put d'.
Definition times_assign {PF : Platform} (T : int_type) (a : Z) : M TimeDelta unit :=
  d ← get; d' ← times T d a; put d'.
Definition divided_assign {PF : Platform} (T : int_type) (a : Z) : M TimeDelta unit :=
  d ← get; d' ← divided T d a; put d'.
Definition remainder_assign (other : TimeDelta) : M TimeDelta unit :=
  d ← get; d' ← remainder d other; put d'.
End TimeDelta.

(** * Points in time

    [Time], [TimeTicks] and [ThreadTicks] are the classes derived from [TimeBase]; points
    of different classes do not mix. *)
Inductive time_class := Time | TimeTicks | ThreadTicks.

Record TimeBase (C : time_class) := mkTimeBase { us_ : Z }.
Arguments mkTimeBase {C} _.
Arguments us_ {C} _.

Module TimeBase.
Section TimeBase.
Context {PF : Platform} {S : Type} {C : time_class}.
Implicit Types (t other : TimeBase C) (delta : TimeDelta).

Definition null : TimeBase C := mkTimeBase 0.
Definition FromInternalValue (us : Z) : TimeBase C := mkTimeBase us.
Definition ToInternalValue t : Z := us_ t.
Definition Max : TimeBase C := mkTimeBase (numeric_max Int64).
Definition Min : TimeBase C := mkTimeBase (numeric_lowest Int64).
Definition is_null t : bool := us_ t =? 0.
Definition is_max t : bool := us_ t =? numeric_max Int64.
Definition is_min t : bool := us_ t =? numeric_lowest Int64.

Definition since_origin t : TimeDelta := TimeDelta.FromMicroseconds (us_ t).

(** [operator-(TimeClass other)] *)
Definition difference t other : M S TimeDelta :=
  z ← int64 (us_ t - us_ other); mret (TimeDelta.FromMicroseconds z).

Definition plus t delta : M S (TimeBase C) := z ← TimeDelta.SaturatedAdd (us_ t) delta; mret (mkTimeBase z).
Definition minus t delta : M S (TimeBase C) := z ← TimeDelta.SaturatedSub (us_ t) delta; mret (mkTimeBase z).

(** [operator+(TimeDelta delta, TimeClass t)] *)
Definition plus_left delta t : M S (TimeBase C) := plus t delta.

Definition eq t other : bool := us_ t =? us_ other.
Definition ne t other : bool := negb (us_ t =? us_ other).
Definition lt t other : bool := us_ t <? us_ other.
Definition le t other : bool := us_ t <=? us_ other.
Definition gt t other : bool := us_ other <? us_ t.
Definition ge t other : bool := us_ other <=? us_ t.

End TimeBase.

(** [operator+=] and [operator-=] *)
Definition plus_assign {PF : Platform} {C} (delta : TimeDelta) : M (TimeBase C) unit :=
  t ← get; t' ← plus t delta; put t'.
Definition minus_assign {PF : Platform} {C} (delta : TimeDelta) : M (TimeBase C) unit :=
  t ← get; t' ← minus t delta; put t'.
End TimeBase.
