(* ===== verification/TimeTheorems.v ===== *)
(** Spans and points of time: the arithmetic saturates, what the limits stand for, and
    where the code leaves the range of its integers. *)
From S2P Require Import Prelude SafeConversions SafeConversionsTheorems CheckedMath CheckedMathLemmas.
From S2P Require Import CheckedMathTheorems ClampedMath ClampedMathTheorems Time.
From Stdlib Require Import ZArith Lia.
From stdpp Require Import base tactics numbers strings list.

Open Scope Z_scope.

Abbreviation in64 := (in_range Int64).

Lemma int64_limits : numeric_lowest Int64 = - 2 ^ 63 ∧ numeric_max Int64 = 2 ^ 63 - 1.
Proof. done. Qed.

Section time.
Context {PF : Platform} `{BuildConfig} {S : Type}.
Implicit Types (d e : TimeDelta) (s : S).

(** ** Sums *)

Lemma from_value_id v : in64 v → Clamped.from_value Int64 Int64 v = v.
Proof. intros Hv. unfold Clamped.from_value. by rewrite saturated_cast_spec, clamp_id. Qed.

Lemma ClampAdd_run x y s : in64 x → in64 y →
  Clamped.ClampMathOp OpAdd Int64 Int64 x y s = Ok (clamp Int64 (x + y), s).
Proof.
  intros Hx Hy. unfold Clamped.ClampMathOp, Clamped.MathOp.
  change (result_type OpAdd Int64 Int64) with Int64. cbn [clamped_Do].
  rewrite (bind_run _ _ _ _ _ (clamped_add Int64 Int64 Int64 x y s Hx Hy (or_introl eq_refl) eq_refl eq_refl)).
  unfold mret, M_ret. by rewrite from_value_id by apply clamp_range.
Qed.

Lemma ClampSub_run x y s : in64 x → in64 y →
  Clamped.ClampMathOp OpSub Int64 Int64 x y s = Ok (clamp Int64 (x - y), s).
Proof.
  intros Hx Hy. unfold Clamped.ClampMathOp, Clamped.MathOp.
  change (result_type OpSub Int64 Int64) with Int64. cbn [clamped_Do].
  rewrite (bind_run _ _ _ _ _ (clamped_sub Int64 Int64 Int64 x y s Hx Hy (or_introl eq_refl) eq_refl)).
  unfold mret, M_ret. by rewrite from_value_id by apply clamp_range.
Qed.

(** What an addition of [e] to [v] gives: the limits as [e] are infinities, which cannot be
    added to the opposite one. *)
Definition sum_spec (v : Z) e : option Z :=
  if TimeDelta.is_max e then if v =? numeric_lowest Int64 then None else Some (numeric_max Int64)
  else if TimeDelta.is_min e then if v =? numeric_max Int64 then None else Some (numeric_lowest Int64)
  else Some (clamp Int64 (v + delta_ e)).
Definition difference_spec (v : Z) e : option Z :=
  if TimeDelta.is_max e then if v =? numeric_max Int64 then None else Some (numeric_lowest Int64)
  else if TimeDelta.is_min e then if v =? numeric_lowest Int64 then None else Some (numeric_max Int64)
  else Some (clamp Int64 (v - delta_ e)).

(** A computation returns the value, or fails a check where there is none. *)
Definition gives {A B} (f : A → B) (m : M S B) (o : option A) s : Prop :=
  match o with Some a => m s = Ok (f a, s) | None => ∃ what, m s = Fault (CheckFailed what) end.

Lemma SaturatedAdd_gives v e s : in64 v → in64 (delta_ e) →
  gives id (TimeDelta.SaturatedAdd v e) (sum_spec v e) s.
Proof.
  intros Hv He. unfold TimeDelta.SaturatedAdd, sum_spec, check.
  destruct (TimeDelta.is_max e), (TimeDelta.is_min e); try (by apply ClampAdd_run);
    unfold mbind, M_bind, mret, M_ret, fail; unfold in_range in Hv.
  all: destruct (Z.eqb_spec v (numeric_lowest Int64)), (Z.eqb_spec v (numeric_max Int64)),
    (Z.ltb_spec (numeric_lowest Int64) v), (Z.ltb_spec v (numeric_max Int64)); simpl; try lia; eauto.
Qed.

Lemma SaturatedSub_gives v e s : in64 v → in64 (delta_ e) →
  gives id (TimeDelta.SaturatedSub v e) (difference_spec v e) s.
Proof.
  intros Hv He. unfold TimeDelta.SaturatedSub, difference_spec, check.
  destruct (TimeDelta.is_max e), (TimeDelta.is_min e); try (by apply ClampSub_run);
    unfold mbind, M_bind, mret, M_ret, fail; unfold in_range in Hv.
  all: destruct (Z.eqb_spec v (numeric_lowest Int64)), (Z.eqb_spec v (numeric_max Int64)),
    (Z.ltb_spec (numeric_lowest Int64) v), (Z.ltb_spec v (numeric_max Int64)); simpl; try lia; eauto.
Qed.

Lemma gives_map {A B C} (f : A → B) (g : B → C) (m : M S B) o s :
  gives f m o s → gives (λ a, g (f a)) (b ← m; mret (g b)) o s.
Proof.
  unfold gives, mbind, M_bind, mret, M_ret. destruct o as [a|]; [by intros ->|].
  intros [what ->]. by exists what.
Qed.

(** ** Products and quotients *)

(** A [uint64_t] operand brings the checked operation to an unsigned type, in which a
    negative span is refused. *)
Definition unsigned_refuses (T : int_type) d (a : Z) : bool :=
  match T with UInt64 => (delta_ d <? 0) && negb (a =? 0) | _ => false end.

Lemma checked_Do_uint64 op d a :
  op = OpMul ∨ op = OpDiv → in64 (delta_ d) → in_range UInt64 a →
  let o := if unsigned_refuses UInt64 d a then None else exact op Int64 UInt64 (delta_ d) a in
  answers (checked_Do op Int64 UInt64 Int64 (delta_ d) a) 0 (represents Int64 o) (default 0 o).
Proof.
  intros Hop Hd Ha o. subst o. unfold unsigned_refuses.
  assert (0 ≤ a ≤ 2 ^ 64 - 1) as Ha' by exact Ha.
  assert (∀ z, fits UInt64 z && fits Int64 z = (0 <=? z) && fits Int64 z) as Hfits.
  { intros z. unfold fits. change (numeric_lowest UInt64) with 0. change (numeric_max UInt64) with (2 ^ 64 - 1).
    change (numeric_max Int64) with (2 ^ 63 - 1). change (numeric_lowest Int64) with (- 2 ^ 63).
    destruct (Z.leb_spec 0 z), (Z.leb_spec z (2 ^ 64 - 1)), (Z.leb_spec (- 2 ^ 63) z),
      (Z.leb_spec z (2 ^ 63 - 1)); simpl; done || lia. }
  assert (fits UInt64 (delta_ d) = (0 <=? delta_ d)) as Hfd.
  { unfold in_range in Hd. destruct int64_limits as [El Eh]. rewrite El, Eh in Hd. unfold fits.
    change (numeric_lowest UInt64) with 0. change (numeric_max UInt64) with (2 ^ 64 - 1).
    by rewrite (proj2 (Z.leb_le (delta_ d) (2 ^ 64 - 1))), andb_true_r by lia. }
  destruct Hop as [-> | ->]; cbn [checked_Do exact].
  - pose proof (CheckedMulOp_spec Int64 UInt64 Int64 (delta_ d) a 0 Hd Ha) as Hs. cbv zeta in Hs.
    change (FastIntegerArithmeticPromotion Int64 UInt64) with UInt64 in Hs.
    rewrite (fits_true UInt64 a), Hfd, andb_true_r, <-andb_assoc, Hfits in Hs by done.
    destruct (Z.ltb_spec (delta_ d) 0) as [Hn|Hp], (Z.eqb_spec a 0) as [->|Hne]; cbn [andb negb represents default].
    + rewrite Z.mul_0_r in *. eapply answers_weaken; [exact Hs|]. by rewrite orb_true_r.
    + eapply answers_invalid, answers_weaken; [exact Hs|].
      rewrite (proj2 (Z.eqb_neq _ _)), (proj2 (Z.leb_gt 0 (delta_ d))) by lia. done.
    + rewrite Z.mul_0_r in *. eapply answers_weaken; [exact Hs|]. by rewrite orb_true_r.
    + eapply answers_weaken; [exact Hs|].
      rewrite (proj2 (Z.leb_le 0 (delta_ d))), (proj2 (Z.leb_le 0 (delta_ d * a))), orb_true_r by nia. done.
  - pose proof (CheckedDivOp_spec Int64 UInt64 Int64 (delta_ d) a 0 Hd Ha) as Hs. cbv zeta in Hs.
    change (fst (BigEnoughPromotion Int64 UInt64)) with UInt64 in Hs.
    rewrite (fits_true UInt64 a), Hfd, andb_true_r, <-andb_assoc, Hfits in Hs by done.
    destruct (Z.eqb_spec a 0) as [->|Hne]; cbn [andb negb] in *.
    + rewrite andb_false_r. by eapply answers_invalid.
    + destruct (Z.ltb_spec (delta_ d) 0) as [Hn|Hp]; cbn [andb represents default].
      * eapply answers_invalid, answers_weaken; [exact Hs|].
        rewrite (proj2 (Z.eqb_neq _ _)), (proj2 (Z.leb_gt 0 (delta_ d))) by lia. done.
      * eapply answers_weaken; [exact Hs|]. pose proof (Z.quot_pos (delta_ d) a).
        rewrite (proj2 (Z.leb_le 0 (delta_ d))), (proj2 (Z.leb_le 0 (Z.quot (delta_ d) a))), orb_true_r by lia. done.
Qed.

Lemma checked_assign_run op T d a :
  op = OpMul ∨ op = OpDiv → in64 (delta_ d) → in_range T a →
  ∃ c, Checked.MathOp_assign op Int64 T (Plain a) (Checked.from_value Int64 Int64 (delta_ d)) = Ok (tt, c) ∧
       stands_for Int64 c (if unsigned_refuses T d a then None
                           else represented Int64 (exact op Int64 T (delta_ d) a)).
Proof.
  intros Hop Hd Ha.
  assert (Checked.from_value Int64 Int64 (delta_ d) = mkChecked true (delta_ d)) as ->.
  { unfold Checked.from_value, Checked.WellDefinedConversionOrZero.
    by rewrite in_range_check, fits_true, cast_id. }
  set (o := if unsigned_refuses T d a then None else exact op Int64 T (delta_ d) a).
  assert (answers (checked_Do op Int64 T Int64 (delta_ d) a) 0 (represents Int64 o) (default 0 o)) as (r&Hr&Hz).
  { destruct (decide (mixed64 Int64 T = false)) as [Hm|Hm].
    - subst o. replace (unsigned_refuses T d a) with false by (by destruct T).
      apply checked_Do_exact; try done; [by left|]. by destruct Hop as [->| ->].
    - assert (T = UInt64) as -> by by destruct T. by apply checked_Do_uint64. }
  unfold Checked.MathOp_assign, on_local, mbind, M_bind, get, put. simpl. rewrite Hr. eexists. split; [done|].
  assert ((if unsigned_refuses T d a then None else represented Int64 (exact op Int64 T (delta_ d) a))
    = represented Int64 o) as -> by (subst o; by destruct (unsigned_refuses T d a)).
  clearbody o. simpl. unfold represents, represented in *. destruct o as [z|]; simpl in *; [|apply invalid_stands].
  destruct (fits Int64 z) eqn:Ef; [|apply invalid_stands]. apply fits_spec in Ef.
  apply (from_parts_stands _ _ _ z); [|done]. intros _. by rewrite Hz.
Qed.

(** The common part of the two operators: the value if there is one. *)
Lemma checked_value c o s (other : TimeDelta) : stands_for Int64 c o →
  (if Checked.IsValid Int64 Int64 c
   then z ← Checked.ValueOrDie Int64 Int64 c; mret (mkTimeDelta z)
   else mret other) s = Ok (match o with Some z => mkTimeDelta z | None => other end, s).
Proof.
  intros [Hc Ho]. unfold Checked.ValueOrDie. rewrite IsValid_same by done.
  destruct o as [z|]; [|by rewrite Ho]. destruct Ho as [-> <-]. unfold mbind, M_bind, mret, M_ret.
  by rewrite cast_id.
Qed.

Lemma unsigned_refuses_sign T d a : in_range T a → unsigned_refuses T d a = true → delta_ d < 0 ∧ 0 < a.
Proof.
  destruct T; try done. intros [Ha _] [Hd%Z.ltb_lt Hn%negb_true_iff%Z.eqb_neq]%andb_true_iff.
  change (numeric_lowest UInt64) with 0 in Ha. lia.
Qed.

Lemma times_run T d a s : in64 (delta_ d) → in_range T a →
  TimeDelta.times T d a s =
  Ok (if unsigned_refuses T d a then TimeDelta.Min else mkTimeDelta (clamp Int64 (delta_ d * a)), s).
Proof.
  intros Hd Ha. destruct (checked_assign_run OpMul T d a (or_introl eq_refl) Hd Ha) as (c&Hrun&Hc).
  unfold TimeDelta.times. unfold mbind at 1, M_bind at 1. unfold on_local at 1. rewrite Hrun. cbn [snd].
  destruct (unsigned_refuses T d a) eqn:Hu.
  { apply unsigned_refuses_sign in Hu as [H1 H2]; [|done].
    rewrite (proj2 (Z.ltb_lt _ _) H1), (proj2 (Z.ltb_ge a 0)) by lia. cbn [xorb].
    by rewrite (checked_value c _ s _ Hc). }
  destruct int64_limits as [Hlo Hhi]. unfold in_range in *. simpl in Hc.
  destruct (product_side (delta_ d) a) as [Hneg Hpos].
  destruct (xorb (delta_ d <? 0) (a <? 0)) eqn:Hx; rewrite (checked_value c _ s _ Hc);
    destruct (fits Int64 (delta_ d * a)) eqn:Ef.
  - apply fits_spec in Ef. by rewrite clamp_id.
  - apply fits_outside in Ef. specialize (Hneg eq_refl). rewrite clamp_low; [done|lia].
  - apply fits_spec in Ef. by rewrite clamp_id.
  - apply fits_outside in Ef. specialize (Hpos eq_refl). rewrite clamp_high; [done|lia].
Qed.

(** Division by zero gives the limit on the other side of zero. *)
Lemma divided_run T d a s : in64 (delta_ d) → in_range T a →
  TimeDelta.divided T d a s =
  Ok (if unsigned_refuses T d a then TimeDelta.Min
      else if a =? 0 then if delta_ d <? 0 then TimeDelta.Max else TimeDelta.Min
      else mkTimeDelta (clamp Int64 (Z.quot (delta_ d) a)), s).
Proof.
  intros Hd Ha. destruct (checked_assign_run OpDiv T d a (or_intror eq_refl) Hd Ha) as (c&Hrun&Hc).
  unfold TimeDelta.divided. unfold mbind at 1, M_bind at 1. unfold on_local at 1. rewrite Hrun. cbn [snd].
  destruct (unsigned_refuses T d a) eqn:Hu.
  { apply unsigned_refuses_sign in Hu as [H1 H2]; [|done].
    rewrite (proj2 (Z.ltb_lt _ _) H1), (proj2 (Z.leb_gt a 0)) by lia. cbn [xorb].
    by rewrite (checked_value c _ s _ Hc). }
  destruct int64_limits as [Hlo Hhi]. simpl in Hc.
  destruct (Z.eqb_spec a 0) as [->|Hne]; simpl in Hc.
  - destruct (delta_ d <? 0); cbn [xorb Z.leb Z.compare]; by rewrite (checked_value c _ s _ Hc).
  - replace (a <=? 0) with (a <? 0) by (destruct (Z.ltb_spec a 0), (Z.leb_spec a 0); lia).
    destruct (quotient_side (delta_ d) a Hne) as [Hneg Hpos].
    destruct (xorb (delta_ d <? 0) (a <? 0)) eqn:Hx; rewrite (checked_value c _ s _ Hc);
      destruct (fits Int64 (Z.quot (delta_ d) a)) eqn:Ef.
    + apply fits_spec in Ef. by rewrite clamp_id.
    + apply fits_outside in Ef. specialize (Hneg eq_refl). rewrite clamp_low; [done|lia].
    + apply fits_spec in Ef. by rewrite clamp_id.
    + apply fits_outside in Ef. specialize (Hpos eq_refl). rewrite clamp_high; [done|lia].
Qed.

(** ** Conversions *)

Lemma int64_run z s : in64 z → int64 z s = Ok (z, s).
Proof. intros Hz. unfold int64. by rewrite fits_true. Qed.

Lemma int64_overflow z s : ¬ in64 z → int64 z s = Fault (UndefinedBehaviour "int64_t overflow").
Proof. intros Hz. unfold int64. by rewrite fits_false. Qed.

Lemma c_div_run a b s : b ≠ 0 → in64 (Z.quot a b) → c_div Int64 a b s = Ok (Z.quot a b, s).
Proof.
  intros Hb Hq. unfold c_div. destruct (Z.eqb_spec b 0); [done|]. change (promote Int64) with Int64.
  rewrite fits_true by done. unfold mret, M_ret. by rewrite cast_id.
Qed.

Lemma quotient_below n p v : 0 < p → (n / p < v ↔ n < v * p).
Proof.
  intros Hp. pose proof (Z.mul_div_le n p Hp). pose proof (Z.mul_succ_div_gt n p Hp).
  split; intros; nia.
Qed.

Lemma quotient_limits n p : 0 ≤ n → 0 < p → 0 ≤ n / p ≤ n.
Proof. intros Hn Hp. split; [by apply Z.div_pos|]. apply Z.div_le_upper_bound; nia. Qed.

Lemma quot_limits p : 0 < p →
  (∀ v, Z.quot (2 ^ 63 - 1) p < v ↔ 2 ^ 63 - 1 < v * p) ∧ (∀ v, v < Z.quot (- 2 ^ 63) p ↔ v * p < - 2 ^ 63) ∧
  in64 (Z.quot (2 ^ 63 - 1) p) ∧ in64 (Z.quot (- 2 ^ 63) p).
Proof.
  intros Hp. rewrite Z.quot_opp_l by lia. rewrite !Z.quot_div_nonneg by lia. unfold in_range.
  destruct int64_limits as [-> ->].
  pose proof (quotient_limits (2 ^ 63 - 1) p ltac:(lia) Hp). pose proof (quotient_limits (2 ^ 63) p ltac:(lia) Hp).
  split_and!; try lia; intros v.
  - by apply quotient_below.
  - pose proof (quotient_below (2 ^ 63) p (- v) Hp) as Hq. rewrite Z.mul_opp_l in Hq. lia.
Qed.

Lemma FromProduct_run v p s : in64 v → 0 < p →
  TimeDelta.FromProduct v p s = Ok (mkTimeDelta (clamp Int64 (v * p)), s).
Proof.
  intros Hv Hp. destruct (quot_limits p Hp) as (Hhi&Hlo&Hqh&Hql). destruct int64_limits as [El Eh].
  assert (p ≠ 0) as Hp0 by lia.
  unfold TimeDelta.FromProduct. unfold mbind at 1, M_bind at 1.
  assert (dcheck (S := S) (0 <? p) "positive_value > 0" s = Ok (tt, s)) as ->.
  { apply wp_ok_eq, wp_dcheck; [intros _; by apply Z.ltb_lt|done]. }
  rewrite El, Eh. rewrite (bind_run _ _ _ _ _ (c_div_run _ _ s Hp0 Hqh)).
  destruct (Z.ltb_spec (Z.quot (2 ^ 63 - 1) p) v) as [H1|H1].
  - apply Hhi in H1. unfold mret, M_ret. rewrite clamp_high; [done|lia].
  - rewrite (bind_run _ _ _ _ _ (c_div_run _ _ s Hp0 Hql)).
    destruct (Z.ltb_spec v (Z.quot (- 2 ^ 63) p)) as [H2|H2].
    + apply Hlo in H2. unfold mret, M_ret. rewrite clamp_low; [done|lia].
    + assert (in64 (v * p)) as Hin.
      { unfold in_range. rewrite El, Eh. split.
        - apply Z.nlt_ge. intros Hlt%Hlo. lia.
        - apply Z.nlt_ge. rewrite <-Hhi. lia. }
      rewrite (bind_run _ _ _ _ _ (int64_run _ s Hin)). by rewrite clamp_id.
Qed.

(** The product, as far as an [int64_t] goes. *)
Lemma from_int_run v f s :
  (z ← int64 (v * f); mret (mkTimeDelta z)) s =
  if fits Int64 (v * f) then Ok (mkTimeDelta (v * f), s) else Fault (UndefinedBehaviour "int64_t overflow").
Proof. unfold int64. by destruct (fits Int64 (v * f)). Qed.

Lemma magnitude_value v : in64 v → v ≠ - 2 ^ 63 → Z.lxor (v + Z.shiftr v 63) (Z.shiftr v 63) = Z.abs v.
Proof.
  intros [H1 H2] Hne. destruct int64_limits as [El Eh]. rewrite El in H1. rewrite Eh in H2.
  rewrite Z.shiftr_div_pow2 by lia. destruct (Z.ltb_spec v 0) as [Hneg|Hpos].
  - replace (v / 2 ^ 63) with (-1).
    + rewrite Z.lxor_m1_r. unfold Z.lnot. lia.
    + apply (Z.div_unique_pos _ _ _ (v + 2 ^ 63)); lia.
  - rewrite Z.div_small by lia. rewrite Z.add_0_r, Z.lxor_0_r. lia.
Qed.

Lemma magnitude_run d s : in64 (delta_ d) →
  TimeDelta.magnitude d s =
  if delta_ d =? numeric_lowest Int64 then Fault (UndefinedBehaviour "int64_t overflow")
  else Ok (mkTimeDelta (Z.abs (delta_ d)), s).
Proof.
  intros Hd. unfold TimeDelta.magnitude. change (64 - 1) with 63. destruct int64_limits as [El Eh].
  destruct (Z.eqb_spec (delta_ d) (numeric_lowest Int64)) as [E|E].
  - rewrite E, El. unfold mbind, M_bind. by rewrite int64_overflow by (by vm_compute; intros []).
  - assert (in64 (delta_ d + Z.shiftr (delta_ d) 63)) as Hin.
    { unfold in_range in *. rewrite El, Eh in *. rewrite Z.shiftr_div_pow2 by lia.
      destruct (Z.ltb_spec (delta_ d) 0).
      - replace (delta_ d / 2 ^ 63) with (-1); [lia|]. apply (Z.div_unique_pos _ _ _ (delta_ d + 2 ^ 63)); lia.
      - rewrite Z.div_small by lia. lia. }
    rewrite (bind_run _ _ _ _ _ (int64_run _ s Hin)). unfold mret, M_ret.
    by rewrite magnitude_value by (done || lia).
Qed.

Lemma remainder_run d a s : in64 (delta_ d) → in64 (delta_ a) →
  TimeDelta.is_min a || TimeDelta.is_max a = false →
  TimeDelta.remainder d a s =
  if delta_ a =? 0 then Fault (UndefinedBehaviour "division by zero")
  else if fits Int64 (Z.quot (delta_ d) (delta_ a)) then Ok (mkTimeDelta (Z.rem (delta_ d) (delta_ a)), s)
  else Fault (UndefinedBehaviour "quotient out of range").
Proof.
  intros Hd Ha Hf. unfold TimeDelta.remainder. rewrite Hf. unfold c_rem.
  destruct (Z.eqb_spec (delta_ a) 0); [done|]. change (promote Int64) with Int64.
  destruct (fits Int64 (Z.quot (delta_ d) (delta_ a))); [|done].
  unfold mbind, M_bind, mret, M_ret. rewrite cast_id; [done|].
  unfold in_range in *. pose proof (Z.rem_bound_abs (delta_ d) (delta_ a) ltac:(done)).
  destruct int64_limits as [El Eh]. rewrite El, Eh in *. lia.
Qed.

Lemma ratio_finite d e s : in64 (delta_ d) → in64 (delta_ e) → delta_ e ≠ 0 →
  TimeDelta.is_max d = false → TimeDelta.is_min d = false →
  TimeDelta.ratio d e s = Ok (if TimeDelta.is_max e then 0 else Z.quot (delta_ d) (delta_ e), s).
Proof.
  intros Hd He Hne Hmax Hmin. unfold TimeDelta.ratio. rewrite Hmax, Hmin.
  destruct (Z.eqb_spec (delta_ e) 0); [done|]. destruct (TimeDelta.is_max e); [done|].
  apply c_div_run; [done|]. unfold TimeDelta.is_max, TimeDelta.is_min in *.
  apply Z.eqb_neq in Hmax, Hmin. unfold in_range in *. destruct int64_limits as [El Eh]. rewrite El, Eh in *.
  pose proof (Z.quot_abs (delta_ d) (delta_ e) Hne) as Hq.
  pose proof (quotient_limits (Z.abs (delta_ d)) (Z.abs (delta_ e)) ltac:(lia) ltac:(lia)) as Hl.
  rewrite Z.quot_div_nonneg in Hq by lia. lia.
Qed.

(** C26. Time saturates.  Adding a span to a span or to a point in time, or subtracting it
    from one, gives the nearest representable number of microseconds.  The largest and the
    smallest span as right operand (which the comments of the header leave undefined) stand
    for infinities in the code: they give the limit, and against the opposite limit they fail
    a check.  Multiplying and dividing by a number of any integer type gives the nearest
    number too, with two exceptions: a divisor of zero gives the limit opposite to the sign,
    and a negative span with a positive [uint64_t] gives the smallest span.  So does making a
    span from seconds or milliseconds.  Negation swaps the limits, and the ratio of a finite
    span to a span other than zero is the quotient, zero for the largest span.  (The distance
    between two points does not saturate; it overflows.) *)
Theorem time_saturates {C} d e (t : TimeBase C) T a v s :
  in64 (delta_ d) → in64 (delta_ e) → in64 (us_ t) → in_range T a → in64 v →
  gives mkTimeDelta (TimeDelta.plus d e) (sum_spec (delta_ d) e) s ∧
  gives mkTimeDelta (TimeDelta.minus d e) (difference_spec (delta_ d) e) s ∧
  gives mkTimeBase (TimeBase.plus t e) (sum_spec (us_ t) e) s ∧
  gives mkTimeBase (TimeBase.minus t e) (difference_spec (us_ t) e) s ∧
  TimeDelta.times T d a s =
    Ok (if unsigned_refuses T d a then TimeDelta.Min else mkTimeDelta (clamp Int64 (delta_ d * a)), s) ∧
  TimeDelta.divided T d a s =
    Ok (if unsigned_refuses T d a then TimeDelta.Min
        else if a =? 0 then if delta_ d <? 0 then TimeDelta.Max else TimeDelta.Min
        else mkTimeDelta (clamp Int64 (Z.quot (delta_ d) a)), s) ∧
  TimeDelta.opposite d s =
    Ok (if TimeDelta.is_max d then TimeDelta.Min else mkTimeDelta (clamp Int64 (- delta_ d)), s) ∧
  TimeDelta.FromSeconds v s = Ok (mkTimeDelta (clamp Int64 (v * 1000000)), s) ∧
  TimeDelta.FromMilliseconds v s = Ok (mkTimeDelta (clamp Int64 (v * 1000)), s) ∧
  (delta_ e ≠ 0 → TimeDelta.is_max d = false → TimeDelta.is_min d = false →
   TimeDelta.ratio d e s = Ok (if TimeDelta.is_max e then 0 else Z.quot (delta_ d) (delta_ e), s)).
Proof.
  intros Hd He Ht Ha Hv.
  pose proof (SaturatedAdd_gives (delta_ d) e s Hd He). pose proof (SaturatedSub_gives (delta_ d) e s Hd He).
  pose proof (SaturatedAdd_gives (us_ t) e s Ht He). pose proof (SaturatedSub_gives (us_ t) e s Ht He).
  split_and!; try (by apply (gives_map id)).
  - by apply times_run.
  - by apply divided_run.
  - unfold TimeDelta.opposite, TimeDelta.is_max, TimeDelta.is_min.
    destruct (Z.eqb_spec (delta_ d) (numeric_max Int64)) as [E1|E1]; [done|].
    destruct (Z.eqb_spec (delta_ d) (numeric_lowest Int64)) as [->|E2]; [done|].
    assert (in64 (- delta_ d)) as Hin by (unfold in_range in *; destruct int64_limits as [El Eh]; rewrite El, Eh in *; lia).
    rewrite (bind_run _ _ _ _ _ (int64_run _ s Hin)). by rewrite clamp_id.
  - by apply FromProduct_run.
  - by apply FromProduct_run.
  - intros. by apply ratio_finite.
Qed.

(** Points and spans fit together: when the distance between two points is a finite
    span, adding it to the one gives the other; and what was added without leaving the
    range can be taken away again. *)
Theorem time_round_trip {C} (t u : TimeBase C) d s :
  in64 (us_ t) → in64 (us_ u) → in64 (delta_ d) →
  (numeric_lowest Int64 < us_ u - us_ t < numeric_max Int64 →
   ∃ e, TimeBase.difference u t s = Ok (e, s) ∧ TimeBase.plus t e s = Ok (u, s) ∧
        TimeBase.minus u e s = Ok (t, s)) ∧
  (TimeDelta.is_max d = false → TimeDelta.is_min d = false → in64 (us_ t + delta_ d) →
   ∃ w, TimeBase.plus t d s = Ok (w, s) ∧ TimeBase.minus w d s = Ok (t, s) ∧
        TimeBase.difference w t s = Ok (d, s)).
Proof.
  intros Ht Hu Hd. destruct t as [t], u as [u], d as [d]. simpl in *.
  assert (∀ (x y : TimeBase C) e, in64 (us_ x) → in64 (us_ y) → in64 (delta_ e) →
    TimeDelta.is_max e = false → TimeDelta.is_min e = false → us_ y = us_ x + delta_ e →
    TimeBase.plus x e s = Ok (y, s) ∧ TimeBase.minus y e s = Ok (x, s)) as Hmove.
  { intros [x] [y] e Hx Hy He Hmax Hmin Hxy. simpl in *.
    pose proof (gives_map id (mkTimeBase (C := C)) _ _ s (SaturatedAdd_gives x e s Hx He)) as Hadd.
    pose proof (gives_map id (mkTimeBase (C := C)) _ _ s (SaturatedSub_gives y e s Hy He)) as Hsub.
    unfold gives, sum_spec, difference_spec in *. rewrite Hmax, Hmin in Hadd, Hsub. simpl in *.
    rewrite <-Hxy, clamp_id in Hadd by done. replace (y - delta_ e) with x in Hsub by lia.
    by rewrite clamp_id in Hsub. }
  split.
  - intros Hr. exists (mkTimeDelta (u - t)). assert (in64 (u - t)) as Hin by (unfold in_range; lia).
    split; [unfold TimeBase.difference; simpl; by rewrite (bind_run _ _ _ _ _ (int64_run _ s Hin))|].
    apply Hmove; try done; simpl; [apply Z.eqb_neq; simpl; lia|apply Z.eqb_neq; simpl; lia|lia].
  - intros Hmax Hmin Hin. exists (mkTimeBase (t + d)).
    destruct (Hmove (mkTimeBase t) (mkTimeBase (t + d)) (mkTimeDelta d)) as [H1 H2]; try done.
    split_and!; [done|done|]. unfold TimeBase.difference. simpl.
    replace (t + d - t) with d by lia. by rewrite (bind_run _ _ _ _ _ (int64_run _ s Hd)).
Qed.

Lemma limits_run s :
  TimeDelta.plus TimeDelta.Max (mkTimeDelta (-1)) s = Ok (mkTimeDelta (2 ^ 63 - 2), s) ∧
  TimeDelta.divided Int32 (mkTimeDelta 1) 0 s = Ok (TimeDelta.Min, s) ∧
  TimeDelta.ratio (mkTimeDelta 1) TimeDelta.zero s = Ok (numeric_max Int64, s) ∧
  TimeDelta.times UInt64 (mkTimeDelta (-2)) 3 s = Ok (TimeDelta.Min, s).
Proof.
  split_and!.
  - apply (gives_map id mkTimeDelta _ (sum_spec (2 ^ 63 - 1) (mkTimeDelta (-1)))).
    apply (SaturatedAdd_gives (2 ^ 63 - 1)); by vm_compute.
  - by rewrite divided_run by (by vm_compute).
  - done.
  - vm_compute. done.
Qed.

(** C27. Where time leaves its range.  The absolute value of the smallest span, the remainder
    of a span by zero or of the smallest one by minus one, the distance between points too
    far apart, and more than 106751991 days overflow an [int64_t]; everything else of these
    operations gives the exact result.  The limits are infinities only on the right: a
    finite span taken from the largest one gives a smaller one.  A positive span divided by
    the number zero is the smallest span, by the span zero the largest number; and a span
    times a [uint64_t] can be the smallest span although the product is near. *)
Theorem time_overflows {C} d e (t u : TimeBase C) days s :
  in64 (delta_ d) → in64 (delta_ e) → in64 (us_ t) → in64 (us_ u) → in_range Int32 days →
  TimeDelta.magnitude d s =
    (if TimeDelta.is_min d then Fault (UndefinedBehaviour "int64_t overflow")
     else Ok (mkTimeDelta (Z.abs (delta_ d)), s)) ∧
  TimeDelta.remainder d e s =
    (if TimeDelta.is_min e || TimeDelta.is_max e then Ok (d, s)
     else if delta_ e =? 0 then Fault (UndefinedBehaviour "division by zero")
     else if TimeDelta.is_min d && (delta_ e =? -1) then Fault (UndefinedBehaviour "quotient out of range")
     else Ok (mkTimeDelta (Z.rem (delta_ d) (delta_ e)), s)) ∧
  TimeBase.difference u t s =
    (if fits Int64 (us_ u - us_ t) then Ok (mkTimeDelta (us_ u - us_ t), s)
     else Fault (UndefinedBehaviour "int64_t overflow")) ∧
  TimeDelta.FromDays days s =
    (if days =? numeric_max Int32 then Ok (TimeDelta.Max, s)
     else if Z.abs days <=? 106751991 then Ok (mkTimeDelta (days * 86400000000), s)
     else Fault (UndefinedBehaviour "int64_t overflow")) ∧
  TimeDelta.plus TimeDelta.Max (mkTimeDelta (-1)) s = Ok (mkTimeDelta (2 ^ 63 - 2), s) ∧
  TimeDelta.divided Int32 (mkTimeDelta 1) 0 s = Ok (TimeDelta.Min, s) ∧
  TimeDelta.ratio (mkTimeDelta 1) TimeDelta.zero s = Ok (numeric_max Int64, s) ∧
  TimeDelta.times UInt64 (mkTimeDelta (-2)) 3 s = Ok (TimeDelta.Min, s).
Proof.
  intros Hd He Ht Hu Hdays. destruct int64_limits as [El Eh]. split_and!; [..|apply limits_run|apply limits_run|apply limits_run|apply limits_run].
  - by apply magnitude_run.
  - destruct (TimeDelta.is_min e || TimeDelta.is_max e) eqn:Hlim.
    { unfold TimeDelta.remainder. rewrite Hlim. by destruct d. }
    rewrite remainder_run by done. destruct (Z.eqb_spec (delta_ e) 0) as [|Hne]; [done|].
    unfold TimeDelta.is_min. rewrite El.
    destruct (Z.eqb_spec (delta_ d) (- 2 ^ 63)) as [Ed|Ed], (Z.eqb_spec (delta_ e) (-1)) as [Ee|Ee]; simpl.
    { by rewrite Ed, Ee. }
    all: rewrite fits_true; [done|]; unfold in_range in *; rewrite El, Eh in *;
      pose proof (Z.quot_abs (delta_ d) (delta_ e) Hne) as Hq;
      pose proof (quotient_limits (Z.abs (delta_ d)) (Z.abs (delta_ e)) ltac:(lia) ltac:(lia));
      rewrite Z.quot_div_nonneg in Hq by lia.
    + destruct (Z.eq_dec (delta_ e) 1) as [E1|E1]; [rewrite E1, Z.quot_1_r; lia|].
      pose proof (Z.div_lt (Z.abs (delta_ d)) (Z.abs (delta_ e)) ltac:(lia) ltac:(lia)). lia.
    + lia.
    + lia.
  - unfold TimeBase.difference, int64. by destruct (fits Int64 (us_ u - us_ t)).
  - unfold TimeDelta.FromDays. destruct (days =? numeric_max Int32); [done|]. rewrite from_int_run.
    change TimeDelta.kMicrosecondsPerDay with 86400000000. unfold fits. rewrite El, Eh.
    destruct (Z.leb_spec (Z.abs days) 106751991), (Z.leb_spec (- 2 ^ 63) (days * 86400000000)),
      (Z.leb_spec (days * 86400000000) (2 ^ 63 - 1)); simpl; (done || lia).
Qed.

End time.

(** * Witnesses *)

#[local] Instance time_platform : Platform := Int64.
#[local] Instance time_checked : BuildConfig := true.

Lemma time_saturates_witness :
  TimeDelta.plus (mkTimeDelta (2 ^ 62)) (mkTimeDelta (2 ^ 62)) tt = Ok (TimeDelta.Max, tt) ∧
  TimeDelta.times Int32 (mkTimeDelta (2 ^ 62)) (-3) tt = Ok (TimeDelta.Min, tt).
Proof.
  destruct (time_saturates (mkTimeDelta (2 ^ 62)) (mkTimeDelta (2 ^ 62)) (mkTimeBase (C := Time) 0) Int32 (-3) 5 tt)
    as (H1&_&_&_&H5&_); [by vm_compute|by vm_compute|by vm_compute|by vm_compute|by vm_compute|].
  split; [exact H1|exact H5].
Defined.

Lemma time_round_trip_witness :
  ∃ e, TimeBase.difference (mkTimeBase (C := TimeTicks) 30) (mkTimeBase 100) tt = Ok (e, tt) ∧
       TimeBase.plus (mkTimeBase (C := TimeTicks) 100) e tt = Ok (mkTimeBase 30, tt).
Proof.
  destruct (time_round_trip (mkTimeBase (C := TimeTicks) 100) (mkTimeBase 30) TimeDelta.zero tt) as [H1 _];
    [by vm_compute|by vm_compute|by vm_compute|].
  destruct H1 as (e&He&Hp&_); [by vm_compute|]. exists e. split; [exact He|exact Hp].
Defined.

Lemma time_overflows_witness :
  TimeDelta.magnitude TimeDelta.Min tt = Fault (UndefinedBehaviour "int64_t overflow") ∧
  TimeDelta.remainder TimeDelta.Min (mkTimeDelta (-1)) tt = Fault (UndefinedBehaviour "quotient out of range").
Proof.
  destruct (time_overflows TimeDelta.Min (mkTimeDelta (-1)) (mkTimeBase (C := Time) 0) (mkTimeBase 0) 0 tt)
    as (H1&H2&_); [by vm_compute|by vm_compute|by vm_compute|by vm_compute|by vm_compute|].
  split; [exact H1|exact H2].
Defined.
