(* ===== verification/SequenceNumbers.v ===== *)
(** Wrapping sequence numbers and timestamps: rtc_base/numerics/mod_ops.h,
    rtc_base/numerics/sequence_number_util.h and
    modules/include/module_common_types_public.h.

    The template parameter [T], an unsigned integer type, is its width [w]; the
    parameter [M] is the number at which values wrap, 0 standing for the range of
    the type.  Operands narrower than [int] are promoted before they are
    subtracted, so that their difference is signed; [promoted_sub] says which. *)
From S2P Require Import Prelude.
From Stdlib Require Import ZArith Lia.
From stdpp Require Import base tactics numbers strings list.

Open Scope Z_scope.

(** The result of an [int64_t] operation. *)
Definition to_int64 {S} (z : Z) : M S Z :=
  if (- 2 ^ 63 <=? z) && (z <? 2 ^ 63) then mret z
  else fail (UndefinedBehaviour "signed overflow").

(** [a - b] before it is converted back to the type. *)
Definition promoted_sub (w a b : Z) : Z := if w <? 32 then a - b else wrap_u w (a - b).

Section Numbers.
Context `{!BuildConfig} {S : Type}.

(** * mod_ops.h *)

(** [Add<M>] and [Subtract<M>], on [unsigned long]s of [w] bits. *)
Definition Add (w M_ a b : Z) : M S Z :=
  _ ← dcheck (a <? M_) "a < M";
  let t := wrap_u w (M_ - b mod M_) in
  let res := wrap_u w (a - t) in
  mret (if a <? t then wrap_u w (res + M_) else res).

Definition Subtract (w M_ a b : Z) : M S Z :=
  _ ← dcheck (a <? M_) "a < M";
  let sub := b mod M_ in
  mret (if a <? sub then wrap_u w (M_ - wrap_u w (sub - a)) else wrap_u w (a - sub)).

Definition ForwardDiff (w M_ a b : Z) : M S Z :=
  if M_ =? 0 then mret (wrap_u w (b - a))
  else
    _ ← dcheck (a <? M_) "a < M";
    _ ← dcheck (b <? M_) "b < M";
    mret (wrap_u w (if a <=? b then b - a else M_ - (a - b))).

Definition ReverseDiff (w M_ a b : Z) : M S Z :=
  if M_ =? 0 then mret (wrap_u w (a - b))
  else
    _ ← dcheck (a <? M_) "a < M";
    _ ← dcheck (b <? M_) "b < M";
    mret (wrap_u w (if b <=? a then a - b else M_ - (b - a))).

Definition MinDiff (w M_ a b : Z) : M S Z :=
  f ← ForwardDiff w M_ a b;
  r ← ReverseDiff w M_ a b;
  mret (Z.min f r).

(** * sequence_number_util.h *)

(** The specialisations of [AheadOrAt] for [M > 0] and for [M == 0]. *)
Definition AheadOrAt_below (w M_ a b : Z) : M S bool :=
  let maxDist := M_ / 2 in
  far ← (if Z.land M_ 1 =? 0 then d ← MinDiff w M_ a b; mret (d =? maxDist) else mret false);
  if far : bool then mret (b <? a)
  else d ← ForwardDiff w M_ b a; mret (d <=? maxDist).

Definition AheadOrAt_full (w a b : Z) : M S bool :=
  let maxDist := wrap_u w ((2 ^ w - 1) / 2 + 1) in
  if promoted_sub w a b =? maxDist then mret (b <? a)
  else d ← ForwardDiff w 0 b a; mret (d <? maxDist).

Definition AheadOrAt (w M_ a b : Z) : M S bool :=
  if M_ =? 0 then AheadOrAt_full w a b else AheadOrAt_below w M_ a b.

Definition AheadOf (w M_ a b : Z) : M S bool :=
  if a =? b then mret false else AheadOrAt w M_ a b.

Definition AscendingSeqNumComp (w M_ a b : Z) : M S bool := AheadOf w M_ a b.
Definition DescendingSeqNumComp (w M_ a b : Z) : M S bool := AheadOf w M_ b a.

(** * module_common_types_public.h *)

Definition IsNewer (w value prev_value : Z) : bool :=
  let kBreakpoint := wrap_u w (Z.shiftr (2 ^ w - 1) 1 + 1) in
  if promoted_sub w value prev_value =? kBreakpoint then prev_value <? value
  else negb (value =? prev_value) && (wrap_u w (value - prev_value) <? kBreakpoint).

Definition IsNewerSequenceNumber : Z → Z → bool := IsNewer 16.
Definition IsNewerTimestamp : Z → Z → bool := IsNewer 32.

Definition LatestSequenceNumber (sequence_number1 sequence_number2 : Z) : Z :=
  if IsNewerSequenceNumber sequence_number1 sequence_number2 then sequence_number1 else sequence_number2.
Definition LatestTimestamp (timestamp1 timestamp2 : Z) : Z :=
  if IsNewerTimestamp timestamp1 timestamp2 then timestamp1 else timestamp2.

End Numbers.

(** ** The two unwrappers *)

Module SeqNumUnwrapper.
Record SeqNumUnwrapper := mkSeqNumUnwrapper { last_unwrapped_ : Z; last_value_ : option Z }.

Definition new : SeqNumUnwrapper := mkSeqNumUnwrapper 0 None.

Definition Unwrap `{!BuildConfig} (w M_ value : Z) : M SeqNumUnwrapper Z :=
  u ← get;
  unwrapped ←
    match last_value_ u with
    | None => mret value
    | Some last_value =>
        d ← ForwardDiff w M_ last_value value;
        x ← to_int64 (last_unwrapped_ u + d);
        ahead ← AheadOrAt w M_ value last_value;
        if negb ahead then
          let kBackwardAdjustment := if M_ =? 0 then (2 ^ w - 1) + 1 else M_ in
          to_int64 (x - kBackwardAdjustment)
        else mret x
    end;
  _ ← put (mkSeqNumUnwrapper unwrapped (Some value));
  mret unwrapped.
End SeqNumUnwrapper.

Module Unwrapper.
(** [last_value_] *)
Definition Unwrapper : Type := option Z.

Definition new : Unwrapper := None.

Definition UnwrapWithoutUpdate (w value : Z) : M (option Z) Z :=
  last ← get;
  match last with
  | None => mret value
  | Some last_value =>
      let kMaxPlusOne := (2 ^ w - 1) + 1 in
      let cropped_last := wrap_u w last_value in
      let delta := promoted_sub w value cropped_last in
      delta ←
        (if IsNewer w value cropped_last then
           if delta <? 0 then to_int64 (delta + kMaxPlusOne) else mret delta
         else if 0 <? delta then
           x ← to_int64 (last_value + delta);
           x ← to_int64 (x - kMaxPlusOne);
           if 0 <=? x then to_int64 (delta - kMaxPlusOne) else mret delta
         else mret delta);
      to_int64 (last_value + delta)
  end.

Definition UpdateLast (last_value : Z) : M (option Z) unit := put (Some last_value).

Definition Unwrap (w value : Z) : M (option Z) Z :=
  unwrapped ← UnwrapWithoutUpdate w value;
  _ ← UpdateLast unwrapped;
  mret unwrapped.
End Unwrapper.
