(* ===== verification/SequenceNumbersTheorems.v ===== *)
(** Properties of wrapping numbers: differences are those modulo the range, the
    order agrees with the integers within half of the range, and unwrapping
    recovers the numbers that were sent. *)
From S2P Require Import Prelude SequenceNumbers.
From Stdlib Require Import ZArith Lia.
From stdpp Require Import base tactics numbers strings list.

Open Scope Z_scope.

(** The number of values of the type, or [M]. *)
Definition modulus (w M_ : Z) : Z := if M_ =? 0 then 2 ^ w else M_.

(** The types and moduli the code is meant for. *)
Definition wrapping (w M_ : Z) : Prop := 0 < w ≤ 32 ∧ 0 ≤ M_ < 2 ^ w.

(** [a] is at most half the range ahead of [b]; of two numbers exactly half the
    range apart the greater one is ahead. *)
Definition ahead (m a b : Z) : bool :=
  let d := (a - b) mod m in (2 * d <? m) || ((2 * d =? m) && (b <? a)).

Lemma modulus_bounds w M_ : wrapping w M_ → 0 < modulus w M_ ≤ 2 ^ w ∧ 2 ^ w ≤ 2 ^ 32.
Proof.
  intros [Hw HM]. pose proof (pow2_pos w ltac:(lia)). pose proof (Z.pow_le_mono_r 2 w 32).
  unfold modulus. destruct (Z.eqb_spec M_ 0); lia.
Qed.

(** The difference of two reduced numbers. *)
Lemma mod_diff m a b : 0 ≤ a < m → 0 ≤ b < m → (a - b) mod m = if b <=? a then a - b else a - b + m.
Proof.
  intros. destruct (Z.leb_spec b a); [apply Z.mod_small; lia|].
  rewrite <-(Z_mod_plus_full (a - b) 1 m), Z.mul_1_l. apply Z.mod_small. lia.
Qed.

Lemma half_range w : 0 < w → wrap_u w ((2 ^ w - 1) / 2 + 1) = 2 ^ (w - 1).
Proof.
  intros Hw. pose proof (pow2_half w Hw) as E. pose proof (pow2_pos (w - 1) ltac:(lia)).
  replace ((2 ^ w - 1) / 2 + 1) with (2 ^ (w - 1)); [apply wrap_u_id; unfold in_u; lia|].
  rewrite E. replace (2 * 2 ^ (w - 1) - 1) with (1 + (2 ^ (w - 1) - 1) * 2) by lia.
  rewrite Z.div_add by lia. change (1 / 2) with 0. lia.
Qed.

Section Order.
Context `{!BuildConfig} {S : Type}.

Lemma ForwardDiff_eq w M_ a b (s : S) : wrapping w M_ → 0 ≤ a < modulus w M_ → 0 ≤ b < modulus w M_ →
  ForwardDiff w M_ a b s = Ok ((b - a) mod modulus w M_, s).
Proof.
  intros HM Ha Hb. pose proof (modulus_bounds w M_ HM). unfold ForwardDiff, modulus in *.
  destruct (Z.eqb_spec M_ 0) as [->|Hne]; [done|].
  rewrite mod_diff by lia. unfold dcheck, check.
  rewrite (proj2 (Z.ltb_lt a M_)), (proj2 (Z.ltb_lt b M_)) by lia.
  destruct RTC_DCHECK_IS_ON; cbv [mbind M_bind mret M_ret]; do 2 f_equal;
    (rewrite wrap_u_id; [destruct (Z.leb_spec a b); lia|unfold in_u; destruct (Z.leb_spec a b); lia]).
Qed.

Lemma ReverseDiff_eq w M_ a b (s : S) : wrapping w M_ → 0 ≤ a < modulus w M_ → 0 ≤ b < modulus w M_ →
  ReverseDiff w M_ a b s = Ok ((a - b) mod modulus w M_, s).
Proof.
  intros HM Ha Hb. rewrite <-(ForwardDiff_eq w M_ b a s) by done.
  unfold ForwardDiff, ReverseDiff. destruct (M_ =? 0); [done|].
  unfold dcheck, check. destruct RTC_DCHECK_IS_ON, (a <? M_) eqn:E1, (b <? M_) eqn:E2; try done;
    exfalso; unfold modulus in *; destruct (Z.eqb_spec M_ 0); destruct HM; lia.
Qed.

Lemma MinDiff_eq w M_ a b (s : S) : wrapping w M_ → 0 ≤ a < modulus w M_ → 0 ≤ b < modulus w M_ →
  MinDiff w M_ a b s = Ok (Z.min ((b - a) mod modulus w M_) ((a - b) mod modulus w M_), s).
Proof.
  intros. unfold MinDiff, mbind, M_bind. rewrite ForwardDiff_eq by done. by rewrite ReverseDiff_eq.
Qed.

Lemma AheadOrAt_eq w M_ a b (s : S) : wrapping w M_ → 0 ≤ a < modulus w M_ → 0 ≤ b < modulus w M_ →
  AheadOrAt w M_ a b s = Ok (ahead (modulus w M_) a b, s).
Proof.
  intros HM Ha Hb. pose proof (modulus_bounds w M_ HM) as Hm. unfold AheadOrAt.
  destruct (Z.eqb_spec M_ 0) as [->|Hne].
  - unfold AheadOrAt_full. rewrite half_range by (destruct HM; lia).
    assert (modulus w 0 = 2 ^ w) as EM by done. rewrite EM in *.
    pose proof (pow2_half w ltac:(destruct HM; lia)) as E.
    assert (ahead (2 ^ w) a b = if promoted_sub w a b =? 2 ^ (w - 1) then b <? a else (a - b) mod 2 ^ w <? 2 ^ (w - 1)) as ->.
    { unfold ahead, promoted_sub, wrap_u. rewrite !mod_diff by lia.
      destruct (Z.ltb_spec w 32), (Z.leb_spec b a), (Z.ltb_spec b a); case_match; lia. }
    destruct (promoted_sub w a b =? 2 ^ (w - 1)); [done|].
    unfold mbind, M_bind. rewrite ForwardDiff_eq by (by rewrite ?EM). by rewrite EM.
  - assert (modulus w M_ = M_) as EM by (unfold modulus; by destruct (Z.eqb_spec M_ 0)).
    unfold AheadOrAt_below. pose proof (Z.div_mod M_ 2 ltac:(lia)). pose proof (Z.mod_pos_bound M_ 2 ltac:(lia)).
    assert (Z.land M_ 1 = M_ mod 2) as -> by (change 1 with (Z.ones 1); by apply Z.land_ones).
    unfold mbind, M_bind. destruct (Z.eqb_spec (M_ mod 2) 0) as [E0|E0]; cbv [mret M_ret];
      rewrite ?MinDiff_eq by done; rewrite EM in *; unfold ahead.
    + rewrite !mod_diff by lia. destruct (Z.leb_spec a b), (Z.leb_spec b a); case_match; try lia;
        try (do 2 f_equal; lia); rewrite ForwardDiff_eq by (by rewrite ?EM); rewrite EM, mod_diff by lia;
        destruct (Z.leb_spec b a); do 2 f_equal; lia.
    + rewrite ForwardDiff_eq by (by rewrite ?EM). rewrite EM, mod_diff by lia.
      destruct (Z.leb_spec b a); do 2 f_equal; lia.
Qed.
End Order.

(** * The order *)

Lemma ahead_window m x y : 0 < m → 2 * Z.abs (x - y) < m → ahead m (x mod m) (y mod m) = (y <=? x).
Proof.
  intros Hm Hd. unfold ahead. rewrite <-Zminus_mod. destruct (Z.leb_spec y x).
  - rewrite (Z.mod_small (x - y)) by lia. lia.
  - rewrite <-(Z_mod_plus_full (x - y) 1 m), Z.mul_1_l, (Z.mod_small (x - y + m)) by lia. lia.
Qed.

Lemma ahead_total m a b : 0 ≤ a < m → 0 ≤ b < m → a ≠ b → ahead m a b = negb (ahead m b a).
Proof.
  intros Ha Hb Hne. unfold ahead. rewrite !mod_diff by lia.
  destruct (Z.leb_spec a b), (Z.leb_spec b a); lia.
Qed.

Lemma AheadOf_eq `{!BuildConfig} {S} w M_ a b (s : S) :
  wrapping w M_ → 0 ≤ a < modulus w M_ → 0 ≤ b < modulus w M_ →
  AheadOf w M_ a b s = Ok (negb (a =? b) && ahead (modulus w M_) a b, s).
Proof. intros. unfold AheadOf. destruct (a =? b); [done|]. by apply AheadOrAt_eq. Qed.

Lemma IsNewer_eq w a b : 0 < w → 0 ≤ a < 2 ^ w → 0 ≤ b < 2 ^ w →
  IsNewer w a b = negb (a =? b) && ahead (2 ^ w) a b.
Proof.
  intros Hw Ha Hb. unfold IsNewer. rewrite Z.shiftr_div_pow2 by lia. change (2 ^ 1) with 2.
  rewrite half_range by done. pose proof (pow2_half w Hw). pose proof (pow2_pos (w - 1) ltac:(lia)).
  unfold ahead, promoted_sub, wrap_u. rewrite !mod_diff by lia.
  destruct (Z.ltb_spec w 32), (Z.leb_spec b a), (Z.ltb_spec b a); case_match; lia.
Qed.

Lemma Add_eq `{!BuildConfig} {S} w M_ a b (s : S) : 0 < M_ < 2 ^ w → 0 ≤ a < M_ →
  SequenceNumbers.Add w M_ a b s = Ok ((a + b) mod M_, s).
Proof.
  intros HM Ha. pose proof (Z.mod_pos_bound b M_ ltac:(lia)). unfold SequenceNumbers.Add, dcheck, check.
  rewrite (proj2 (Z.ltb_lt a M_)) by lia.
  assert ((a + b) mod M_ = if a <? M_ - b mod M_ then a + b mod M_ else a + b mod M_ - M_) as ->.
  { rewrite <-Zplus_mod_idemp_r. destruct (Z.ltb_spec a (M_ - b mod M_)); [apply Z.mod_small; lia|].
    rewrite <-(Z_mod_plus_full _ (-1) M_). replace (a + b mod M_ + -1 * M_) with (a + b mod M_ - M_) by lia.
    apply Z.mod_small. lia. }
  rewrite (wrap_u_id w (M_ - b mod M_)) by (unfold in_u; lia).
  destruct RTC_DCHECK_IS_ON; cbv [mbind M_bind mret M_ret]; do 2 f_equal;
    destruct (Z.ltb_spec a (M_ - b mod M_)); unfold wrap_u;
    rewrite ?Zplus_mod_idemp_l, Z.mod_small; lia.
Qed.

Lemma Subtract_eq `{!BuildConfig} {S} w M_ a b (s : S) : 0 < M_ < 2 ^ w → 0 ≤ a < M_ →
  Subtract w M_ a b s = Ok ((a - b) mod M_, s).
Proof.
  intros HM Ha. pose proof (Z.mod_pos_bound b M_ ltac:(lia)). unfold Subtract, dcheck, check.
  rewrite (proj2 (Z.ltb_lt a M_)) by lia. rewrite <-Zminus_mod_idemp_r, mod_diff by lia.
  destruct RTC_DCHECK_IS_ON; cbv [mbind M_bind mret M_ret]; do 2 f_equal;
    destruct (Z.ltb_spec a (b mod M_)), (Z.leb_spec (b mod M_) a); try lia;
    rewrite ?(wrap_u_id w (b mod M_ - a)) by (unfold in_u; lia); rewrite wrap_u_id; unfold in_u; lia.
Qed.

(** Wrapping numbers.  The forward and backward differences, sums and
    subtractions are those modulo the range, whatever the width and whether or not
    the operands are promoted.  Of two different numbers exactly one is ahead of
    the other; numbers that come from integers less than half the range apart are
    ordered as these are; the two headers agree on the order.  It is not
    transitive: three sequence numbers can each be newer than the next. *)
Theorem wrapping_order `{!BuildConfig} {S} w M_ a b (s : S) :
  wrapping w M_ → 0 ≤ a < modulus w M_ → 0 ≤ b < modulus w M_ →
  let m := modulus w M_ in
  ForwardDiff w M_ a b s = Ok ((b - a) mod m, s) ∧
  ReverseDiff w M_ a b s = Ok ((a - b) mod m, s) ∧
  MinDiff w M_ a b s = Ok (Z.min ((b - a) mod m) ((a - b) mod m), s) ∧
  (0 < M_ → SequenceNumbers.Add w M_ a b s = Ok ((a + b) mod m, s) ∧ Subtract w M_ a b s = Ok ((a - b) mod m, s)) ∧
  (∃ r, AheadOf w M_ a b s = Ok (r, s) ∧ (a ≠ b → AheadOf w M_ b a s = Ok (negb r, s)) ∧ (a = b → r = false)) ∧
  (∀ x y, 2 * Z.abs (x - y) < m → AheadOf w M_ (x mod m) (y mod m) s = Ok (y <? x, s)) ∧
  (M_ = 0 → AheadOf w M_ a b s = Ok (IsNewer w a b, s)) ∧
  (IsNewerSequenceNumber 20000 0 && IsNewerSequenceNumber 40000 20000 && IsNewerSequenceNumber 0 40000 = true).
Proof.
  intros HM Ha Hb m. pose proof (modulus_bounds w M_ HM) as [Hm _]. split_and!.
  - by apply ForwardDiff_eq.
  - by apply ReverseDiff_eq.
  - by apply MinDiff_eq.
  - intros HM0. destruct HM. assert (m = M_) as Em by (unfold m, modulus; destruct (Z.eqb_spec M_ 0); lia).
    fold m in Ha. rewrite Em in *. split; [apply Add_eq|apply Subtract_eq]; lia.
  - rewrite !AheadOf_eq by done. eexists. split; [done|]. split.
    + intros Hne. do 2 f_equal. rewrite (ahead_total _ a b) by done. rewrite Z.eqb_sym.
      destruct (Z.eqb_spec a b); [done|]. simpl. by destruct (ahead _ b a).
    + intros ->. by rewrite Z.eqb_refl.
  - intros x y Hxy. pose proof (Z.mod_pos_bound x m). pose proof (Z.mod_pos_bound y m).
    fold m in Hm. rewrite AheadOf_eq by (done || (fold m; lia)). fold m. rewrite ahead_window by lia.
    do 2 f_equal. destruct (Z.eqb_spec (x mod m) (y mod m)) as [E|E]; simpl.
    + assert (y = x) as ->; [|lia]. assert ((x - y) mod m = 0) as E0 by (by rewrite Zminus_mod, E, Z.sub_diag).
      apply Z.mod_divide in E0 as [k Hk]; [|lia].
      assert (k = 0 ∨ 1 ≤ k ∨ k ≤ -1) as [->|[?|?]] by lia; [lia|nia|nia].
    + destruct (Z.leb_spec y x); [|lia]. destruct (Z.eq_dec x y) as [->|]; [done|lia].
  - intros ->. rewrite AheadOf_eq by done. change (modulus w 0) with (2 ^ w) in *.
    rewrite IsNewer_eq; [done|destruct HM; lia|done|done].
  - done.
Qed.

Lemma wrapping_order_witness :
  wrapping 16 0 ∧ @AheadOf true unit 16 0 3 65533 tt = Ok (true, tt) ∧
  (∀ x y, 2 * Z.abs (x - y) < 65536 →
     @AheadOf true unit 16 0 (x mod 65536) (y mod 65536) tt = Ok (y <? x, tt)).
Proof.
  assert (wrapping 16 0) as HM by (split; lia).
  split_and!; [done|by vm_compute|].
  destruct (@wrapping_order true unit 16 0 3 65533 tt HM ltac:(by vm_compute) ltac:(by vm_compute))
    as (_&_&_&_&_&H&_). exact H.
Defined.

(** * Unwrapping *)

Fixpoint unwrap_all {S} (unwrap : Z → M S Z) (values : list Z) : M S (list Z) :=
  match values with
  | [] => mret []
  | v :: vs => x ← unwrap v; xs ← unwrap_all unwrap vs; mret (x :: xs)
  end.

(** Each number is less than half the range away from the one before. *)
Fixpoint small_steps (m v : Z) (vs : list Z) : Prop :=
  match vs with
  | [] => True
  | v' :: vs => 2 * Z.abs (v' - v) < m ∧ - 2 ^ 62 ≤ v' ≤ 2 ^ 62 ∧ small_steps m v' vs
  end.

Lemma to_int64_ok {S} z (s : S) : - 2 ^ 63 ≤ z < 2 ^ 63 → to_int64 z s = Ok (z, s).
Proof.
  intros. unfold to_int64. by rewrite (proj2 (Z.leb_le _ _)), (proj2 (Z.ltb_lt _ _)) by lia.
Qed.

Lemma mod_diff_window m x y : 2 * Z.abs (x - y) < m →
  (x mod m - y mod m) mod m = if y <=? x then x - y else x - y + m.
Proof.
  intros. rewrite <-Zminus_mod. destruct (Z.leb_spec y x); [apply Z.mod_small; lia|].
  rewrite <-(Z_mod_plus_full (x - y) 1 m), Z.mul_1_l. apply Z.mod_small. lia.
Qed.

Lemma SeqNumUnwrap_step `{!BuildConfig} w M_ v v' : wrapping w M_ →
  2 * Z.abs (v' - v) < modulus w M_ → - 2 ^ 62 ≤ v ≤ 2 ^ 62 → - 2 ^ 62 ≤ v' ≤ 2 ^ 62 →
  let m := modulus w M_ in
  SeqNumUnwrapper.Unwrap w M_ (v' mod m) (SeqNumUnwrapper.mkSeqNumUnwrapper v (Some (v mod m))) =
  Ok (v', SeqNumUnwrapper.mkSeqNumUnwrapper v' (Some (v' mod m))).
Proof.
  intros HM Hd Hv Hv' m. pose proof (modulus_bounds w M_ HM) as [Hm Hw]. fold m in Hm, Hd.
  assert (2 ^ 32 = 4294967296) as E32 by done. assert (2 ^ 62 = 4611686018427387904) as E62 by done.
  assert (2 ^ 63 = 9223372036854775808) as E63 by done.
  pose proof (Z.mod_pos_bound v m). pose proof (Z.mod_pos_bound v' m).
  assert ((if M_ =? 0 then 2 ^ w - 1 + 1 else M_) = m) as Eb by (unfold m, modulus; destruct (M_ =? 0); lia).
  unfold SeqNumUnwrapper.Unwrap, mbind, M_bind. simpl.
  rewrite ForwardDiff_eq by (done || (fold m; lia)). fold m. rewrite mod_diff_window by lia.
  rewrite to_int64_ok by (destruct (v <=? v'); lia).
  rewrite AheadOrAt_eq by (done || (fold m; lia)). fold m. rewrite ahead_window by lia. rewrite Eb.
  destruct (Z.leb_spec v v'); simpl.
  - cbv [mret M_ret put]. replace (v + (v' - v)) with v' by lia. done.
  - rewrite to_int64_ok by lia. cbv [mret M_ret put]. replace (v + (v' - v + m) - m) with v' by lia. done.
Qed.

(** What [UnwrapWithoutUpdate] answers, in terms of the distance modulo the range. *)
Definition unwrapped_value (w last value : Z) : Z :=
  let d := (value - last mod 2 ^ w) mod 2 ^ w in
  if IsNewer w value (last mod 2 ^ w) then last + d
  else if d =? 0 then last
  else if 0 <=? last + d - 2 ^ w then last + d - 2 ^ w else last + d.

Lemma Unwrap_eq w last value : 0 < w ≤ 32 → 0 ≤ last ≤ 2 ^ 62 → 0 ≤ value < 2 ^ w →
  Unwrapper.Unwrap w value (Some last) = Ok (unwrapped_value w last value, Some (unwrapped_value w last value)).
Proof.
  intros Hw Hl Hv. pose proof (pow2_pos w ltac:(lia)). pose proof (Z.pow_le_mono_r 2 w 32 ltac:(lia)).
  assert (2 ^ 32 = 4294967296) as E32 by done. assert (2 ^ 62 = 4611686018427387904) as E62 by done.
  assert (2 ^ 63 = 9223372036854775808) as E63 by done.
  pose proof (Z.mod_pos_bound last (2 ^ w) ltac:(lia)). pose proof (Z.mod_le last (2 ^ w) ltac:(lia) ltac:(lia)).
  set (c := last mod 2 ^ w) in *. pose proof (mod_diff (2 ^ w) value c ltac:(lia) ltac:(lia)) as Hd.
  unfold unwrapped_value. fold c. set (d := (value - c) mod 2 ^ w) in *.
  assert (promoted_sub w value c = d ∨ promoted_sub w value c = d - 2 ^ w ∧ value < c) as Hu.
  { unfold promoted_sub, wrap_u. fold d. destruct (Z.ltb_spec w 32), (Z.leb_spec c value); lia. }
  assert (IsNewer w value c = true → d ≠ 0) as Hnz.
  { rewrite IsNewer_eq by lia. intros [?%negb_true_iff _]%andb_true_iff.
    destruct (Z.leb_spec c value); lia. }
  replace (2 ^ w - 1 + 1) with (2 ^ w) in * by lia.
  unfold Unwrapper.Unwrap, Unwrapper.UnwrapWithoutUpdate, mbind, M_bind. cbn [get].
  change (wrap_u w last) with c. replace (2 ^ w - 1 + 1) with (2 ^ w) by lia.
  assert (0 ≤ d < 2 ^ w) as Hdr by (apply Z.mod_pos_bound; lia).
  clearbody d c. destruct (IsNewer w value c); [|]; destruct Hu as [-> | [-> Hlt]].
  - rewrite (proj2 (Z.ltb_ge d 0)) by lia. cbv [mret M_ret]. by rewrite to_int64_ok by lia.
  - rewrite (proj2 (Z.ltb_lt _ 0)) by lia. replace (d - 2 ^ w + 2 ^ w) with d by lia.
    rewrite !to_int64_ok by lia. done.
  - destruct (Z.eqb_spec d 0) as [->|Hd0].
    { change (0 <? 0) with false. cbv [mret M_ret]. rewrite to_int64_ok by lia. by rewrite Z.add_0_r. }
    rewrite (proj2 (Z.ltb_lt 0 d)) by lia. rewrite !to_int64_ok by lia.
    destruct (Z.leb_spec 0 (last + d - 2 ^ w)); cbv [mret M_ret].
    + rewrite !to_int64_ok by lia. by replace (last + (d - 2 ^ w)) with (last + d - 2 ^ w) by lia.
    + by rewrite to_int64_ok by lia.
  - rewrite (proj2 (Z.ltb_ge 0 _)) by lia. cbv [mret M_ret].
    destruct (Z.leb_spec c value); [lia|]. destruct (Z.eqb_spec d 0); [lia|].
    rewrite (proj2 (Z.leb_le 0 _)) by lia.
    rewrite to_int64_ok by lia. by replace (last + (d - 2 ^ w)) with (last + d - 2 ^ w) by lia.
Qed.

Lemma unwrapped_window w v v' : 0 < w → 2 * Z.abs (v' - v) < 2 ^ w → 0 ≤ v' →
  unwrapped_value w v (v' mod 2 ^ w) = v'.
Proof.
  intros Hw Hd Hv'. pose proof (pow2_pos w ltac:(lia)).
  pose proof (Z.mod_pos_bound v (2 ^ w)). pose proof (Z.mod_pos_bound v' (2 ^ w)).
  unfold unwrapped_value. rewrite (mod_diff_window (2 ^ w) v' v Hd), IsNewer_eq, ahead_window by lia.
  pose proof (mod_diff_window (2 ^ w) v' v Hd) as Hdiff.
  destruct (Z.leb_spec v v'); rewrite ?andb_true_r, ?andb_false_r.
  - destruct (Z.eqb_spec (v' mod 2 ^ w) (v mod 2 ^ w)) as [E|E]; simpl; [|lia].
    rewrite E, Z.sub_diag, Z.mod_0_l in Hdiff by lia. destruct (Z.eqb_spec (v' - v) 0); lia.
  - destruct (Z.eqb_spec (v' - v + 2 ^ w) 0); [lia|]. destruct (Z.leb_spec 0 (v + (v' - v + 2 ^ w) - 2 ^ w)); lia.
Qed.

Lemma unwrapped_nearest w last value : 0 < w → 0 ≤ last → 0 ≤ value < 2 ^ w →
  let r := unwrapped_value w last value in
  0 ≤ r ∧ r mod 2 ^ w = value ∧ (2 * Z.abs (r - last) ≤ 2 ^ w ∨ r < 2 ^ w).
Proof.
  intros Hw Hl Hv r. pose proof (pow2_pos w ltac:(lia)). pose proof (Z.mod_pos_bound last (2 ^ w)).
  assert ((last + (value - last mod 2 ^ w) mod 2 ^ w) mod 2 ^ w = value) as Hm.
  { rewrite Zplus_mod_idemp_r, <-Zplus_mod_idemp_l.
    replace (last mod 2 ^ w + (value - last mod 2 ^ w)) with value by lia. by apply Z.mod_small. }
  assert (∀ x, (x - 2 ^ w) mod 2 ^ w = x mod 2 ^ w) as Hmm.
  { intros x. rewrite <-(Z_mod_plus_full (x - 2 ^ w) 1). f_equal. lia. }
  unfold r, unwrapped_value. rewrite IsNewer_eq by lia. unfold ahead.
  set (d := (value - last mod 2 ^ w) mod 2 ^ w) in *.
  pose proof (mod_diff (2 ^ w) value (last mod 2 ^ w)) as Hd. fold d in Hd.
  assert (0 ≤ d < 2 ^ w) by (apply Z.mod_pos_bound; lia).
  destruct (Z.eqb_spec value (last mod 2 ^ w)); simpl; repeat case_match; split_and!; rewrite ?Hmm; try lia;
    rewrite <-?Hm; f_equal; lia.
Qed.

Lemma Unwrap_all_SeqNum `{!BuildConfig} w M_ vs : wrapping w M_ → ∀ v,
  - 2 ^ 62 ≤ v ≤ 2 ^ 62 → small_steps (modulus w M_) v vs →
  ∃ u, unwrap_all (SeqNumUnwrapper.Unwrap w M_) (map (λ x, x mod modulus w M_) vs)
         (SeqNumUnwrapper.mkSeqNumUnwrapper v (Some (v mod modulus w M_))) = Ok (vs, u).
Proof.
  intros HM. induction vs as [|v' vs IH]; intros v Hv Hs; simpl; [by eexists|].
  destruct Hs as (Hd & Hv' & Hs). destruct (IH v' Hv' Hs) as [u Hu]. exists u.
  unfold mbind, M_bind. rewrite SeqNumUnwrap_step by done. by rewrite Hu.
Qed.

Lemma Unwrap_all_value w vs : 0 < w ≤ 32 → ∀ v, 0 ≤ v ≤ 2 ^ 62 → small_steps (2 ^ w) v vs →
  Forall (λ x, 0 ≤ x) vs →
  ∃ u, unwrap_all (Unwrapper.Unwrap w) (map (λ x, x mod 2 ^ w) vs) (Some v) = Ok (vs, u).
Proof.
  intros Hw. induction vs as [|v' vs IH]; intros v Hv Hs Hpos; simpl; [by eexists|].
  destruct Hs as (Hd & Hv' & Hs). apply Forall_cons in Hpos as [Hp Hpos].
  destruct (IH v' ltac:(lia) Hs Hpos) as [u Hu]. exists u.
  unfold mbind, M_bind. rewrite Unwrap_eq by (try apply Z.mod_pos_bound; try apply pow2_pos; lia).
  rewrite unwrapped_window by lia. by rewrite Hu.
Qed.

(** C21. Unwrapping undoes wrapping.  A sequence of integers that starts in the range
    and moves by less than half of it at a time is recovered exactly from its
    values modulo the range, by [SeqNumUnwrapper] for every modulus and by
    [Unwrapper] while it does not become negative.  Whatever it is given,
    [Unwrapper] answers a non-negative number with the right remainder, at most
    half the range from the last one unless that would be negative. *)
Theorem unwrap_recovers `{!BuildConfig} w M_ v vs :
  wrapping w M_ → 0 ≤ v < modulus w M_ → small_steps (modulus w M_) v vs →
  (∃ u, unwrap_all (SeqNumUnwrapper.Unwrap w M_) (map (λ x, x mod modulus w M_) (v :: vs))
          SeqNumUnwrapper.new = Ok (v :: vs, u)) ∧
  (M_ = 0 → Forall (λ x, 0 ≤ x) vs →
   ∃ u, unwrap_all (Unwrapper.Unwrap w) (map (λ x, x mod 2 ^ w) (v :: vs)) Unwrapper.new = Ok (v :: vs, u)) ∧
  (∀ last value, 0 ≤ last ≤ 2 ^ 62 → 0 ≤ value < 2 ^ w →
   ∃ r, Unwrapper.Unwrap w value (Some last) = Ok (r, Some r) ∧
        0 ≤ r ∧ r mod 2 ^ w = value ∧ (2 * Z.abs (r - last) ≤ 2 ^ w ∨ r < 2 ^ w)).
Proof.
  intros HM Hv Hs. pose proof (modulus_bounds w M_ HM).
  assert (2 ^ 32 ≤ 2 ^ 62) by done. split_and!.
  - destruct (Unwrap_all_SeqNum w M_ vs HM v ltac:(lia) Hs) as [u Hu]. exists u.
    rewrite (Z.mod_small v) in Hu by done. simpl. rewrite (Z.mod_small v) by done.
    unfold mbind at 1, M_bind at 1. unfold SeqNumUnwrapper.Unwrap at 1. simpl. cbv [put mret M_ret].
    unfold mbind, M_bind. by rewrite Hu.
  - intros -> Hpos. change (modulus w 0) with (2 ^ w) in *. destruct HM as [Hw _].
    destruct (Unwrap_all_value w vs Hw v ltac:(lia) Hs Hpos) as [u Hu]. exists u.
    rewrite map_cons, (Z.mod_small v) by done.
    change (unwrap_all (Unwrapper.Unwrap w) (v :: map (λ x, x mod 2 ^ w) vs) Unwrapper.new) with
      ((xs ← unwrap_all (Unwrapper.Unwrap w) (map (λ x, x mod 2 ^ w) vs); mret (v :: xs)) (Some v)).
    unfold mbind, M_bind. by rewrite Hu.
  - intros last value Hl Hval. destruct HM as [Hw _]. eexists. split; [by apply Unwrap_eq|].
    by apply unwrapped_nearest; [lia|lia|].
Qed.

Lemma unwrap_recovers_witness :
  small_steps 65536 65530 [65540; 65535; 90000; 120000] ∧
  (∃ u, unwrap_all (@SeqNumUnwrapper.Unwrap true 16 0) [65530; 4; 65535; 24464; 54464] SeqNumUnwrapper.new =
        Ok ([65530; 65540; 65535; 90000; 120000], u)).
Proof.
  assert (small_steps (modulus 16 0) 65530 [65540; 65535; 90000; 120000]) as Hs by (vm_compute; intuition discriminate).
  split; [exact Hs|].
  destruct (@unwrap_recovers true 16 0 65530 [65540; 65535; 90000; 120000]
              ltac:(split; lia) ltac:(by vm_compute) Hs) as [H _]. exact H.
Defined.
