(* ===== verification/SwapQueue.v ===== *)
(** rtc_base/swap_queue.h: a queue of fixed size between one producer and one consumer, on
    two threads, that hands items over by swapping them with the ones in its slots.

    The member functions are computations on the item the caller points to and the queue.
    Each is composed of the same pieces the threads below execute one at a time: a load,
    an addition or an exchange of the atomic counter, the swap with a slot (an access to
    memory that both threads can reach), and the work on an index that only one thread
    uses.  The pointers the caller passes are not null, and a [size_t] does not overflow:
    the indices and the counter stay below twice the length of a vector. *)
From S2P Require Import Prelude.
From Stdlib Require Import Lia.
From stdpp Require Import base tactics numbers strings relations list.

Open Scope nat_scope.

Module SwapQueue.

Record SwapQueue (T : Type) := mkSwapQueue {
  next_write_index_ : nat;
  next_read_index_ : nat;
  num_elements_ : nat;
  queue_ : list T
}.
Arguments mkSwapQueue {T} _ _ _ _.
Arguments next_write_index_ {T} _.
Arguments next_read_index_ {T} _.
Arguments num_elements_ {T} _.
Arguments queue_ {T} _.

Section operations.
Context `{BuildConfig} {T : Type} (queue_item_verifier_ : T → bool).
Abbreviation QM := (M (SwapQueue T)).
Abbreviation IM := (M (T * SwapQueue T)).

(** The length of the vector, which never changes. *)
Definition queue_size : QM nat := q ← get; mret (length (queue_ q)).

(** ** Atomic accesses to [num_elements_] *)

Definition load_num_elements : QM nat := q ← get; mret (num_elements_ q).

Definition exchange_num_elements (f : nat → nat) : QM nat :=
  q ← get;
  _ ← put (mkSwapQueue (next_write_index_ q) (next_read_index_ q) (f (num_elements_ q)) (queue_ q));
  mret (num_elements_ q).

(** ** The other pieces *)

Definition on_queue {A} (m : QM A) : IM A := λ s,
  match m s.2 with
  | Ok (a, q) => Ok (a, (s.1, q))
  | Fault f => Fault f
  end.

(** [std::swap( *item, queue_[i])] *)
Definition swap_slot (i : nat) : IM unit := λ s,
  match queue_ s.2 !! i with
  | Some x =>
    Ok (tt, (x, mkSwapQueue (next_write_index_ s.2) (next_read_index_ s.2) (num_elements_ s.2)
                  (<[i := s.1]> (queue_ s.2))))
  | None => Fault (UndefinedBehaviour "queue_[i]")
  end.

Definition set_next_write_index (i : nat) : QM unit :=
  modify (λ q, mkSwapQueue i (next_read_index_ q) (num_elements_ q) (queue_ q)).
Definition set_next_read_index (i : nat) : QM unit :=
  modify (λ q, mkSwapQueue (next_write_index_ q) i (num_elements_ q) (queue_ q)).

(** ** [Insert] *)

(** The checks, and whether the queue is full. *)
Definition insert_begin : IM bool :=
  s ← get;
  _ ← dcheck (queue_item_verifier_ s.1) "queue_item_verifier_( *input)";
  n ← on_queue load_num_elements;
  size ← on_queue queue_size;
  mret (n =? size).

Definition insert_swap : IM unit := s ← get; swap_slot (next_write_index_ s.2).

Definition insert_end (old_num_elements : nat) : QM unit :=
  q ← get;
  size ← queue_size;
  let next := S (next_write_index_ q) in
  let next := if next =? size then 0 else next in
  _ ← set_next_write_index next;
  _ ← dcheck (next <? size) "next_write_index_ < queue_.size()";
  dcheck (old_num_elements <? size) "old_num_elements < queue_.size()".

Definition Insert : IM bool :=
  full ← insert_begin;
  if full : bool then mret false
  else
    _ ← insert_swap;
    old_num_elements ← on_queue (exchange_num_elements (λ n, n + 1));
    _ ← on_queue (insert_end old_num_elements);
    mret true.

(** ** [Remove] *)

Definition remove_begin : IM bool :=
  s ← get;
  _ ← dcheck (queue_item_verifier_ s.1) "queue_item_verifier_( *output)";
  n ← on_queue load_num_elements;
  mret (n =? 0).

Definition remove_swap : IM unit := s ← get; swap_slot (next_read_index_ s.2).

Definition remove_end : QM unit :=
  q ← get;
  size ← queue_size;
  let next := S (next_read_index_ q) in
  let next := if next =? size then 0 else next in
  _ ← set_next_read_index next;
  dcheck (next <? size) "next_read_index_ < queue_.size()".

Definition Remove : IM bool :=
  empty ← remove_begin;
  if empty : bool then mret false
  else
    _ ← remove_swap;
    _ ← on_queue (exchange_num_elements (λ n, n - 1));
    _ ← on_queue remove_end;
    mret true.

(** ** [Clear] and [SizeAtLeast] *)

Definition clear_end (old_num_elements : nat) : QM unit :=
  q ← get;
  size ← queue_size;
  let next := next_read_index_ q + old_num_elements in
  let next := if size <=? next then next - size else next in
  _ ← set_next_read_index next;
  dcheck (next <? size) "next_read_index_ < queue_.size()".

Definition Clear : QM unit :=
  old_num_elements ← exchange_num_elements (λ _, 0);
  clear_end old_num_elements.

Definition SizeAtLeast : QM nat := load_num_elements.

(** ** Constructors *)

Definition VerifyQueueSlots : QM bool :=
  q ← get;
  _ ← for_each (λ v, dcheck (queue_item_verifier_ v) "queue_item_verifier_(v)") (queue_ q);
  mret true.

(** A queue of [size] copies of [prototype], which is [T()] in the constructors that do
    not take one; the check, with [VerifyQueueSlots] in it, is compiled away together. *)
Definition construct (size : nat) (prototype : T) : QM unit :=
  _ ← put (mkSwapQueue 0 0 0 (replicate size prototype));
  if RTC_DCHECK_IS_ON then b ← VerifyQueueSlots; dcheck b "VerifyQueueSlots()" else mret tt.

(** * The two threads

    Where a thread is in the function it has called, and what its next piece does.  [PAdd]
    remembers the item that is being inserted.  The second component of a step is what it
    does to the queue as its users see it. *)

Inductive event :=
  | Inserted (x : T)
  | InsertRefused
  | Removed (x : T)
  | RemoveRefused
  | Cleared
  | SizeRead (n : nat).

Inductive producer_pc :=
  | PIdle
  | PLoad
  | PSwap
  | PAdd (x : T)
  | PEnd (old_num_elements : nat)
  | PReturn (result : bool).

Definition producer_next (pc : producer_pc) : IM (producer_pc * option event) :=
  match pc with
  | PIdle => fail (UndefinedBehaviour "no call")
  | PLoad =>
    full ← insert_begin;
    mret (if full : bool then (PReturn false, Some InsertRefused) else (PSwap, None))
  | PSwap => s ← get; _ ← insert_swap; mret (PAdd s.1, None)
  | PAdd x => old ← on_queue (exchange_num_elements (λ n, n + 1)); mret (PEnd old, Some (Inserted x))
  | PEnd old => _ ← on_queue (insert_end old); mret (PReturn true, None)
  | PReturn _ => mret (PIdle, None)
  end.

(** What [Remove], [SizeAtLeast] and [Clear] return. *)
Inductive consumer_result := RemoveResult (b : bool) | SizeResult (n : nat) | NoResult.

Inductive consumer_pc :=
  | CIdle
  | CLoad
  | CSwap
  | CSub
  | CEnd
  | CExchange
  | CClearEnd (old_num_elements : nat)
  | CSize
  | CReturn (result : consumer_result).

Definition consumer_next (pc : consumer_pc) : IM (consumer_pc * option event) :=
  match pc with
  | CIdle => fail (UndefinedBehaviour "no call")
  | CLoad =>
    empty ← remove_begin;
    mret (if empty : bool then (CReturn (RemoveResult false), Some RemoveRefused) else (CSwap, None))
  | CSwap => _ ← remove_swap; mret (CSub, None)
  | CSub =>
    s ← get;
    _ ← on_queue (exchange_num_elements (λ n, n - 1));
    mret (CEnd, Some (Removed s.1))
  | CEnd => _ ← on_queue remove_end; mret (CReturn (RemoveResult true), None)
  | CExchange => old ← on_queue (exchange_num_elements (λ _, 0)); mret (CClearEnd old, Some Cleared)
  | CClearEnd old => _ ← on_queue (clear_end old); mret (CReturn NoResult, None)
  | CSize => n ← on_queue SizeAtLeast; mret (CReturn (SizeResult n), Some (SizeRead n))
  | CReturn _ => mret (CIdle, None)
  end.

Record Threads := mkThreads {
  shared : SwapQueue T;
  p_pc : producer_pc;
  p_item : T;
  c_pc : consumer_pc;
  c_item : T
}.

(** The calls the consumer can begin: [Remove], [Clear] and [SizeAtLeast]. *)
Definition consumer_entry (pc : consumer_pc) : bool :=
  match pc with CLoad | CExchange | CSize => true | _ => false end.

(** Either thread takes its next step.  Between calls it may change the item it points to,
    to one the verifier accepts. *)
Inductive step : Threads → option event → Threads → Prop :=
  | call_insert q x c y z :
      queue_item_verifier_ z = true →
      step (mkThreads q PIdle x c y) None (mkThreads q PLoad z c y)
  | call_consumer q p x y z c :
      queue_item_verifier_ z = true → consumer_entry c = true →
      step (mkThreads q p x CIdle y) None (mkThreads q p x c z)
  | producer_step q p x c y p' e x' q' :
      producer_next p (x, q) = Ok ((p', e), (x', q')) →
      step (mkThreads q p x c y) e (mkThreads q' p' x' c y)
  | consumer_step q p x c y c' e y' q' :
      consumer_next c (y, q) = Ok ((c', e), (y', q')) →
      step (mkThreads q p x c y) e (mkThreads q' p x c' y').

Inductive exec : Threads → list event → Threads → Prop :=
  | exec_refl s : exec s [] s
  | exec_step s tr s' e s'' : exec s tr s' → step s' e s'' → exec s (tr ++ option_list e) s''.

(** ** The queue as its users see it *)

Inductive fifo_step (size : nat) : list T → event → list T → Prop :=
  | fifo_inserted l x : length l < size → fifo_step size l (Inserted x) (l ++ [x])
  | fifo_full l : length l = size → fifo_step size l InsertRefused l
  | fifo_removed l x : fifo_step size (x :: l) (Removed x) l
  | fifo_empty : fifo_step size [] RemoveRefused []
  | fifo_cleared l : fifo_step size l Cleared []
  | fifo_size l : fifo_step size l (SizeRead (length l)) l.

Inductive fifo_run (size : nat) : list T → list event → list T → Prop :=
  | fifo_refl l : fifo_run size l [] l
  | fifo_trans l tr l' e l'' :
      fifo_run size l tr l' → fifo_step size l' e l'' → fifo_run size l (tr ++ [e]) l''.

Definition inserted (e : event) : option T := match e with Inserted x => Some x | _ => None end.
Definition removed (e : event) : option T := match e with Removed x => Some x | _ => None end.
Definition is_cleared (e : event) : Prop := match e with Cleared => True | _ => False end.

(** A thread by itself, from where it is to the end of the call. *)
Fixpoint run_producer (fuel : nat) (pc : producer_pc) : IM producer_pc :=
  match pc, fuel with
  | PReturn _, _ | _, 0 => mret pc
  | _, S fuel => r ← producer_next pc; run_producer fuel r.1
  end.
Fixpoint run_consumer (fuel : nat) (pc : consumer_pc) : IM consumer_pc :=
  match pc, fuel with
  | CReturn _, _ | _, 0 => mret pc
  | _, S fuel => r ← consumer_next pc; run_consumer fuel r.1
  end.

(** The slot of the vector a thread is about to access. *)
Definition producer_slot (s : Threads) : option nat :=
  match p_pc s with PSwap => Some (next_write_index_ (shared s)) | _ => None end.
Definition consumer_slot (s : Threads) : option nat :=
  match c_pc s with CSwap => Some (next_read_index_ (shared s)) | _ => None end.

(** The items there are: in the slots and with the callers. *)
Definition items (s : Threads) : list T := p_item s :: c_item s :: queue_ (shared s).

(** Both threads idle, and what the consumer and the producer hold. *)
Definition start (size : nat) (prototype x y : T) : Threads :=
  mkThreads (mkSwapQueue 0 0 0 (replicate size prototype)) PIdle x CIdle y.

End operations.

End SwapQueue.
