(* ===== verification/SwapQueueTheorems.v ===== *)
(** The swap queue: under every interleaving of the two threads it behaves like a bounded
    first-in first-out queue, the threads never access the same slot at the same time, and
    no item is lost or duplicated. *)
From S2P Require Import Prelude SwapQueue.
From Stdlib Require Import Lia.
From stdpp Require Import base tactics numbers strings relations list.
Import SwapQueue.

Open Scope nat_scope.

(** * Indices that wrap around *)

Lemma wrap_succ i n : i < n → (if S i =? n then 0 else S i) = (i + 1) mod n.
Proof.
  intros Hi. destruct (Nat.eqb_spec (S i) n) as [E|E].
  - replace (i + 1) with n by lia. by rewrite Nat.Div0.mod_same.
  - rewrite Nat.mod_small by lia. lia.
Qed.

Lemma wrap_add i k n : i < n → k ≤ n → (if n <=? i + k then i + k - n else i + k) = (i + k) mod n.
Proof.
  intros Hi Hk. destruct (Nat.leb_spec n (i + k)) as [E|E].
  - replace (i + k) with (i + k - n + 1 * n) at 2 by lia.
    rewrite Nat.Div0.mod_add, Nat.mod_small; lia.
  - by rewrite Nat.mod_small.
Qed.

Lemma wrap_inj a i j n : i < n → j < n → (a + i) mod n = (a + j) mod n → i = j.
Proof.
  intros Hi Hj E.
  pose proof (Nat.div_mod_eq (a + i) n) as E1. pose proof (Nat.div_mod_eq (a + j) n) as E2.
  rewrite E in E1.
  destruct (Nat.lt_trichotomy ((a + i) / n) ((a + j) / n)) as [Hq|[Hq|Hq]]; [nia| |nia].
  rewrite Hq in E1. lia.
Qed.

Lemma wrap_shift a i n : ((a + 1) mod n + i) mod n = (a + S i) mod n.
Proof. rewrite Nat.Div0.add_mod_idemp_l. f_equal. lia. Qed.

Section invariant.
Context `{BuildConfig} {T : Type} (verifier : T → bool).
Implicit Types (s : Threads (T := T)) (l : list T) (q : SwapQueue T).

(** Where the first element is, and where the next one goes, whatever the threads still
    have to do to their index. *)
Definition front_index s : nat :=
  let r := next_read_index_ (shared s) in
  let n := length (queue_ (shared s)) in
  match c_pc s with
  | CEnd => (r + 1) mod n
  | CClearEnd old => (r + old) mod n
  | _ => r
  end.

Definition back_index s : nat :=
  let w := next_write_index_ (shared s) in
  match p_pc s with PEnd _ => (w + 1) mod length (queue_ (shared s)) | _ => w end.

(** The element [j] of the queue: the consumer has the first one already when it is about
    to decrement the counter. *)
Definition element s (j : nat) : option T :=
  match c_pc s, j with
  | CSub, 0 => Some (c_item s)
  | _, _ => queue_ (shared s) !! ((front_index s + j) mod length (queue_ (shared s)))
  end.

Definition producer_inv s : Prop :=
  let q := shared s in
  match p_pc s with
  | PSwap => num_elements_ q < length (queue_ q)
  | PAdd x => num_elements_ q < length (queue_ q) ∧ queue_ q !! next_write_index_ q = Some x
  | PEnd old => old < length (queue_ q)
  | _ => True
  end.

Definition consumer_inv s : Prop :=
  let q := shared s in
  match c_pc s with
  | CSwap | CSub => 0 < num_elements_ q
  | CClearEnd old => old ≤ length (queue_ q)
  | _ => True
  end.

Record queue_rep (size : nat) s l : Prop := {
  rep_size : length (queue_ (shared s)) = size;
  rep_pos : 0 < size;
  rep_write : next_write_index_ (shared s) < size;
  rep_read : next_read_index_ (shared s) < size;
  rep_num : num_elements_ (shared s) = length l;
  rep_room : length l ≤ size;
  rep_back : back_index s = (front_index s + length l) mod size;
  rep_elements : ∀ j x, l !! j = Some x → element s j = Some x;
  rep_producer : producer_inv s;
  rep_consumer : consumer_inv s;
  rep_verified : Forall (λ x, verifier x = true) (items s)
}.

Lemma start_rep size prototype x y :
  0 < size → verifier prototype = true → verifier x = true → verifier y = true →
  queue_rep size (start size prototype x y) [].
Proof.
  intros Hn Hp Hx Hy. split; simpl; rewrite ?length_replicate; try lia; try done.
  - unfold back_index, front_index. simpl. rewrite Nat.Div0.mod_0_l. lia.
  - repeat constructor; [done|done|]. by apply Forall_replicate.
Qed.

(** What a step has to establish. *)
Definition moved (size : nat) l (e : option event) s s' : Prop :=
  ∃ l', match e with Some e => fifo_step size l e l' | None => l' = l end ∧
        queue_rep size s' l' ∧ items s' ≡ₚ items s.

Lemma moved_intro size l e s s' l' :
  match e with Some e => fifo_step size l e l' | None => l' = l end →
  queue_rep size s' l' → items s' ≡ₚ items s → moved size l e s s'.
Proof. intros. by exists l'. Qed.

(** The slot the producer writes to holds no element of the queue. *)
Lemma write_slot_free size q p x c y l j :
  let s := mkThreads q p x c y in
  queue_rep size s l → back_index s = next_write_index_ q → length l < size → j < length l →
  (front_index s + j) mod size ≠ next_write_index_ q.
Proof.
  intros s Hrep Hb Hl Hj E. destruct Hrep as [Hn Hpos _ _ _ _ Hback _ _ _ _].
  fold s in Hback. rewrite Hb, <-E in Hback. apply wrap_inj in Hback; lia.
Qed.

Lemma swap_permutation (L : list T) i x v : L !! i = Some v → v :: <[i := x]> L ≡ₚ x :: L.
Proof.
  intros Hi. rewrite <-(take_drop_middle _ _ _ Hi) at 2.
  rewrite insert_take_drop by (by eapply lookup_lt_Some).
  rewrite <-!Permutation_middle. apply perm_swap.
Qed.

Lemma Forall_permutation (P : T → Prop) L L' : L' ≡ₚ L → Forall P L → Forall P L'.
Proof. by intros ->. Qed.

Lemma producer_load size q x c y l :
  queue_rep size (mkThreads q PLoad x c y) l →
  wp (producer_next verifier PLoad)
    (λ r t, moved size l r.2 (mkThreads q PLoad x c y) (mkThreads t.2 r.1 t.1 c y)) (x, q).
Proof.
  intros Hrep. pose proof Hrep as [Hn Hpos Hw Hr Hk Hroom Hback Hel Hp Hc Hv].
  simpl in *. unfold insert_begin. wp_run. apply wp_dcheck; [by inversion Hv|]. wp_run.
  unfold wp; simpl. rewrite Hn, Hk.
  destruct (Nat.eqb_spec (length l) size) as [E|E]; (eapply moved_intro; [| |done]; simpl).
  - by constructor.
  - by split.
  - done.
  - split; try done. unfold producer_inv; simpl. rewrite Hn, Hk. lia.
Qed.

Lemma producer_swap size q x c y l :
  queue_rep size (mkThreads q PSwap x c y) l →
  wp (producer_next verifier PSwap)
    (λ r t, moved size l r.2 (mkThreads q PSwap x c y) (mkThreads t.2 r.1 t.1 c y)) (x, q).
Proof.
  intros Hrep. pose proof Hrep as [Hn Hpos Hw Hr Hk Hroom Hback Hel Hp Hc Hv]. simpl in *.
  unfold producer_inv in Hp; simpl in Hp. rewrite Hn, Hk in Hp.
  destruct (lookup_lt_is_Some_2 (queue_ q) (next_write_index_ q)) as [v Hslot]; [lia|].
  unfold insert_swap. wp_run. unfold wp, swap_slot; simpl. rewrite Hslot.
  assert (Hi : v :: <[next_write_index_ q := x]> (queue_ q) ≡ₚ x :: queue_ q)
    by by apply swap_permutation.
  eapply moved_intro; [done| |]; simpl.
  2:{ unfold items; simpl. rewrite (perm_swap y v), (perm_swap y x). by constructor. }
  split; simpl; rewrite ?length_insert; try done.
  - unfold back_index, front_index in *. simpl in *. by rewrite length_insert.
  - intros j z Hj. specialize (Hel j z Hj). unfold element in *.
    pose proof (write_slot_free _ _ _ _ _ _ _ j Hrep eq_refl Hp (lookup_lt_Some _ _ _ Hj)) as Hne.
    unfold front_index in *; simpl in *. rewrite length_insert, Hn in *.
    destruct c, j; try done; rewrite list_lookup_insert_ne; done.
  - unfold producer_inv; simpl. rewrite length_insert, list_lookup_insert_eq by lia. rewrite Hn, Hk. done.
  - unfold consumer_inv in *. simpl in *. by rewrite length_insert.
  - eapply Forall_permutation; [|exact Hv]. unfold items; simpl.
    rewrite (perm_swap y v), (perm_swap y x). by constructor.
Qed.

Lemma producer_add size q x v c y l :
  queue_rep size (mkThreads q (PAdd v) x c y) l →
  wp (producer_next verifier (PAdd v))
    (λ r t, moved size l r.2 (mkThreads q (PAdd v) x c y) (mkThreads t.2 r.1 t.1 c y)) (x, q).
Proof.
  intros [Hn Hpos Hw Hr Hk Hroom Hback Hel Hp Hc Hv]. simpl in *.
  unfold producer_inv in Hp; simpl in Hp. rewrite Hn, Hk in Hp. destruct Hp as [Hlt Hslot].
  wp_run. unfold wp; simpl. eapply moved_intro; [by apply fifo_inserted| |done]; simpl.
  assert (next_write_index_ q = (front_index (mkThreads q (PAdd v) x c y) + length l) mod size) as Hb
    by done.
  assert (∀ k m, front_index (mkThreads (mkSwapQueue (next_write_index_ q) (next_read_index_ q) k (queue_ q))
           (PEnd m) x c y) = front_index (mkThreads q (PAdd v) x c y)) as Hf by done.
  split; simpl; rewrite ?length_app, ?Hk; simpl; try done; try lia.
  - rewrite Hf. unfold back_index; simpl. rewrite Hn, Hb, Nat.Div0.add_mod_idemp_l. f_equal. lia.
  - intros j z [Hj|(Hj&Hj')]%lookup_app_Some; [exact (Hel j z Hj)|].
    apply list_lookup_singleton_Some in Hj' as [Hj' <-].
    assert (j = length l) as -> by lia. unfold element. simpl. rewrite Hf, Hn, <-Hb.
    destruct c; try done.
    unfold consumer_inv in Hc; simpl in Hc. rewrite Hk in Hc. by destruct (length l); [lia|].
  - unfold producer_inv; simpl. by rewrite Hn.
  - unfold consumer_inv in *; simpl in *. destruct c; simpl in *; lia.
Qed.

Lemma producer_end size q x old c y l :
  queue_rep size (mkThreads q (PEnd old) x c y) l →
  wp (producer_next verifier (PEnd old))
    (λ r t, moved size l r.2 (mkThreads q (PEnd old) x c y) (mkThreads t.2 r.1 t.1 c y)) (x, q).
Proof.
  intros [Hn Hpos Hw Hr Hk Hroom Hback Hel Hp Hc Hv]. simpl in *.
  unfold producer_inv in Hp; simpl in Hp. rewrite Hn in Hp.
  assert (insert_end old q = Ok (tt, mkSwapQueue ((next_write_index_ q + 1) mod size)
            (next_read_index_ q) (num_elements_ q) (queue_ q))) as Hend.
  { apply wp_ok_eq. unfold insert_end, queue_size, set_next_write_index. wp_run.
    rewrite Hn, wrap_succ by done.
    apply wp_dcheck; [intros _; apply Nat.ltb_lt, Nat.mod_upper_bound; lia|].
    apply wp_dcheck; [intros _; by apply Nat.ltb_lt|done]. }
  wp_run. unfold wp, on_queue; simpl. rewrite Hend. simpl.
  eapply moved_intro; [done| |done]; simpl. split; simpl; try done.
  - apply Nat.mod_upper_bound. lia.
  - unfold back_index in *; simpl in *. by rewrite Hn in Hback.
Qed.

Lemma producer_return size q x b c y l :
  queue_rep size (mkThreads q (PReturn b) x c y) l →
  wp (producer_next verifier (PReturn b))
    (λ r t, moved size l r.2 (mkThreads q (PReturn b) x c y) (mkThreads t.2 r.1 t.1 c y)) (x, q).
Proof.
  intros [Hn Hpos Hw Hr Hk Hroom Hback Hel Hp Hc Hv]. simpl in *.
  wp_run. eapply moved_intro; [done| |done]. by split.
Qed.

Lemma consumer_load size q p x y l :
  queue_rep size (mkThreads q p x CLoad y) l →
  wp (consumer_next verifier CLoad)
    (λ r t, moved size l r.2 (mkThreads q p x CLoad y) (mkThreads t.2 p x r.1 t.1)) (y, q).
Proof.
  intros [Hn Hpos Hw Hr Hk Hroom Hback Hel Hp Hc Hv]. simpl in *. unfold remove_begin.
  wp_run. apply wp_dcheck; [by inversion Hv as [|?? _ Hv']; inversion Hv'|]. wp_run.
  unfold wp; simpl. rewrite Hk.
  destruct (Nat.eqb_spec (length l) 0) as [E|E]; (eapply moved_intro; [| |done]; simpl).
  - apply nil_length_inv in E as ->. by constructor.
  - by split.
  - done.
  - split; try done. unfold consumer_inv; simpl. lia.
Qed.

Lemma consumer_swap size q p x y l :
  queue_rep size (mkThreads q p x CSwap y) l →
  wp (consumer_next verifier CSwap)
    (λ r t, moved size l r.2 (mkThreads q p x CSwap y) (mkThreads t.2 p x r.1 t.1)) (y, q).
Proof.
  intros Hrep. pose proof Hrep as [Hn Hpos Hw Hr Hk Hroom Hback Hel Hp Hc Hv]. simpl in *.
  unfold consumer_inv in Hc; simpl in Hc. rewrite Hk in Hc.
  destruct (lookup_lt_is_Some_2 (queue_ q) (next_read_index_ q)) as [v Hslot]; [lia|].
  unfold remove_swap. wp_run. unfold wp, swap_slot; simpl. rewrite Hslot.
  assert (Hi : v :: <[next_read_index_ q := y]> (queue_ q) ≡ₚ y :: queue_ q)
    by by apply swap_permutation.
  eapply moved_intro; [done| |]; simpl.
  2:{ unfold items; simpl. by constructor. }
  unfold element, front_index in Hel; simpl in Hel. rewrite Hn in Hel.
  split; simpl; rewrite ?length_insert; try done.
  - unfold back_index, front_index in *. simpl in *. by rewrite length_insert.
  - intros j z Hj. specialize (Hel j z Hj). unfold element, front_index; simpl.
    rewrite length_insert, Hn. destruct j as [|j].
    + rewrite Nat.add_0_r, Nat.mod_small in Hel by done. congruence.
    + rewrite list_lookup_insert_ne; [done|]. intros E. apply lookup_lt_Some in Hj.
      assert (S j = 0); [|done]. apply (wrap_inj (next_read_index_ q) _ _ size); [lia|lia|].
      rewrite <-E, Nat.add_0_r. symmetry. by apply Nat.mod_small.
  - unfold producer_inv in *; simpl in *. rewrite length_insert. destruct p; try done.
    destruct Hp as [Hlt Hx]. split; [done|]. rewrite list_lookup_insert_ne; [done|]. intros E.
    rewrite Hk, Hn in Hlt.
    apply (write_slot_free _ _ _ _ _ _ _ 0 Hrep eq_refl Hlt Hc).
    unfold front_index; simpl. rewrite Nat.add_0_r, Nat.mod_small by done. done.
  - unfold consumer_inv; simpl. lia.
  - eapply Forall_permutation; [|exact Hv]. unfold items; simpl. by constructor.
Qed.

Lemma consumer_sub size q p x y l :
  queue_rep size (mkThreads q p x CSub y) l →
  wp (consumer_next verifier CSub)
    (λ r t, moved size l r.2 (mkThreads q p x CSub y) (mkThreads t.2 p x r.1 t.1)) (y, q).
Proof.
  intros [Hn Hpos Hw Hr Hk Hroom Hback Hel Hp Hc Hv]. simpl in *.
  unfold consumer_inv in Hc; simpl in Hc. rewrite Hk in Hc.
  destruct l as [|v l]; simpl in *; [lia|].
  pose proof (Hel 0 v eq_refl) as E. injection E as ->.
  wp_run. unfold wp; simpl. eapply moved_intro; [by apply fifo_removed| |done].
  split; simpl; try done; try lia.
  - transitivity ((next_read_index_ q + S (length l)) mod size); [exact Hback|].
    unfold front_index; simpl. by rewrite Hn, wrap_shift.
  - intros j z Hj. specialize (Hel (S j) z Hj). unfold element, front_index in *; simpl in *.
    rewrite Hn in *. by rewrite wrap_shift.
  - unfold producer_inv in *; simpl in *. destruct p; try done; [lia|].
    destruct Hp. split; [lia|done].
Qed.

Lemma consumer_end size q p x y l :
  queue_rep size (mkThreads q p x CEnd y) l →
  wp (consumer_next verifier CEnd)
    (λ r t, moved size l r.2 (mkThreads q p x CEnd y) (mkThreads t.2 p x r.1 t.1)) (y, q).
Proof.
  intros [Hn Hpos Hw Hr Hk Hroom Hback Hel Hp Hc Hv]. simpl in *.
  assert (remove_end q = Ok (tt, mkSwapQueue (next_write_index_ q)
            ((next_read_index_ q + 1) mod size) (num_elements_ q) (queue_ q))) as Hend.
  { apply wp_ok_eq. unfold remove_end, queue_size, set_next_read_index. wp_run.
    rewrite Hn, wrap_succ by done.
    apply wp_dcheck; [intros _; apply Nat.ltb_lt, Nat.mod_upper_bound; lia|done]. }
  wp_run. unfold wp, on_queue; simpl. rewrite Hend. simpl.
  unfold element, front_index, back_index in *; simpl in *. rewrite Hn in *.
  eapply moved_intro; [done| |done]; simpl. split; simpl; try done.
  - apply Nat.mod_upper_bound. lia.
  - unfold back_index, front_index; simpl. by rewrite Hn.
  - intros j z Hj. specialize (Hel j z Hj). unfold element, front_index; simpl. by rewrite Hn.
Qed.

Lemma consumer_exchange size q p x y l :
  queue_rep size (mkThreads q p x CExchange y) l →
  wp (consumer_next verifier CExchange)
    (λ r t, moved size l r.2 (mkThreads q p x CExchange y) (mkThreads t.2 p x r.1 t.1)) (y, q).
Proof.
  intros [Hn Hpos Hw Hr Hk Hroom Hback Hel Hp Hc Hv]. simpl in *.
  wp_run. unfold wp; simpl. eapply moved_intro; [by apply fifo_cleared| |done].
  split; simpl; try done; try lia.
  - unfold back_index, front_index in *; simpl in *. rewrite Hn in *.
    by rewrite Hk, Nat.add_0_r, Nat.Div0.mod_mod.
  - unfold producer_inv in *; simpl in *. destruct p; try done; [lia|]. destruct Hp. split; [lia|done].
  - unfold consumer_inv; simpl. lia.
Qed.

Lemma consumer_clear_end size q p x y old l :
  queue_rep size (mkThreads q p x (CClearEnd old) y) l →
  wp (consumer_next verifier (CClearEnd old))
    (λ r t, moved size l r.2 (mkThreads q p x (CClearEnd old) y) (mkThreads t.2 p x r.1 t.1)) (y, q).
Proof.
  intros [Hn Hpos Hw Hr Hk Hroom Hback Hel Hp Hc Hv]. simpl in *.
  unfold consumer_inv in Hc; simpl in Hc. rewrite Hn in Hc.
  assert (clear_end old q = Ok (tt, mkSwapQueue (next_write_index_ q)
            ((next_read_index_ q + old) mod size) (num_elements_ q) (queue_ q))) as Hend.
  { apply wp_ok_eq. unfold clear_end, queue_size, set_next_read_index. wp_run.
    rewrite Hn, wrap_add by done.
    apply wp_dcheck; [intros _; apply Nat.ltb_lt, Nat.mod_upper_bound; lia|done]. }
  wp_run. unfold wp, on_queue; simpl. rewrite Hend. simpl.
  unfold element, front_index, back_index in *; simpl in *. rewrite Hn in *.
  eapply moved_intro; [done| |done]; simpl. split; simpl; try done.
  - apply Nat.mod_upper_bound. lia.
  - unfold back_index, front_index; simpl. by rewrite Hn.
  - intros j z Hj. specialize (Hel j z Hj). unfold element, front_index; simpl. by rewrite Hn.
Qed.

Lemma consumer_query size q p x y c l :
  match c with CSize | CReturn _ => True | _ => False end →
  queue_rep size (mkThreads q p x c y) l →
  wp (consumer_next verifier c)
    (λ r t, moved size l r.2 (mkThreads q p x c y) (mkThreads t.2 p x r.1 t.1)) (y, q).
Proof.
  intros Hq [Hn Hpos Hw Hr Hk Hroom Hback Hel Hp Hc Hv]. simpl in *.
  destruct c; try done; simpl; wp_run; (eapply moved_intro; [| |done]); simpl.
  - unfold SizeAtLeast, load_num_elements. rewrite Hk. by constructor.
  - by split.
  - done.
  - by split.
Qed.

(** ** Every step *)

Lemma producer_ok size q p x c y l : p ≠ PIdle →
  queue_rep size (mkThreads q p x c y) l →
  wp (producer_next verifier p)
    (λ r t, moved size l r.2 (mkThreads q p x c y) (mkThreads t.2 r.1 t.1 c y)) (x, q).
Proof.
  destruct p; intros Hne Hrep; [done|..];
    eauto using producer_load, producer_swap, producer_add, producer_end, producer_return.
Qed.

Lemma consumer_ok size q p x c y l : c ≠ CIdle →
  queue_rep size (mkThreads q p x c y) l →
  wp (consumer_next verifier c)
    (λ r t, moved size l r.2 (mkThreads q p x c y) (mkThreads t.2 p x r.1 t.1)) (y, q).
Proof.
  destruct c; intros Hne Hrep; [done|..];
    eauto using consumer_load, consumer_swap, consumer_sub, consumer_end, consumer_exchange,
      consumer_clear_end; by apply consumer_query.
Qed.

Lemma call_rep size q p x c y p' x' c' y' l :
  queue_rep size (mkThreads q p x c y) l →
  (p = p' ∧ x = x' ∨ p = PIdle ∧ p' = PLoad ∧ verifier x' = true) →
  (c = c' ∧ y = y' ∨ c = CIdle ∧ consumer_entry c' = true ∧ verifier y' = true) →
  queue_rep size (mkThreads q p' x' c' y') l.
Proof.
  intros [Hn Hpos Hw Hr Hk Hroom Hback Hel Hp Hc Hv] Hpp Hcc. simpl in *.
  inversion_clear Hv as [|?? Hx Hv']. inversion_clear Hv' as [|?? Hy Hq]. simpl in *.
  destruct Hpp as [[-> ->]|(->&->&Hx')], Hcc as [[-> ->]|(->&He&Hy')];
    try destruct c'; try done; (split; simpl; try done; by repeat constructor).
Qed.

Lemma step_moved size s e s' l :
  queue_rep size s l → step verifier s e s' →
  ∃ l', match e with Some e => fifo_step size l e l' | None => l' = l end ∧ queue_rep size s' l'.
Proof.
  intros Hrep Hstep. destruct Hstep as [| |q p x c y p' e x' q' Hs|q p x c y c' e y' q' Hs].
  - exists l. split; [done|]. eapply call_rep; eauto.
  - exists l. split; [done|]. eapply call_rep; eauto.
  - assert (p ≠ PIdle) as Hne by (by intros ->).
    pose proof (producer_ok _ _ _ _ _ _ _ Hne Hrep) as Hok. unfold wp in Hok. rewrite Hs in Hok.
    destruct Hok as (l'&He&Hrep'&_). by exists l'.
  - assert (c ≠ CIdle) as Hne by (by intros ->).
    pose proof (consumer_ok _ _ _ _ _ _ _ Hne Hrep) as Hok. unfold wp in Hok. rewrite Hs in Hok.
    destruct Hok as (l'&He&Hrep'&_). by exists l'.
Qed.

Lemma exec_rep size s0 tr s l0 :
  queue_rep size s0 l0 → exec verifier s0 tr s → ∃ l, fifo_run size l0 tr l ∧ queue_rep size s l.
Proof.
  intros H0 Hex. induction Hex as [s|s tr s' e s'' Hex IH Hstep]; [by exists l0; split; [constructor|]|].
  destruct (IH H0) as (l&Hrun&Hrep). destruct (step_moved _ _ _ _ _ Hrep Hstep) as (l'&He&Hrep').
  exists l'. split; [|done]. destruct e as [e|]; simpl.
  - by econstructor.
  - rewrite app_nil_r. by subst.
Qed.

(** Without [Clear], what has been put in is what has been taken out and what is left. *)
Lemma fifo_history size l0 tr l :
  fifo_run size l0 tr l → Forall (λ e, ¬ is_cleared e) tr →
  l0 ++ omap inserted tr = omap removed tr ++ l.
Proof.
  induction 1 as [l|l tr l' e l'' Hrun IH Hstep]; intros Hf; simpl.
  { by rewrite app_nil_r. }
  apply Forall_app in Hf as [Hf He]. inversion_clear He as [|?? Hne _].
  rewrite !omap_app, app_assoc, (IH Hf). simpl.
  destruct Hstep; simpl; rewrite ?app_nil_r, <-?app_assoc; done.
Qed.

(** Computes as far as the unknown pieces allow. *)
Ltac run_pieces := repeat (progress (cbn; unfold mbind, M_bind, mret, M_ret, get)).

(** The member functions are what the threads do, one piece after the other. *)
Lemma run_producer_Insert (t : T * SwapQueue T) :
  run_producer verifier 4 PLoad t = (b ← Insert verifier; mret (PReturn b)) t.
Proof.
  unfold Insert. run_pieces.
  destruct (insert_begin verifier t) as [[[|] u]|]; run_pieces; [done| |done].
  destruct (insert_swap u) as [[[] v]|]; run_pieces; [|done].
  destruct (on_queue (exchange_num_elements _) v) as [[old w]|]; run_pieces; [|done].
  by destruct (on_queue (insert_end old) w) as [[[] ?]|].
Qed.

Lemma run_consumer_Remove (t : T * SwapQueue T) :
  run_consumer verifier 4 CLoad t = (b ← Remove verifier; mret (CReturn (RemoveResult b))) t.
Proof.
  unfold Remove. run_pieces.
  destruct (remove_begin verifier t) as [[[|] u]|]; run_pieces; [done| |done].
  destruct (remove_swap u) as [[[] v]|]; run_pieces; [|done].
  destruct (on_queue (exchange_num_elements _) v) as [[old w]|]; run_pieces; [|done].
  by destruct (on_queue remove_end w) as [[[] ?]|].
Qed.

Lemma run_consumer_Clear (t : T * SwapQueue T) :
  run_consumer verifier 2 CExchange t = (_ ← on_queue Clear; mret (CReturn NoResult)) t.
Proof.
  unfold Clear. run_pieces. unfold on_queue.
  destruct (exchange_num_elements _ t.2) as [[old u]|]; run_pieces; [|done]. unfold on_queue; simpl.
  by destruct (clear_end old u) as [[[] ?]|].
Qed.

End invariant.

Section theorems.
Context `{BuildConfig} {T : Type} (verifier : T → bool).

(** C12. The swap queue between two threads.  [Insert], [Remove] and [Clear] are the runs of
    the threads' steps; and whatever the order in which the steps of the producer and the
    consumer interleave, the insertions, removals, refusals, clearings and sizes read are
    those of a first-in first-out queue of the given size, in the order in which they take
    effect, one per call.  Without [Clear] everything put in has been taken out, in order,
    or is still there. *)
Theorem swap_queue_refines_fifo (size : nat) (prototype x y : T) :
  0 < size → verifier prototype = true → verifier x = true → verifier y = true →
  (∀ t, run_producer verifier 4 PLoad t = (b ← Insert verifier; mret (PReturn b)) t ∧
        run_consumer verifier 4 CLoad t = (b ← Remove verifier; mret (CReturn (RemoveResult b))) t ∧
        run_consumer verifier 2 CExchange t = (_ ← on_queue Clear; mret (CReturn NoResult)) t) ∧
  ∀ tr s, exec verifier (start size prototype x y) tr s →
    ∃ l, fifo_run size [] tr l ∧ num_elements_ (shared s) = length l ∧
         (Forall (λ e, ¬ is_cleared e) tr → omap inserted tr = omap removed tr ++ l).
Proof.
  intros Hn Hp Hx Hy. split.
  { auto using run_producer_Insert, run_consumer_Remove, run_consumer_Clear. }
  intros tr s Hex. pose proof (start_rep verifier size prototype x y Hn Hp Hx Hy) as H0.
  destruct (exec_rep _ _ _ _ _ _ H0 Hex) as (l&Hrun&Hrep).
  exists l. split_and!; [done|apply Hrep|]. intros Hf. by apply (fifo_history size [] tr l).
Qed.

(** C17. Safety of the swap queue, under every interleaving: the two threads are never about
    to access the same slot; a thread in the middle of a call can always go on, and no
    check fails; its step moves items between the slots and the callers but loses and
    duplicates none; and every item passes the verifier. *)
Theorem swap_queue_safe (size : nat) (prototype x y : T) tr s :
  0 < size → verifier prototype = true → verifier x = true → verifier y = true →
  exec verifier (start size prototype x y) tr s →
  (∀ i, producer_slot s = Some i → consumer_slot s ≠ Some i) ∧
  (p_pc s ≠ PIdle →
   wp (producer_next verifier (p_pc s)) (λ r t,
     items (mkThreads t.2 r.1 t.1 (c_pc s) (c_item s)) ≡ₚ items s) (p_item s, shared s)) ∧
  (c_pc s ≠ CIdle →
   wp (consumer_next verifier (c_pc s)) (λ r t,
     items (mkThreads t.2 (p_pc s) (p_item s) r.1 t.1) ≡ₚ items s) (c_item s, shared s)) ∧
  Forall (λ v, verifier v = true) (items s).
Proof.
  intros Hn Hp Hx Hy Hex. pose proof (start_rep verifier size prototype x y Hn Hp Hx Hy) as H0.
  destruct (exec_rep _ _ _ _ _ _ H0 Hex) as (l&_&Hrep). destruct s as [q p a c b]. simpl.
  split_and!.
  - unfold producer_slot, consumer_slot. simpl. intros i.
    destruct p; try done. intros [= <-]. destruct c; try done. intros [= E].
    pose proof Hrep as [Hlen _ _ Hr Hk _ _ _ Hpi Hci _]. simpl in *.
    unfold producer_inv, consumer_inv in *; simpl in *. rewrite Hk, ?Hlen in *.
    apply (write_slot_free _ _ _ _ _ _ _ _ 0 Hrep eq_refl Hpi Hci).
    unfold front_index; simpl. by rewrite Nat.add_0_r, Nat.mod_small.
  - intros Hne. eapply wp_mono; [by eapply producer_ok|]. intros r t (l'&_&_&Hi). exact Hi.
  - intros Hne. eapply wp_mono; [by eapply consumer_ok|]. intros r t (l'&_&_&Hi). exact Hi.
  - apply Hrep.
Qed.

End theorems.

(** * Running the threads *)

Inductive move {T : Type} :=
  | CallInsert (z : T)
  | CallConsumer (c : consumer_pc) (z : T)
  | StepProducer
  | StepConsumer.
Arguments move : clear implicits.

Definition play_move `{BuildConfig} {T} (verifier : T → bool) (m : move T) (s : Threads) :
    option (option event * Threads) :=
  let '(mkThreads q p x c y) := s in
  match m, p, c with
  | CallInsert z, PIdle, _ => if verifier z then Some (None, mkThreads q PLoad z c y) else None
  | CallConsumer c' z, _, CIdle =>
    if verifier z && consumer_entry c' then Some (None, mkThreads q p x c' z) else None
  | StepProducer, _, _ =>
    match producer_next verifier p (x, q) with
    | Ok ((p', e), (x', q')) => Some (e, mkThreads q' p' x' c y)
    | Fault _ => None
    end
  | StepConsumer, _, _ =>
    match consumer_next verifier c (y, q) with
    | Ok ((c', e), (y', q')) => Some (e, mkThreads q' p x c' y')
    | Fault _ => None
    end
  | _, _, _ => None
  end.

Fixpoint play `{BuildConfig} {T} (verifier : T → bool) (ms : list (move T)) (tr : list event)
    (s : Threads) : option (list event * Threads) :=
  match ms with
  | [] => Some (tr, s)
  | m :: ms' =>
    match play_move verifier m s with
    | Some (e, s') => play verifier ms' (tr ++ option_list e) s'
    | None => None
    end
  end.

Lemma play_move_step `{BuildConfig} {T} (verifier : T → bool) m s e s' :
  play_move verifier m s = Some (e, s') → step verifier s e s'.
Proof.
  destruct s as [q p x c y]. destruct m; simpl; intros Hm.
  - destruct p; try done. destruct (verifier z) eqn:Hz; simplify_eq. by constructor.
  - destruct c; try done. destruct (verifier z) eqn:Hz, (consumer_entry c0) eqn:Hc; simplify_eq/=.
    by constructor.
  - destruct (producer_next _ _ _) as [[[p' e'] [x' q']]|] eqn:Hs; simplify_eq. by constructor.
  - destruct (consumer_next _ _ _) as [[[c' e'] [y' q']]|] eqn:Hs; simplify_eq. by constructor.
Qed.

Lemma play_exec `{BuildConfig} {T} (verifier : T → bool) ms s0 tr s tr' s' :
  exec verifier s0 tr s → play verifier ms tr s = Some (tr', s') → exec verifier s0 tr' s'.
Proof.
  revert tr s. induction ms as [|m ms IH]; simpl; intros tr s Hex Hp; simplify_eq; [done|].
  destruct (play_move verifier m s) as [[e s'']|] eqn:Hm; [|done].
  eapply IH; [|exact Hp]. econstructor; [done|]. by apply (play_move_step _ m).
Qed.

#[local] Instance queue_checked : BuildConfig := true.

(** One slot, two insertions, the second refused while the consumer has already taken the
    item and not yet given back the slot. *)
Definition overlapping : list (move nat) :=
  [CallInsert 7; StepProducer; StepProducer; CallConsumer CLoad 1; StepConsumer; StepConsumer;
   StepProducer; StepProducer; CallConsumer CLoad 2; StepProducer; StepConsumer; StepConsumer;
   CallInsert 9; StepProducer; StepConsumer; StepConsumer; StepProducer; CallInsert 9;
   StepProducer; StepProducer; StepConsumer; StepProducer].

Definition overlapping_result :=
  play (λ n, n <? 10) overlapping [] (start 1 0 0 0).

Lemma swap_queue_refines_fifo_witness :
  ∃ tr s, overlapping_result = Some (tr, s) ∧
    tr = [RemoveRefused; Inserted 7; InsertRefused; Removed 7; Inserted 9] ∧
    ∃ l, fifo_run 1 [] tr l ∧ num_elements_ (shared s) = length l ∧ omap inserted tr = omap removed tr ++ l.
Proof.
  eexists _, _. split; [vm_compute; reflexivity|]. split; [reflexivity|].
  destruct (swap_queue_refines_fifo (λ n, n <? 10) 1 0 0 0) as [_ Hr];
    [lia|reflexivity..|].
  edestruct Hr as (l&Hrun&Hnum&Hf);
    [apply (play_exec _ overlapping _ [] (start 1 0 0 0)); [constructor|vm_compute; reflexivity]|].
  exists l. split; [exact Hrun|split; [exact Hnum|]]. apply Hf.
  repeat constructor; intros [].
Defined.

(** The producer in front of the last free slot, the consumer at the first element. *)
Definition contending : list (move nat) :=
  [CallInsert 7; StepProducer; StepProducer; StepProducer; StepProducer; StepProducer;
   CallInsert 8; StepProducer; CallConsumer CLoad 2; StepConsumer].

Lemma swap_queue_safe_witness :
  ∃ tr s, play (λ n, n <? 10) contending [] (start 2 0 0 0) = Some (tr, s) ∧
    producer_slot s = Some 1 ∧ consumer_slot s = Some 0 ∧
    wp (producer_next (λ n, n <? 10) (p_pc s)) (λ r t,
      items (mkThreads t.2 r.1 t.1 (c_pc s) (c_item s)) ≡ₚ items s) (p_item s, shared s).
Proof.
  eexists _, _. split; [vm_compute; reflexivity|].
  edestruct (swap_queue_safe (λ n, n <? 10) 2 0 0 0) as (_&Hp&_&_);
    [lia|reflexivity|reflexivity|reflexivity| |].
  { apply (play_exec _ contending _ [] (start 2 0 0 0)); [constructor|vm_compute; reflexivity]. }
  split; [reflexivity|split; [reflexivity|]]. by apply Hp.
Defined.
