(* ===== verification/LinkedList.v ===== *)
(** base/containers/linked_list.h: the intrusive doubly linked list.

    Nodes are objects in memory and point to each other, and a list is a ring of nodes
    through its own node [root_].  The state is the memory: the nodes there are, by
    address.  A pointer that is null is [None]; the pointer [this] and the arguments are
    addresses.  An access to a node that is not there is a use after free. *)
From S2P Require Import Prelude.
From Stdlib Require Import Lia.
From stdpp Require Import base tactics numbers strings gmap relations list.

Open Scope nat_scope.

Record LinkNode := mkLinkNode {
  previous_ : option nat;
  next_ : option nat
}.

Abbreviation Nodes := (gmap nat LinkNode).

#[global] Instance LinkNode_eq_dec : EqDecision LinkNode.
Proof. solve_decision. Defined.

Module LinkNode.

(** ** Access to the members *)

Definition node (n : nat) : M Nodes LinkNode :=
  σ ← get;
  match σ !! n with
  | Some x => mret x
  | None => fail (UseAfterFree "LinkNode")
  end.

Definition set_next (n : nat) (p : option nat) : M Nodes unit :=
  x ← node n;
  modify <[n := mkLinkNode (previous_ x) p]>.
Definition set_previous (n : nat) (p : option nat) : M Nodes unit :=
  x ← node n;
  modify <[n := mkLinkNode p (next_ x)]>.

Definition next (n : nat) : M Nodes (option nat) := x ← node n; mret (next_ x).
Definition previous (n : nat) : M Nodes (option nat) := x ← node n; mret (previous_ x).

(** ** Life of a node *)

Definition construct (this : nat) (previous next : option nat) : M Nodes unit :=
  modify <[this := mkLinkNode previous next]>.
Definition construct_default (this : nat) : M Nodes unit := construct this None None.

(** The destructor is implicit: it does not take the node out of its list. *)
Definition destruct_ (this : nat) : M Nodes unit := _ ← node this; modify (delete this).

(** [LinkNode(LinkNode&& rhs)]: the members of the new node are not initialised before the
    body, which assigns both. *)
Definition move_construct (this rhs : nat) : M Nodes unit :=
  _ ← construct_default this;
  n ← next rhs;
  _ ← set_next this n;
  _ ← set_next rhs None;
  p ← previous rhs;
  _ ← set_previous this p;
  _ ← set_previous rhs None;
  match n with
  | Some n =>
    _ ← set_previous n (Some this);
    p ← deref "previous_" p;
    set_next p (Some this)
  | None => mret tt
  end.

(** ** Insertion and removal *)

Definition InsertBefore (this e : nat) : M Nodes unit :=
  _ ← set_next this (Some e);
  p ← previous e;
  _ ← set_previous this p;
  p ← previous e;
  p ← deref "e->previous_" p;
  _ ← set_next p (Some this);
  set_previous e (Some this).

Definition InsertAfter (this e : nat) : M Nodes unit :=
  n ← next e;
  _ ← set_next this n;
  _ ← set_previous this (Some e);
  n ← next e;
  n ← deref "e->next_" n;
  _ ← set_previous n (Some this);
  set_next e (Some this).

Definition RemoveFromList (this : nat) : M Nodes unit :=
  p ← previous this;
  p ← deref "this->previous_" p;
  n ← next this;
  _ ← set_next p n;
  n ← next this;
  n ← deref "this->next_" n;
  p ← previous this;
  _ ← set_previous n p;
  _ ← set_next this None;
  set_previous this None.

End LinkNode.

(** A list is known by the address of its [root_]. *)
Module LinkedList.

Definition construct (root : nat) : M Nodes unit := LinkNode.construct root (Some root) (Some root).
Definition Append (root e : nat) : M Nodes unit := LinkNode.InsertBefore e root.
Definition head (root : nat) : M Nodes (option nat) := LinkNode.next root.
Definition tail (root : nat) : M Nodes (option nat) := LinkNode.previous root.
Definition end_ (root : nat) : nat := root.
Definition empty (root : nat) : M Nodes bool := h ← head root; mret (bool_decide (h = Some (end_ root))).

(** The iterations of the comment at the top of the header: from [head()], or [tail()],
    to [end()].  The nodes come out in the order in which they are visited. *)
Definition iterate (step : nat → M Nodes (option nat)) (fuel root : nat) (from : option nat) :
    M Nodes (list nat) :=
  r ← while_ fuel
        (λ s, mret (bool_decide (s.1 ≠ Some (end_ root))))
        (λ s, n ← deref "node" s.1; n' ← step n; mret (n', s.2 ++ [n])) (from, []);
  mret r.2.

Definition forwards (fuel root : nat) : M Nodes (list nat) :=
  h ← head root; iterate LinkNode.next fuel root h.
Definition backwards (fuel root : nat) : M Nodes (list nat) :=
  t ← tail root; iterate LinkNode.previous fuel root t.

End LinkedList.

(** * Operations in sequence *)

Inductive list_op :=
  | NewNode (n : nat)
  | MoveNode (n rhs : nat)
  | DestroyNode (n : nat)
  | NewList (r : nat)
  | DoInsertBefore (n e : nat)
  | DoInsertAfter (n e : nat)
  | DoAppend (r n : nat)
  | DoRemove (n : nat).

Definition run_op (o : list_op) : M Nodes unit :=
  match o with
  | NewNode n => LinkNode.construct_default n
  | MoveNode n rhs => LinkNode.move_construct n rhs
  | DestroyNode n => LinkNode.destruct_ n
  | NewList r => LinkedList.construct r
  | DoInsertBefore n e => LinkNode.InsertBefore n e
  | DoInsertAfter n e => LinkNode.InsertAfter n e
  | DoAppend r n => LinkedList.Append r n
  | DoRemove n => LinkNode.RemoveFromList n
  end.

(** * What the operations mean

    The lists there are, by the address of their root, and the nodes in none of them. *)
Record Lists := mkLists {
  lists : gmap nat (list nat);
  unlinked : gset nat
}.

Definition linked_in (A : Lists) (x : nat) : Prop := ∃ r l, lists A !! r = Some l ∧ x ∈ (r :: l).
Definition fresh_in (A : Lists) (x : nat) : Prop := (x ∉ unlinked A) ∧ ¬ linked_in A x.

(** [l] between [l1] and [l2] in the list [r] becomes [l'], and the unlinked nodes [U]. *)
Definition relinked (A : Lists) (r : nat) (l1 l' l2 : list nat) (U : gset nat) : Lists :=
  mkLists (<[r := l1 ++ l' ++ l2]> (lists A)) U.

Definition first_of (r : nat) (l : list nat) : nat := match l with [] => r | x :: _ => x end.
Fixpoint last_of (r : nat) (l : list nat) : nat := match l with [] => r | x :: l' => last_of x l' end.

(** A node is inserted before the node that follows, or the root at the end, and after the
    one that precedes, or the root at the beginning. *)
Inductive lists_step (A : Lists) : list_op → Lists → Prop :=
  | step_new n : fresh_in A n →
      lists_step A (NewNode n) (mkLists (lists A) ({[n]} ∪ unlinked A))
  | step_move_unlinked n rhs : fresh_in A n → rhs ∈ unlinked A →
      lists_step A (MoveNode n rhs) (mkLists (lists A) ({[n]} ∪ unlinked A))
  | step_move n rhs r l1 l2 : fresh_in A n → lists A !! r = Some (l1 ++ [rhs] ++ l2) →
      lists_step A (MoveNode n rhs) (relinked A r l1 [n] l2 ({[rhs]} ∪ unlinked A))
  | step_destroy n : n ∈ unlinked A →
      lists_step A (DestroyNode n) (mkLists (lists A) (unlinked A ∖ {[n]}))
  | step_list r : fresh_in A r → lists_step A (NewList r) (mkLists (<[r := []]> (lists A)) (unlinked A))
  | step_before n r l1 l2 : n ∈ unlinked A → lists A !! r = Some (l1 ++ l2) →
      lists_step A (DoInsertBefore n (first_of r l2)) (relinked A r l1 [n] l2 (unlinked A ∖ {[n]}))
  | step_after n r l1 l2 : n ∈ unlinked A → lists A !! r = Some (l1 ++ l2) →
      lists_step A (DoInsertAfter n (last_of r l1)) (relinked A r l1 [n] l2 (unlinked A ∖ {[n]}))
  | step_append n r l : n ∈ unlinked A → lists A !! r = Some l →
      lists_step A (DoAppend r n) (relinked A r l [n] [] (unlinked A ∖ {[n]}))
  | step_remove n r l1 l2 : lists A !! r = Some (l1 ++ [n] ++ l2) →
      lists_step A (DoRemove n) (relinked A r l1 [] l2 ({[n]} ∪ unlinked A)).

Inductive lists_run : Lists → list list_op → Lists → Prop :=
  | lists_nil A : lists_run A [] A
  | lists_cons A o A' os A'' : lists_step A o A' → lists_run A' os A'' → lists_run A (o :: os) A''.
