(* ===== verification/LinkedListTheorems.v ===== *)
(** The intrusive list: the nodes in memory form the rings the operations on lists of
    nodes say, for any number of lists and nodes. *)
From S2P Require Import Prelude LinkedList.
From Stdlib Require Import Lia.
From stdpp Require Import base tactics numbers strings gmap sets relations list.

Open Scope nat_scope.

(** * Segments

    Seen from the fields: the successor and the predecessor of a node in memory. *)
Definition nxt (σ : Nodes) (x : nat) : option nat := σ !! x ≫= next_.
Definition prv (σ : Nodes) (x : nat) : option nat := σ !! x ≫= previous_.

Definition linked (σ : Nodes) (a b : nat) : Prop := nxt σ a = Some b ∧ prv σ b = Some a.

(** From [a] through [l]; and on to [b]. *)
Fixpoint path (σ : Nodes) (a : nat) (l : list nat) : Prop :=
  match l with [] => True | x :: l' => linked σ a x ∧ path σ x l' end.
Fixpoint segment (σ : Nodes) (a : nat) (l : list nat) (b : nat) : Prop :=
  match l with [] => linked σ a b | x :: l' => linked σ a x ∧ segment σ x l' b end.

(** From the first node of [l], if there is one, to [b]. *)
Definition rest_of (σ : Nodes) (l : list nat) (b : nat) : Prop :=
  match l with [] => True | x :: l' => segment σ x l' b end.

Lemma segment_app_path σ a l1 l b :
  segment σ a (l1 ++ l) b ↔ path σ a l1 ∧ segment σ (last_of a l1) l b.
Proof. revert a. induction l1 as [|x l1 IH]; intros a; simpl; [tauto|]. rewrite IH. tauto. Qed.

Lemma segment_app_rest σ a l l2 b :
  segment σ a (l ++ l2) b ↔ segment σ a l (first_of b l2) ∧ rest_of σ l2 b.
Proof.
  revert a. induction l as [|x l IH]; intros a; simpl.
  - destruct l2; simpl; tauto.
  - rewrite IH. tauto.
Qed.

Lemma ring_split σ r l1 l l2 :
  segment σ r (l1 ++ l ++ l2) r ↔
  path σ r l1 ∧ segment σ (last_of r l1) l (first_of r l2) ∧ rest_of σ l2 r.
Proof. by rewrite segment_app_path, segment_app_rest. Qed.

Lemma last_of_elem r l : last_of r l ∈ (r :: l).
Proof. revert r. induction l as [|x l IH]; intros r; simpl; set_solver. Qed.

Lemma first_of_elem r l : first_of r l ∈ (r :: l).
Proof. destruct l; simpl; set_solver. Qed.

Lemma last_of_app r l1 x l : last_of r (l1 ++ x :: l) = last_of x l.
Proof. revert r. induction l1 as [|y l1 IH]; intros r; simpl; [done|apply IH]. Qed.

(** A change elsewhere keeps a path and a segment. *)
Lemma path_frame σ σ' a l :
  NoDup (a :: l) →
  (∀ x, x ∈ (a :: l) → x ≠ last_of a l → nxt σ' x = nxt σ x) →
  (∀ x, x ∈ l → prv σ' x = prv σ x) → path σ a l → path σ' a l.
Proof.
  revert a. induction l as [|x l IH]; intros a Hnd Hn Hp; simpl; [done|].
  intros [[H1 H2] Hpath]. apply NoDup_cons in Hnd as [Ha Hnd]. split.
  - split; [rewrite Hn; [done|set_solver|]|rewrite Hp; [done|set_solver]].
    simpl. intros ->. apply Ha. apply last_of_elem.
  - apply IH; [done| |set_solver|done]. intros y Hy Hne. apply Hn; [set_solver|done].
Qed.

Lemma segment_frame σ σ' a l b :
  (∀ x, x ∈ (a :: l) → nxt σ' x = nxt σ x) → (∀ x, x ∈ (b :: l) → prv σ' x = prv σ x) →
  segment σ a l b → segment σ' a l b.
Proof.
  revert a. induction l as [|x l IH]; intros a Hn Hp; simpl; intros Hs.
  - destruct Hs. split; [rewrite Hn|rewrite Hp]; set_solver.
  - destruct Hs as [[H1 H2] Hs]. split; [split; [rewrite Hn|rewrite Hp]; set_solver|].
    apply IH; set_solver.
Qed.

(** What follows the last change: only the first predecessor may have changed. *)
Lemma rest_frame σ σ' l b :
  NoDup (b :: l) →
  (∀ x, x ∈ l → nxt σ' x = nxt σ x) →
  (∀ x, x ∈ (b :: l) → x ≠ first_of b l → prv σ' x = prv σ x) → rest_of σ l b → rest_of σ' l b.
Proof.
  destruct l as [|x l]; simpl; [done|]. intros Hnd Hn Hp. apply segment_frame; [done|].
  apply NoDup_cons in Hnd as [Hb [Hx _]%NoDup_cons].
  intros y Hy. apply Hp; [set_solver|]. set_solver.
Qed.

(** ** The memory of the abstract lists *)
Record lists_rep (A : Lists) (σ : Nodes) : Prop := {
  lr_ring r l : lists A !! r = Some l → segment σ r l r ∧ NoDup (r :: l);
  lr_disjoint r1 l1 r2 l2 x :
    lists A !! r1 = Some l1 → lists A !! r2 = Some l2 → x ∈ (r1 :: l1) → x ∈ (r2 :: l2) → r1 = r2;
  lr_unlinked x : x ∈ unlinked A → σ !! x = Some (mkLinkNode None None) ∧ ¬ linked_in A x
}.

(** ** Replacing a part of a list *)

Lemma replace_perm (r : nat) (l1 m l2 : list nat) : r :: l1 ++ m ++ l2 ≡ₚ m ++ r :: l1 ++ l2.
Proof. by rewrite <-Permutation_middle, !(assoc_L (++)), (Permutation_app_comm l1 m). Qed.

Lemma replace_nodup (r : nat) (l1 m m' l2 : list nat) :
  NoDup (r :: l1 ++ m ++ l2) → NoDup m' → (∀ x, x ∈ m' → x ∉ r :: l1 ++ m ++ l2) →
  NoDup (r :: l1 ++ m' ++ l2).
Proof.
  rewrite (replace_perm r l1 m), (replace_perm r l1 m').
  intros (_&_&Hnd)%NoDup_app Hnd' Hx. apply NoDup_app. split; [done|].
  split; [|done]. intros x Hm Hx'. apply (Hx x Hm). rewrite (replace_perm r l1 m).
  apply elem_of_app. by right.
Qed.

(** The part [m] of the list [r] is replaced by [m'], whose nodes were in no list. *)
Section relink.
Context (A : Lists) (σ σ' : Nodes) (r : nat) (l1 m m' l2 : list nat) (U : gset nat).
Context (Hrep : lists_rep A σ) (Hr : lists A !! r = Some (l1 ++ m ++ l2)).
Context (Hn : ∀ x, x ∉ m → x ∉ m' → x ≠ last_of r l1 → nxt σ' x = nxt σ x).
Context (Hp : ∀ x, x ∉ m → x ∉ m' → x ≠ first_of r l2 → prv σ' x = prv σ x).
Context (Hseg : segment σ' (last_of r l1) m' (first_of r l2)).
Context (Hnd' : NoDup m') (Hm' : ∀ x, x ∈ m' → ¬ linked_in A x ∧ x ∉ U).
Context (HU : ∀ x, x ∈ U → σ' !! x = Some (mkLinkNode None None) ∧ (x ∈ m ∨ ¬ linked_in A x)).

Lemma relink_linked x : x ∈ r :: l1 ++ m ++ l2 → linked_in A x.
Proof. intros Hx. by exists r, (l1 ++ m ++ l2). Qed.

Lemma relink_outside x : x ∈ r :: l1 ++ l2 → (x ∉ m) ∧ x ∉ m'.
Proof.
  intros Hx. assert (x ∈ r :: l1 ++ m ++ l2) as Hx' by (rewrite replace_perm; apply elem_of_app; by right).
  split.
  - destruct (lr_ring _ _ Hrep _ _ Hr) as [_ Hnd]. rewrite replace_perm in Hnd.
    apply NoDup_app in Hnd as (_&Hd&_). intros Hxm. by apply (Hd x).
  - intros Hxm. destruct (Hm' x Hxm) as [Hl _]. by apply Hl, relink_linked.
Qed.

Lemma relink_nodup : NoDup (r :: l1 ++ m' ++ l2).
Proof.
  destruct (lr_ring _ _ Hrep _ _ Hr) as [_ Hnd]. apply (replace_nodup _ _ m); [done..|].
  intros x Hx Hx'. destruct (Hm' x Hx) as [Hl _]. by apply Hl, relink_linked.
Qed.

Lemma relink_parts : NoDup (r :: l1) ∧ NoDup (r :: l2) ∧ ∀ x, x ∈ r :: l1 → x ∉ l2.
Proof.
  destruct (lr_ring _ _ Hrep _ _ Hr) as [_ Hnd]. rewrite replace_perm in Hnd.
  apply NoDup_app in Hnd as (_&_&Hnd). change (r :: l1 ++ l2) with ((r :: l1) ++ l2) in Hnd.
  apply NoDup_app in Hnd as (Hnd1&Hd&Hnd2). split_and!; [done| |done].
  apply NoDup_cons. split; [|done]. apply Hd, list_elem_of_here.
Qed.

Lemma relink_ring : segment σ' r (l1 ++ m' ++ l2) r.
Proof.
  destruct (lr_ring _ _ Hrep _ _ Hr) as [Hs _]. apply ring_split in Hs as (Hs1&_&Hs2).
  destruct relink_parts as (Hnd1&Hnd2&Hd). apply ring_split. split_and!; [| done |].
  - eapply path_frame; [done| | |exact Hs1].
    + intros x Hx Hne. destruct (relink_outside x); [set_solver +Hx|]. by apply Hn.
    + intros x Hx. destruct (relink_outside x); [set_solver +Hx|]. apply Hp; [done..|]. intros ->.
      pose proof (first_of_elem r l2) as [E|Hin]%elem_of_cons.
      * apply NoDup_cons in Hnd1 as [Hr1 _]. by rewrite E in Hx.
      * by apply (Hd (first_of r l2)); [apply list_elem_of_further|].
  - eapply rest_frame; [done| | |exact Hs2].
    + intros x Hx. destruct (relink_outside x); [set_solver +Hx|]. apply Hn; [done..|]. intros ->.
      by apply (Hd (last_of r l1)); [apply last_of_elem|].
    + intros x Hx Hne. destruct (relink_outside x); [set_solver +Hx|]. by apply Hp.
Qed.

Lemma relink_lookup r' l' : lists (relinked A r l1 m' l2 U) !! r' = Some l' →
  (r' = r ∧ l' = l1 ++ m' ++ l2) ∨ (r' ≠ r ∧ lists A !! r' = Some l').
Proof. unfold relinked; simpl. intros [[<- <-]|[Hne Hl]]%lookup_insert_Some; auto. Qed.

(** The other lists have no node in common with the old or the new list. *)
Lemma relink_others r' l' x : r' ≠ r → lists A !! r' = Some l' → x ∈ r' :: l' →
  (x ∉ r :: l1 ++ m ++ l2) ∧ (x ∉ m') ∧ x ∉ r :: l1 ++ m' ++ l2.
Proof.
  intros Hne Hl Hx.
  assert (x ∉ r :: l1 ++ m ++ l2) as Ho by (intros Hx'; apply Hne; by eapply (lr_disjoint _ _ Hrep)).
  assert (x ∉ m') as Hxm by (intros Hxm; destruct (Hm' x Hxm) as [[] _]; by exists r', l').
  split_and!; [done..|]. rewrite replace_perm in Ho |- *. set_solver +Ho Hxm.
Qed.

Lemma lists_rep_relink : lists_rep (relinked A r l1 m' l2 U) σ'.
Proof.
  split.
  - intros r' l' [[-> ->]|[Hne Hl]]%relink_lookup; [eauto using relink_ring, relink_nodup|].
    destruct (lr_ring _ _ Hrep _ _ Hl) as [Hs Hnd]. split; [|done].
    pose proof (last_of_elem r l1) as Ha. pose proof (first_of_elem r l2) as Hb.
    eapply segment_frame; [| |exact Hs]; intros x Hx;
      destruct (relink_others r' l' x Hne Hl Hx) as (Hx1&Hx2&_); [apply Hn|apply Hp];
      try done; set_solver +Ha Hb Hx1.
  - intros r1 k1 r2 k2 x [[-> ->]|[Hn1 Hl1]]%relink_lookup [[-> ->]|[Hn2 Hl2]]%relink_lookup Hx1 Hx2;
      [done|by destruct (relink_others r2 k2 x) as (_&_&[])|
       by destruct (relink_others r1 k1 x) as (_&_&[])|by eapply (lr_disjoint _ _ Hrep)].
  - intros x Hx. destruct (HU x Hx) as [Hσ Hor]. split; [done|].
    intros (r'&l'&[[-> ->]|[Hne Hl]]%relink_lookup&Hxl).
    + assert (x ∉ m') as Hxm by (intros Hxm; by destruct (Hm' x Hxm)).
      rewrite replace_perm in Hxl. apply elem_of_app in Hxl as [Hxl|Hxl]; [done|].
      destruct Hor as [Hm|Hnl]; [by destruct (relink_outside x Hxl)|].
      apply Hnl, relink_linked. rewrite replace_perm. apply elem_of_app. by right.
    + destruct Hor as [Hm|Hnl]; [|apply Hnl; by exists r', l'].
      destruct (relink_others r' l' x Hne Hl Hxl) as (Hx1&_). rewrite replace_perm in Hx1.
      apply Hx1, elem_of_app. by left.
Qed.

End relink.

(** * The operations on the fields *)

Definition alive (σ : Nodes) (x : nat) : Prop := is_Some (σ !! x).

Lemma nxt_alive σ x y : nxt σ x = Some y → alive σ x.
Proof. unfold nxt, alive. destruct (σ !! x); [by eexists|done]. Qed.
Lemma prv_alive σ x y : prv σ x = Some y → alive σ x.
Proof. unfold prv, alive. destruct (σ !! x); [by eexists|done]. Qed.

Lemma null_node σ x :
  σ !! x = Some (mkLinkNode None None) ↔ alive σ x ∧ nxt σ x = None ∧ prv σ x = None.
Proof.
  unfold alive, nxt, prv. split; [by intros ->|].
  destruct (σ !! x) as [[p n]|]; simpl; [by intros (_&->&->)|by intros ([]&_)].
Qed.

(** The memory [σ'] has the nodes of [σ], with these fields. *)
Definition fields (σ σ' : Nodes) (nx pv : nat → option nat) : Prop :=
  (∀ x, nxt σ' x = nx x) ∧ (∀ x, prv σ' x = pv x) ∧ (∀ x, alive σ' x ↔ alive σ x).

Lemma fields_refl σ : fields σ σ (nxt σ) (prv σ).
Proof. done. Qed.

Definition upd (f : nat → option nat) (n : nat) (p : option nat) : nat → option nat :=
  λ x, if decide (x = n) then p else f x.

Lemma wp_set_next σ σ' nx pv n p (Q : unit → Nodes → Prop) :
  fields σ σ' nx pv → alive σ n → (∀ σ'', fields σ σ'' (upd nx n p) pv → Q tt σ'') →
  wp (LinkNode.set_next n p) Q σ'.
Proof.
  intros (Hn&Hp&Ha) [y Hy]%Ha HQ. unfold LinkNode.set_next, LinkNode.node. wp_run.
  rewrite Hy. wp_run. apply HQ. unfold fields, nxt, prv, alive, upd in *.
  split_and!; intros x; destruct (decide (x = n)) as [->|Hne];
    rewrite ?lookup_insert_eq, ?lookup_insert_ne by done; try done; try apply Ha.
  - by rewrite <-Hp, Hy.
  - rewrite <-Ha, Hy. split; by eexists.
Qed.

Lemma wp_set_previous σ σ' nx pv n p (Q : unit → Nodes → Prop) :
  fields σ σ' nx pv → alive σ n → (∀ σ'', fields σ σ'' nx (upd pv n p) → Q tt σ'') →
  wp (LinkNode.set_previous n p) Q σ'.
Proof.
  intros (Hn&Hp&Ha) [y Hy]%Ha HQ. unfold LinkNode.set_previous, LinkNode.node. wp_run.
  rewrite Hy. wp_run. apply HQ. unfold fields, nxt, prv, alive, upd in *.
  split_and!; intros x; destruct (decide (x = n)) as [->|Hne];
    rewrite ?lookup_insert_eq, ?lookup_insert_ne by done; try done; try apply Ha.
  - by rewrite <-Hn, Hy.
  - rewrite <-Ha, Hy. split; by eexists.
Qed.

Lemma wp_next σ σ' nx pv n (Q : option nat → Nodes → Prop) :
  fields σ σ' nx pv → alive σ n → Q (nx n) σ' → wp (LinkNode.next n) Q σ'.
Proof.
  intros (Hn&_&Ha) [y Hy]%Ha HQ. unfold LinkNode.next, LinkNode.node. wp_run. rewrite Hy. wp_run.
  rewrite <-Hn in HQ. unfold nxt in HQ. by rewrite Hy in HQ.
Qed.

Lemma wp_previous σ σ' nx pv n (Q : option nat → Nodes → Prop) :
  fields σ σ' nx pv → alive σ n → Q (pv n) σ' → wp (LinkNode.previous n) Q σ'.
Proof.
  intros (_&Hp&Ha) [y Hy]%Ha HQ. unfold LinkNode.previous, LinkNode.node. wp_run. rewrite Hy. wp_run.
  rewrite <-Hp in HQ. unfold prv in HQ. by rewrite Hy in HQ.
Qed.

Lemma upd_eq f n p : upd f n p n = p.
Proof. unfold upd. by rewrite decide_True. Qed.
Lemma upd_ne f n p x : x ≠ n → upd f n p x = f x.
Proof. unfold upd. intros. by rewrite decide_False. Qed.

(** The value of a field that has just been read. *)
Ltac field_value :=
  rewrite ?upd_eq, ?upd_ne by done;
  repeat match goal with
    | H : nxt ?σ ?x = _ |- context [nxt ?σ ?x] => rewrite H
    | H : prv ?σ ?x = _ |- context [prv ?σ ?x] => rewrite H
    end.

(** Runs the statements of a function, with the fields known so far in a hypothesis. *)
Ltac fields_step :=
  lazymatch goal with
  | Hf : fields ?σ ?σ' _ _ |- wp (LinkNode.set_next _ _) _ ?σ' =>
    eapply (wp_set_next σ); [exact Hf|by eauto using nxt_alive, prv_alive|clear Hf σ'; intros σ' Hf]
  | Hf : fields ?σ ?σ' _ _ |- wp (LinkNode.set_previous _ _) _ ?σ' =>
    eapply (wp_set_previous σ); [exact Hf|by eauto using nxt_alive, prv_alive|clear Hf σ'; intros σ' Hf]
  | Hf : fields ?σ ?σ' _ _ |- wp (LinkNode.next _) _ ?σ' =>
    eapply (wp_next σ); [exact Hf|by eauto using nxt_alive, prv_alive|]; field_value
  | Hf : fields ?σ ?σ' _ _ |- wp (LinkNode.previous _) _ ?σ' =>
    eapply (wp_previous σ); [exact Hf|by eauto using nxt_alive, prv_alive|]; field_value
  | _ => wp_step; cbn beta
  end.

Lemma wp_InsertBefore σ n e a (Q : unit → Nodes → Prop) :
  alive σ n → linked σ a e → n ≠ e →
  (∀ σ', fields σ σ' (upd (upd (nxt σ) n (Some e)) a (Some n))
           (upd (upd (prv σ) n (Some a)) e (Some n)) → Q tt σ') →
  wp (LinkNode.InsertBefore n e) Q σ.
Proof.
  intros Hn [Hae Hea] Hne HQ. pose proof (fields_refl σ) as Hf. unfold LinkNode.InsertBefore.
  remember σ as σ0 eqn:E in Hf at 2 |- *; clear E.
  repeat fields_step. by apply HQ.
Qed.

Lemma wp_InsertAfter σ n e b (Q : unit → Nodes → Prop) :
  alive σ n → linked σ e b → n ≠ e →
  (∀ σ', fields σ σ' (upd (upd (nxt σ) n (Some b)) e (Some n))
           (upd (upd (prv σ) n (Some e)) b (Some n)) → Q tt σ') →
  wp (LinkNode.InsertAfter n e) Q σ.
Proof.
  intros Hn [Heb Hbe] Hne HQ. pose proof (fields_refl σ) as Hf. unfold LinkNode.InsertAfter.
  remember σ as σ0 eqn:E in Hf at 2 |- *; clear E.
  repeat fields_step. by apply HQ.
Qed.

Lemma wp_RemoveFromList σ n a b (Q : unit → Nodes → Prop) :
  linked σ a n → linked σ n b → n ≠ a → n ≠ b →
  (∀ σ', fields σ σ' (upd (upd (nxt σ) a (Some b)) n None)
           (upd (upd (prv σ) b (Some a)) n None) → Q tt σ') →
  wp (LinkNode.RemoveFromList n) Q σ.
Proof.
  intros [Han Hna] [Hnb Hbn] Hne1 Hne2 HQ. pose proof (fields_refl σ) as Hf.
  unfold LinkNode.RemoveFromList. remember σ as σ0 eqn:E in Hf at 2 |- *; clear E.
  repeat fields_step. by apply HQ.
Qed.

(** A new node has null fields; the others are as before. *)
Lemma construct_fields σ n :
  fields (<[n := mkLinkNode None None]> σ) (<[n := mkLinkNode None None]> σ)
    (upd (nxt σ) n None) (upd (prv σ) n None).
Proof.
  unfold fields, nxt, prv, upd. split_and!; intros x; [destruct (decide (x = n)) as [->|Hne]..|done];
    by rewrite ?lookup_insert_eq, ?lookup_insert_ne by done.
Qed.

Lemma insert_alive σ n y x : alive σ x → alive (<[n := y]> σ) x.
Proof. unfold alive. intros. destruct (decide (x = n)) as [->|]; [by rewrite lookup_insert_eq|by rewrite lookup_insert_ne]. Qed.

Lemma insert_alive_eq σ n (y : LinkNode) : alive (<[n := y]> σ) n.
Proof. unfold alive. by rewrite lookup_insert_eq. Qed.

Lemma wp_move_construct σ n rhs a b (Q : unit → Nodes → Prop) :
  linked σ a rhs → linked σ rhs b → rhs ≠ a → rhs ≠ b → n ≠ rhs → n ≠ a → n ≠ b →
  (∀ σ', fields (<[n := mkLinkNode None None]> σ) σ'
           (upd (upd (upd (upd (nxt σ) n None) n (Some b)) rhs None) a (Some n))
           (upd (upd (upd (upd (prv σ) n None) n (Some a)) rhs None) b (Some n)) → Q tt σ') →
  wp (LinkNode.move_construct n rhs) Q σ.
Proof.
  intros [Har Hra] [Hrb Hbr] Hne1 Hne2 Hn Hna Hnb HQ.
  pose proof (construct_fields σ n) as Hf. unfold LinkNode.move_construct, LinkNode.construct_default, LinkNode.construct.
  do 2 wp_step; cbn beta.
  set (σ1 := <[n := mkLinkNode None None]> σ) in *.
  assert (alive σ1 n) by apply insert_alive_eq.
  assert (alive σ1 a) by (eapply insert_alive, nxt_alive; done).
  assert (alive σ1 b) by (eapply insert_alive, prv_alive; done).
  assert (alive σ1 rhs) by (eapply insert_alive, nxt_alive; done).
  remember σ1 as σ0 eqn:E in Hf at 2 |- *; clear E.
  repeat fields_step. by apply HQ.
Qed.

Lemma wp_move_unlinked σ n rhs (Q : unit → Nodes → Prop) :
  alive σ rhs → nxt σ rhs = None → prv σ rhs = None → n ≠ rhs →
  (∀ σ', fields (<[n := mkLinkNode None None]> σ) σ'
           (upd (upd (upd (nxt σ) n None) n None) rhs None)
           (upd (upd (upd (prv σ) n None) n None) rhs None) → Q tt σ') →
  wp (LinkNode.move_construct n rhs) Q σ.
Proof.
  intros Hr Hnr Hpr Hn HQ.
  pose proof (construct_fields σ n) as Hf. unfold LinkNode.move_construct, LinkNode.construct_default, LinkNode.construct.
  do 2 wp_step; cbn beta.
  set (σ1 := <[n := mkLinkNode None None]> σ) in *.
  assert (alive σ1 n) by apply insert_alive_eq.
  assert (alive σ1 rhs) by by apply insert_alive.
  remember σ1 as σ0 eqn:E in Hf at 2 |- *; clear E.
  repeat fields_step. by apply HQ.
Qed.

(** * Every step *)

Lemma linked_in_ends A r l1 l2 : lists A !! r = Some (l1 ++ l2) →
  linked_in A (last_of r l1) ∧ linked_in A (first_of r l2).
Proof.
  intros Hr. pose proof (last_of_elem r l1) as Ha. pose proof (first_of_elem r l2) as Hb.
  split; exists r, (l1 ++ l2); (split; [done|]); set_solver +Ha Hb.
Qed.

(** An unlinked node keeps its null fields when others change. *)
Lemma unlinked_kept A σ σ' nx pv (x : nat) :
  lists_rep A σ → fields σ σ' nx pv → x ∈ unlinked A →
  nx x = nxt σ x → pv x = prv σ x → σ' !! x = Some (mkLinkNode None None).
Proof.
  intros Hrep (Hn&Hp&Ha) Hx Enx Epv. destruct (lr_unlinked _ _ Hrep x Hx) as [Hσ _].
  apply null_node in Hσ as (Hal&H1&H2). apply null_node.
  split_and!; [by apply Ha|by rewrite Hn, Enx|by rewrite Hp, Epv].
Qed.

Lemma insert_rep A σ σ' r l1 l2 n :
  lists_rep A σ → n ∈ unlinked A → lists A !! r = Some (l1 ++ l2) →
  fields σ σ' (upd (upd (nxt σ) n (Some (first_of r l2))) (last_of r l1) (Some n))
    (upd (upd (prv σ) n (Some (last_of r l1))) (first_of r l2) (Some n)) →
  lists_rep (relinked A r l1 [n] l2 (unlinked A ∖ {[n]})) σ'.
Proof.
  intros Hrep Hn Hr Hf. pose proof Hf as (Hnx&Hpv&_).
  destruct (lr_unlinked _ _ Hrep n Hn) as [_ Hfree].
  destruct (linked_in_ends A r l1 l2 Hr) as [Ha Hb].
  assert (∀ x, ¬ linked_in A x → x ≠ last_of r l1 ∧ x ≠ first_of r l2) as Hne
    by (intros x Hx; split; intros ->; done).
  destruct (Hne n Hfree) as [Hna Hnb].
  apply (lists_rep_relink A σ σ' r l1 [] [n] l2); [done|done|..].
  - intros x _ Hx Hxa. rewrite Hnx, !upd_ne by set_solver. done.
  - intros x _ Hx Hxb. rewrite Hpv, !upd_ne by set_solver. done.
  - simpl. unfold linked. rewrite !Hnx, !Hpv. split_and!; rewrite ?upd_eq, ?upd_ne, ?upd_eq by done; done.
  - apply NoDup_singleton.
  - intros x ->%list_elem_of_singleton. split; [done|set_solver].
  - intros x Hx. assert (x ∈ unlinked A ∧ x ≠ n) as [Hx' Hxn] by set_solver.
    destruct (lr_unlinked _ _ Hrep x Hx') as [_ Hxl]. destruct (Hne x Hxl). split; [|by right].
    eapply unlinked_kept; [done..| |]; by rewrite !upd_ne.
Qed.

Lemma remove_rep A σ σ' r l1 l2 n :
  lists_rep A σ → lists A !! r = Some (l1 ++ [n] ++ l2) →
  fields σ σ' (upd (upd (nxt σ) (last_of r l1) (Some (first_of r l2))) n None)
    (upd (upd (prv σ) (first_of r l2) (Some (last_of r l1))) n None) →
  n ≠ last_of r l1 → n ≠ first_of r l2 →
  lists_rep (relinked A r l1 [] l2 ({[n]} ∪ unlinked A)) σ'.
Proof.
  intros Hrep Hr Hf Hna Hnb. pose proof Hf as (Hnx&Hpv&Hal).
  destruct (linked_in_ends A r l1 ([n] ++ l2) Hr) as [Ha Hn]. simpl in Hn.
  assert (linked_in A (first_of r l2)) as Hb.
  { pose proof (first_of_elem r l2) as Hb. exists r, (l1 ++ [n] ++ l2). split; [done|set_solver +Hb]. }
  apply (lists_rep_relink A σ σ' r l1 [n] [] l2); [done|done|..].
  - intros x Hx _ Hxa. rewrite Hnx, !upd_ne by set_solver. done.
  - intros x Hx _ Hxb. rewrite Hpv, !upd_ne by set_solver. done.
  - simpl. unfold linked. rewrite Hnx, Hpv. split; by rewrite upd_ne, upd_eq by done.
  - constructor.
  - set_solver.
  - intros x [->%elem_of_singleton|Hx]%elem_of_union.
    + split; [|left; set_solver]. apply null_node. rewrite Hnx, Hpv, !upd_eq. split_and!; [|done..].
      apply Hal. destruct (lr_ring _ _ Hrep _ _ Hr) as [Hs _].
      apply ring_split in Hs as (_&[_ [Hs _]]&_). by eapply nxt_alive.
    + destruct (lr_unlinked _ _ Hrep x Hx) as [_ Hxl]. split; [|by right].
      assert (x ≠ n ∧ x ≠ last_of r l1 ∧ x ≠ first_of r l2) as (?&?&?)
        by (split_and!; intros ->; done).
      eapply unlinked_kept; [done..| |]; by rewrite !upd_ne.
Qed.

(** The neighbours of a node of a list are linked to it, and different from it. *)
Lemma neighbours A σ r l1 l2 n :
  lists_rep A σ → lists A !! r = Some (l1 ++ [n] ++ l2) →
  linked σ (last_of r l1) n ∧ linked σ n (first_of r l2) ∧ n ≠ last_of r l1 ∧ n ≠ first_of r l2.
Proof.
  intros Hrep Hr. destruct (lr_ring _ _ Hrep _ _ Hr) as [Hs Hnd].
  apply ring_split in Hs as (_&[Hs1 Hs2]&_). rewrite replace_perm in Hnd.
  apply NoDup_app in Hnd as (_&Hd&_). specialize (Hd n ltac:(set_solver)).
  pose proof (last_of_elem r l1) as Ha. pose proof (first_of_elem r l2) as Hb.
  split_and!; [done|done|..]; intros E; apply Hd; rewrite E; set_solver +Ha Hb.
Qed.

(** Memory that agrees on the nodes there are. *)
Lemma lists_rep_agree A σ σ' U :
  lists_rep A σ →
  (∀ x, linked_in A x → nxt σ' x = nxt σ x ∧ prv σ' x = prv σ x) →
  (∀ x, x ∈ U → ¬ linked_in A x ∧ σ' !! x = Some (mkLinkNode None None)) →
  lists_rep (mkLists (lists A) U) σ'.
Proof.
  intros [Hring Hdisj _] Hag HU. split; simpl; [|done|].
  - intros r l Hr. destruct (Hring r l Hr) as [Hs Hnd]. split; [|done].
    eapply segment_frame; [| |exact Hs]; intros x Hx; apply Hag; by exists r, l.
  - intros x Hx. destruct (HU x Hx). done.
Qed.

Lemma node_construct_rep A σ n :
  lists_rep A σ → fresh_in A n →
  lists_rep (mkLists (lists A) ({[n]} ∪ unlinked A)) (<[n := mkLinkNode None None]> σ).
Proof.
  intros Hrep [Hn1 Hn2]. destruct (construct_fields σ n) as (Hnx&Hpv&_).
  apply (lists_rep_agree A σ); [done|..].
  - intros x Hx. rewrite Hnx, Hpv, !upd_ne; [done|by intros ->..].
  - intros x [->%elem_of_singleton|Hx]%elem_of_union; [by rewrite lookup_insert_eq|].
    destruct (lr_unlinked _ _ Hrep x Hx). split; [done|]. rewrite lookup_insert_ne; [done|by intros ->].
Qed.

Lemma destroy_rep A σ n :
  lists_rep A σ → n ∈ unlinked A → lists_rep (mkLists (lists A) (unlinked A ∖ {[n]})) (delete n σ).
Proof.
  intros Hrep Hn. destruct (lr_unlinked _ _ Hrep n Hn) as [_ Hnl].
  apply (lists_rep_agree A σ); [done|..].
  - intros x Hx. unfold nxt, prv. by rewrite lookup_delete_ne by (by intros ->).
  - intros x [Hx Hne]%elem_of_difference. destruct (lr_unlinked _ _ Hrep x Hx). split; [done|].
    rewrite lookup_delete_ne by set_solver. done.
Qed.

Lemma new_list_rep A σ r :
  lists_rep A σ → fresh_in A r →
  lists_rep (mkLists (<[r := []]> (lists A)) (unlinked A)) (<[r := mkLinkNode (Some r) (Some r)]> σ).
Proof.
  intros [Hring Hdisj Hun] [Hr1 Hr2].
  assert (∀ x, x ≠ r → (<[r := mkLinkNode (Some r) (Some r)]> σ) !! x = σ !! x) as Hσ
    by (intros; by apply lookup_insert_ne).
  assert (∀ r' l', lists A !! r' = Some l' → r ∉ r' :: l') as Hno.
  { intros r' l' Hl Hx. apply Hr2. by exists r', l'. }
  split; simpl.
  - intros r' l' [[<- <-]|[Hne Hl]]%lookup_insert_Some.
    + split; [|apply NoDup_singleton]. simpl. unfold linked, nxt, prv. by rewrite lookup_insert_eq.
    + destruct (Hring _ _ Hl) as [Hs Hnd]. split; [|done]. specialize (Hno _ _ Hl).
      eapply segment_frame; [| |exact Hs]; intros x Hx; unfold nxt, prv; rewrite Hσ; set_solver.
  - intros r1 l1 r2 l2 x [[<- <-]|[Hne1 Hl1]]%lookup_insert_Some
      [[<- <-]|[Hne2 Hl2]]%lookup_insert_Some; intros Hx1 Hx2; [done|..|by eapply Hdisj].
    + apply list_elem_of_singleton in Hx1 as ->. by destruct (Hno _ _ Hl2).
    + apply list_elem_of_singleton in Hx2 as ->. by destruct (Hno _ _ Hl1).
  - intros x Hx. destruct (Hun x Hx) as [Hx1 Hx2]. assert (x ≠ r) by (by intros ->).
    rewrite Hσ by done. split; [done|].
    intros (r'&l'&Hl&Hxl). simpl in Hl. apply lookup_insert_Some in Hl as [[<- <-]|[Hne Hl]]; [set_solver|].
    apply Hx2. by exists r', l'.
Qed.

Lemma move_rep A σ σ' r l1 l2 n rhs :
  lists_rep A σ → fresh_in A n → lists A !! r = Some (l1 ++ [rhs] ++ l2) →
  fields (<[n := mkLinkNode None None]> σ) σ'
    (upd (upd (upd (upd (nxt σ) n None) n (Some (first_of r l2))) rhs None) (last_of r l1) (Some n))
    (upd (upd (upd (upd (prv σ) n None) n (Some (last_of r l1))) rhs None) (first_of r l2) (Some n)) →
  rhs ≠ last_of r l1 → rhs ≠ first_of r l2 → n ≠ rhs → n ≠ last_of r l1 → n ≠ first_of r l2 →
  lists_rep (relinked A r l1 [n] l2 ({[rhs]} ∪ unlinked A)) σ'.
Proof.
  intros Hrep [Hn1 Hn2] Hr Hf Hra Hrb Hnr Hna Hnb.
  pose proof Hf as (Hnx&Hpv&Hal). destruct (construct_fields σ n) as (Hnx1&Hpv1&_).
  destruct (neighbours A σ r l1 l2 rhs Hrep Hr) as ([_ Hpr]&_).
  pose proof (node_construct_rep A σ n Hrep (conj Hn1 Hn2)) as Hrep1. set (σ1 := <[n := _]> σ) in *.
  change (relinked A r l1 [n] l2 ({[rhs]} ∪ unlinked A)) with
    (relinked (mkLists (lists A) ({[n]} ∪ unlinked A)) r l1 [n] l2 ({[rhs]} ∪ unlinked A)).
  assert (rhs ∉ unlinked A) as Hru.
  { intros Hx. destruct (lr_unlinked _ _ Hrep rhs Hx) as [_ []]. exists r, (l1 ++ [rhs] ++ l2). set_solver. }
  apply (lists_rep_relink _ σ1 σ' r l1 [rhs] [n] l2); [done|done|..].
  - intros x Hx1 Hx2 Hxa. rewrite Hnx, Hnx1, !upd_ne by set_solver. done.
  - intros x Hx1 Hx2 Hxb. rewrite Hpv, Hpv1, !upd_ne by set_solver. done.
  - simpl. unfold linked. rewrite !Hnx, !Hpv.
    split_and!; rewrite ?upd_eq, ?upd_ne, ?upd_eq by done; rewrite ?upd_ne, ?upd_eq by done; done.
  - apply NoDup_singleton.
  - intros x ->%list_elem_of_singleton. split; [done|set_solver].
  - destruct (linked_in_ends A r l1 ([rhs] ++ l2) Hr) as [Ha _].
    assert (linked_in A (first_of r l2)) as Hb.
    { pose proof (first_of_elem r l2) as Hb. exists r, (l1 ++ [rhs] ++ l2). split; [done|set_solver +Hb]. }
    intros x [->%elem_of_singleton|Hx]%elem_of_union.
    + split; [|left; set_solver]. apply null_node. rewrite Hnx, Hpv.
      split_and!; [|by rewrite upd_ne, upd_eq..].
      apply Hal, insert_alive. by eapply prv_alive.
    + destruct (lr_unlinked _ _ Hrep x Hx) as [_ Hxl]. split; [|by right].
      assert (x ≠ n ∧ x ≠ rhs ∧ x ≠ last_of r l1 ∧ x ≠ first_of r l2) as (?&?&?&?)
        by (split_and!; intros ->; done).
      apply (unlinked_kept _ σ1 _ _ _ _ Hrep1 Hf); [set_solver|..];
        rewrite ?Hnx1, ?Hpv1, !upd_ne by done; done.
Qed.

Lemma insert_links A σ r l1 l2 n :
  lists_rep A σ → n ∈ unlinked A → lists A !! r = Some (l1 ++ l2) →
  alive σ n ∧ linked σ (last_of r l1) (first_of r l2) ∧ n ≠ last_of r l1 ∧ n ≠ first_of r l2.
Proof.
  intros Hrep Hn Hr. destruct (lr_unlinked _ _ Hrep n Hn) as [Hσ Hnl].
  destruct (linked_in_ends A r l1 l2 Hr) as [Ha Hb].
  destruct (lr_ring _ _ Hrep _ _ Hr) as [Hs _]. apply (ring_split σ r l1 [] l2) in Hs as (_&Hs&_).
  split_and!; [by rewrite null_node in Hσ; destruct Hσ|done|by intros ->..].
Qed.

Lemma step_rep A o A' σ :
  lists_rep A σ → lists_step A o A' → wp (run_op o) (λ _ σ', lists_rep A' σ') σ.
Proof.
  intros Hrep Hstep. destruct Hstep as [n Hn|n rhs Hn Hrhs|n rhs r l1 l2 Hn Hr|n Hn|r Hn|
    n r l1 l2 Hn Hr|n r l1 l2 Hn Hr|n r l Hn Hr|n r l1 l2 Hr]; simpl.
  - by apply node_construct_rep.
  - destruct (lr_unlinked _ _ Hrep rhs Hrhs) as [Hσ Hnl]. pose proof Hσ as (Ha&Hx&Hp)%null_node.
    destruct (construct_fields σ n) as (Hnx1&Hpv1&_). destruct (node_construct_rep A σ n Hrep Hn) as [_ _ Hun].
    assert (n ≠ rhs) by (intros ->; by destruct Hn).
    apply wp_move_unlinked; [done..|]. intros σ' (Hnx&Hpv&Hal). apply (lists_rep_agree A σ); [done|..].
    + intros x Hx'. assert (x ≠ n ∧ x ≠ rhs) as [? ?] by (split; intros ->; [by destruct Hn|done]).
      by rewrite Hnx, Hpv, !upd_ne.
    + intros x Hx'. destruct (Hun x Hx') as [(Hax&Hnn&Hpp)%null_node Hl]. split; [done|].
      apply null_node. rewrite Hnx, Hpv, Hal. rewrite Hnx1 in Hnn. rewrite Hpv1 in Hpp. unfold upd in *.
      split; [done|]. by repeat case_decide.
  - destruct (neighbours A σ r l1 l2 rhs Hrep Hr) as (H1&H2&H3&H4).
    destruct (linked_in_ends A r l1 ([rhs] ++ l2) Hr) as [Ha Hb].
    assert (linked_in A (first_of r l2)) as Hc.
    { pose proof (first_of_elem r l2) as Hc. exists r, (l1 ++ [rhs] ++ l2). split; [done|set_solver +Hc]. }
    pose proof Hn as [_ Hnl].
    assert (n ≠ rhs ∧ n ≠ last_of r l1 ∧ n ≠ first_of r l2) as (?&?&?) by (split_and!; by intros ->).
    eapply wp_move_construct; [done..|]. intros σ' Hf. by apply (move_rep A σ).
  - destruct (lr_unlinked _ _ Hrep n Hn) as [Hσ _]. unfold LinkNode.destruct_, LinkNode.node.
    repeat wp_step. rewrite Hσ. repeat wp_step. by apply destroy_rep.
  - by apply new_list_rep.
  - destruct (insert_links A σ r l1 l2 n Hrep Hn Hr) as (?&?&?&?).
    eapply wp_InsertBefore; [done..|]. intros σ' Hf. by apply (insert_rep A σ).
  - destruct (insert_links A σ r l1 l2 n Hrep Hn Hr) as (?&?&?&?).
    eapply wp_InsertAfter; [done..|]. intros σ' Hf. by apply (insert_rep A σ).
  - rewrite <-(app_nil_r l) in Hr. destruct (insert_links A σ r l [] n Hrep Hn Hr) as (?&?&?&?).
    eapply wp_InsertBefore; [done..|]. intros σ' Hf. by apply (insert_rep A σ).
  - destruct (neighbours A σ r l1 l2 n Hrep Hr) as (?&?&?&?).
    eapply wp_RemoveFromList; [done..|]. intros σ' Hf. by apply (remove_rep A σ).
Qed.

Lemma run_rep A os A' σ :
  lists_rep A σ → lists_run A os A' → wp (for_each run_op os) (λ _ σ', lists_rep A' σ') σ.
Proof.
  intros Hrep Hrun. revert σ Hrep. induction Hrun as [A|A o A1 os A' Hstep Hrun IH]; intros σ Hrep; simpl.
  - by apply wp_ret.
  - apply wp_bind. eapply wp_mono; [by eapply step_rep|]. intros [] σ' Hrep'. by apply IH.
Qed.

Lemma lists_rep_empty : lists_rep (mkLists ∅ ∅) ∅.
Proof. by split. Qed.

(** ** Iteration *)

Fixpoint visits (f : nat → option nat) (r : nat) (l : list nat) : Prop :=
  match l with [] => True | x :: l' => x ≠ r ∧ f x = Some (first_of r l') ∧ visits f r l' end.

Lemma iterate_visits step f r l fuel σ :
  (∀ x y, f x = Some y → step x σ = Ok (Some y, σ)) → visits f r l → length l ≤ fuel →
  LinkedList.iterate step fuel r (Some (first_of r l)) σ = Ok (l, σ).
Proof.
  intros Hstep Hv Hfuel. unfold LinkedList.iterate.
  assert (∀ acc, while_ fuel (λ s, mret (bool_decide (s.1 ≠ Some (LinkedList.end_ r))))
            (λ s, n ← deref "node" s.1; n' ← step n; mret (n', s.2 ++ [n]))
            (Some (first_of r l), acc) σ = Ok ((Some r, acc ++ l), σ)) as Hw.
  { revert fuel Hfuel Hv. induction l as [|x l IH]; intros fuel Hfuel Hv acc; simpl in *.
    - destruct fuel; simpl; unfold mbind, M_bind, mret, M_ret; simpl;
        rewrite bool_decide_eq_false_2 by naive_solver; by rewrite app_nil_r.
    - destruct Hv as (Hne&Hfx&Hv). destruct fuel as [|fuel]; [lia|]. simpl.
      unfold mbind, M_bind, mret, M_ret; simpl. rewrite bool_decide_eq_true_2 by naive_solver. simpl.
      unfold deref, mret, M_ret. rewrite (Hstep _ _ Hfx). simpl.
      etransitivity; [apply IH; [lia|done]|]. by rewrite <-app_assoc. }
  by rewrite (bind_run _ _ _ _ _ (Hw [])).
Qed.

Lemma visits_forwards σ a l r : NoDup (r :: l) → segment σ a l r → visits (nxt σ) r l.
Proof.
  intros Hnd. assert (r ∉ l) as Hr by (by inversion Hnd). clear Hnd. revert a.
  induction l as [|x l IH]; intros a; simpl; [done|]. intros [_ Hs]. split_and!; [set_solver| |].
  - destruct l; simpl in *; [by destruct Hs|by destruct Hs as [[? ?] _]].
  - eapply IH; [set_solver|done].
Qed.

Lemma first_of_rev r l : first_of r (rev l) = last_of r l.
Proof.
  revert r. induction l as [|x l IH]; intros r; simpl; [done|].
  destruct l as [|y l]; [done|]. rewrite <-(IH x). simpl.
  by destruct (rev l ++ [y]) eqn:E; [destruct (rev l)|].
Qed.

Lemma path_snoc σ a l x : path σ a (l ++ [x]) ↔ path σ a l ∧ linked σ (last_of a l) x.
Proof. revert a. induction l as [|y l IH]; intros a; simpl; [tauto|]. rewrite IH. tauto. Qed.

Lemma visits_backwards σ l r : NoDup (r :: l) → segment σ r l r → visits (prv σ) r (rev l).
Proof.
  intros Hnd Hs. assert (r ∉ l) as Hr by (by inversion Hnd). clear Hnd.
  rewrite <-(app_nil_r l) in Hs. apply segment_app_path in Hs as [Hpath _].
  induction l as [|x l IH] using rev_ind; [done|]. rewrite rev_app_distr. simpl.
  apply path_snoc in Hpath as [Hpath [_ Hx]]. rewrite first_of_rev.
  split_and!; [set_solver|done|]. apply IH; [done || set_solver..].
Qed.

Lemma next_run σ x y : nxt σ x = Some y → LinkNode.next x σ = Ok (Some y, σ).
Proof.
  intros Hx. apply wp_ok_eq. eapply wp_next; [apply fields_refl|exact (nxt_alive _ _ _ Hx)|by rewrite Hx].
Qed.
Lemma previous_run σ x y : prv σ x = Some y → LinkNode.previous x σ = Ok (Some y, σ).
Proof.
  intros Hx. apply wp_ok_eq. eapply wp_previous; [apply fields_refl|exact (prv_alive _ _ _ Hx)|by rewrite Hx].
Qed.

Lemma ring_ends σ r l : segment σ r l r → nxt σ r = Some (first_of r l) ∧ prv σ r = Some (last_of r l).
Proof.
  intros Hs. split.
  - destruct l; simpl in *; [by destruct Hs|by destruct Hs as [[? ?] _]].
  - rewrite <-(app_nil_r l) in Hs. apply segment_app_path in Hs as [_ [_ Hs]]. done.
Qed.

Lemma iteration A σ r l :
  lists_rep A σ → lists A !! r = Some l →
  LinkedList.forwards (length l) r σ = Ok (l, σ) ∧
  LinkedList.backwards (length l) r σ = Ok (rev l, σ).
Proof.
  intros Hrep Hr. destruct (lr_ring _ _ Hrep _ _ Hr) as [Hs Hnd]. destruct (ring_ends _ _ _ Hs) as [Hn Hp].
  unfold LinkedList.forwards, LinkedList.backwards, LinkedList.head, LinkedList.tail. split.
  - rewrite (bind_run _ _ _ _ _ (next_run _ _ _ Hn)).
    eapply iterate_visits; [apply next_run|by eapply visits_forwards|done].
  - rewrite (bind_run _ _ _ _ _ (previous_run _ _ _ Hp)), <-first_of_rev.
    eapply iterate_visits; [apply previous_run|by eapply visits_backwards|by rewrite length_rev].
Qed.

(** * Theorems *)

(** C13. The intrusive list.  From empty memory, with any number of lists and nodes, every
    sequence of constructions, moves, insertions before and after a node or at the end,
    removals and destructions returns, and afterwards each list holds the nodes the
    operations on lists of nodes say: iterating forwards visits them in order, backwards in
    the opposite order, and [empty] tells whether there is one.  Nodes in no list, and
    only those, have null pointers. *)
Theorem linked_list_refines os A :
  lists_run (mkLists ∅ ∅) os A →
  wp (for_each run_op os) (λ _ σ,
    (∀ r l, lists A !! r = Some l →
       LinkedList.forwards (length l) r σ = Ok (l, σ) ∧
       LinkedList.backwards (length l) r σ = Ok (rev l, σ) ∧
       LinkedList.empty r σ = Ok (bool_decide (l = []), σ) ∧
       ∀ n, n ∈ l → ∃ a b, LinkNode.next n σ = Ok (Some a, σ) ∧ LinkNode.previous n σ = Ok (Some b, σ)) ∧
    (∀ n, n ∈ unlinked A → LinkNode.next n σ = Ok (None, σ) ∧ LinkNode.previous n σ = Ok (None, σ))) ∅.
Proof.
  intros Hrun. eapply wp_mono; [apply (run_rep _ _ _ _ lists_rep_empty Hrun)|]. intros [] σ Hrep. split.
  - intros r l Hr. destruct (iteration A σ r l Hrep Hr) as [Hf Hb].
    destruct (lr_ring _ _ Hrep _ _ Hr) as [Hs Hnd]. destruct (ring_ends _ _ _ Hs) as [Hn _].
    split_and!; [done|done| |].
    + unfold LinkedList.empty, LinkedList.head. rewrite (bind_run _ _ _ _ _ (next_run _ _ _ Hn)).
      unfold mret, M_ret, LinkedList.end_. do 2 f_equal. apply bool_decide_ext.
      apply NoDup_cons in Hnd as [Hrl _]. destruct l as [|x l]; simpl; [done|]. set_solver.
    + intros n (l1&l2&->)%list_elem_of_split.
      destruct (neighbours A σ r l1 l2 n Hrep Hr) as ([_ H1]&[H2 _]&_).
      eexists _, _. split; [by apply next_run|by apply previous_run].
  - intros n Hn. destruct (lr_unlinked _ _ Hrep n Hn) as [Hσ _].
    unfold LinkNode.next, LinkNode.previous, LinkNode.node, mbind, M_bind, get. rewrite Hσ. done.
Qed.

(** Outside these rules: a node in no list can neither be removed nor inserted next to, and
    a node that is destroyed while in a list leaves its neighbours with a dangling
    pointer, at which an iteration ends. *)
Theorem linked_list_misuse os A σ :
  lists_run (mkLists ∅ ∅) os A → for_each run_op os ∅ = Ok (tt, σ) →
  (∀ n, n ∈ unlinked A → faults (LinkNode.RemoveFromList n) σ) ∧
  (∀ n e, n ∈ unlinked A → e ∈ unlinked A → n ≠ e →
     faults (LinkNode.InsertBefore n e) σ ∧ faults (LinkNode.InsertAfter n e) σ) ∧
  (∀ r n l, lists A !! r = Some (n :: l) →
     wp (LinkNode.destruct_ n) (λ _ σ', faults (LinkedList.forwards (length l) r) σ') σ).
Proof.
  intros Hrun Hok. pose proof (run_rep _ _ _ _ lists_rep_empty Hrun) as Hrep. unfold wp in Hrep.
  rewrite Hok in Hrep. split_and!.
  - intros n Hn. destruct (lr_unlinked _ _ Hrep n Hn) as [Hσ _].
    unfold faults, LinkNode.RemoveFromList, LinkNode.previous, LinkNode.node, mbind, M_bind, get.
    by rewrite Hσ.
  - intros n e Hn He Hne. destruct (lr_unlinked _ _ Hrep n Hn) as [Hσ _].
    destruct (lr_unlinked _ _ Hrep e He) as [Hσe _].
    unfold faults, LinkNode.InsertBefore, LinkNode.InsertAfter, LinkNode.set_next, LinkNode.set_previous,
      LinkNode.previous, LinkNode.next, LinkNode.node, mbind, M_bind, get, modify.
    split; repeat (simpl; rewrite ?lookup_insert_eq, ?lookup_insert_ne, ?Hσ, ?Hσe by done); done.
  - intros r n l Hr. destruct (neighbours A σ r [] l n Hrep Hr) as ([Hrn _]&[Hn _]&Hne&_).
    destruct (nxt_alive _ _ _ Hn) as [x Hx]. simpl in *.
    unfold LinkNode.destruct_, LinkNode.node. repeat wp_step. rewrite Hx. repeat wp_step.
    assert (LinkedList.head r (delete n σ) = Ok (Some n, delete n σ)) as Hh.
    { apply next_run. unfold nxt in *. by rewrite lookup_delete_ne. }
    unfold faults, LinkedList.forwards. rewrite (bind_run _ _ _ _ _ Hh).
    unfold LinkedList.iterate. destruct (length l); simpl; unfold mbind, M_bind, mret, M_ret; simpl;
      rewrite bool_decide_eq_true_2 by (unfold LinkedList.end_; naive_solver); [done|]. simpl.
    unfold deref, mret, M_ret, LinkNode.next, LinkNode.node, mbind, M_bind, get. by rewrite lookup_delete_eq.
Qed.

(** * Witnesses *)

#[global] Instance linked_in_dec A x : Decision (linked_in A x).
Proof.
  refine (cast_if (decide (map_Exists (λ r l, x ∈ r :: l) (lists A)))); abstract (by unfold linked_in, map_Exists in *).
Defined.
#[global] Instance fresh_in_dec A x : Decision (fresh_in A x).
Proof. unfold fresh_in. apply _. Defined.

(** A list, three nodes in it, one of them moved, one removed, one destroyed. *)
Definition list_script : list list_op :=
  [NewList 0; NewNode 1; NewNode 2; DoAppend 0 1; DoInsertBefore 2 1; NewNode 3; DoInsertAfter 3 0;
   MoveNode 4 2; DoRemove 1; DestroyNode 2].

Definition list_script_result : Lists := mkLists {[0 := [3; 4]]} {[1]}.

Ltac list_fact := first [reflexivity | by apply (bool_decide_unpack _); vm_compute].

Lemma list_script_runs : lists_run (mkLists ∅ ∅) list_script list_script_result.
Proof.
  eapply lists_cons; [apply step_list; list_fact|].
  eapply lists_cons; [apply step_new; list_fact|].
  eapply lists_cons; [apply step_new; list_fact|].
  eapply lists_cons; [apply (step_append _ 1 0 []); list_fact|].
  eapply lists_cons; [apply (step_before _ 2 0 [] [1]); list_fact|].
  eapply lists_cons; [apply step_new; list_fact|].
  eapply lists_cons; [apply (step_after _ 3 0 [] [2; 1]); list_fact|].
  eapply lists_cons; [apply (step_move _ 4 2 0 [3] [1]); list_fact|].
  eapply lists_cons; [apply (step_remove _ 1 0 [3; 4] []); list_fact|].
  eapply lists_cons; [apply step_destroy; list_fact|].
  assert (∀ A B : Lists, lists A = lists B → unlinked A = unlinked B → lists_run A [] B) as Hrefl.
  { intros [] []; simpl; intros -> ->. constructor. }
  apply Hrefl; apply (bool_decide_unpack _); vm_compute; exact I.
Qed.

Lemma linked_list_refines_witness :
  ∃ σ, for_each run_op list_script ∅ = Ok (tt, σ) ∧ LinkedList.forwards 2 0 σ = Ok ([3; 4], σ) ∧
       LinkedList.backwards 2 0 σ = Ok ([4; 3], σ).
Proof.
  destruct (wp_ok_inv _ _ _ (linked_list_refines list_script list_script_result list_script_runs))
    as ([]&σ&Hok&Hall&_).
  exists σ. split; [exact Hok|].
  destruct (Hall 0 [3; 4]) as (Hf&Hb&_); [reflexivity|]. split; [exact Hf|exact Hb].
Defined.

Lemma linked_list_misuse_witness :
  ∃ σ, for_each run_op list_script ∅ = Ok (tt, σ) ∧ faults (LinkNode.RemoveFromList 1) σ.
Proof.
  eexists. split; [vm_compute; reflexivity|].
  destruct (linked_list_misuse list_script list_script_result _ list_script_runs eq_refl) as (Hf&_).
  apply Hf. apply (bool_decide_unpack _). vm_compute. exact I.
Defined.
