(* ===== verification/NodeLists.v ===== *)
(** Containers whose elements stay where they are in memory while others come and go
    ([std::list], [std::unordered_map]): an element is a node with a number of its own, and
    an iterator is that number, or [None] for [end()].  Numbers are not used again, so that
    an iterator of an erased element leads nowhere. *)
From S2P Require Import Prelude.
From Stdlib Require Import Lia.
From stdpp Require Import base tactics numbers strings gmap list.

Open Scope nat_scope.

Abbreviation iterator := (option nat).

Section nodes.
Context {K V : Type}.
Implicit Types (l : list (nat * (K * V))) (k : K) (v : V).

Definition first_node (l : list (nat * (K * V))) : iterator := fst <$> head l.

(** The element of an iterator, and the iterators around it. *)
Fixpoint node_value (n : nat) (l : list (nat * (K * V))) : option (K * V) :=
  match l with
  | [] => None
  | (m, x) :: l' => if decide (m = n) then Some x else node_value n l'
  end.
Fixpoint node_after (n : nat) (l : list (nat * (K * V))) : option iterator :=
  match l with
  | [] => None
  | (m, x) :: l' => if decide (m = n) then Some (first_node l') else node_after n l'
  end.
Fixpoint node_before (before : iterator) (n : nat) (l : list (nat * (K * V))) : iterator :=
  match l with
  | [] => None
  | (m, x) :: l' => if decide (m = n) then before else node_before (Some m) n l'
  end.

Definition without_node (n : nat) (l : list (nat * (K * V))) : list (nat * (K * V)) :=
  filter (λ e, e.1 ≠ n) l.

Definition node_keys l : list K := (λ e, e.2.1) <$> l.
Record ordering_ok l (nn : nat) : Prop := {
  oo_nodes : NoDup l.*1;
  oo_keys : NoDup (node_keys l);
  oo_fresh : Forall (λ e, e.1 < nn) l
}.

(** ** Taking a node out *)

Lemma ordering_ok_perm l l' nn : l ≡ₚ l' → ordering_ok l nn → ordering_ok l' nn.
Proof. intros Hp [H1 H2 H3]. unfold node_keys in *. split; unfold node_keys; by rewrite <-Hp. Qed.

Lemma ordering_ok_cons n k v l nn :
  ordering_ok ((n, (k, v)) :: l) nn ↔
  ordering_ok l nn ∧ (n ∉ l.*1) ∧ (k ∉ node_keys l) ∧ n < nn.
Proof.
  split.
  - intros [H1 H2 H3]. apply NoDup_cons in H1 as [? ?], H2 as [? ?]. apply Forall_cons in H3 as [? ?]. by split.
  - intros ([H1 H2 H3]&?&?&?). split; by constructor.
Qed.

Lemma ordering_middle n k v l1 l2 nn :
  ordering_ok (l1 ++ (n, (k, v)) :: l2) nn →
  ordering_ok (l1 ++ l2) nn ∧ (n ∉ l1.*1) ∧ (n ∉ l2.*1) ∧ (k ∉ node_keys (l1 ++ l2)) ∧ n < nn.
Proof.
  intros Hok. apply (ordering_ok_perm _ ((n, (k, v)) :: l1 ++ l2)) in Hok; [|by rewrite Permutation_middle].
  apply ordering_ok_cons in Hok as (Hok&Hn&Hk&Hlt). rewrite fmap_app in Hn. set_solver.
Qed.

Lemma without_node_absent n l : n ∉ l.*1 → without_node n l = l.
Proof.
  unfold without_node. induction l as [|[m x] l IH]; intros Hn; [done|]. simpl in *.
  rewrite filter_cons, decide_True by set_solver. f_equal. apply IH. set_solver.
Qed.

Lemma without_middle n x l1 l2 : n ∉ l1.*1 → n ∉ l2.*1 → without_node n (l1 ++ (n, x) :: l2) = l1 ++ l2.
Proof.
  intros H1 H2. unfold without_node. rewrite filter_app, filter_cons, decide_False by (by intros []).
  f_equal; by apply without_node_absent.
Qed.

Lemma node_value_middle n x l1 l2 : n ∉ l1.*1 → node_value n (l1 ++ (n, x) :: l2) = Some x.
Proof.
  induction l1 as [|[m y] l1 IH]; simpl; intros Hn; [by rewrite decide_True|].
  rewrite decide_False by set_solver. apply IH. set_solver.
Qed.

Lemma node_after_middle n x l1 l2 : n ∉ l1.*1 → node_after n (l1 ++ (n, x) :: l2) = Some (first_node l2).
Proof.
  induction l1 as [|[m y] l1 IH]; simpl; intros Hn; [by rewrite decide_True|].
  rewrite decide_False by set_solver. apply IH. set_solver.
Qed.

End nodes.
