(* ===== verification/MruCache.v ===== *)
(** base/containers/mru_cache.h: the cache [MRUCacheBase] that drops the element used least
    recently.

    [ordering_] is a [std::list]: its elements stay where they are in memory while others
    are inserted, erased or moved, so an element is a node with a number of its own, and an
    iterator is that number, or [None] for [end()].  [index_] is the map of the template
    parameter ([std::map] or [std::unordered_map]), of which find, emplace, erase, clear,
    swap and size are used: a finite map from keys to iterators.  Keys are equal when the
    comparison or the hash map takes them for equal.  [next_node] numbers the nodes. *)
From S2P Require Import Prelude NodeLists.
From Stdlib Require Import Lia.
From stdpp Require Import base tactics numbers strings gmap list.

Open Scope nat_scope.

Module MRUCache.

Section cache.
Context `{BuildConfig} {K V : Type} `{Countable K}.

Record MRUCacheBase := mkMRUCacheBase {
  ordering_ : list (nat * (K * V));
  index_ : gmap K nat;
  max_size_ : nat;
  next_node : nat
}.

Abbreviation CM := (M MRUCacheBase).

Definition NO_AUTO_EVICT : nat := 0.

Definition construct (max_size : nat) : CM unit := put (mkMRUCacheBase [] ∅ max_size 0).
Definition max_size : CM nat := c ← get; mret (max_size_ c).

(** ** [std::list] *)

Definition set_ordering (l : list (nat * (K * V))) : CM unit :=
  modify (λ c, mkMRUCacheBase l (index_ c) (max_size_ c) (next_node c)).
Definition set_index (m : gmap K nat) : CM unit :=
  modify (λ c, mkMRUCacheBase (ordering_ c) m (max_size_ c) (next_node c)).

Definition deref_iterator (it : iterator) : CM (K * V) :=
  c ← get;
  match it with
  | None => fail (UndefinedBehaviour "end() dereferenced")
  | Some n =>
    match node_value n (ordering_ c) with
    | Some x => mret x
    | None => fail (UseAfterFree "element of ordering_")
    end
  end.

(** [ordering_.erase(it)] *)
Definition list_erase (it : iterator) : CM iterator :=
  _ ← deref_iterator it;
  c ← get;
  n ← deref "it" it;
  _ ← set_ordering (without_node n (ordering_ c));
  mret (default None (node_after n (ordering_ c))).

(** [ordering_.splice(ordering_.begin(), ordering_, it)] *)
Definition splice_to_front (it : iterator) : CM unit :=
  x ← deref_iterator it;
  c ← get;
  n ← deref "it" it;
  set_ordering ((n, x) :: without_node n (ordering_ c)).

(** [--it]: undefined at the first element. *)
Definition decrement (it : iterator) : CM iterator :=
  c ← get;
  let before := match it with
    | None => fst <$> last (ordering_ c)
    | Some n => node_before None n (ordering_ c)
    end in
  match before with
  | Some n => mret (Some n)
  | None => fail (UndefinedBehaviour "--begin()")
  end.

(** ** Access *)

Definition begin_ : CM iterator := c ← get; mret (first_node (ordering_ c)).
Definition end_ : CM iterator := mret None.
(** A reverse iterator is the iterator behind the element it stands for. *)
Definition rbegin : CM iterator := end_.
Definition rend : CM iterator := begin_.
Definition empty : CM bool := c ← get; mret (bool_decide (ordering_ c = [])).

Definition size : CM nat :=
  c ← get;
  _ ← dcheck (base.size (index_ c) =? length (ordering_ c)) "index_.size() == ordering_.size()";
  mret (base.size (index_ c)).

Definition Peek (key : K) : CM iterator :=
  c ← get;
  match index_ c !! key with
  | None => end_
  | Some n => mret (Some n)
  end.

Definition Get (key : K) : CM iterator :=
  c ← get;
  match index_ c !! key with
  | None => end_
  | Some n => _ ← splice_to_front (Some n); begin_
  end.

(** ** Removal *)

Definition Erase (pos : iterator) : CM iterator :=
  x ← deref_iterator pos;
  c ← get;
  _ ← set_index (delete x.1 (index_ c));
  list_erase pos.

(** [Erase(reverse_iterator)] *)
Definition Erase_reverse (pos : iterator) : CM iterator :=
  pos ← decrement pos;
  Erase pos.

(** [for (size_type i = size(); i > new_size; i--) Erase(rbegin());] *)
Definition ShrinkToSize (new_size : nat) : CM unit :=
  i ← size;
  for_each (λ _, r ← rbegin; _ ← Erase_reverse r; mret tt) (seq new_size (i - new_size)).

Definition Clear : CM unit := _ ← set_index ∅; set_ordering [].

(** ** [Put]

    The key is a reference: to an object of the caller, or to the key in an element of the
    cache, which the caller can reach through an iterator. *)
Inductive key_ref := KeyObject (k : K) | KeyOfElement (n : nat).

Definition read_key (r : key_ref) : CM K :=
  match r with
  | KeyObject k => mret k
  | KeyOfElement n => x ← deref_iterator (Some n); mret x.1
  end.

(** [ordering_.emplace_front(key, payload)] *)
Definition emplace_front (key : K) (payload : V) : CM unit :=
  modify (λ c, mkMRUCacheBase ((next_node c, (key, payload)) :: ordering_ c) (index_ c) (max_size_ c)
                 (S (next_node c))).

(** [index_.emplace(key, it)]: does nothing when the key is there. *)
Definition index_emplace (key : K) (it : iterator) : CM unit :=
  c ← get;
  n ← deref "it" it;
  set_index (match index_ c !! key with None => <[key := n]> (index_ c) | Some _ => index_ c end).

Definition Put (key : key_ref) (payload : V) : CM iterator :=
  k ← read_key key;
  c ← get;
  _ ← match index_ c !! k with
      | Some n => _ ← Erase (Some n); mret tt
      | None => if max_size_ c =? NO_AUTO_EVICT then mret tt else ShrinkToSize (max_size_ c - 1)
      end;
  k ← read_key key;
  _ ← emplace_front k payload;
  b ← begin_;
  k ← read_key key;
  _ ← index_emplace k b;
  begin_.

End cache.
Arguments MRUCacheBase K V {_ _}.

(** [Swap(other)] *)
Definition Swap {K V : Type} `{Countable K} : M (MRUCacheBase K V * MRUCacheBase K V) unit :=
  modify (λ p, (p.2, p.1)).

End MRUCache.
