(* ===== verification/MruCacheTheorems.v ===== *)
(** The MRU cache is a list of keys and payloads, last used first, without equal keys; it
    keeps the keys used last; and what goes wrong when [Put] is given a reference to a key
    of the cache itself. *)
From S2P Require Import Prelude NodeLists MruCache.
From Stdlib Require Import Lia.
From stdpp Require Import base tactics numbers strings gmap list.
Import MRUCache.

Open Scope nat_scope.

Section cache.
Context `{BuildConfig} {K V : Type} `{Countable K}.
Implicit Types (l : list (nat * (K * V))) (L : list (K * V)) (k : K) (v : V) (c : MRUCacheBase K V).

(** ** The index of an ordering *)

Definition index_of l : gmap K nat := list_to_map ((λ e, (e.2.1, e.1)) <$> l).
Definition cache l (m nn : nat) : MRUCacheBase K V := mkMRUCacheBase l (index_of l) m nn.

Lemma index_keys l : ((λ e : nat * (K * V), (e.2.1, e.1)) <$> l).*1 = node_keys l.
Proof. unfold node_keys. by rewrite <-list_fmap_compose. Qed.

Lemma index_of_permutation l l' : NoDup (node_keys l) → l ≡ₚ l' → index_of l = index_of l'.
Proof.
  intros Hnd Hl. unfold index_of. apply list_to_map_proper; [by rewrite index_keys|by rewrite Hl].
Qed.

Lemma index_of_absent l k : (k ∉ node_keys l) ↔ index_of l !! k = None.
Proof. unfold index_of. by rewrite <-not_elem_of_list_to_map, index_keys. Qed.

Lemma index_of_present l k n :
  NoDup (node_keys l) → index_of l !! k = Some n → ∃ l1 v l2, l = l1 ++ (n, (k, v)) :: l2.
Proof.
  intros Hnd Hk. unfold index_of in Hk. apply elem_of_list_to_map in Hk; [|by rewrite index_keys].
  apply list_elem_of_fmap in Hk as ([n' [k' v]]&?&Hin); simplify_eq/=.
  apply list_elem_of_split in Hin as (l1&l2&->). eauto.
Qed.

Lemma index_of_size l : NoDup (node_keys l) → base.size (index_of l) = length l.
Proof.
  induction l as [|[n [k v]] l IH]; intros Hnd; [done|]. apply NoDup_cons in Hnd as [Hk Hnd].
  change (index_of ((n, (k, v)) :: l)) with (<[k := n]> (index_of l)).
  rewrite map_size_insert_None by (by apply index_of_absent). simpl. by rewrite IH.
Qed.

Lemma index_delete n k v l1 l2 nn :
  ordering_ok (l1 ++ (n, (k, v)) :: l2) nn →
  delete k (index_of (l1 ++ (n, (k, v)) :: l2)) = index_of (l1 ++ l2).
Proof.
  intros Hok. pose proof (ordering_middle _ _ _ _ _ _ Hok) as (_&_&_&Hk&_).
  rewrite (index_of_permutation _ ((n, (k, v)) :: l1 ++ l2));
    [|apply Hok|by rewrite Permutation_middle].
  change (index_of ((n, (k, v)) :: l1 ++ l2)) with (<[k := n]> (index_of (l1 ++ l2))).
  rewrite delete_insert_id; [done|by apply index_of_absent].
Qed.

(** ** The operations on a well-formed cache *)

Lemma deref_run n x l1 l2 m nn :
  n ∉ l1.*1 → deref_iterator (Some n) (cache (l1 ++ (n, x) :: l2) m nn) = Ok (x, cache (l1 ++ (n, x) :: l2) m nn).
Proof.
  intros Hn. unfold deref_iterator, mbind, M_bind, get; simpl. by rewrite node_value_middle.
Qed.

Lemma Erase_run n k v l1 l2 m nn :
  ordering_ok (l1 ++ (n, (k, v)) :: l2) nn →
  Erase (Some n) (cache (l1 ++ (n, (k, v)) :: l2) m nn) = Ok (first_node l2, cache (l1 ++ l2) m nn).
Proof.
  intros Hok. pose proof (ordering_middle _ _ _ _ _ _ Hok) as (_&H1&H2&_).
  unfold Erase. rewrite (bind_run _ _ _ _ _ (deref_run _ _ _ _ _ _ H1)).
  unfold list_erase, deref_iterator, set_index, set_ordering, modify, deref, mbind, M_bind, get, mret, M_ret.
  simpl. rewrite node_value_middle by done. simpl. rewrite node_after_middle, without_middle by done.
  unfold cache. by rewrite (index_delete _ _ _ _ _ _ Hok).
Qed.

Lemma Erase_reverse_run n x l m nn :
  ordering_ok (l ++ [(n, x)]) nn → Erase_reverse None (cache (l ++ [(n, x)]) m nn) = Ok (None, cache l m nn).
Proof.
  intros Hok. unfold Erase_reverse, decrement.
  assert (last (l ++ [(n, x)]) = Some (n, x)) as Hl by apply last_snoc.
  unfold mbind at 1, M_bind at 1. unfold mbind at 1, M_bind at 1, get. simpl. rewrite Hl. simpl.
  destruct x as [k v]. rewrite Erase_run by done. by rewrite app_nil_r.
Qed.

Lemma size_run l m nn : ordering_ok l nn → size (cache l m nn) = Ok (length l, cache l m nn).
Proof.
  intros Hok. apply wp_ok_eq. unfold size. repeat wp_step. simpl. rewrite index_of_size by apply Hok.
  apply wp_dcheck; [by rewrite Nat.eqb_refl|]. by apply wp_ret.
Qed.

Lemma ordering_ok_take l nn i : ordering_ok l nn → ordering_ok (take i l) nn.
Proof.
  intros [H1 H2 H3]. unfold node_keys in *. split; unfold node_keys; rewrite ?fmap_take.
  - by eapply sublist_NoDup, sublist_take.
  - by eapply sublist_NoDup, sublist_take.
  - by apply Forall_take.
Qed.

Lemma ShrinkToSize_run l m nn i :
  ordering_ok l nn → ShrinkToSize i (cache l m nn) = Ok (tt, cache (take i l) m nn).
Proof.
  intros Hok. unfold ShrinkToSize. rewrite (bind_run _ _ _ _ _ (size_run _ _ _ Hok)).
  remember (length l - i) as d eqn:Hd. generalize i at 1. revert l Hok Hd.
  induction d as [|d IH]; intros l Hok Hd j; simpl.
  - by rewrite take_ge by lia.
  - destruct l as [|[n x] l _] using rev_ind; [simpl in Hd; lia|]. rewrite length_app in Hd; simpl in Hd.
    unfold rbegin, end_. unfold mbind at 1, M_bind at 1. unfold mbind at 1, M_bind at 1, mret at 1, M_ret at 1.
    rewrite (bind_run _ _ _ _ _ (Erase_reverse_run _ _ _ _ _ Hok)). unfold mret, M_ret.
    destruct x. apply ordering_middle in Hok as (Hok&_). rewrite app_nil_r in Hok.
    rewrite IH by (done || lia). by rewrite take_app_le by lia.
Qed.

Lemma index_of_middle n k v l1 l2 nn :
  ordering_ok (l1 ++ (n, (k, v)) :: l2) nn → index_of (l1 ++ (n, (k, v)) :: l2) !! k = Some n.
Proof.
  intros Hok. rewrite (index_of_permutation _ ((n, (k, v)) :: l1 ++ l2));
    [|apply Hok|by rewrite Permutation_middle].
  by apply lookup_insert_eq.
Qed.

Lemma Get_run n k v l1 l2 m nn :
  ordering_ok (l1 ++ (n, (k, v)) :: l2) nn →
  Get k (cache (l1 ++ (n, (k, v)) :: l2) m nn) = Ok (Some n, cache ((n, (k, v)) :: l1 ++ l2) m nn).
Proof.
  intros Hok. pose proof (ordering_middle _ _ _ _ _ _ Hok) as (_&H1&H2&_).
  unfold Get. unfold mbind at 1, M_bind at 1, get. simpl. rewrite (index_of_middle _ _ _ _ _ _ Hok).
  unfold splice_to_front.
  unfold mbind at 1, M_bind at 1. rewrite (bind_run _ _ _ _ _ (deref_run _ _ _ _ _ _ H1)).
  unfold set_ordering, modify, begin_, deref, mbind, M_bind, get, mret, M_ret. simpl.
  rewrite without_middle by done. unfold cache. do 3 f_equal.
  apply index_of_permutation; [apply Hok|by rewrite Permutation_middle].
Qed.

Lemma Get_absent k l m nn : k ∉ node_keys l → Get k (cache l m nn) = Ok (None, cache l m nn).
Proof.
  intros Hk. unfold Get, mbind, M_bind, get. simpl. by rewrite (proj1 (index_of_absent l k)) by done.
Qed.

Lemma Peek_run k l m nn : Peek k (cache l m nn) = Ok (index_of l !! k, cache l m nn).
Proof. unfold Peek, mbind, M_bind, get. simpl. by destruct (index_of l !! k). Qed.

Lemma Clear_run l m nn : Clear (cache l m nn) = Ok (tt, cache [] m nn).
Proof. done. Qed.

(** What is left to do of [Put] when there is room for the key. *)
Lemma Put_insert k v l m nn :
  k ∉ node_keys l →
  (_ ← emplace_front k v; b ← begin_; _ ← index_emplace k b; begin_) (cache l m nn) =
  Ok (Some nn, cache ((nn, (k, v)) :: l) m (S nn)).
Proof.
  intros Hk. unfold emplace_front, index_emplace, begin_, set_index, modify, deref, mbind, M_bind, get, mret, M_ret.
  simpl. by rewrite (proj1 (index_of_absent l k)) by done.
Qed.

Lemma Put_present n k v v' l1 l2 m nn :
  ordering_ok (l1 ++ (n, (k, v)) :: l2) nn →
  Put (KeyObject k) v' (cache (l1 ++ (n, (k, v)) :: l2) m nn) =
  Ok (Some nn, cache ((nn, (k, v')) :: l1 ++ l2) m (S nn)).
Proof.
  intros Hok. pose proof (ordering_middle _ _ _ _ _ _ Hok) as (_&_&_&Hk&_).
  unfold Put, read_key. unfold mbind at 1, M_bind at 1, mret at 1, M_ret at 1.
  unfold mbind at 1, M_bind at 1, get at 1. simpl. rewrite (index_of_middle _ _ _ _ _ _ Hok).
  unfold mbind at 1, M_bind at 1. rewrite (bind_run _ _ _ _ _ (Erase_run _ _ _ _ _ _ _ Hok)).
  by apply Put_insert.
Qed.

Lemma Put_absent k v l m nn :
  ordering_ok l nn → k ∉ node_keys l →
  Put (KeyObject k) v (cache l m nn) =
  Ok (Some nn, cache ((nn, (k, v)) :: if m =? NO_AUTO_EVICT then l else take (m - 1) l) m (S nn)).
Proof.
  intros Hok Hk. unfold Put, read_key. unfold mbind at 1, M_bind at 1, mret at 1, M_ret at 1.
  unfold mbind at 1, M_bind at 1, get at 1. simpl. rewrite (proj1 (index_of_absent l k)) by done.
  destruct (Nat.eqb_spec m NO_AUTO_EVICT) as [E|E]; [by apply Put_insert|].
  rewrite (bind_run _ _ _ _ _ (ShrinkToSize_run _ _ _ _ Hok)). apply Put_insert.
  unfold node_keys in *. rewrite fmap_take. intros Hx. apply Hk. by apply elem_of_take in Hx as (?&?%list_elem_of_lookup_2&_).
Qed.

(** ** What the operations mean

    On the list of keys and payloads, last used first. *)

Definition without_key k L : list (K * V) := filter (λ e, e.1 ≠ k) L.

Definition put_spec (m : nat) k v L : list (K * V) :=
  (k, v) :: if decide (k ∈ L.*1) then without_key k L
            else if m =? NO_AUTO_EVICT then L else take (m - 1) L.

Fixpoint find_spec k L : option V :=
  match L with [] => None | (k', v) :: L' => if decide (k' = k) then Some v else find_spec k L' end.

Definition get_spec k L : list (K * V) :=
  match find_spec k L with Some v => (k, v) :: without_key k L | None => L end.

(** The elements after the one with the key. *)
Fixpoint after_spec k L : list (K * V) :=
  match L with [] => [] | (k', v) :: L' => if decide (k' = k) then L' else after_spec k L' end.

Inductive cache_op :=
  | OpPut (k : K) (v : V) | OpGet (k : K) | OpPeek (k : K) | OpErase (k : K) | OpEraseLast
  | OpShrink (n : nat) | OpClear | OpSize.

(** The element at the iterator that is returned, if it is not [end()]; or the size. *)
Inductive cache_result := Element (x : option (K * V)) | Size (n : nat).

Definition element_at (it : iterator) : M (MRUCacheBase K V) cache_result :=
  match it with
  | None => mret (Element None)
  | Some n => x ← deref_iterator (Some n); mret (Element (Some x))
  end.

Definition cache_run (o : cache_op) : M (MRUCacheBase K V) cache_result :=
  match o with
  | OpPut k v => it ← Put (KeyObject k) v; element_at it
  | OpGet k => it ← Get k; element_at it
  | OpPeek k => it ← Peek k; element_at it
  | OpErase k =>
    it ← Peek k;
    match it with None => mret (Element None) | Some n => it ← Erase (Some n); element_at it end
  | OpEraseLast =>
    e ← empty;
    if e : bool then mret (Element None) else r ← rbegin; it ← Erase_reverse r; element_at it
  | OpShrink n => _ ← ShrinkToSize n; mret (Element None)
  | OpClear => _ ← Clear; mret (Element None)
  | OpSize => n ← size; mret (Size n)
  end.

Definition cache_spec (m : nat) (o : cache_op) L : cache_result * list (K * V) :=
  match o with
  | OpPut k v => (Element (Some (k, v)), put_spec m k v L)
  | OpGet k => (Element (pair k <$> find_spec k L), get_spec k L)
  | OpPeek k => (Element (pair k <$> find_spec k L), L)
  | OpErase k => (Element (head (after_spec k L)), without_key k L)
  | OpEraseLast => (Element None, take (length L - 1) L)
  | OpShrink n => (Element None, take n L)
  | OpClear => (Element None, [])
  | OpSize => (Size (length L), L)
  end.

(** ** The steps *)

Definition cache_rep m L c : Prop := ∃ l nn, c = cache l m nn ∧ ordering_ok l nn ∧ l.*2 = L.

Lemma node_keys_fst l : node_keys l = l.*2.*1.
Proof. unfold node_keys. by rewrite <-list_fmap_compose. Qed.

Lemma find_middle k v L1 L2 : k ∉ L1.*1 → find_spec k (L1 ++ (k, v) :: L2) = Some v.
Proof.
  induction L1 as [|[k' v'] L1 IH]; simpl; intros Hk; [by rewrite decide_True|].
  rewrite decide_False by set_solver. apply IH. set_solver.
Qed.

Lemma find_absent k L : k ∉ L.*1 → find_spec k L = None ∧ after_spec k L = [] ∧ without_key k L = L.
Proof.
  induction L as [|[k' v'] L IH]; simpl; intros Hk; [done|].
  rewrite !decide_False by set_solver. unfold without_key. rewrite filter_cons, decide_True by set_solver.
  destruct IH as (->&->&Hw); [set_solver|]. unfold without_key in Hw. by rewrite Hw.
Qed.

Lemma after_middle k v L1 L2 : k ∉ L1.*1 → after_spec k (L1 ++ (k, v) :: L2) = L2.
Proof.
  induction L1 as [|[k' v'] L1 IH]; simpl; intros Hk; [by rewrite decide_True|].
  rewrite decide_False by set_solver. apply IH. set_solver.
Qed.

Lemma without_key_middle k v L1 L2 :
  k ∉ L1.*1 → k ∉ L2.*1 → without_key k (L1 ++ (k, v) :: L2) = L1 ++ L2.
Proof.
  intros H1 H2. unfold without_key. rewrite filter_app, filter_cons, decide_False by (by intros []).
  destruct (find_absent k L1 H1) as (_&_&E1), (find_absent k L2 H2) as (_&_&E2).
  unfold without_key in *. by rewrite E1, E2.
Qed.

(** A key of the list is in the middle of the ordering, at a node of its own. *)
Lemma cache_split k l nn :
  ordering_ok l nn →
  (∃ n v l1 l2, l = l1 ++ (n, (k, v)) :: l2 ∧ (k ∉ l1.*2.*1) ∧ (k ∉ l2.*2.*1) ∧
     index_of l !! k = Some n) ∨
  ((k ∉ l.*2.*1) ∧ index_of l !! k = None).
Proof.
  intros Hok. destruct (index_of l !! k) as [n|] eqn:Hk.
  - left. destruct (index_of_present l k n (oo_keys _ _ Hok) Hk) as (l1&v&l2&->).
    destruct (ordering_middle _ _ _ _ _ _ Hok) as (_&_&_&Hnk&_).
    rewrite node_keys_fst, !fmap_app in Hnk. exists n, v, l1, l2. set_solver.
  - right. split; [|done]. rewrite <-node_keys_fst. by apply index_of_absent.
Qed.

Definition step_ok m (o : cache_op) L c : Prop :=
  ∃ c', cache_run o c = Ok ((cache_spec m o L).1, c') ∧ cache_rep m (cache_spec m o L).2 c'.

Lemma step_ok_intro m o L c r l nn :
  cache_run o c = Ok (r, cache l m nn) → ordering_ok l nn → (r, l.*2) = cache_spec m o L → step_ok m o L c.
Proof. intros Hrun Hok E. exists (cache l m nn). rewrite <-E. split; [done|]. by exists l, nn. Qed.

Lemma ordering_ok_new k v l nn :
  ordering_ok l nn → k ∉ node_keys l → ordering_ok ((nn, (k, v)) :: l) (S nn).
Proof.
  intros [H1 H2 H3] Hk. apply ordering_ok_cons. split_and!; [split; [done..|]| |done|lia].
  - eapply Forall_impl; [exact H3|]. simpl. lia.
  - intros ([? ?]&->&Hin)%list_elem_of_fmap. rewrite Forall_forall in H3. specialize (H3 _ Hin). simpl in H3. lia.
Qed.

Lemma element_at_run n x l1 l2 m nn :
  n ∉ l1.*1 → element_at (Some n) (cache (l1 ++ (n, x) :: l2) m nn) =
  Ok (Element (Some x), cache (l1 ++ (n, x) :: l2) m nn).
Proof. intros Hn. unfold element_at. by rewrite (bind_run _ _ _ _ _ (deref_run _ _ _ _ _ _ Hn)). Qed.

Lemma put_ok m k v l nn : ordering_ok l nn → step_ok m (OpPut k v) l.*2 (cache l m nn).
Proof.
  intros Hok. destruct (cache_split k l nn Hok) as [(n&v'&l1&l2&->&H1&H2&_)|[Hk Hi]].
  - pose proof (ordering_middle _ _ _ _ _ _ Hok) as (Hok'&_&_&Hk&_).
    eapply (step_ok_intro _ _ _ _ _ ((nn, (k, v)) :: l1 ++ l2) (S nn)).
    + simpl. rewrite (bind_run _ _ _ _ _ (Put_present _ _ _ _ _ _ _ _ Hok)).
      apply (element_at_run _ _ []). set_solver.
    + by apply ordering_ok_new.
    + simpl. unfold put_spec. rewrite !fmap_app. simpl.
      rewrite decide_True by set_solver. by rewrite without_key_middle.
  - assert (k ∉ node_keys l) as Hk' by by rewrite node_keys_fst.
    eapply (step_ok_intro _ _ _ _ _ ((nn, (k, v)) :: if m =? NO_AUTO_EVICT then l else take (m - 1) l) (S nn)).
    + simpl. rewrite (bind_run _ _ _ _ _ (Put_absent _ _ _ _ _ Hok Hk')).
      apply (element_at_run _ _ []). set_solver.
    + apply ordering_ok_new; [case_match; [done|by apply ordering_ok_take]|].
      case_match; [done|]. unfold node_keys in *. rewrite fmap_take. intros Hx.
      by apply elem_of_take in Hx as (?&?%list_elem_of_lookup_2&_).
    + simpl. unfold put_spec. rewrite decide_False by done. case_match; [done|]. by rewrite fmap_take.
Qed.

Lemma get_ok m k l nn : ordering_ok l nn → step_ok m (OpGet k) l.*2 (cache l m nn).
Proof.
  intros Hok. destruct (cache_split k l nn Hok) as [(n&v&l1&l2&->&H1&H2&_)|[Hk Hi]].
  - pose proof (ordering_middle _ _ _ _ _ _ Hok) as (Hok'&Hn1&Hn2&Hk&Hlt).
    eapply (step_ok_intro _ _ _ _ _ ((n, (k, v)) :: l1 ++ l2) nn).
    + simpl. rewrite (bind_run _ _ _ _ _ (Get_run _ _ _ _ _ _ _ Hok)).
      apply (element_at_run _ _ []). set_solver.
    + apply ordering_ok_cons. rewrite fmap_app. set_solver.
    + simpl. unfold get_spec. rewrite !fmap_app. simpl.
      rewrite find_middle, without_key_middle by done. done.
  - eapply (step_ok_intro _ _ _ _ _ l nn); [|done|].
    + simpl. assert (k ∉ node_keys l) as Hk' by by rewrite node_keys_fst.
      by rewrite (bind_run _ _ _ _ _ (Get_absent _ _ _ _ Hk')).
    + simpl. unfold get_spec. by destruct (find_absent k l.*2 Hk) as (->&_).
Qed.

Lemma peek_ok m k l nn : ordering_ok l nn → step_ok m (OpPeek k) l.*2 (cache l m nn).
Proof.
  intros Hok. eapply (step_ok_intro _ _ _ _ _ l nn); [|done|reflexivity]. simpl.
  rewrite (bind_run _ _ _ _ _ (Peek_run _ _ _ _)).
  destruct (cache_split k l nn Hok) as [(n&v&l1&l2&->&H1&H2&->)|[Hk ->]].
  - pose proof (ordering_middle _ _ _ _ _ _ Hok) as (_&Hn1&_). rewrite element_at_run by done.
    rewrite fmap_app. simpl. by rewrite find_middle.
  - by destruct (find_absent k l.*2 Hk) as (->&_).
Qed.

Lemma first_element l0 l m nn :
  ordering_ok (l0 ++ l) nn →
  element_at (first_node l) (cache (l0 ++ l) m nn) = Ok (Element (head l.*2), cache (l0 ++ l) m nn).
Proof.
  intros Hok. destruct l as [|[n [k v]] l]; [done|]. simpl. apply element_at_run.
  by apply ordering_middle in Hok as (_&?&_).
Qed.

Lemma erase_ok m k l nn : ordering_ok l nn → step_ok m (OpErase k) l.*2 (cache l m nn).
Proof.
  intros Hok. unfold step_ok. simpl. rewrite (bind_run _ _ _ _ _ (Peek_run _ _ _ _)).
  destruct (cache_split k l nn Hok) as [(n&v&l1&l2&->&H1&H2&->)|[Hk ->]].
  - pose proof (ordering_middle _ _ _ _ _ _ Hok) as (Hok'&_).
    rewrite (bind_run _ _ _ _ _ (Erase_run _ _ _ _ _ _ _ Hok)).
    rewrite first_element, !fmap_app by done. simpl. rewrite after_middle, without_key_middle by done.
    eexists. split; [done|]. exists (l1 ++ l2), nn. by rewrite fmap_app.
  - destruct (find_absent k l.*2 Hk) as (_&->&->). eexists. split; [done|]. by exists l, nn.
Qed.

Lemma erase_last_ok m l nn : ordering_ok l nn → step_ok m OpEraseLast l.*2 (cache l m nn).
Proof.
  intros Hok. destruct l as [|[n [k v]] l _] using rev_ind.
  { exists (cache [] m nn). split; [done|]. by exists [], nn. }
  eapply (step_ok_intro _ _ _ _ _ l nn).
  - simpl. unfold empty. unfold mbind at 1, M_bind at 1. unfold mbind at 1, M_bind at 1, get at 1, mret at 1, M_ret at 1.
    rewrite bool_decide_eq_false_2 by (simpl; by destruct l).
    unfold rbegin, end_. unfold mbind at 1, M_bind at 1, mret at 1, M_ret at 1.
    by rewrite (bind_run _ _ _ _ _ (Erase_reverse_run _ _ _ _ _ Hok)).
  - apply ordering_middle in Hok as (Hok&_). by rewrite app_nil_r in Hok.
  - simpl. rewrite fmap_app, length_app. simpl. rewrite Nat.add_sub, length_fmap.
    by rewrite <-(length_fmap snd l), take_app_length.
Qed.

Lemma cache_step m L c o : cache_rep m L c → step_ok m o L c.
Proof.
  intros (l&nn&->&Hok&<-). destruct o; eauto using put_ok, get_ok, peek_ok, erase_ok, erase_last_ok.
  - eapply (step_ok_intro _ _ _ _ _ (take n l) nn); [|by apply ordering_ok_take|by rewrite fmap_take].
    simpl. by rewrite (bind_run _ _ _ _ _ (ShrinkToSize_run _ _ _ _ Hok)).
  - eapply (step_ok_intro _ _ _ _ _ [] nn); [reflexivity|by split; constructor|done].
  - eapply (step_ok_intro _ _ _ _ _ l nn); [|done|simpl; by rewrite length_fmap].
    simpl. by rewrite (bind_run _ _ _ _ _ (size_run _ _ _ Hok)).
Qed.

(** ** Sequences of operations *)

Fixpoint cache_runs (os : list cache_op) : M (MRUCacheBase K V) (list cache_result) :=
  match os with
  | [] => mret []
  | o :: os' => r ← cache_run o; rs ← cache_runs os'; mret (r :: rs)
  end.

Fixpoint cache_specs m (os : list cache_op) L : list cache_result * list (K * V) :=
  match os with
  | [] => ([], L)
  | o :: os' =>
    let r := cache_spec m o L in let rs := cache_specs m os' r.2 in (r.1 :: rs.1, rs.2)
  end.

Lemma cache_runs_ok m os L c :
  cache_rep m L c →
  ∃ c', cache_runs os c = Ok ((cache_specs m os L).1, c') ∧ cache_rep m (cache_specs m os L).2 c'.
Proof.
  revert L c. induction os as [|o os IH]; intros L c Hrep; simpl; [by exists c|].
  destruct (cache_step m L c o Hrep) as (c1&Hrun&Hrep1). destruct (IH _ _ Hrep1) as (c2&Hrun2&Hrep2).
  exists c2. rewrite (bind_run _ _ _ _ _ Hrun), (bind_run _ _ _ _ _ Hrun2). done.
Qed.

Lemma cache_construct_rep m c0 : ∃ c, construct m c0 = Ok (tt, c) ∧ cache_rep m [] c.
Proof. eexists. split; [done|]. exists [], 0. split; [done|]. split; [|done]. split; constructor. Qed.

(** The cache does not grow beyond its size. *)
Lemma without_key_length k L : length (without_key k L) ≤ length L.
Proof. apply length_filter. Qed.

Lemma without_key_shorter k L : k ∈ L.*1 → length (without_key k L) < length L.
Proof.
  intros ([? v]&->&Hin)%list_elem_of_fmap. eapply length_filter_lt; [exact Hin|by intros []].
Qed.

Lemma get_spec_length k L : length (get_spec k L) ≤ length L.
Proof.
  unfold get_spec. destruct (find_spec k L) eqn:Hf; [|done]. simpl.
  assert (k ∈ L.*1) as Hk; [|by apply without_key_shorter in Hk].
  destruct (decide (k ∈ L.*1)) as [|Hn]; [done|]. destruct (find_absent k L Hn) as (?&_). congruence.
Qed.

Lemma cache_bound m o L : m ≠ NO_AUTO_EVICT → length L ≤ m → length (cache_spec m o L).2 ≤ m.
Proof.
  intros Hm HL. destruct o; simpl; rewrite ?length_take; try (unfold NO_AUTO_EVICT in *; lia).
  - unfold put_spec. simpl. destruct (decide (k ∈ L.*1)) as [Hk|Hk].
    + apply without_key_shorter in Hk. lia.
    + destruct (Nat.eqb_spec m NO_AUTO_EVICT); [done|]. rewrite length_take. unfold NO_AUTO_EVICT in *. lia.
  - pose proof (get_spec_length k L). lia.
  - pose proof (without_key_length k L). lia.
Qed.

Lemma cache_specs_bound m os L :
  m ≠ NO_AUTO_EVICT → length L ≤ m → length (cache_specs m os L).2 ≤ m.
Proof.
  intros Hm. revert L. induction os as [|o os IH]; intros L HL; simpl; [done|].
  by apply IH, cache_bound.
Qed.

(** ** The keys used last *)

(** The keys of a history, last use first, each once. *)
Fixpoint recent (h : list K) : list K :=
  match h with [] => [] | k :: h' => k :: filter (λ k', k' ≠ k) (recent h') end.

(** The keys an operation has used: those [Put] has stored and [Get] has found. *)
Definition used (e : cache_op * cache_result) : option K :=
  match e with
  | (OpPut _ _, Element (Some x)) | (OpGet _, Element (Some x)) => Some x.1
  | _ => None
  end.

Definition keeps_elements (o : cache_op) : Prop :=
  match o with OpPut _ _ | OpGet _ | OpPeek _ | OpSize => True | _ => False end.

Definition limit m (R : list K) : list K := if m =? NO_AUTO_EVICT then R else take m R.

Lemma recent_nodup h : NoDup (recent h).
Proof.
  induction h as [|k h IH]; simpl; [constructor|]. apply NoDup_cons. split.
  - rewrite list_elem_of_filter. by intros [].
  - by apply NoDup_filter.
Qed.

Lemma filter_ne_absent k (R : list K) : k ∉ R → filter (λ k', k' ≠ k) R = R.
Proof.
  induction R as [|x R IH]; intros Hk; [done|]. rewrite filter_cons, decide_True by set_solver.
  f_equal. apply IH. set_solver.
Qed.

Lemma filter_take_present k (R : list K) m :
  NoDup R → k ∈ take m R → filter (λ k', k' ≠ k) (take m R) = take (m - 1) (filter (λ k', k' ≠ k) R).
Proof.
  revert m. induction R as [|x R IH]; intros [|m] Hnd Hk; simpl in *; try (by apply not_elem_of_nil in Hk).
  apply NoDup_cons in Hnd as [Hx Hnd]. rewrite !filter_cons, Nat.sub_0_r.
  destruct (decide (x = k)) as [->|Hne].
  - rewrite !decide_False by (by intros []). rewrite !filter_ne_absent; [done|done|].
    intros Hin. by apply elem_of_take in Hin as (?&?%list_elem_of_lookup_2&_).
  - rewrite !decide_True by done. assert (k ∈ take m R) as Hk' by set_solver.
    rewrite IH by done. destruct m as [|m]; [by apply not_elem_of_nil in Hk'|].
    simpl. by rewrite Nat.sub_0_r.
Qed.

Lemma take_filter_absent k (R : list K) m :
  k ∉ take m R → take (m - 1) R = take (m - 1) (filter (λ k', k' ≠ k) R).
Proof.
  revert m. induction R as [|x R IH]; intros [|m] Hk; simpl in *; try done.
  rewrite Nat.sub_0_r, filter_cons, decide_True by set_solver. destruct m as [|m]; [done|]. simpl. f_equal.
  specialize (IH (S m)). simpl in IH. rewrite Nat.sub_0_r in IH. apply IH. set_solver.
Qed.

Lemma without_key_keys k L : (without_key k L).*1 = filter (λ k', k' ≠ k) L.*1.
Proof.
  unfold without_key. induction L as [|[k' v] L IH]; [done|]. cbn [fmap list_fmap fst].
  rewrite !filter_cons. cbn [fst]. case_decide; [|exact IH]. rewrite !fmap_cons. f_equal. exact IH.
Qed.

(** Using a key puts it in front. *)
Lemma limit_use m k h :
  limit m (recent (k :: h)) =
  k :: if decide (k ∈ limit m (recent h)) then filter (λ k', k' ≠ k) (limit m (recent h))
       else if m =? NO_AUTO_EVICT then limit m (recent h) else take (m - 1) (limit m (recent h)).
Proof.
  unfold limit. simpl. destruct (Nat.eqb_spec m NO_AUTO_EVICT) as [E|E].
  - f_equal. case_decide as Hk; [done|]. by apply filter_ne_absent.
  - unfold NO_AUTO_EVICT in E. destruct m as [|m]; [done|]. simpl. rewrite Nat.sub_0_r. f_equal.
    case_decide as Hk.
    + rewrite filter_take_present by (done || apply recent_nodup). simpl. by rewrite Nat.sub_0_r.
    + pose proof (take_filter_absent k (recent h) (S m) Hk) as Ht. simpl in Ht. rewrite Nat.sub_0_r in Ht.
      rewrite <-Ht, take_take. f_equal. lia.
Qed.

Lemma find_present k L : k ∈ L.*1 → ∃ v, find_spec k L = Some v.
Proof.
  induction L as [|[k' v] L IH]; simpl; intros Hk; [by apply not_elem_of_nil in Hk|].
  destruct (decide (k' = k)); [by eexists|]. apply IH. set_solver.
Qed.

Lemma keys_step m o L h :
  keeps_elements o → L.*1 = limit m (recent h) →
  (cache_spec m o L).2.*1 = limit m (recent (option_list (used (o, (cache_spec m o L).1)) ++ h)).
Proof.
  intros Ho HL. destruct o as [k v|k|k| | | | |]; try done; simpl.
  - etransitivity; [|symmetry; apply (limit_use m k h)]. rewrite <-HL. simpl. f_equal. case_decide.
    + apply without_key_keys.
    + case_match; [done|]. apply fmap_take.
  - unfold get_spec. destruct (decide (k ∈ L.*1)) as [Hk|Hk].
    + destruct (find_present k L Hk) as [v ->]. etransitivity; [|symmetry; apply (limit_use m k h)].
      rewrite <-HL, decide_True by done. simpl. f_equal. apply without_key_keys.
    + destruct (find_absent k L Hk) as (->&_). simpl. done.
Qed.

Lemma keys_steps m os L h :
  Forall keeps_elements os → L.*1 = limit m (recent h) →
  (cache_specs m os L).2.*1 =
  limit m (recent (rev (omap used (zip os (cache_specs m os L).1)) ++ h)).
Proof.
  revert L h. induction os as [|o os IH]; intros L h Hf HL; [done|]. apply Forall_cons in Hf as [Ho Hf].
  pose proof (keys_step m o L h Ho HL) as Hk. cbn [cache_specs snd fst zip zip_with].
  rewrite (IH _ _ Hf Hk). do 2 f_equal. cbn [omap list_omap].
  destruct (used (o, (cache_spec m o L).1)) as [k|]; simpl; [|done]. by rewrite <-app_assoc.
Qed.

(** * Theorems *)

(** C16. The MRU cache.  Every sequence of operations on a new cache returns, with the
    answers of the list of keys and payloads, last used first, on which [Put] and [Get] put
    an element in front; no key is there twice, and unless eviction is turned off there are
    never more than [max_size] elements. *)
Theorem mru_cache_refines m os c0 :
  wp (_ ← construct m; cache_runs os) (λ rs c,
    rs = (cache_specs m os []).1 ∧ (ordering_ c).*2 = (cache_specs m os []).2 ∧
    NoDup (ordering_ c).*2.*1 ∧
    (m ≠ NO_AUTO_EVICT → length (ordering_ c) ≤ m)) c0.
Proof.
  destruct (cache_construct_rep m c0) as (c&Hc&Hrep).
  destruct (cache_runs_ok m os [] c Hrep) as (c'&Hrun&l&nn&->&Hok&HL).
  unfold wp. rewrite (bind_run _ _ _ _ _ Hc), Hrun. simpl. rewrite HL. split_and!; [done|done| |].
  - rewrite <-HL, <-node_keys_fst. apply Hok.
  - intros Hm. rewrite <-(length_fmap snd l), HL. apply cache_specs_bound; [done|simpl; lia].
Qed.

(** The cache holds what was used last: after any sequence of [Put], [Get], [Peek] and
    [size], the keys in it are the [max_size] keys most recently stored by [Put] or found
    by [Get], in the order of their last use; all of them when eviction is turned off. *)
Theorem mru_cache_keeps_recent m os c0 :
  Forall keeps_elements os →
  wp (_ ← construct m; cache_runs os) (λ rs c,
    (ordering_ c).*2.*1 = limit m (recent (rev (omap used (zip os rs))))) c0.
Proof.
  intros Hf. destruct (cache_construct_rep m c0) as (c&Hc&Hrep).
  destruct (cache_runs_ok m os [] c Hrep) as (c'&Hrun&l&nn&->&_&HL).
  unfold wp. rewrite (bind_run _ _ _ _ _ Hc), Hrun. simpl. rewrite HL.
  rewrite (keys_steps m os [] []), app_nil_r; [done|done|].
  unfold limit. by destruct (m =? _), m.
Qed.

(** [Put] with a reference to the key of an element of the cache: the element is erased
    first, and with it the key, which is then read again. *)
Theorem mru_cache_put_own_key m os c0 v :
  wp (_ ← construct m; cache_runs os) (λ _ c,
    ∀ e, e ∈ ordering_ c → faults (Put (KeyOfElement e.1) v) c) c0.
Proof.
  destruct (cache_construct_rep m c0) as (c&Hc&Hrep).
  destruct (cache_runs_ok m os [] c Hrep) as (c'&Hrun&l&nn&->&Hok&_).
  unfold wp. rewrite (bind_run _ _ _ _ _ Hc), Hrun. simpl.
  intros [n [k v']] (l1&l2&->)%list_elem_of_split. simpl.
  pose proof (ordering_middle _ _ _ _ _ _ Hok) as (_&H1&H2&_).
  unfold faults, Put, read_key.
  unfold mbind at 1, M_bind at 1. rewrite (bind_run _ _ _ _ _ (deref_run _ _ _ _ _ _ H1)). simpl.
  unfold mbind at 1, M_bind at 1, get at 1. simpl. rewrite (index_of_middle _ _ _ _ _ _ Hok).
  unfold mbind at 1, M_bind at 1. rewrite (bind_run _ _ _ _ _ (Erase_run _ _ _ _ _ _ _ Hok)). simpl.
  unfold deref_iterator, mbind, M_bind, get. simpl.
  assert (node_value n (l1 ++ l2) = None) as ->; [|done].
  clear -H1 H2. induction l1 as [|[a x] l1 IH]; simpl in *.
  - induction l2 as [|[a x] l2 IH]; simpl in *; [done|]. rewrite decide_False by set_solver. apply IH. set_solver.
  - rewrite decide_False by set_solver. apply IH. set_solver.
Qed.

End cache.

(** * Witness *)

#[local] Instance cache_checked : BuildConfig := true.

(** Size two: the third key pushes out the one used least recently. *)
Definition cache_script : list (cache_op (K := nat) (V := nat)) :=
  [OpPut 1 10; OpPut 2 20; OpGet 1; OpPut 3 30; OpGet 2; OpPeek 1; OpSize].

Lemma mru_cache_keeps_recent_witness :
  ∃ c, (_ ← construct 2; cache_runs cache_script) (mkMRUCacheBase [] ∅ 0 0) =
         Ok ([Element (Some (1, 10)); Element (Some (2, 20)); Element (Some (1, 10));
              Element (Some (3, 30)); Element None; Element (Some (1, 10)); Size 2], c) ∧
       (ordering_ c).*2.*1 = [3; 1].
Proof.
  pose proof (mru_cache_keeps_recent 2 cache_script (mkMRUCacheBase [] ∅ 0 0) ltac:(by repeat constructor)) as Hw.
  apply wp_ok_inv in Hw as (rs&c&Hrun&Hk). vm_compute in Hrun. injection Hrun as <- <-.
  eexists. split; [vm_compute; reflexivity|]. exact Hk.
Defined.
