(* ===== verification/RingBuffer.v ===== *)
(** base/containers/ring_buffer.h: the last [kSize] values that were saved.

    The array is not initialised: an element that was never written is [None].  The counter
    and the indices are [size_t], with the wrap-around written out.  An iterator is a value
    of its own that refers to the buffer it reads. *)
From S2P Require Import Prelude.
From Stdlib Require Import ZArith Lia.
From stdpp Require Import base tactics numbers strings list.

Open Scope Z_scope.

Module RingBuffer.

Record RingBuffer (T : Type) := mkRingBuffer {
  buffer_ : list (option T);
  current_index_ : Z
}.
Arguments mkRingBuffer {T} _ _.
Arguments buffer_ {T} _.
Arguments current_index_ {T} _.

Record Iterator := mkIterator {
  index_ : Z;
  out_of_range_ : bool
}.

Section operations.
Context {T : Type} (kSize : Z).
Abbreviation RM := (M (RingBuffer T)).

Definition construct : RM unit := put (mkRingBuffer (replicate (Z.to_nat kSize) None) 0).

Definition BufferSize : Z := kSize.
Definition CurrentIndex : RM Z := b ← get; mret (current_index_ b).

Definition BufferIndex (n : Z) : RM Z :=
  b ← get;
  if kSize =? 0 then fail (UndefinedBehaviour "division by zero")
  else mret (wrap_u 64 (current_index_ b + n) mod kSize).

Definition IsFilledIndexByBufferIndex (buffer_index : Z) : RM bool :=
  b ← get; mret (buffer_index <? current_index_ b).

Definition IsFilledIndex (n : Z) : RM bool :=
  i ← BufferIndex n;
  IsFilledIndexByBufferIndex i.

(** [buffer_[i]], read; a read outside the array or of an element without a value is
    undefined. *)
Definition element (i : Z) : RM T :=
  b ← get;
  match buffer_ b !! Z.to_nat i with
  | Some (Some x) => mret x
  | _ => fail (UndefinedBehaviour "buffer_[i]")
  end.

Definition set_element (i : Z) (x : T) : RM unit :=
  b ← get;
  if (Z.to_nat i <? length (buffer_ b))%nat
  then put (mkRingBuffer (<[Z.to_nat i := Some x]> (buffer_ b)) (current_index_ b))
  else fail (UndefinedBehaviour "buffer_[i]").

Definition ReadBuffer (n : Z) : RM T :=
  buffer_index ← BufferIndex n;
  filled ← IsFilledIndexByBufferIndex buffer_index;
  _ ← check filled "IsFilledIndexByBufferIndex(buffer_index)";
  element buffer_index.

(** [*MutableReadBuffer(n) = x] *)
Definition MutableReadBuffer_assign (n : Z) (x : T) : RM unit :=
  buffer_index ← BufferIndex n;
  filled ← IsFilledIndexByBufferIndex buffer_index;
  _ ← check filled "IsFilledIndexByBufferIndex(buffer_index)";
  set_element buffer_index x.

Definition SaveToBuffer (value : T) : RM unit :=
  i ← BufferIndex 0;
  _ ← set_element i value;
  modify (λ b, mkRingBuffer (buffer_ b) (wrap_u 64 (current_index_ b + 1))).

Definition Clear : RM unit := modify (λ b, mkRingBuffer (buffer_ b) 0).

(** ** Iterators *)

Definition Begin : RM Iterator :=
  b ← get;
  mret (if current_index_ b <? kSize then mkIterator (kSize - current_index_ b) false
        else mkIterator 0 false).

Definition End : RM Iterator := mret (mkIterator (wrap_u 64 (kSize - 1)) false).

(** [operator*] and [operator->] *)
Definition iterator_deref (it : Iterator) : RM T := ReadBuffer (index_ it).

(** [operator++] *)
Definition iterator_inc (it : Iterator) : Iterator :=
  let i := wrap_u 64 (index_ it + 1) in
  mkIterator i (if i =? kSize then true else out_of_range_ it).

(** [operator--] *)
Definition iterator_dec (it : Iterator) : Iterator :=
  mkIterator (wrap_u 64 (index_ it - 1)) (if index_ it =? 0 then true else out_of_range_ it).

(** [operator bool] *)
Definition iterator_valid (it : Iterator) : RM bool :=
  if out_of_range_ it then mret false else IsFilledIndex (index_ it).

(** [for (it = ...; it; ...)], collecting the values. *)
Definition iterate (step : Iterator → Iterator) (it : Iterator) : RM (list T) :=
  r ← while_ (Z.to_nat kSize)
        (λ s, iterator_valid s.1)
        (λ s, x ← iterator_deref s.1; mret (step s.1, s.2 ++ [x])) (it, []);
  mret r.2.

Definition oldest_to_newest : RM (list T) := it ← Begin; iterate iterator_inc it.
Definition newest_to_oldest : RM (list T) := it ← End; iterate iterator_dec it.

End operations.

End RingBuffer.

Import RingBuffer.

(** * The values saved

    The buffer stands for all the values saved since the last [Clear]; the last [kSize] of
    them can be read. *)
Section theorems.
Context {T : Type} (kSize : Z) (Hsize : 0 < kSize < 2 ^ 63).
Implicit Types (h : list T) (b : RingBuffer T).

Record ring_rep h b : Prop := {
  rr_length : length (buffer_ b) = Z.to_nat kSize;
  rr_index : current_index_ b = Z.of_nat (length h);
  rr_elements i x : h !! i = Some x → Z.of_nat (length h) - kSize ≤ Z.of_nat i →
    buffer_ b !! Z.to_nat (Z.of_nat i mod kSize) = Some (Some x)
}.

(** The last [kSize] values, oldest first. *)
Definition window h : list T := drop (length h - Z.to_nat kSize) h.

Lemma BufferIndex_run h b n :
  ring_rep h b → 0 ≤ n → Z.of_nat (length h) + n < 2 ^ 64 →
  BufferIndex kSize n b = Ok ((Z.of_nat (length h) + n) mod kSize, b).
Proof.
  intros Hrep Hn Hw. unfold BufferIndex, mbind, M_bind, get. simpl.
  destruct (Z.eqb_spec kSize 0); [lia|]. rewrite (rr_index _ _ Hrep), wrap_u_id; [done|].
  unfold in_u. lia.
Qed.

(** The slot [n] places after the counter holds a value of the history, or none. *)
Lemma slot_filled h n : 0 ≤ n < kSize →
  ((Z.of_nat (length h) + n) mod kSize <? Z.of_nat (length h)) =
  (kSize <=? Z.of_nat (length h) + n).
Proof.
  intros Hn. set (c := Z.of_nat (length h)). destruct (Z.leb_spec kSize (c + n)).
  - apply Z.ltb_lt. pose proof (Z.mod_pos_bound (c + n) kSize ltac:(lia)).
    destruct (Z_lt_le_dec c kSize) as [Hc|Hc]; [|lia].
    replace ((c + n) mod kSize) with (c + n - kSize); [lia|].
    apply (Z.mod_unique_pos _ _ 1); lia.
  - apply Z.ltb_ge. rewrite Z.mod_small by lia. lia.
Qed.

Lemma IsFilledIndex_run h b n :
  ring_rep h b → 0 ≤ n < kSize → Z.of_nat (length h) + n < 2 ^ 64 →
  IsFilledIndex kSize n b = Ok (kSize <=? Z.of_nat (length h) + n, b).
Proof.
  intros Hrep Hn Hw. unfold IsFilledIndex.
  rewrite (bind_run _ _ _ _ _ (BufferIndex_run h b n Hrep (proj1 Hn) Hw)).
  unfold IsFilledIndexByBufferIndex, mbind, M_bind, get, mret, M_ret. rewrite (rr_index _ _ Hrep).
  by rewrite slot_filled.
Qed.

Lemma window_lookup h n : 0 ≤ n < kSize → kSize ≤ Z.of_nat (length h) + n →
  h !! Z.to_nat (Z.of_nat (length h) + n - kSize) =
  window h !! Z.to_nat (n - (kSize - Z.of_nat (length (window h)))).
Proof.
  intros Hn Hc. unfold window. rewrite lookup_drop, length_drop. f_equal. lia.
Qed.

Lemma ReadBuffer_run h b n :
  ring_rep h b → 0 ≤ n < kSize → Z.of_nat (length h) + n < 2 ^ 64 →
  ReadBuffer kSize n b =
  match window h !! Z.to_nat (n - (kSize - Z.of_nat (length (window h)))) with
  | Some x => if kSize <=? Z.of_nat (length h) + n then Ok (x, b)
              else Fault (CheckFailed "IsFilledIndexByBufferIndex(buffer_index)")
  | None => Fault (CheckFailed "IsFilledIndexByBufferIndex(buffer_index)")
  end.
Proof.
  intros Hrep Hn Hw. unfold ReadBuffer.
  rewrite (bind_run _ _ _ _ _ (BufferIndex_run h b n Hrep (proj1 Hn) Hw)).
  unfold IsFilledIndexByBufferIndex, check, element, mbind, M_bind, get, mret, M_ret, fail.
  rewrite (rr_index _ _ Hrep), slot_filled by done.
  destruct (Z.leb_spec kSize (Z.of_nat (length h) + n)) as [Hc|Hc]; [|by case_match].
  rewrite <-window_lookup by done.
  destruct (lookup_lt_is_Some_2 h (Z.to_nat (Z.of_nat (length h) + n - kSize))) as [x Hx]; [lia|].
  rewrite Hx. pose proof (rr_elements _ _ Hrep _ _ Hx ltac:(lia)) as He.
  replace ((Z.of_nat (length h) + n) mod kSize) with
    (Z.of_nat (Z.to_nat (Z.of_nat (length h) + n - kSize)) mod kSize); [by rewrite He|].
  rewrite Z2Nat.id by lia.
  replace (Z.of_nat (length h) + n - kSize) with (Z.of_nat (length h) + n + (-1) * kSize) by lia.
  by rewrite Z_mod_plus_full.
Qed.

(** ** Changes *)

Lemma ring_construct_rep b : ∃ b', construct kSize b = Ok (tt, b') ∧ ring_rep [] b'.
Proof. eexists. split; [done|]. split; simpl; [by rewrite length_replicate|done|done]. Qed.

Lemma Clear_rep h b : ring_rep h b → ∃ b', Clear b = Ok (tt, b') ∧ ring_rep [] b'.
Proof. intros Hrep. eexists. split; [done|]. split; simpl; [apply Hrep|done|done]. Qed.

Lemma mod_window_inj i j : 0 ≤ i < j → j - i < kSize → i mod kSize ≠ j mod kSize.
Proof.
  intros Hi Hj E. pose proof (Z.div_mod i kSize ltac:(lia)) as Ei.
  pose proof (Z.div_mod j kSize ltac:(lia)) as Ej. rewrite E in Ei.
  assert (kSize * (j / kSize - i / kSize) = j - i) as Hd by (rewrite Z.mul_sub_distr_l; lia).
  clear Ei Ej E. set (d := j / kSize - i / kSize) in *. destruct (Z_lt_le_dec d 1); nia.
Qed.

Lemma mod_slot i : 0 ≤ i → (Z.to_nat (i mod kSize) < Z.to_nat kSize)%nat.
Proof. intros. pose proof (Z.mod_pos_bound i kSize ltac:(lia)). lia. Qed.

Lemma SaveToBuffer_rep h b x :
  ring_rep h b → Z.of_nat (length h) + 1 < 2 ^ 64 →
  ∃ b', SaveToBuffer kSize x b = Ok (tt, b') ∧ ring_rep (h ++ [x]) b'.
Proof.
  intros Hrep Hw. pose proof (mod_slot (Z.of_nat (length h)) ltac:(lia)) as Hslot.
  unfold SaveToBuffer. rewrite (bind_run _ _ _ _ _ (BufferIndex_run h b 0 Hrep ltac:(lia) ltac:(lia))).
  rewrite Z.add_0_r. unfold set_element, modify, mbind, M_bind, get, put.
  rewrite (rr_length _ _ Hrep), (proj2 (Nat.ltb_lt _ _) Hslot). eexists. split; [reflexivity|].
  split; simpl; rewrite ?length_insert, ?length_app; simpl.
  - apply Hrep.
  - rewrite (rr_index _ _ Hrep), wrap_u_id; unfold in_u; lia.
  - intros i y Hi Hlow. rewrite Nat2Z.inj_add in Hlow. apply lookup_app_Some in Hi as [Hi|[Hi Hy]].
    + pose proof (lookup_lt_Some _ _ _ Hi). rewrite list_lookup_insert_ne; [by apply Hrep; [|lia]|].
      intros E%Z2Nat.inj; [|apply Z.mod_pos_bound; lia..].
      by apply (mod_window_inj (Z.of_nat i) (Z.of_nat (length h))); [lia|lia|].
    + apply list_lookup_singleton_Some in Hy as [Hy <-]. assert (i = length h) as -> by lia.
      rewrite list_lookup_insert_eq; [done|]. by rewrite (rr_length _ _ Hrep).
Qed.

Lemma MutableReadBuffer_rep h b n x :
  ring_rep h b → 0 ≤ n < kSize → Z.of_nat (length h) + n < 2 ^ 64 → kSize ≤ Z.of_nat (length h) + n →
  ∃ b', MutableReadBuffer_assign kSize n x b = Ok (tt, b') ∧
        ring_rep (<[Z.to_nat (Z.of_nat (length h) + n - kSize) := x]> h) b'.
Proof.
  intros Hrep Hn Hw Hc. pose proof (mod_slot (Z.of_nat (length h) + n) ltac:(lia)) as Hslot.
  assert (Z.of_nat (Z.to_nat (Z.of_nat (length h) + n - kSize)) mod kSize =
          (Z.of_nat (length h) + n) mod kSize) as Hm.
  { rewrite Z2Nat.id by lia.
    replace (Z.of_nat (length h) + n - kSize) with (Z.of_nat (length h) + n + (-1) * kSize) by lia.
    by rewrite Z_mod_plus_full. }
  unfold MutableReadBuffer_assign. rewrite (bind_run _ _ _ _ _ (BufferIndex_run h b n Hrep (proj1 Hn) Hw)).
  unfold IsFilledIndexByBufferIndex, check, set_element, mbind, M_bind, get, put, mret, M_ret.
  rewrite (rr_index _ _ Hrep), slot_filled, (proj2 (Z.leb_le _ _) Hc) by done.
  rewrite (rr_length _ _ Hrep), (proj2 (Nat.ltb_lt _ _) Hslot). eexists. split; [reflexivity|].
  set (p := Z.to_nat (Z.of_nat (length h) + n - kSize)) in *.
  split; simpl; rewrite ?length_insert; [apply Hrep..|].
  intros i y Hi Hlow. destruct (decide (i = p)) as [->|Hne].
  - rewrite list_lookup_insert_eq in Hi by lia. simplify_eq.
    rewrite Hm, list_lookup_insert_eq; [done|]. by rewrite (rr_length _ _ Hrep).
  - rewrite list_lookup_insert_ne in Hi by done. pose proof (lookup_lt_Some _ _ _ Hi).
    rewrite list_lookup_insert_ne; [by apply Hrep|].
    rewrite <-Hm. intros E%Z2Nat.inj; [|apply Z.mod_pos_bound; lia..].
    destruct (Nat.lt_total i p) as [Hlt|[->|Hlt]]; [|done|].
    + by apply (mod_window_inj (Z.of_nat i) (Z.of_nat p)); [lia|lia|].
    + by apply (mod_window_inj (Z.of_nat p) (Z.of_nat i)); [lia|lia|].
Qed.

(** ** Iteration *)

Lemma length_window h : Z.of_nat (length (window h)) = Z.min kSize (Z.of_nat (length h)).
Proof. unfold window. rewrite length_drop. lia. Qed.

(** An iteration that meets the values [l] one after the other yields them. *)
Lemma iterate_run b (step : Iterator → Iterator) (l : list T) (at_ : nat → Iterator) :
  Z.of_nat (length l) ≤ kSize →
  (∀ j, (j ≤ length l)%nat → iterator_valid kSize (at_ j) b = Ok (bool_decide (j < length l)%nat, b)) →
  (∀ j x, l !! j = Some x →
     iterator_deref kSize (at_ j) b = Ok (x, b) ∧ step (at_ j) = at_ (S j)) →
  iterate kSize step (at_ 0%nat) b = Ok (l, b).
Proof.
  intros Hl Hvalid Hstep. apply wp_ok_eq. unfold iterate. apply wp_bind.
  apply (wp_while _ _ _ (λ n s b', b' = b ∧ ∃ j, (j + n = length l)%nat ∧ s = (at_ j, take j l)) _ (length l)).
  - split; [done|]. by exists 0%nat.
  - lia.
  - intros n s b' (->&j&Hj&->). simpl. unfold wp at 1. rewrite Hvalid by lia. case_bool_decide as Hlt.
    + destruct n as [|n]; [lia|]. exists n. split; [done|].
      destruct (lookup_lt_is_Some_2 l j Hlt) as [x Hx]. destruct (Hstep j x Hx) as [Hd Hs].
      apply wp_bind. unfold wp at 1. rewrite Hd, Hs. apply wp_ret. split; [done|].
      exists (S j). split; [lia|]. by rewrite (take_S_r _ _ _ Hx).
    + apply wp_ret. split; [|done]. apply take_ge. lia.
Qed.

Lemma oldest_to_newest_run h b :
  ring_rep h b → Z.of_nat (length h) + kSize < 2 ^ 64 → oldest_to_newest kSize b = Ok (window h, b).
Proof.
  intros Hrep Hw. pose proof (length_window h) as Hl.
  set (w := Z.of_nat (length (window h))) in *.
  set (at_ := λ j : nat, mkIterator (kSize - w + Z.of_nat j) (bool_decide (0 < w ∧ Z.of_nat j = w))).
  assert (Begin kSize b = Ok (at_ 0%nat, b)) as Hb.
  { unfold Begin, mbind, M_bind, get, mret, M_ret, at_. rewrite (rr_index _ _ Hrep).
    do 2 f_equal. rewrite bool_decide_eq_false_2 by lia. case_match; f_equal; lia. }
  unfold oldest_to_newest. rewrite (bind_run _ _ _ _ _ Hb). apply (iterate_run b _ (window h) at_).
  - lia.
  - intros j Hj. unfold iterator_valid, at_; simpl. destruct (decide (j < length (window h))%nat) as [Hlt|Hge].
    + rewrite bool_decide_eq_false_2 by lia. rewrite (IsFilledIndex_run h) by (done || lia).
      rewrite bool_decide_eq_true_2 by done. do 2 f_equal. apply Z.leb_le. lia.
    + rewrite (bool_decide_eq_false_2 (j < _)%nat) by done.
      destruct (Z.eq_dec w 0) as [Hz|Hz]; [|by rewrite bool_decide_eq_true_2 by lia].
      rewrite bool_decide_eq_false_2 by lia. unfold IsFilledIndex.
      rewrite (bind_run _ _ _ _ _ (BufferIndex_run h b (kSize - w + Z.of_nat j) Hrep ltac:(lia) ltac:(lia))).
      unfold IsFilledIndexByBufferIndex, mbind, M_bind, get, mret, M_ret. rewrite (rr_index _ _ Hrep).
      do 2 f_equal. apply Z.ltb_ge. pose proof (Z.mod_pos_bound (Z.of_nat (length h) + (kSize - w + Z.of_nat j)) kSize ltac:(lia)). lia.
  - intros j x Hx. pose proof (lookup_lt_Some _ _ _ Hx) as Hlt. unfold iterator_deref, at_, iterator_inc; simpl. split.
    + rewrite (ReadBuffer_run h) by (done || lia). fold w.
      replace (Z.to_nat (kSize - w + Z.of_nat j - (kSize - w))) with j by lia. rewrite Hx.
      by rewrite (proj2 (Z.leb_le _ _)) by lia.
    + rewrite wrap_u_id by (unfold in_u; lia). f_equal; [lia|].
      rewrite (bool_decide_eq_false_2 (0 < w ∧ Z.of_nat j = w)) by lia.
      destruct (Z.eqb_spec (kSize - w + Z.of_nat j + 1) kSize);
        [rewrite bool_decide_eq_true_2|rewrite bool_decide_eq_false_2]; (done || lia).
Qed.

Lemma newest_to_oldest_run h b :
  ring_rep h b → Z.of_nat (length h) + kSize < 2 ^ 64 → newest_to_oldest kSize b = Ok (rev (window h), b).
Proof.
  intros Hrep Hw. pose proof (length_window h) as Hl.
  set (w := Z.of_nat (length (window h))) in *.
  set (at_ := λ j : nat, mkIterator (wrap_u 64 (kSize - 1 - Z.of_nat j)) (bool_decide (Z.of_nat j = kSize))).
  unfold newest_to_oldest. change (End kSize b) with (Ok (mkIterator (wrap_u 64 (kSize - 1)) false, b)).
  assert (at_ 0%nat = mkIterator (wrap_u 64 (kSize - 1)) false) as Ha.
  { unfold at_. rewrite bool_decide_eq_false_2 by lia. f_equal. f_equal. lia. }
  unfold mbind at 1, M_bind at 1. simpl. rewrite <-Ha.
  apply (iterate_run b _ (rev (window h)) at_).
  - rewrite length_rev. lia.
  - intros j Hj. rewrite length_rev in *. unfold iterator_valid, at_; simpl.
    destruct (Z.eq_dec (Z.of_nat j) kSize) as [E|E].
    + rewrite bool_decide_eq_true_2 by done. by rewrite bool_decide_eq_false_2 by lia.
    + rewrite bool_decide_eq_false_2 by done. rewrite wrap_u_id by (unfold in_u; lia).
      rewrite (IsFilledIndex_run h) by (done || lia). do 2 f_equal.
      destruct (Z.leb_spec kSize (Z.of_nat (length h) + (kSize - 1 - Z.of_nat j)));
        [rewrite bool_decide_eq_true_2|rewrite bool_decide_eq_false_2]; (done || lia).
  - intros j x Hx. pose proof (lookup_lt_Some _ _ _ Hx) as Hlt. rewrite length_rev in Hlt.
    unfold iterator_deref, at_, iterator_dec; simpl. rewrite wrap_u_id by (unfold in_u; lia). split.
    + rewrite (ReadBuffer_run h) by (done || lia). fold w.
      rewrite rev_alt in Hx. change (reverse (window h) !! j = Some x) in Hx.
      rewrite reverse_lookup in Hx by done.
      replace (Z.to_nat (kSize - 1 - Z.of_nat j - (kSize - w))) with (length (window h) - S j)%nat by lia.
      rewrite Hx. by rewrite (proj2 (Z.leb_le _ _)) by lia.
    + rewrite (bool_decide_eq_false_2 (Z.of_nat j = kSize)) by lia. f_equal; [f_equal; lia|].
      destruct (Z.eqb_spec (kSize - 1 - Z.of_nat j) 0);
        [rewrite bool_decide_eq_true_2|rewrite bool_decide_eq_false_2]; (done || lia).
Qed.

(** ** Sequences of operations *)

Inductive ring_op := Save (x : T) | Overwrite (n : Z) (x : T) | ClearAll.

Definition ring_run (o : ring_op) : M (RingBuffer T) unit :=
  match o with
  | Save x => SaveToBuffer kSize x
  | Overwrite n x => MutableReadBuffer_assign kSize n x
  | ClearAll => Clear
  end.

Definition index_in_range (o : ring_op) : Prop :=
  match o with Overwrite n _ => 0 ≤ n < kSize | _ => True end.

(** The values saved; overwriting a value that is not there is an error. *)
Fixpoint ring_history (os : list ring_op) h : option (list T) :=
  match os with
  | [] => Some h
  | Save x :: os' => ring_history os' (h ++ [x])
  | Overwrite n x :: os' =>
    if kSize <=? Z.of_nat (length h) + n
    then ring_history os' (<[Z.to_nat (Z.of_nat (length h) + n - kSize) := x]> h)
    else None
  | ClearAll :: os' => ring_history os' []
  end.

Lemma Overwrite_faults h b n x :
  ring_rep h b → 0 ≤ n < kSize → Z.of_nat (length h) + n < 2 ^ 64 →
  (kSize <=? Z.of_nat (length h) + n) = false → faults (MutableReadBuffer_assign kSize n x) b.
Proof.
  intros Hrep Hn Hw Hc. unfold faults, MutableReadBuffer_assign.
  rewrite (bind_run _ _ _ _ _ (BufferIndex_run h b n Hrep (proj1 Hn) Hw)).
  unfold IsFilledIndexByBufferIndex, check, mbind, M_bind, get, mret, M_ret.
  by rewrite (rr_index _ _ Hrep), slot_filled, Hc.
Qed.

Lemma ring_runs_ok os h b :
  ring_rep h b → Forall index_in_range os → Z.of_nat (length h + length os) + kSize < 2 ^ 64 →
  match ring_history os h with
  | Some h' => wp (for_each ring_run os)
      (λ _ b', ring_rep h' b' ∧ (length h' ≤ length h + length os)%nat) b
  | None => faults (for_each ring_run os) b
  end.
Proof.
  revert h b. induction os as [|o os IH]; intros h b Hrep Hf Hw.
  { simpl. apply wp_ret. split; [done|]. lia. }
  apply Forall_cons in Hf as [Ho Hf]. simpl in Hw.
  assert (∀ h' b', ring_run o b = Ok (tt, b') → ring_rep h' b' → (length h' ≤ S (length h))%nat →
    match ring_history os h' with
    | Some h'' => wp (for_each ring_run (o :: os)) (λ _ b'', ring_rep h'' b'' ∧ (length h'' ≤ length h + length (o :: os))%nat) b
    | None => faults (for_each ring_run (o :: os)) b
    end) as Hnext.
  { intros h' b' Hrun Hrep' Hl. specialize (IH h' b' Hrep' Hf ltac:(lia)). simpl.
    unfold wp, faults in *. rewrite (bind_run _ _ _ _ _ Hrun).
    destruct (ring_history os h'); [|done].
    destruct (for_each ring_run os b') as [[]|]; [|done]. destruct IH. split; [done|lia]. }
  destruct o as [x|n x|]; simpl ring_history.
  - destruct (SaveToBuffer_rep h b x Hrep ltac:(lia)) as (b'&Hrun&Hrep').
    eapply Hnext; [exact Hrun|exact Hrep'|]. rewrite length_app. simpl. lia.
  - simpl in Ho. destruct (kSize <=? Z.of_nat (length h) + n) eqn:Hc.
    + destruct (MutableReadBuffer_rep h b n x Hrep Ho ltac:(lia) (proj1 (Z.leb_le _ _) Hc)) as (b'&Hrun&Hrep').
      eapply Hnext; [exact Hrun|exact Hrep'|]. rewrite length_insert. lia.
    + apply faults_bind. by apply (Overwrite_faults h); [| |lia|].
  - destruct (Clear_rep h b Hrep) as (b'&Hrun&Hrep'). eapply Hnext; [exact Hrun|exact Hrep'|]. simpl. lia.
Qed.

(** The ring buffer.  After any sequence of saving, overwriting and clearing, the last
    [kSize] values saved since the last [Clear] can be read, and no others: iterating from
    [Begin] yields them from the oldest to the newest, from [End] the other way round, and
    [ReadBuffer] with an index counted from the end of the buffer gives the value, or fails
    its check where none was saved.  Overwriting a value that is not there fails its check
    too. *)
Theorem ring_buffer_keeps_last os b0 :
  Forall index_in_range os → Z.of_nat (length os) + kSize < 2 ^ 64 →
  match ring_history os [] with
  | Some h =>
    wp (_ ← construct kSize; for_each ring_run os) (λ _ b,
      oldest_to_newest kSize b = Ok (window h, b) ∧
      newest_to_oldest kSize b = Ok (rev (window h), b) ∧
      ∀ n, 0 ≤ n < kSize →
        ReadBuffer kSize n b =
        match window h !! Z.to_nat (n - (kSize - Z.of_nat (length (window h)))) with
        | Some x => if kSize <=? Z.of_nat (length h) + n then Ok (x, b)
                    else Fault (CheckFailed "IsFilledIndexByBufferIndex(buffer_index)")
        | None => Fault (CheckFailed "IsFilledIndexByBufferIndex(buffer_index)")
        end) b0
  | None => faults (_ ← construct kSize; for_each ring_run os) b0
  end.
Proof.
  intros Hf Hw. destruct (ring_construct_rep b0) as (b&Hc&Hrep).
  pose proof (ring_runs_ok os [] b Hrep Hf ltac:(simpl; lia)) as Hruns.
  unfold wp, faults in *. rewrite (bind_run _ _ _ _ _ Hc).
  destruct (ring_history os []) as [h|]; [|done].
  destruct (for_each ring_run os b) as [[[] b']|]; [|done]. destruct Hruns as [Hrep' Hl]. simpl in Hl.
  split_and!; [apply oldest_to_newest_run; (done || lia)|apply newest_to_oldest_run; (done || lia)|].
  intros n Hn. apply ReadBuffer_run; (done || lia).
Qed.

End theorems.

(** * Witness *)

Lemma ring_buffer_keeps_last_witness :
  ∃ b : RingBuffer nat,
    (_ ← construct 3; for_each (ring_run 3) [Save 1; Save 2; Save 3; Save 4; Overwrite 1 7])%nat
      (mkRingBuffer [] 0) = Ok (tt, b) ∧
    oldest_to_newest 3 b = Ok ([2; 7; 4]%nat, b).
Proof.
  pose proof (ring_buffer_keeps_last 3 ltac:(lia)
    [Save 1%nat; Save 2%nat; Save 3%nat; Save 4%nat; Overwrite 1 7%nat] (mkRingBuffer [] 0)) as Hw.
  destruct (wp_ok_inv _ _ _ (Hw ltac:(repeat constructor; simpl; lia) ltac:(simpl; lia)))
    as ([]&b&Hrun&Hall&_).
  exists b. split; [exact Hrun|exact Hall].
Defined.
