(* ===== verification/StdAlgorithms.v ===== *)
(** The algorithms of the C++ library that the containers use, on the list of the
    elements of a range, and what the library promises of them.

    [lower_bound] and [upper_bound] are the binary searches; the others are determined
    by the specification of the library ([stable_sort], [stable_merge] are stable) and are
    written in the simplest way.  Where the library leaves elements behind a position in
    an unspecified state ([unique], [remove_if]), only the elements before it are
    given. *)
From S2P Require Import Prelude.
From Stdlib Require Import ZArith Lia Sorted.
From stdpp Require Import base tactics numbers strings list.

Open Scope nat_scope.

(** [Compare] is a strict weak ordering: the order "not less" is transitive, and
    nothing is less both ways. *)
Class StrictWeakOrder {V : Type} (less : V → V → bool) := {
  less_asym : ∀ x y, less x y = true → less y x = false;
  less_negtrans : ∀ x y z, less x y = false → less y z = false → less x z = false
}.

#[export] Instance nat_ltb_order : StrictWeakOrder Nat.ltb.
Proof.
  split.
  - intros x y ?%Nat.ltb_lt. apply Nat.ltb_ge. lia.
  - intros x y z ?%Nat.ltb_ge ?%Nat.ltb_ge. apply Nat.ltb_ge. lia.
Qed.

#[export] Instance Z_ltb_order : StrictWeakOrder Z.ltb.
Proof.
  split.
  - intros x y ?%Z.ltb_lt. apply Z.ltb_ge. lia.
  - intros x y z ?%Z.ltb_ge ?%Z.ltb_ge. apply Z.ltb_ge. lia.
Qed.

Section order.
Context {V : Type} (less : V → V → bool) `{!StrictWeakOrder less}.

(** Neither is less: the elements count as the same. *)
Definition equivalent (x y : V) : bool := negb (less x y) && negb (less y x).

Lemma less_irrefl x : less x x = false.
Proof. destruct (less x x) eqn:E; [|done]. by rewrite <-(less_asym _ _ E). Qed.

Lemma less_trans x y z : less x y = true → less y z = true → less x z = true.
Proof.
  intros Hxy Hyz. destruct (less x z) eqn:E; [done|].
  pose proof (less_asym _ _ Hyz) as Hzy.
  by rewrite (less_negtrans _ _ _ E Hzy) in Hxy.
Qed.

Lemma less_not_less x y z : less x y = true → less z y = false → less x z = true.
Proof.
  intros Hxy Hzy. destruct (less x z) eqn:E; [done|].
  by rewrite (less_negtrans _ _ _ E Hzy) in Hxy.
Qed.

Lemma not_less_less x y z : less y x = false → less y z = true → less x z = true.
Proof.
  intros Hyx Hyz. destruct (less x z) eqn:E; [done|].
  by rewrite (less_negtrans _ _ _ Hyx E) in Hyz.
Qed.

Lemma equivalent_spec x y : equivalent x y = true ↔ less x y = false ∧ less y x = false.
Proof. unfold equivalent. destruct (less x y), (less y x); naive_solver. Qed.

Lemma less_not_equivalent x y : less x y = true → equivalent x y = false.
Proof. unfold equivalent. by intros ->. Qed.

Lemma more_not_equivalent x y : less y x = true → equivalent x y = false.
Proof. unfold equivalent. intros ->. by rewrite andb_comm. Qed.

Lemma equivalent_refl x : equivalent x x = true.
Proof. apply equivalent_spec. split; apply less_irrefl. Qed.

Lemma equivalent_sym x y : equivalent x y = equivalent y x.
Proof. unfold equivalent. by rewrite andb_comm. Qed.

Lemma equivalent_less_l x y z : equivalent x y = true → less x z = less y z.
Proof.
  intros [Hxy Hyx]%equivalent_spec. destruct (less y z) eqn:E.
  - by apply (not_less_less _ y).
  - by apply (less_negtrans _ y).
Qed.

Lemma equivalent_less_r x y z : equivalent x y = true → less z x = less z y.
Proof.
  intros [Hxy Hyx]%equivalent_spec. destruct (less z y) eqn:E.
  - by apply (less_not_less _ y).
  - by apply (less_negtrans _ y).
Qed.

Lemma equivalent_proper x y z : equivalent x y = true → equivalent x z = equivalent y z.
Proof.
  intros H. unfold equivalent. by rewrite (equivalent_less_l x y), (equivalent_less_r x y).
Qed.
End order.

(** The elements come in the order of the keys, no two of them equivalent. *)
Abbreviation strictly_sorted less := (StronglySorted (λ x y, less x y = true)).
(** The same, where equivalent elements may follow each other. *)
Abbreviation weakly_sorted less := (StronglySorted (λ x y, less y x = false)).

(** * Definitions *)

Section algorithms.
Context {V : Type}.
Implicit Types (less : V → V → bool) (p : V → bool) (l : list V).

(** The loop of [std::lower_bound] and [std::upper_bound]: [p] says that an element is
    before the position looked for. *)
Fixpoint bisect (fuel : nat) p l (first count : nat) : nat :=
  match fuel with
  | O => first
  | S fuel =>
    if 0 <? count then
      let count2 := count / 2 in
      match l !! (first + count2) with
      | Some x => if p x then bisect fuel p l (first + count2 + 1) (count - (count2 + 1))
                  else bisect fuel p l first count2
      | None => first
      end
    else first
  end.

(** The first position in [[first, last)] whose element does not satisfy [p]. *)
Definition partition_point p l (first last : nat) : nat :=
  bisect (S (last - first)) p l first (last - first).

(** [std::stable_sort] *)
Fixpoint insert_stable less (x : V) l : list V :=
  match l with
  | [] => [x]
  | y :: l' => if less y x then y :: insert_stable less x l' else x :: y :: l'
  end.
Definition stable_sort less l : list V := foldr (insert_stable less) [] l.

(** [std::unique]: the elements before the position it returns. *)
Fixpoint unique_from (eq : V → V → bool) (kept : V) l : list V :=
  match l with
  | [] => [kept]
  | y :: l' => if eq kept y then unique_from eq kept l' else kept :: unique_from eq y l'
  end.
Definition unique (eq : V → V → bool) l : list V :=
  match l with [] => [] | x :: l' => unique_from eq x l' end.

(** [std::merge]: of equivalent elements those of the first range come first. *)
Fixpoint stable_merge less l1 : list V → list V :=
  fix go l2 :=
  match l1, l2 with
  | [], _ => l2
  | _, [] => l1
  | x :: l1', y :: l2' => if less y x then y :: go l2' else x :: stable_merge less l1' l2
  end.

(** [std::is_sorted], and [std::adjacent_find] having found nothing. *)
Fixpoint no_adjacent (bad : V → V → bool) l : bool :=
  match l with
  | x :: l' => match l' with y :: _ => negb (bad x y) | [] => true end && no_adjacent bad l'
  | [] => true
  end.
Definition is_sorted less l : bool := no_adjacent (λ x y, less y x) l.

(** [std::remove_if]: the elements before the position it returns. *)
Definition remove_if p l : list V := base.filter (λ x, p x = false) l.

(** [std::lexicographical_compare] *)
Fixpoint lexicographical_compare less l1 l2 : bool :=
  match l1, l2 with
  | _, [] => false
  | [], _ :: _ => true
  | x :: l1', y :: l2' =>
    if less x y then true else if less y x then false
    else lexicographical_compare less l1' l2'
  end.
End algorithms.

(** * Binary search *)

(** The elements before [n] satisfy [p], those from [n] on do not. *)
Definition splits {V} (p : V → bool) (l : list V) (n : nat) : Prop :=
  n ≤ length l ∧ (∀ i x, i < n → l !! i = Some x → p x = true) ∧
  (∀ i x, n ≤ i → l !! i = Some x → p x = false).

Section search.
Context {V : Type} (p : V → bool).
Implicit Types (l : list V).

Lemma bisect_spec fuel l first count n :
  count < fuel → first ≤ n ≤ first + count → first + count ≤ length l →
  (∀ i x, first ≤ i < n → l !! i = Some x → p x = true) →
  (∀ i x, n ≤ i < first + count → l !! i = Some x → p x = false) →
  bisect fuel p l first count = n.
Proof.
  revert first count. induction fuel as [|fuel IH]; intros first count Hf Hn Hl Hlo Hhi; [lia|].
  cbn [bisect]. cbv zeta. destruct (Nat.ltb_spec 0 count) as [Hc|Hc]; [|lia].
  assert (count / 2 < count) as H2 by (apply Nat.div_lt; lia).
  destruct (lookup_lt_is_Some_2 l (first + count / 2)) as [x Hx]; [lia|]. rewrite Hx.
  destruct (Nat.lt_ge_cases (first + count / 2) n) as [Hlt|Hge].
  - rewrite (Hlo (first + count / 2) x) by (done || lia).
    apply IH; [lia..| |]; intros i y Hi; [apply Hlo|apply Hhi]; lia.
  - rewrite (Hhi (first + count / 2) x) by (done || lia).
    apply IH; [lia..| |]; intros i y Hi; [apply Hlo|apply Hhi]; lia.
Qed.

(** The binary search finds the only position it can, also when more elements follow
    the range searched. *)
Lemma partition_point_splits l l' n :
  splits p l n → partition_point p (l ++ l') 0 (length l) = n.
Proof.
  intros (Hn&Hlo&Hhi). unfold partition_point. rewrite Nat.sub_0_r.
  apply bisect_spec; rewrite ?length_app; try lia; intros i x Hi;
    rewrite lookup_app_l by lia; [apply Hlo|apply Hhi]; lia.
Qed.

Lemma partition_point_whole l n : splits p l n → partition_point p l 0 (length l) = n.
Proof. intros H. rewrite <-(app_nil_r l) at 1. by apply partition_point_splits. Qed.

(** A range in which no element that satisfies [p] follows one that does not has a
    position that splits it. *)
Lemma splits_exists l :
  StronglySorted (λ x y, p y = true → p x = true) l → ∃ n, splits p l n.
Proof.
  induction 1 as [|x l Hl [n (Hn&Hlo&Hhi)] Hx].
  { exists 0. repeat split; [done|lia|done]. }
  rewrite Forall_forall in Hx. destruct (p x) eqn:E.
  - exists (S n). split; [simpl; lia|].
    split; intros [|i] y Hi; simpl; try lia; [by intros [= <-]|apply Hlo; lia|apply Hhi; lia].
  - exists 0. split; [lia|]. split; [lia|]. intros [|i] y _; simpl; [by intros [= <-]|].
    intros Hy. destruct (p y) eqn:Ey; [|done].
    symmetry. apply (Hx y); [by eapply list_elem_of_lookup_2|done].
Qed.

Lemma splits_unique l n m : splits p l n → splits p l m → n = m.
Proof.
  intros Hn Hm. rewrite <-(partition_point_whole _ _ Hn). by apply partition_point_whole.
Qed.
End search.

(** * Sorted ranges *)

Lemma sorted_app {V} (R : V → V → Prop) l1 l2 :
  StronglySorted R (l1 ++ l2) ↔
  StronglySorted R l1 ∧ StronglySorted R l2 ∧ ∀ x y, x ∈ l1 → y ∈ l2 → R x y.
Proof.
  induction l1 as [|x l1 IH]; simpl.
  - split; [intros; split_and!; [constructor|done|]; by intros ?? ?%not_elem_of_nil|naive_solver].
  - split.
    + intros [(Hl1&Hl2&Hx)%IH [Hx1 Hx2]%Forall_app]%StronglySorted_inv.
      split_and!; [by constructor|done|]. intros a b [->|Ha]%elem_of_cons Hb; [|by apply Hx].
      by eapply Forall_forall in Hx2.
    + intros ([Hl1 Hx1]%StronglySorted_inv&Hl2&Hx). constructor.
      * apply IH. split_and!; [done..|]. intros a b Ha. apply Hx. by right.
      * apply Forall_app. split; [done|]. apply Forall_forall. intros y. apply Hx. by left.
Qed.

Lemma sorted_lookup {V} (R : V → V → Prop) l i j x y :
  StronglySorted R l → i < j → l !! i = Some x → l !! j = Some y → R x y.
Proof.
  intros Hs. revert i j. induction Hs as [|z l Hl IH Hz]; intros [|i] [|j] Hij Hx Hy;
    simplify_eq/=; try lia.
  - rewrite Forall_forall in Hz. apply Hz. by eapply list_elem_of_lookup_2.
  - apply (IH i j); [lia|done..].
Qed.

Lemma sorted_filter {V} (R : V → V → Prop) (P : V → Prop) `{∀ x, Decision (P x)} l :
  StronglySorted R l → StronglySorted R (base.filter P l).
Proof.
  induction 1 as [|x l Hl IH Hx]; [constructor|]. rewrite filter_cons.
  case_decide; [|done]. constructor; [done|]. rewrite Forall_forall in Hx |- *.
  intros y [_ Hy]%list_elem_of_filter. by apply Hx.
Qed.

Section sorted.
Context {V : Type} (less : V → V → bool) `{!StrictWeakOrder less}.
Implicit Types (l : list V) (x y : V).

Lemma strictly_sorted_weakly l : strictly_sorted less l → weakly_sorted less l.
Proof.
  induction 1 as [|x l Hl IH Hx]; constructor; [done|].
  eapply Forall_impl; [exact Hx|]. intros y. apply less_asym.
Qed.

Lemma no_adjacent_sorted l :
  no_adjacent (λ x y, negb (less x y)) l = true ↔ strictly_sorted less l.
Proof.
  split.
  - intros H. apply Sorted_StronglySorted; [intros x y z; apply (less_trans less)|].
    induction l as [|x l IH]; [constructor|].
    simpl in H. apply andb_true_iff in H as [Hx Hl]. constructor; [by apply IH|].
    destruct l as [|y l]; constructor. by destruct (less x y).
  - induction 1 as [|x l Hl IH Hx]; [done|]. simpl. rewrite IH, andb_true_r.
    destruct Hx as [|y l Hy]; [done|]. by rewrite Hy.
Qed.

Lemma is_sorted_strict l : strictly_sorted less l → is_sorted less l = true.
Proof.
  unfold is_sorted. induction 1 as [|x l Hl IH Hx]; [done|]. simpl. rewrite IH, andb_true_r.
  destruct Hx as [|y l Hy]; [done|]. by rewrite (less_asym _ _ Hy).
Qed.

(** [q] picks the elements equivalent to some fixed one. *)
Class OneClass (q : V → bool) : Prop :=
  one_class : ∀ x y, q x = true → q y = equivalent less x y.

(** Two elements of which one is less are not both picked. *)
Lemma class_less q `{!OneClass q} x y : less x y = true → q y = true → q x = false.
Proof. intros Hxy Hy. rewrite (one_class y x Hy). by apply more_not_equivalent. Qed.

Lemma class_more q `{!OneClass q} x y : less x y = true → q x = true → q y = false.
Proof. intros Hxy Hx. rewrite (one_class x y Hx). by apply less_not_equivalent. Qed.

#[export] Instance equivalent_class x : OneClass (equivalent less x).
Proof.
  intros y z Hy. symmetry. rewrite (equivalent_proper _ y x); [done|].
  by rewrite equivalent_sym.
Qed.

(** A sorted range without equivalent elements is determined by the elements it has in
    each class. *)
Lemma sorted_ext l1 l2 :
  strictly_sorted less l1 → strictly_sorted less l2 →
  (∀ z, List.find (equivalent less z) l1 = List.find (equivalent less z) l2) → l1 = l2.
Proof.
  intros H1. revert l2. induction H1 as [|x l1 Hl1 IH Hx]; intros l2 H2 Hq.
  { destruct l2 as [|y l2]; [done|]. specialize (Hq y). simpl in Hq.
    by rewrite equivalent_refl in Hq. }
  destruct H2 as [|y l2 Hl2 Hy].
  { specialize (Hq x). simpl in Hq. by rewrite equivalent_refl in Hq. }
  assert (∀ a b l, less a b = true → Forall (λ c, less b c = true) l →
    List.find (equivalent less a) (b :: l) = None) as Hnone.
  { intros a b l Hab Hl. simpl. rewrite less_not_equivalent by done.
    induction Hl as [|c l Hc Hl IHl]; [done|]. simpl. rewrite less_not_equivalent; [done|].
    by apply (less_trans less _ b). }
  pose proof (Hq x) as Hqx. pose proof (Hq y) as Hqy.
  destruct (less x y) eqn:Exy.
  { rewrite (Hnone x y l2) in Hqx by done. simpl in Hqx. by rewrite equivalent_refl in Hqx. }
  destruct (less y x) eqn:Eyx.
  { rewrite (Hnone y x l1) in Hqy by done. simpl in Hqy. by rewrite equivalent_refl in Hqy. }
  assert (equivalent less x y = true) as Heq by by apply equivalent_spec.
  simpl in Hqx. rewrite equivalent_refl, Heq in Hqx by done. injection Hqx as ->.
  f_equal. apply IH; [done|]. intros z. specialize (Hq z). simpl in Hq.
  destruct (equivalent less z y) eqn:E; [|done].
  assert (∀ l, Forall (λ c, less y c = true) l → List.find (equivalent less z) l = None)
    as Hno; [|by rewrite !Hno].
  induction 1 as [|c l Hyc _ IHl]; [done|]. simpl.
  rewrite (class_more (equivalent less z) y c); done.
Qed.

(** ** The position of a class *)

(** The elements below, in and above a class: the one in it is where the binary search
    arrives. *)
Lemma find_at_split (below above q : V → bool) l n :
  (∀ x, q x = negb (below x) && negb (above x)) →
  (∀ x y, less x y = true → above x = true → above y = true) →
  strictly_sorted less l → splits below l n →
  List.find q l = match l !! n with
                  | Some x => if above x then None else Some x
                  | None => None
                  end.
Proof.
  intros Hq Hup Hs. revert n. induction Hs as [|x l Hl IH Hx]; intros n (Hn&Hlo&Hhi).
  { simpl in Hn. by assert (n = 0) as -> by lia. }
  simpl. rewrite Hq. destruct n as [|n].
  - rewrite (Hhi 0 x ltac:(lia) eq_refl). simpl. destruct (above x) eqn:E; [|done]. simpl.
    clear -Hx E Hq Hup. induction Hx as [|y l Hy Hl IHl]; [done|].
    simpl. by rewrite Hq, (Hup x y Hy E), andb_false_r.
  - rewrite (Hlo 0 x ltac:(lia) eq_refl). apply IH. split; [simpl in Hn; lia|].
    split; intros i y Hi Hy; [apply (Hlo (S i) y)|apply (Hhi (S i) y)]; (lia || done).
Qed.

(** ** Sorting, removing duplicates and merging *)

Lemma elem_of_insert_stable x y l : y ∈ insert_stable less x l ↔ y = x ∨ y ∈ l.
Proof.
  induction l as [|z l IH]; simpl; [by rewrite elem_of_cons|].
  destruct (less z x); rewrite !elem_of_cons, ?IH; naive_solver.
Qed.

Lemma insert_stable_sorted x l : weakly_sorted less l → weakly_sorted less (insert_stable less x l).
Proof.
  induction 1 as [|y l Hl IH Hy]; simpl; [by repeat constructor|].
  rewrite Forall_forall in Hy. destruct (less y x) eqn:E.
  - constructor; [done|]. apply Forall_forall.
    intros z [->|Hz]%elem_of_insert_stable; [by apply less_asym|by apply Hy].
  - constructor; [by constructor; [|apply Forall_forall]|]. apply Forall_forall.
    intros z [->|Hz]%elem_of_cons; [done|]. apply (less_negtrans _ y); [by apply Hy|done].
Qed.

Lemma stable_sort_sorted l : weakly_sorted less (stable_sort less l).
Proof. induction l; simpl; [constructor|by apply insert_stable_sorted]. Qed.

Lemma insert_stable_Permutation x l : insert_stable less x l ≡ₚ x :: l.
Proof.
  induction l as [|y l IH]; simpl; [done|]. destruct (less y x); [|done].
  rewrite IH. by rewrite Permutation_swap.
Qed.

Lemma stable_sort_Permutation l : stable_sort less l ≡ₚ l.
Proof. induction l as [|x l IH]; simpl; [done|]. by rewrite insert_stable_Permutation, IH. Qed.

(** Of the elements of a class the first one stays the first. *)
Lemma find_insert_stable q `{!OneClass q} x l :
  List.find q (insert_stable less x l) = if q x then Some x else List.find q l.
Proof.
  induction l as [|y l IH]; simpl; [done|]. destruct (less y x) eqn:E; simpl; [|done].
  rewrite IH. destruct (q x) eqn:Ex; [|done]. by rewrite (class_less q y x).
Qed.

Lemma find_stable_sort q `{!OneClass q} l : List.find q (stable_sort less l) = List.find q l.
Proof. induction l as [|x l IH]; simpl; [done|]. by rewrite find_insert_stable, IH. Qed.

#[local] Abbreviation not_less := (λ x y, negb (less x y)).

Lemma unique_from_elem x y l : y ∈ unique_from not_less x l → y = x ∨ y ∈ l.
Proof.
  revert x. induction l as [|z l IH]; intros x; simpl.
  - rewrite elem_of_cons, elem_of_nil. naive_solver.
  - destruct (less x z); simpl.
    + intros [->|[->|?]%IH]%elem_of_cons; rewrite ?elem_of_cons; naive_solver.
    + intros [->|?]%IH; rewrite ?elem_of_cons; naive_solver.
Qed.

Lemma unique_from_sorted x l :
  weakly_sorted less (x :: l) → strictly_sorted less (unique_from not_less x l).
Proof.
  revert x. induction l as [|y l IH]; intros x [Hl Hx]%StronglySorted_inv; simpl.
  { by repeat constructor. }
  apply StronglySorted_inv in Hl as [Hl Hy]. destruct (less x y) eqn:E; simpl.
  - constructor; [by apply IH; constructor|]. apply Forall_forall.
    intros z [->|Hz]%unique_from_elem; [done|]. rewrite Forall_forall in Hy.
    apply (less_not_less less _ y); [done|by apply Hy].
  - apply IH. by constructor; [|inversion Hx].
Qed.

Lemma unique_sorted l : weakly_sorted less l → strictly_sorted less (unique not_less l).
Proof. destruct l as [|x l]; [constructor|]. apply unique_from_sorted. Qed.

Lemma find_unique_from q `{!OneClass q} x l :
  weakly_sorted less (x :: l) → List.find q (unique_from not_less x l) = List.find q (x :: l).
Proof.
  revert x. induction l as [|y l IH]; intros x [Hl Hx]%StronglySorted_inv; [done|]. simpl.
  pose proof Hl as [Hl' Hy]%StronglySorted_inv. destruct (less x y) eqn:E; simpl.
  - by rewrite IH by done.
  - rewrite IH by (constructor; [done|by inversion Hx]). simpl. destruct (q x) eqn:Ex; [done|].
    replace (q y) with false; [done|]. destruct (q y) eqn:Ey; [|done].
    inversion Hx as [|?? Hyx _]; subst. rewrite (one_class y x Ey) in Ex.
    assert (equivalent less y x = true) as Heq by by apply equivalent_spec. congruence.
Qed.

Lemma find_unique q `{!OneClass q} l :
  weakly_sorted less l → List.find q (unique not_less l) = List.find q l.
Proof. destruct l as [|x l]; [done|]. by apply find_unique_from. Qed.

Lemma stable_merge_cons x l1 y l2 :
  stable_merge less (x :: l1) (y :: l2) =
  if less y x then y :: stable_merge less (x :: l1) l2 else x :: stable_merge less l1 (y :: l2).
Proof. done. Qed.

Lemma stable_merge_nil_r l : stable_merge less l [] = l.
Proof. by destruct l. Qed.

Lemma stable_merge_nil_l l : stable_merge less [] l = l.
Proof. by destruct l. Qed.

Lemma stable_merge_Permutation l1 l2 : stable_merge less l1 l2 ≡ₚ l1 ++ l2.
Proof.
  revert l2. induction l1 as [|x l1 IH]; intros l2; [by rewrite stable_merge_nil_l|].
  induction l2 as [|y l2 IH2]; [by rewrite stable_merge_nil_r, app_nil_r|].
  rewrite stable_merge_cons. destruct (less y x).
  - rewrite IH2. simpl. by rewrite <-Permutation_middle, Permutation_swap.
  - by rewrite IH.
Qed.

Lemma stable_merge_sorted l1 l2 :
  strictly_sorted less l1 → strictly_sorted less l2 →
  (∀ x y, x ∈ l1 → y ∈ l2 → equivalent less x y = false) →
  strictly_sorted less (stable_merge less l1 l2).
Proof.
  intros H1. revert l2. induction H1 as [|x l1 Hl1 IH Hx]; intros l2 H2; [by rewrite stable_merge_nil_l|].
  induction H2 as [|y l2 Hl2 IH2 Hy]; intros Hne; [rewrite stable_merge_nil_r; by constructor|].
  rewrite stable_merge_cons. rewrite Forall_forall in Hx, Hy. destruct (less y x) eqn:E; constructor.
  - apply IH2. intros a b Ha Hb. apply Hne; [done|by right].
  - apply Forall_forall. intros z. rewrite stable_merge_Permutation, elem_of_app, elem_of_cons.
    intros [[->|Hz]|Hz]; [done| |by apply Hy]. apply (less_trans less _ x); [done|by apply Hx].
  - apply IH; [by constructor; [|apply Forall_forall]|]. intros a b Ha. apply Hne. by right.
  - assert (less x y = true) as Hxy.
    { specialize (Hne x y ltac:(by left) ltac:(by left)). unfold equivalent in Hne.
      rewrite E in Hne. by destruct (less x y). }
    apply Forall_forall. intros z. rewrite stable_merge_Permutation, elem_of_app, elem_of_cons.
    intros [Hz|[->|Hz]]; [by apply Hx|done|]. apply (less_trans less _ y); [done|by apply Hy].
Qed.

Lemma find_None q l : List.find q l = None ↔ ∀ x, x ∈ l → q x = false.
Proof.
  induction l as [|y l IH]; simpl.
  - split; [by intros _ ? ?%not_elem_of_nil|done].
  - destruct (q y) eqn:E; [split; [done|]|].
    + intros H. specialize (H y ltac:(by left)). congruence.
    + rewrite IH. split; [intros H x [->|?]%elem_of_cons; auto|intros H x ?; apply H; by right].
Qed.

Lemma find_app q l1 l2 :
  List.find q (l1 ++ l2) = match List.find q l1 with Some x => Some x | None => List.find q l2 end.
Proof. induction l1 as [|x l1 IH]; simpl; [done|]. by destruct (q x). Qed.

Lemma find_stable_merge q `{!OneClass q} l1 l2 :
  strictly_sorted less l1 → List.find q (stable_merge less l1 l2) = List.find q (l1 ++ l2).
Proof.
  intros H1. revert l2. induction H1 as [|x l1 Hl1 IH Hx]; intros l2; [by rewrite stable_merge_nil_l|].
  induction l2 as [|y l2 IH2]; [by rewrite stable_merge_nil_r, app_nil_r|].
  rewrite stable_merge_cons. destruct (less y x) eqn:E; cbn [List.find app]; [|by rewrite IH].
  rewrite IH2. cbn [List.find app]. rewrite !find_app. simpl.
  destruct (q y) eqn:Ey; [|by destruct (q x)].
  rewrite (class_more q y x) by done. replace (List.find q l1) with (@None V); [done|].
  symmetry. apply find_None. intros z Hz. rewrite Forall_forall in Hx.
  apply (class_more q y z); [|done]. apply (less_trans less _ x); [done|by apply Hx].
Qed.
End sorted.

#[export] Existing Instance equivalent_class.
