(* ===== verification/FlatTree.v ===== *)
(** [base::internal::flat_tree] (base/containers/flat_tree.h) and the containers made
    from it, [flat_set] and [flat_map] (flat_set.h, flat_map.h): a sorted
    [std::vector] of values, looked up by key.

    The state is [impl_.body_].  The comparison object is the parameter [less]; the
    helper class [GetKeyFromValue] is [key_of].  An iterator is a position in the vector,
    and what the C++ library leaves undefined (reading at the end, an invalid range) is a
    fault.  The capacity of the vector is not part of the state. *)
From S2P Require Import Prelude StdAlgorithms.
From Stdlib Require Import ZArith Lia.
From stdpp Require Import base tactics numbers strings list.

Open Scope nat_scope.

Definition range {V} (first last : nat) (l : list V) : list V := take (last - first) (drop first l).

Module FlatTree.
Section FlatTree.
Context `{!BuildConfig} {K V : Type} (key_of : V → K) (less : K → K → bool).

#[local] Abbreviation TM := (M (list V)).

(** [value_compare::operator()] *)
Definition value_compare (left right : V) : bool := less (key_of left) (key_of right).

(** ** The underlying vector *)

Definition deref_at (it : nat) : TM V :=
  body ← get;
  match body !! it with
  | Some x => mret x
  | None => fail (UndefinedBehaviour "iterator not dereferenceable")
  end.

Definition valid_range (first last : nat) (what : string) : TM unit :=
  body ← get;
  if (first <=? last) && (last <=? length body) then mret tt
  else fail (UndefinedBehaviour what).

(** [vector::emplace], [vector::erase(first, last)], [vector::emplace_back] and
    [*position = val] *)
Definition vector_emplace (position : nat) (x : V) : TM nat :=
  _ ← valid_range 0 position "vector emplace iterator outside range";
  _ ← modify (λ body, take position body ++ x :: drop position body);
  mret position.
Definition vector_erase (first last : nat) : TM nat :=
  _ ← valid_range first last "vector erase iterator outside range";
  _ ← modify (λ body, take first body ++ drop last body);
  mret first.
Definition emplace_back (x : V) : TM unit := modify (λ body, body ++ [x]).
Definition assign_at (position : nat) (x : V) : TM unit :=
  _ ← deref_at position;
  modify (λ body, <[position := x]> body).

Definition size : TM nat := body ← get; mret (length body).
Definition empty : TM bool := body ← get; mret (length body =? 0).
Definition clear : TM unit := put [].
Definition begin_ : TM nat := mret 0.
Definition end_ : TM nat := body ← get; mret (length body).

(** A reverse iterator is the position after the element it stands for. *)
Definition rbegin : TM nat := end_.
Definition rend : TM nat := begin_.
Definition deref_reverse (it : nat) : TM V :=
  if it =? 0 then fail (UndefinedBehaviour "iterator not dereferenceable") else deref_at (it - 1).

(** ** Searching *)

Definition lower_bound (key : K) : TM nat :=
  body ← get;
  mret (partition_point (λ v, less (key_of v) key) body 0 (length body)).
Definition upper_bound (key : K) : TM nat :=
  body ← get;
  mret (partition_point (λ v, negb (less key (key_of v))) body 0 (length body)).

(** [position == end() || key_comp()(key, extractor( *position))] *)
Definition beyond (key : K) (position : nat) : TM bool :=
  e ← end_;
  if position =? e then mret true
  else x ← deref_at position; mret (less key (key_of x)).

Definition equal_range (key : K) : TM (nat * nat) :=
  lower ← lower_bound key;
  b ← beyond key lower;
  if b : bool then mret (lower, lower) else mret (lower, lower + 1).

Definition find (key : K) : TM nat :=
  eq_range ← equal_range key;
  if eq_range.1 =? eq_range.2 then end_ else mret eq_range.1.

Definition count (key : K) : TM nat :=
  eq_range ← equal_range key;
  mret (eq_range.2 - eq_range.1).

Definition contains (key : K) : TM bool :=
  lower ← lower_bound key;
  e ← end_;
  if lower =? e then mret false
  else x ← deref_at lower; mret (negb (less key (key_of x))).

(** ** Erasing *)

Definition erase_at (position : nat) : TM nat :=
  e ← end_;
  _ ← check (negb (position =? e)) "position != impl_.body_.end()";
  vector_erase position (position + 1).
Definition erase_range (first last : nat) : TM nat := vector_erase first last.
Definition erase_key (key : K) : TM nat :=
  eq_range ← equal_range key;
  let res := eq_range.2 - eq_range.1 in
  _ ← erase_range eq_range.1 eq_range.2;
  mret res.

(** The elements behind the position [std::remove_if] returns are moved from; here they
    are as they were, until they are erased. *)
Definition EraseIf (pred : V → bool) : TM nat :=
  body ← get;
  let kept := remove_if pred body in
  _ ← put (kept ++ drop (length kept) body);
  let it := length kept in
  e ← end_;
  let removed := e - it in
  _ ← erase_range it e;
  mret removed.

(** ** Inserting one element *)

Definition unsafe_emplace (position : nat) (x : V) : TM nat := vector_emplace position x.

(** [x] is what the constructor arguments make. *)
Definition emplace_key_args (key : K) (x : V) : TM (nat * bool) :=
  lower ← lower_bound key;
  b ← beyond key lower;
  if b : bool then p ← unsafe_emplace lower x; mret (p, true)
  else mret (lower, false).

(** [hint == begin() || key_comp()(extractor( *std::prev(hint)), key)] *)
Definition hint_not_late (hint : nat) (key : K) : TM bool :=
  if hint =? 0 then mret true
  else x ← deref_at (hint - 1); mret (less (key_of x) key).

Definition emplace_hint_key_args (hint : nat) (key : K) (x : V) : TM (nat * bool) :=
  b ← hint_not_late hint key;
  if b : bool then
    c ← beyond key hint;
    if c : bool then p ← unsafe_emplace hint x; mret (p, true)
    else
      y ← deref_at hint;
      if negb (less (key_of y) key) then mret (hint, false)
      else emplace_key_args key x
  else emplace_key_args key x.

Definition insert (val : V) : TM (nat * bool) := emplace_key_args (key_of val) val.
Definition insert_hint (position_hint : nat) (val : V) : TM nat :=
  r ← emplace_hint_key_args position_hint (key_of val) val;
  mret r.1.
Definition emplace (x : V) : TM (nat * bool) := insert x.
Definition emplace_hint (position_hint : nat) (x : V) : TM nat := insert_hint position_hint x.

(** The private [insert_or_assign(val)], on whole values. *)
Definition insert_or_assign_value (val : V) : TM (nat * bool) :=
  position ← lower_bound (key_of val);
  b ← beyond (key_of val) position;
  if b : bool then p ← vector_emplace position val; mret (p, true)
  else _ ← assign_at position val; mret (position, false).

(** ** Inserting many elements *)

(** [std::lower_bound(first, last, val, value_comp())] on a part of the body, and the
    test behind it. *)
Definition lower_bound_in (first last : nat) (val : V) : TM nat :=
  body ← get;
  mret (partition_point (λ v, value_compare v val) body first last).
Definition absent_at (position last : nat) (val : V) : TM bool :=
  if position =? last then mret true
  else x ← deref_at position; mret (value_compare val x).

Definition append_or_assign (first last : nat) (val : V) : TM (nat * bool) :=
  position ← lower_bound_in first last val;
  b ← absent_at position last val;
  if b : bool then _ ← emplace_back val; mret (position, true)
  else _ ← assign_at position val; mret (position, false).

Definition append_unique (first last : nat) (val : V) : TM (nat * bool) :=
  position ← lower_bound_in first last val;
  b ← absent_at position last val;
  if b : bool then _ ← emplace_back val; mret (position, true)
  else mret (position, false).

Definition equal_comp (lhs rhs : V) : bool := negb (value_compare lhs rhs).

(** As for [EraseIf], the elements behind the position [std::unique] returns are here as
    they were until they are erased. *)
Definition sort_and_unique (first last : nat) : TM unit :=
  _ ← valid_range first last "range of stable_sort";
  _ ← modify (λ body, take first body ++ stable_sort value_compare (range first last body) ++ drop last body);
  body ← get;
  let kept := unique equal_comp (range first last body) in
  _ ← put (take first body ++ kept ++ drop (first + length kept) body);
  _ ← erase_range (first + length kept) last;
  mret tt.

(** [std::inplace_merge] *)
Definition inplace_merge (first middle last : nat) : TM unit :=
  _ ← valid_range first middle "first range of inplace_merge";
  _ ← valid_range middle last "second range of inplace_merge";
  modify (λ body, take first body ++
    stable_merge value_compare (range first middle body) (range middle last body) ++ drop last body).

(** The loop over the new elements; [middle] is the number of old ones. *)
Fixpoint append_all (middle : nat) (items : list V) (pos_first_new : nat) : TM nat :=
  match items with
  | [] => mret pos_first_new
  | x :: items' =>
    result ← append_unique 0 middle x;
    append_all middle items'
      (if result.2 : bool then Nat.min pos_first_new result.1 else pos_first_new)
  end.

(** [insert(first, last)]; [multipass] is [is_multipass<InputIterator>()]. *)
Definition insert_range (multipass : bool) (items : list V) : TM unit :=
  match items with
  | [] => mret tt
  | x :: rest =>
    if multipass && match rest with [] => true | _ => false end then
      e ← end_;
      _ ← insert_hint e x;
      mret tt
    else
      middle ← size;
      pos_first_new ← append_all middle items middle;
      e ← end_;
      _ ← sort_and_unique middle e;
      e ← end_;
      inplace_merge pos_first_new middle e
  end.

(** ** Whole trees *)

(** The constructors from a range, a vector and an initializer list; they run on the
    members being initialised. *)
Definition construct (items : list V) : TM unit :=
  _ ← put items;
  e ← end_;
  sort_and_unique 0 e.
Definition assign_list (ilist : list V) : TM unit :=
  _ ← put ilist;
  e ← end_;
  sort_and_unique 0 e.

Definition extract : TM (list V) := body ← get; _ ← put []; mret body.
Definition replace (body : list V) : TM unit :=
  _ ← dcheck (is_sorted value_compare body) "std::is_sorted";
  _ ← dcheck (no_adjacent equal_comp body) "std::adjacent_find";
  put body.

Definition swap : M (list V * list V) unit := modify (λ ts, (ts.2, ts.1)).

(** The comparisons are those of [std::vector]; [value_less] is the values' own order. *)
Definition tree_eq `{EqDecision V} (lhs rhs : list V) : bool := bool_decide (lhs = rhs).
Definition tree_ne `{EqDecision V} (lhs rhs : list V) : bool := negb (tree_eq lhs rhs).
Definition tree_lt (value_less : V → V → bool) (lhs rhs : list V) : bool :=
  lexicographical_compare value_less lhs rhs.
Definition tree_gt (value_less : V → V → bool) (lhs rhs : list V) : bool := tree_lt value_less rhs lhs.
Definition tree_ge (value_less : V → V → bool) (lhs rhs : list V) : bool := negb (tree_lt value_less lhs rhs).
Definition tree_le (value_less : V → V → bool) (lhs rhs : list V) : bool := negb (tree_gt value_less lhs rhs).
End FlatTree.
End FlatTree.

(** * flat_map *)

(** [GetKeyFromValuePairFirst] and, for sets, [GetKeyFromValueIdentity] *)
Definition pair_first {K T : Type} (p : K * T) : K := p.1.
Definition key_identity {K : Type} (k : K) : K := k.

Module FlatMap.
Section FlatMap.
Context {K T : Type} (less : K → K → bool).

#[local] Abbreviation TM := (M (list (K * T))).
#[local] Abbreviation key_of := (pair_first (K := K) (T := T)).

(** [it->second = obj] *)
Definition assign_second (it : nat) (obj : T) : TM unit :=
  x ← FlatTree.deref_at it;
  FlatTree.assign_at it (x.1, obj).

Definition at_ (key : K) : TM T :=
  found ← FlatTree.find key_of less key;
  e ← FlatTree.end_;
  _ ← check (negb (found =? e)) "found != tree::end()";
  x ← FlatTree.deref_at found;
  mret x.2.

(** [operator[]]: a reference to the mapped value, as the position of its pair.
    [value_init] is [mapped_type()]. *)
Definition index (value_init : T) (key : K) : TM nat :=
  found ← FlatTree.lower_bound key_of less key;
  b ← FlatTree.beyond key_of less key found;
  found ← (if b : bool then FlatTree.unsafe_emplace found (key, value_init) else mret found);
  _ ← FlatTree.deref_at found;
  mret found.

Definition insert_or_assign (key : K) (obj : T) : TM (nat * bool) :=
  result ← FlatTree.emplace_key_args key_of less key (key, obj);
  _ ← (if negb result.2 then assign_second result.1 obj else mret tt);
  mret result.

Definition insert_or_assign_hint (hint : nat) (key : K) (obj : T) : TM nat :=
  result ← FlatTree.emplace_hint_key_args key_of less hint key (key, obj);
  _ ← (if negb result.2 then assign_second result.1 obj else mret tt);
  mret result.1.

(** [obj] is what the arguments construct. *)
Definition try_emplace (key : K) (obj : T) : TM (nat * bool) :=
  FlatTree.emplace_key_args key_of less key (key, obj).
Definition try_emplace_hint (hint : nat) (key : K) (obj : T) : TM nat :=
  r ← FlatTree.emplace_hint_key_args key_of less hint key (key, obj);
  mret r.1.

Definition construct (items : list (K * T)) : TM unit := FlatTree.construct key_of less items.
Definition assign_list (ilist : list (K * T)) : TM unit := FlatTree.assign_list key_of less ilist.
Definition swap : M (list (K * T) * list (K * T)) unit := FlatTree.swap.
End FlatMap.
End FlatMap.
