(* ===== verification/FlatTreeLemmas.v ===== *)
(** What the operations of a [flat_tree] do to a sorted body, exactly.

    The reference is [ins]: insertion into a sorted list, in which an element that is
    already there wins.  [view k l] is the first element of [l] with a key equivalent to
    [k]; a sorted body is determined by its views, so that the batch insertion is proved
    equal to repeated insertion by comparing views. *)
From S2P Require Import Prelude StdAlgorithms FlatTree.
From Stdlib Require Import ZArith Lia Sorted.
From stdpp Require Import base tactics numbers strings list.

Open Scope nat_scope.

Section lemmas.
Context {K V : Type} (key_of : V → K) (less : K → K → bool).
Context `{!StrictWeakOrder less}.
Implicit Types (l : list V) (x v : V) (k : K).

#[local] Abbreviation vless := (FlatTree.value_compare key_of less).

#[export] Instance value_compare_order : StrictWeakOrder vless.
Proof.
  split; unfold FlatTree.value_compare.
  - intros x y. apply less_asym.
  - intros x y z. apply less_negtrans.
Qed.

(** The body is sorted and has no two elements with equivalent keys. *)
Definition well_sorted l : Prop := strictly_sorted vless l.

Definition has_key k x : bool := equivalent less k (key_of x).
Definition view k l : option V := List.find (has_key k) l.

#[export] Instance has_key_class k : OneClass vless (has_key k).
Proof.
  intros x y Hx. unfold has_key, equivalent, FlatTree.value_compare in *.
  apply (equivalent_proper less k (key_of x)). exact Hx.
Qed.

Lemma tree_view_ext l1 l2 :
  well_sorted l1 → well_sorted l2 → (∀ k, view k l1 = view k l2) → l1 = l2.
Proof. intros H1 H2 Hv. apply (sorted_ext vless); [done..|]. intros z. apply (Hv (key_of z)). Qed.

(** Insertion into a sorted list; an equivalent element that is there stays. *)
Fixpoint ins v l : list V :=
  match l with
  | [] => [v]
  | x :: l' => if vless v x then v :: x :: l' else if vless x v then x :: ins v l' else x :: l'
  end.

Lemma elem_of_ins x v l : x ∈ ins v l → x = v ∨ x ∈ l.
Proof.
  induction l as [|y l IH]; simpl; [rewrite elem_of_cons; naive_solver|].
  destruct (vless v y), (vless y v); rewrite ?elem_of_cons; naive_solver.
Qed.

Lemma ins_sorted v l : well_sorted l → well_sorted (ins v l).
Proof.
  unfold well_sorted. induction 1 as [|x l Hl IH Hx]; simpl; [by repeat constructor|].
  destruct (vless v x) eqn:E.
  - constructor; [by constructor|]. constructor; [done|].
    eapply Forall_impl; [exact Hx|]. intros y. by apply (less_trans vless).
  - destruct (vless x v) eqn:E'; [|by constructor]. constructor; [done|].
    rewrite Forall_forall in Hx |- *. by intros y [->|Hy]%elem_of_ins; [|apply Hx].
Qed.

Lemma view_ins k v l : well_sorted l → view k (ins v l) = view k (l ++ [v]).
Proof.
  unfold well_sorted, view. induction 1 as [|x l Hl IH Hx]; simpl; [done|].
  destruct (vless v x) eqn:E; simpl.
  - rewrite find_app. simpl. destruct (has_key k v) eqn:Ev.
    + rewrite (class_more vless (has_key k) v x) by done.
      replace (List.find (has_key k) l) with (@None V); [done|]. symmetry. apply find_None.
      intros y Hy. rewrite Forall_forall in Hx. apply (class_more vless (has_key k) v y); [|done].
      apply (less_trans vless _ x); [done|by apply Hx].
    + destruct (has_key k x); [done|]. by destruct (List.find (has_key k) l).
  - destruct (vless x v) eqn:E'; simpl; [by rewrite IH|].
    destruct (has_key k x) eqn:Ek; [done|]. rewrite find_app. simpl.
    replace (has_key k v) with false; [by destruct (List.find (has_key k) l)|].
    destruct (has_key k v) eqn:Ev; [|done]. rewrite (one_class vless v x Ev) in Ek.
    by rewrite (proj2 (equivalent_spec vless v x) (conj E E')) in Ek.
Qed.

(** Inserting one after the other. *)
Definition ins_all (vs l : list V) : list V := fold_left (λ l v, ins v l) vs l.

Lemma ins_all_sorted vs l : well_sorted l → well_sorted (ins_all vs l).
Proof. revert l. induction vs as [|v vs IH]; intros l Hl; [done|]. by apply IH, ins_sorted. Qed.

Lemma view_ins_all k vs l : well_sorted l → view k (ins_all vs l) = view k (l ++ vs).
Proof.
  revert l. induction vs as [|v vs IH]; intros l Hl; simpl; [by rewrite app_nil_r|].
  rewrite IH by by apply ins_sorted. unfold view. rewrite find_app.
  change (List.find (has_key k) (ins v l)) with (view k (ins v l)). rewrite view_ins by done.
  unfold view. rewrite !find_app. simpl. by destruct (List.find (has_key k) l), (has_key k v).
Qed.

(** ** Searching *)

#[local] Abbreviation below k := (λ v, less (key_of v) k).

Lemma below_splits k l : well_sorted l → ∃ n, splits (below k) l n.
Proof.
  intros Hs. apply splits_exists. induction Hs as [|x l Hl IH Hx]; constructor; [done|].
  eapply Forall_impl; [exact Hx|]. intros y Hxy Hy. by apply (less_trans less _ (key_of y)).
Qed.

(** What is at the position the search for a key arrives at. *)
Lemma view_at k l n : well_sorted l → splits (below k) l n →
  view k l = match l !! n with
             | Some x => if less k (key_of x) then None else Some x
             | None => None
             end.
Proof.
  intros Hs Hn. apply (find_at_split vless (below k) (λ x, less k (key_of x))); [| |done|done].
  - intros x. unfold has_key, equivalent. by rewrite andb_comm.
  - intros x y Hxy Hk. by apply (less_trans less _ (key_of x)).
Qed.

Lemma view_Some_at k l n x : well_sorted l → splits (below k) l n → view k l = Some x → l !! n = Some x.
Proof.
  intros Hs Hn. rewrite (view_at k l n Hs Hn). destruct (l !! n) as [y|]; [|done].
  by destruct (less k (key_of y)).
Qed.

Lemma run_lower_bound k l n : splits (below k) l n → FlatTree.lower_bound key_of less k l = Ok (n, l).
Proof.
  intros Hn. unfold FlatTree.lower_bound, mbind, M_bind, get, mret, M_ret.
  by rewrite (partition_point_whole _ _ _ Hn).
Qed.

Definition is_none {A} (o : option A) : bool := match o with None => true | Some _ => false end.

Lemma run_deref l i x : l !! i = Some x → FlatTree.deref_at i l = Ok (x, l).
Proof. unfold FlatTree.deref_at, mbind, M_bind, get. by intros ->. Qed.

Lemma run_end l : FlatTree.end_ l = Ok (length l, l).
Proof. done. Qed.

Lemma run_beyond_at k l n : n ≤ length l →
  FlatTree.beyond key_of less k n l =
  Ok (match l !! n with Some x => less k (key_of x) | None => true end, l).
Proof.
  intros Hn. unfold FlatTree.beyond. rewrite (bind_run _ _ _ _ _ (run_end l)).
  destruct (Nat.eqb_spec n (length l)) as [->|Hne]; [by rewrite lookup_ge_None_2|].
  destruct (lookup_lt_is_Some_2 l n) as [x Hx]; [lia|].
  by rewrite (bind_run _ _ _ _ _ (run_deref _ _ _ Hx)), Hx.
Qed.

Lemma run_beyond k l n : well_sorted l → splits (below k) l n →
  FlatTree.beyond key_of less k n l = Ok (is_none (view k l), l).
Proof.
  intros Hs Hn. rewrite run_beyond_at by apply Hn. rewrite (view_at k l n) by done.
  destruct (l !! n) as [x|]; [|done]. by destruct (less k (key_of x)).
Qed.

(** ** Inserting one element *)

Lemma run_valid_range l first last what :
  first ≤ last → last ≤ length l → FlatTree.valid_range first last what l = Ok (tt, l).
Proof.
  intros H1 H2. unfold FlatTree.valid_range, mbind, M_bind, get.
  by rewrite (proj2 (Nat.leb_le _ _) H1), (proj2 (Nat.leb_le _ _) H2).
Qed.

Lemma run_vector_emplace l position x :
  position ≤ length l →
  FlatTree.vector_emplace position x l = Ok (position, take position l ++ x :: drop position l).
Proof.
  intros H. unfold FlatTree.vector_emplace.
  by rewrite (bind_run _ _ _ _ _ (run_valid_range l 0 position _ ltac:(lia) H)).
Qed.

Lemma run_vector_erase l first last :
  first ≤ last → last ≤ length l →
  FlatTree.vector_erase first last l = Ok (first, take first l ++ drop last l).
Proof.
  intros H1 H2. unfold FlatTree.vector_erase.
  by rewrite (bind_run _ _ _ _ _ (run_valid_range l first last _ H1 H2)).
Qed.

(** Where the search arrives is where a new element goes. *)
Lemma insert_at_split v l n :
  well_sorted l → splits (below (key_of v)) l n → view (key_of v) l = None →
  take n l ++ v :: drop n l = ins v l.
Proof.
  intros Hs. revert n. induction Hs as [|x l Hl IH Hx]; intros n (Hn&Hlo&Hhi) Hv.
  { simpl in Hn. by assert (n = 0) as -> by lia. }
  unfold view in Hv. simpl in Hv. destruct (has_key (key_of v) x) eqn:Ek; [done|].
  destruct n as [|n]; simpl.
  - pose proof (Hhi 0 x ltac:(lia) eq_refl) as Hxv. simpl in Hxv.
    unfold has_key, equivalent in Ek. rewrite Hxv in Ek. unfold FlatTree.value_compare.
    by destruct (less (key_of v) (key_of x)).
  - pose proof (Hlo 0 x ltac:(lia) eq_refl) as Hxv. simpl in Hxv.
    unfold FlatTree.value_compare. rewrite (less_asym _ _ Hxv), Hxv. f_equal.
    apply IH; [|done]. split; [simpl in Hn; lia|].
    split; intros i y Hi Hy; [apply (Hlo (S i) y)|apply (Hhi (S i) y)]; (lia || done).
Qed.

Lemma ins_present v l x : well_sorted l → view (key_of v) l = Some x → ins v l = l.
Proof.
  intros Hs Hv. apply tree_view_ext; [by apply ins_sorted|done|]. intros k.
  rewrite view_ins by done. unfold view in *. rewrite find_app. simpl.
  destruct (List.find (has_key k) l) eqn:E; [done|]. destruct (has_key k v) eqn:Ek; [|done].
  apply find_some in Hv as [Hin Hx]. eapply find_none in E; [|exact Hin].
  rewrite (one_class vless v x Ek) in E. unfold has_key in Hx. exfalso.
  revert E Hx. unfold equivalent, FlatTree.value_compare. by intros ->.
Qed.

(** The position of the element that has the key after an insertion. *)
Lemma insert_position v l n : n ≤ length l → (take n l ++ v :: drop n l) !! n = Some v.
Proof.
  intros H. rewrite lookup_app_r; rewrite length_take; [|lia].
  by replace (n - n `min` length l) with 0 by lia.
Qed.

Lemma run_emplace_key_args v l n :
  well_sorted l → splits (below (key_of v)) l n →
  FlatTree.emplace_key_args key_of less (key_of v) v l =
  Ok ((n, is_none (view (key_of v) l)), ins v l).
Proof.
  intros Hs Hn. unfold FlatTree.emplace_key_args.
  rewrite (bind_run _ _ _ _ _ (run_lower_bound _ _ _ Hn)).
  rewrite (bind_run _ _ _ _ _ (run_beyond _ _ _ Hs Hn)).
  destruct (view (key_of v) l) as [x|] eqn:E; simpl.
  - by rewrite (ins_present v l x).
  - unfold FlatTree.unsafe_emplace.
    rewrite (bind_run _ _ _ _ _ (run_vector_emplace l n v (proj1 Hn))).
    by rewrite insert_at_split.
Qed.

(** An element in the position of the hint and the one before it bound the split. *)
Lemma hint_splits k l hint :
  well_sorted l → hint ≤ length l →
  (∀ x, 0 < hint → l !! (hint - 1) = Some x → less (key_of x) k = true) →
  (∀ x, l !! hint = Some x → less (key_of x) k = false) →
  splits (below k) l hint.
Proof.
  intros Hs Hh Hlo Hhi. split; [done|]. split; intros i x Hi Hx.
  - destruct (lookup_lt_is_Some_2 l (hint - 1)) as [y Hy]; [lia|].
    specialize (Hlo y ltac:(lia) Hy). destruct (decide (i = hint - 1)) as [->|Hne]; [congruence|].
    apply (less_trans less _ (key_of y)); [|done].
    exact (sorted_lookup _ l i (hint - 1) x y Hs ltac:(lia) Hx Hy).
  - destruct (decide (i = hint)) as [->|Hne]; [by apply Hhi|].
    pose proof (lookup_lt_Some _ _ _ Hx) as Hlt.
    destruct (lookup_lt_is_Some_2 l hint) as [y Hy]; [lia|].
    pose proof (sorted_lookup _ l hint i y x Hs ltac:(lia) Hy Hx) as Hyx.
    apply (less_negtrans _ (key_of y)); [|by apply Hhi]. by apply less_asym.
Qed.

Lemma run_hint_not_late hint k l :
  hint ≤ length l →
  ∃ b, FlatTree.hint_not_late key_of less hint k l = Ok (b, l) ∧
    (b = true → ∀ x, 0 < hint → l !! (hint - 1) = Some x → less (key_of x) k = true).
Proof.
  intros Hh. unfold FlatTree.hint_not_late. destruct (Nat.eqb_spec hint 0) as [->|Hne].
  { exists true. split; [done|]. lia. }
  destruct (lookup_lt_is_Some_2 l (hint - 1)) as [y Hy]; [lia|].
  exists (less (key_of y) k). rewrite (bind_run _ _ _ _ _ (run_deref _ _ _ Hy)).
  split; [done|]. intros Hb x _ Hx. congruence.
Qed.

(** A hint never changes what happens. *)
Lemma hint_irrelevant hint v l :
  well_sorted l → hint ≤ length l →
  FlatTree.emplace_hint_key_args key_of less hint (key_of v) v l =
  FlatTree.emplace_key_args key_of less (key_of v) v l.
Proof.
  intros Hs Hh. unfold FlatTree.emplace_hint_key_args.
  destruct (run_hint_not_late hint (key_of v) l Hh) as (b&Hb&Hlo).
  rewrite (bind_run _ _ _ _ _ Hb). destruct b; [|done]. specialize (Hlo eq_refl).
  rewrite (bind_run _ _ _ _ _ (run_beyond_at (key_of v) l hint Hh)).
  unfold FlatTree.unsafe_emplace. destruct (l !! hint) as [y|] eqn:Hy.
  - destruct (less (key_of v) (key_of y)) eqn:E1.
    + assert (splits (below (key_of v)) l hint) as Hsp.
      { apply hint_splits; [done..|]. intros z Hz. simplify_eq. by apply less_asym. }
      rewrite (run_emplace_key_args v l hint) by done.
      rewrite (bind_run _ _ _ _ _ (run_vector_emplace l hint v Hh)).
      assert (view (key_of v) l = None) as Hv by by rewrite (view_at _ l hint), Hy, E1.
      by rewrite Hv, insert_at_split.
    + rewrite (bind_run _ _ _ _ _ (run_deref _ _ _ Hy)).
      destruct (less (key_of y) (key_of v)) eqn:E2; simpl; [done|].
      assert (splits (below (key_of v)) l hint) as Hsp.
      { apply hint_splits; [done..|]. intros z Hz. by simplify_eq. }
      rewrite (run_emplace_key_args v l hint) by done.
      assert (view (key_of v) l = Some y) as Hv by by rewrite (view_at _ l hint), Hy, E1.
      by rewrite Hv, (ins_present v l y).
  - assert (splits (below (key_of v)) l hint) as Hsp.
    { apply hint_splits; [done..|]. intros z Hz. congruence. }
    rewrite (run_emplace_key_args v l hint) by done.
    rewrite (bind_run _ _ _ _ _ (run_vector_emplace l hint v Hh)).
    assert (view (key_of v) l = None) as Hv by by rewrite (view_at _ l hint), Hy.
    by rewrite Hv, insert_at_split.
Qed.

(** ** Inserting many elements *)

(** What [sort_and_unique] makes of a range. *)
Definition sorted_unique l : list V := unique (FlatTree.equal_comp key_of less) (stable_sort vless l).

Lemma sorted_unique_sorted l : well_sorted (sorted_unique l).
Proof. apply (unique_sorted vless), (stable_sort_sorted vless). Qed.

Lemma view_sorted_unique k l : view k (sorted_unique l) = view k l.
Proof.
  unfold view, sorted_unique.
  rewrite (find_unique vless (has_key k)) by apply (stable_sort_sorted vless).
  apply (find_stable_sort vless (has_key k)).
Qed.

Lemma elem_of_sorted_unique x l : x ∈ sorted_unique l → x ∈ l.
Proof.
  unfold sorted_unique. rewrite <-(stable_sort_Permutation vless l) at 2.
  destruct (stable_sort vless l) as [|y l']; [by intros ?%elem_of_nil|]. simpl.
  intros [->|Hx]%(unique_from_elem vless); [by left|by right].
Qed.

Lemma length_unique_from eq x l : length (unique_from eq x l) ≤ S (length l).
Proof.
  revert x. induction l as [|y l IH]; intros x; simpl; [lia|].
  destruct (eq x y); simpl; specialize (IH x) as H1; specialize (IH y) as H2; lia.
Qed.

Lemma length_sorted_unique l : length (sorted_unique l) ≤ length l.
Proof.
  unfold sorted_unique. rewrite <-(stable_sort_Permutation vless l) at 2.
  destruct (stable_sort vless l) as [|y l']; [done|]. apply length_unique_from.
Qed.

Lemma range_app (l l' : list V) : range (length l) (length (l ++ l')) (l ++ l') = l'.
Proof.
  unfold range. rewrite drop_app_length, length_app. apply take_ge. lia.
Qed.

Lemma run_sort_and_unique l l' :
  FlatTree.sort_and_unique key_of less (length l) (length (l ++ l')) (l ++ l') =
  Ok (tt, l ++ sorted_unique l').
Proof.
  unfold FlatTree.sort_and_unique.
  rewrite (bind_run _ _ _ tt (l ++ l')) by (apply run_valid_range; rewrite length_app; lia).
  rewrite (bind_run _ _ _ tt (l ++ stable_sort vless l')).
  2:{ unfold modify. do 2 f_equal. rewrite take_app_length, range_app, drop_ge by lia.
      by rewrite app_nil_r. }
  assert (length (stable_sort vless l') = length l') as Hlen
    by by rewrite (stable_sort_Permutation vless).
  assert (length (l ++ l') = length (l ++ stable_sort vless l')) as Hlen'
    by by rewrite !length_app, Hlen.
  rewrite Hlen'. unfold get at 1. unfold mbind at 1, M_bind at 1.
  rewrite range_app. fold (sorted_unique l'). rewrite take_app_length.
  set (u := sorted_unique l'). pose proof (length_sorted_unique l') as Hu. fold u in Hu.
  rewrite (bind_run _ _ _ tt (l ++ u ++ drop (length l + length u) (l ++ stable_sort vless l')))
    by done.
  unfold FlatTree.erase_range. erewrite bind_run.
  2:{ apply run_vector_erase; rewrite !length_app, ?length_drop, ?length_app, ?Hlen; lia. }
  unfold mret, M_ret. do 2 f_equal.
  rewrite app_assoc, (take_app_le (l ++ u)), take_ge by (rewrite length_app; lia).
  rewrite drop_ge; [by rewrite app_nil_r|].
  rewrite !length_app, length_drop, length_app, Hlen. lia.
Qed.

(** The new elements that are not among the old ones, in order of appearance. *)
Definition absent (l items : list V) : list V :=
  base.filter (λ x, is_none (view (key_of x) l) = true) items.

Lemma run_append_unique l acc x n :
  well_sorted l → splits (below (key_of x)) l n →
  FlatTree.append_unique key_of less 0 (length l) x (l ++ acc) =
  Ok ((n, is_none (view (key_of x) l)),
      l ++ acc ++ if is_none (view (key_of x) l) then [x] else []).
Proof.
  intros Hs Hn. unfold FlatTree.append_unique, FlatTree.lower_bound_in.
  rewrite (bind_run _ _ _ n (l ++ acc)).
  2:{ unfold mbind, M_bind, get, mret, M_ret. do 2 f_equal.
      apply (partition_point_splits (below (key_of x))). exact Hn. }
  rewrite (bind_run _ _ _ (is_none (view (key_of x) l)) (l ++ acc)).
  2:{ unfold FlatTree.absent_at. rewrite (view_at _ l n) by done.
      destruct (Nat.eqb_spec n (length l)) as [->|Hne]; [by rewrite lookup_ge_None_2|].
      destruct (lookup_lt_is_Some_2 l n) as [y Hy]; [pose proof (proj1 Hn); lia|].
      rewrite (bind_run _ _ _ y (l ++ acc)) by (apply run_deref; by apply lookup_app_l_Some).
      rewrite Hy. unfold mret, M_ret, FlatTree.value_compare. by destruct (less _ _). }
  destruct (is_none _); [|by rewrite app_nil_r].
  unfold FlatTree.emplace_back, modify, mbind, M_bind, mret, M_ret. by rewrite app_assoc.
Qed.

Lemma run_append_all l items acc pos :
  well_sorted l → pos ≤ length l →
  (∀ y x, y ∈ take pos l → x ∈ acc → vless y x = true) →
  ∃ pos', FlatTree.append_all key_of less (length l) items pos (l ++ acc) =
          Ok (pos', l ++ acc ++ absent l items) ∧ pos' ≤ length l ∧
          ∀ y x, y ∈ take pos' l → x ∈ acc ++ absent l items → vless y x = true.
Proof.
  intros Hs. revert acc pos. induction items as [|x items IH]; intros acc pos Hp Hlt.
  { exists pos. unfold absent. rewrite filter_nil, app_nil_r. done. }
  destruct (below_splits (key_of x) l Hs) as [n Hn]. cbn [FlatTree.append_all].
  rewrite (bind_run _ _ _ _ _ (run_append_unique l acc x n Hs Hn)). cbn [fst snd].
  unfold absent. rewrite filter_cons. destruct (is_none (view (key_of x) l)) eqn:E.
  - rewrite decide_True by done. destruct (IH (acc ++ [x]) (Nat.min pos n)) as (pos'&Hr&Hp'&Hlt').
    { lia. }
    { intros y z Hy [Hz|Hz]%elem_of_app.
      - apply Hlt; [|done]. rewrite <-take_take in Hy. eapply elem_of_take in Hy as (i&Hi&?).
        apply elem_of_take. exists i. split; [|lia]. by apply lookup_take_Some in Hi as [? ?].
      - apply list_elem_of_singleton in Hz as ->. apply elem_of_take in Hy as (i&Hi&?).
        apply (proj1 (proj2 Hn) i y); [lia|done]. }
    exists pos'. rewrite Hr. rewrite <-!(app_assoc _ [x]). split; [done|]. split; [done|].
    intros y z Hy. rewrite <-(app_assoc acc [x]) in Hlt'. by apply Hlt'.
  - rewrite decide_False by done. rewrite app_nil_r. by apply IH.
Qed.

Lemma view_None k l : view k l = None ↔ ∀ x, x ∈ l → has_key k x = false.
Proof. apply find_None. Qed.

Lemma view_app_absent k l items : view k (l ++ absent l items) = view k (l ++ items).
Proof.
  unfold view. rewrite !find_app. destruct (List.find (has_key k) l) eqn:E; [done|].
  induction items as [|x items IH]; [done|]. unfold absent. rewrite filter_cons. simpl.
  destruct (has_key k x) eqn:Ex.
  - rewrite decide_True; [simpl; by rewrite Ex|].
    replace (view (key_of x) l) with (@None V); [done|]. symmetry. apply view_None.
    intros y Hy. change (List.find (has_key k) l) with (view k l) in E.
    rewrite <-(proj1 (view_None k l) E y Hy). symmetry. apply (one_class vless x y Ex).
  - case_decide; simpl; [by rewrite Ex|done].
Qed.

(** The old elements from the first insertion point on, merged with the new ones. *)
Lemma merged_is_ins_all l items pos :
  well_sorted l →
  (∀ y x, y ∈ take pos l → x ∈ absent l items → vless y x = true) →
  take pos l ++ stable_merge vless (drop pos l) (sorted_unique (absent l items)) = ins_all items l.
Proof.
  intros Hs Hlt. rewrite <-(take_drop pos l) in Hs.
  apply sorted_app in Hs as (Ht&Hd&Htd). apply tree_view_ext.
  - apply sorted_app. split; [done|]. split.
    + apply (stable_merge_sorted vless); [done|apply sorted_unique_sorted|].
      intros x y Hx Hy%elem_of_sorted_unique.
      apply list_elem_of_filter in Hy as [Hy _].
      destruct (view (key_of y) l) as [z|] eqn:E; [done|]. rewrite equivalent_sym.
      apply (proj1 (view_None (key_of y) l) E). rewrite <-(take_drop pos l).
      apply elem_of_app. by right.
    + intros y x Hy. rewrite (stable_merge_Permutation vless), elem_of_app.
      intros [Hx|Hx%elem_of_sorted_unique]; [by apply Htd|by apply Hlt].
  - apply ins_all_sorted. rewrite <-(take_drop pos l). by apply sorted_app.
  - intros k. rewrite view_ins_all by (rewrite <-(take_drop pos l); by apply sorted_app).
    rewrite <-(view_app_absent k l items). set (new := absent l items).
    pose proof (view_sorted_unique k new) as Hsu. unfold view in *.
    rewrite find_app, (find_stable_merge vless (has_key k)), find_app, Hsu by done.
    trans (List.find (has_key k) ((take pos l ++ drop pos l) ++ new)); [|by rewrite take_drop].
    rewrite !find_app.
    by destruct (List.find (has_key k) (take pos l)).
Qed.

Lemma run_inplace_merge l l' pos :
  pos ≤ length l →
  FlatTree.inplace_merge key_of less pos (length l) (length (l ++ l')) (l ++ l') =
  Ok (tt, take pos l ++ stable_merge vless (drop pos l) l').
Proof.
  intros Hp. unfold FlatTree.inplace_merge.
  rewrite (bind_run _ _ _ tt (l ++ l')) by (apply run_valid_range; rewrite ?length_app; lia).
  rewrite (bind_run _ _ _ tt (l ++ l')) by (apply run_valid_range; rewrite ?length_app; lia).
  unfold modify. do 2 f_equal. rewrite range_app, (drop_ge _ (length (l ++ l'))), app_nil_r by lia.
  rewrite take_app_le by done. do 2 f_equal. unfold range.
  rewrite drop_app_le by done. apply take_app_length'. by rewrite length_drop.
Qed.

(** Inserting a range is inserting its elements one after the other. *)
Lemma run_insert_range multipass items l :
  well_sorted l → FlatTree.insert_range key_of less multipass items l = Ok (tt, ins_all items l).
Proof.
  intros Hs. destruct items as [|x rest]; [done|]. unfold FlatTree.insert_range.
  destruct (multipass && _) eqn:Em.
  - destruct rest as [|]; [|by rewrite andb_false_r in Em].
    rewrite (bind_run _ _ _ _ _ (run_end l)). unfold FlatTree.insert_hint.
    destruct (below_splits (key_of x) l Hs) as [n Hn].
    erewrite bind_run; [|erewrite bind_run; [done|]]; [done|].
    rewrite hint_irrelevant by done. by apply run_emplace_key_args.
  - clear Em. set (items := x :: rest).
    rewrite (bind_run _ _ _ (length l) l) by done.
    destruct (run_append_all l items [] (length l)) as (pos&Hr&Hp&Hlt); [done..| |].
    { by intros y z _ ?%not_elem_of_nil. }
    rewrite !app_nil_r in Hr. simpl in Hr, Hlt.
    rewrite (bind_run _ _ _ _ _ Hr), (bind_run _ _ _ _ _ (run_end _)).
    rewrite (bind_run _ _ _ _ _ (run_sort_and_unique l (absent l items))).
    rewrite (bind_run _ _ _ _ _ (run_end _)), run_inplace_merge by done.
    by rewrite merged_is_ins_all.
Qed.

Lemma sorted_unique_is_ins_all items : sorted_unique items = ins_all items [].
Proof.
  assert (well_sorted []) as Hnil by constructor.
  apply tree_view_ext; [apply sorted_unique_sorted|by apply ins_all_sorted|].
  intros k. by rewrite view_sorted_unique, view_ins_all.
Qed.

Lemma run_construct items l : FlatTree.construct key_of less items l = Ok (tt, ins_all items []).
Proof.
  unfold FlatTree.construct. rewrite (bind_run _ _ _ tt items) by done.
  rewrite (bind_run _ _ _ _ _ (run_end items)), <-sorted_unique_is_ins_all.
  apply (run_sort_and_unique []).
Qed.

(** ** Erasing *)

Lemma run_equal_range k l n : well_sorted l → splits (below k) l n →
  FlatTree.equal_range key_of less k l =
  Ok ((n, if is_none (view k l) then n else n + 1), l).
Proof.
  intros Hs Hn. unfold FlatTree.equal_range.
  rewrite (bind_run _ _ _ _ _ (run_lower_bound _ _ _ Hn)).
  rewrite (bind_run _ _ _ _ _ (run_beyond _ _ _ Hs Hn)). by destruct (is_none _).
Qed.

Definition without k l : list V := base.filter (λ x, has_key k x = false) l.

Lemma without_absent k l : view k l = None → without k l = l.
Proof.
  intros H. unfold without. induction l as [|x l IH]; [done|]. rewrite filter_cons.
  rewrite decide_True by (apply (proj1 (view_None k (x :: l)) H); by left).
  f_equal. apply IH, view_None. intros y Hy. apply (proj1 (view_None k (x :: l)) H). by right.
Qed.

Lemma without_present k l n x :
  well_sorted l → splits (below k) l n → view k l = Some x →
  take n l ++ drop (n + 1) l = without k l.
Proof.
  intros Hs Hn Hv. pose proof (view_Some_at _ _ _ _ Hs Hn Hv) as Hx.
  apply find_some in Hv as [_ Hk].
  rewrite <-(take_drop_middle l n x Hx) at 3. unfold without.
  rewrite <-(take_drop_middle l n x Hx) in Hs.
  apply sorted_app in Hs as (_&[_ Hd]%StronglySorted_inv&Ht).
  rewrite filter_app, filter_cons, decide_False by congruence.
  replace (n + 1) with (S n) by lia. f_equal; symmetry.
  - apply (without_absent k). apply view_None. intros y Hy.
    apply (class_less vless (has_key k) y x); [|done]. apply Ht; [done|by left].
  - apply (without_absent k). apply view_None. intros y Hy. rewrite Forall_forall in Hd.
    apply (class_more vless (has_key k) x y); [|done]. by apply Hd.
Qed.

Lemma run_erase_key k l :
  well_sorted l →
  FlatTree.erase_key key_of less k l =
  Ok (if is_none (view k l) then 0 else 1, without k l).
Proof.
  intros Hs. destruct (below_splits k l Hs) as [n Hn]. unfold FlatTree.erase_key.
  rewrite (bind_run _ _ _ _ _ (run_equal_range k l n Hs Hn)). cbn [fst snd].
  unfold FlatTree.erase_range. pose proof (proj1 Hn) as Hle.
  destruct (view k l) as [x|] eqn:E; simpl.
  - pose proof (view_Some_at _ _ _ _ Hs Hn E) as Hlt%lookup_lt_Some.
    rewrite (bind_run _ _ _ _ _ (run_vector_erase l n (n + 1) ltac:(lia) ltac:(lia))).
    rewrite (without_present k l n x) by done. unfold mret, M_ret. do 2 f_equal. lia.
  - rewrite (bind_run _ _ _ _ _ (run_vector_erase l n n ltac:(lia) Hle)).
    rewrite take_drop, without_absent by done. unfold mret, M_ret. do 2 f_equal. lia.
Qed.

Lemma run_EraseIf (pred : V → bool) l :
  FlatTree.EraseIf pred l =
  Ok (length (base.filter (λ x, pred x = true) l), base.filter (λ x, pred x = false) l).
Proof.
  unfold FlatTree.EraseIf, remove_if. unfold get at 1. unfold mbind at 1, M_bind at 1.
  set (kept := base.filter (λ x, pred x = false) l).
  assert (length kept + length (base.filter (λ x, pred x = true) l) = length l) as Hlen.
  { subst kept. induction l as [|x l IH]; [done|]. rewrite !filter_cons.
    destruct (pred x) eqn:E; [rewrite decide_False, decide_True by done
      |rewrite decide_True, decide_False by done]; simpl; lia. }
  rewrite (bind_run _ _ _ tt (kept ++ drop (length kept) l)) by done.
  rewrite (bind_run _ _ _ _ _ (run_end _)). unfold FlatTree.erase_range.
  assert (length kept ≤ length (kept ++ drop (length kept) l)) as Hle by (rewrite length_app; lia).
  rewrite (bind_run _ _ _ _ _ (run_vector_erase _ _ _ Hle (Nat.le_refl _))).
  unfold mret, M_ret. do 2 f_equal.
  - rewrite length_app, length_drop. lia.
  - by rewrite take_app_length, drop_ge, app_nil_r.
Qed.

Lemma filter_well_sorted (P : V → Prop) `{∀ x, Decision (P x)} l :
  well_sorted l → well_sorted (base.filter P l).
Proof. apply sorted_filter. Qed.

Lemma erase_well_sorted l i j : well_sorted l → i ≤ j → well_sorted (take i l ++ drop j l).
Proof.
  intros Hs Hij. rewrite <-(take_drop i l) in Hs.
  apply sorted_app in Hs as (Ht&Hd&Htd). rewrite <-(take_drop (j - i) (drop i l)) in Hd, Htd.
  rewrite drop_drop in Hd, Htd. replace (i + (j - i)) with j in Hd, Htd by lia.
  apply sorted_app in Hd as (_&Hd&_). apply sorted_app. split; [done|]. split; [done|].
  intros x y Hx Hy. apply Htd; [done|]. apply elem_of_app. by right.
Qed.

(** Where there is at most one element of a class, filtering keeps it or leaves none. *)
Lemma view_filter k (p : V → bool) l : well_sorted l →
  view k (base.filter (λ x, p x = false) l) =
  match view k l with Some x => if p x then None else Some x | None => None end.
Proof.
  unfold view. induction 1 as [|x l Hl IH Hx]; [done|]. rewrite filter_cons. simpl.
  destruct (has_key k x) eqn:Ek.
  - destruct (p x) eqn:Ep.
    + rewrite decide_False by done. apply find_None. intros y [_ Hy]%list_elem_of_filter.
      rewrite Forall_forall in Hx. apply (class_more vless (has_key k) x y); [|done]. by apply Hx.
    + rewrite decide_True by done. simpl. by rewrite Ek.
  - destruct (p x) eqn:Ep; [by rewrite decide_False|].
    rewrite decide_True by done. simpl. by rewrite Ek.
Qed.

Lemma view_without k0 k l : well_sorted l →
  view k (without k0 l) = if equivalent less k k0 then None else view k l.
Proof.
  intros Hs. unfold without. rewrite view_filter by done.
  assert (∀ x, has_key k x = true → has_key k0 x = equivalent less k k0) as Hk.
  { intros x Hx. unfold has_key in *. rewrite (equivalent_sym less k0).
    symmetry. by apply equivalent_proper. }
  destruct (view k l) as [x|] eqn:E; [|by destruct (equivalent less k k0)].
  apply find_some in E as [_ E]. by rewrite (Hk x E).
Qed.

(** ** Overwriting *)

(** A body with the element at the position of a key exchanged for an equivalent one. *)
Lemma exchange_spec v l n x :
  well_sorted l → l !! n = Some x → has_key (key_of v) x = true →
  well_sorted (<[n := v]> l) ∧
  ∀ k, view k (<[n := v]> l) = if has_key k v then Some v else view k l.
Proof.
  intros Hs Hx Hk. rewrite insert_take_drop by by eapply lookup_lt_Some.
  rewrite <-(take_drop_middle l n x Hx) in Hs. unfold well_sorted in *.
  apply sorted_app in Hs as (Ht&[Hd Hxd]%StronglySorted_inv&Htd). rewrite Forall_forall in Hxd.
  assert (equivalent vless v x = true) as Heq by exact Hk.
  assert (∀ y, y ∈ take n l → vless y v = true) as Hlt.
  { intros y Hy. rewrite (equivalent_less_r vless v x y Heq). apply Htd; [done|by left]. }
  assert (∀ y, y ∈ drop (S n) l → vless v y = true) as Hgt.
  { intros y Hy. rewrite (equivalent_less_l vless v x y Heq). by apply Hxd. }
  split.
  - apply sorted_app. split; [done|]. split; [constructor; [done|by apply Forall_forall]|].
    intros a b Ha [->|Hb]%elem_of_cons; [by apply Hlt|]. apply Htd; [done|by right].
  - intros k. unfold view. rewrite <-(take_drop_middle l n x Hx) at 3. rewrite !find_app. simpl.
    destruct (has_key k v) eqn:Ev.
    + replace (List.find (has_key k) (take n l)) with (@None V); [done|]. symmetry.
      apply find_None. intros y Hy. apply (class_less vless (has_key k) y v); [|done]. by apply Hlt.
    + replace (has_key k x) with false; [done|]. destruct (has_key k x) eqn:Ex; [|done].
      rewrite (one_class vless x v Ex), equivalent_sym in Ev. congruence.
Qed.

Lemma run_assign_at l n x v : l !! n = Some x → FlatTree.assign_at n v l = Ok (tt, <[n := v]> l).
Proof. intros Hx. unfold FlatTree.assign_at. by rewrite (bind_run _ _ _ _ _ (run_deref l n x Hx)). Qed.

Lemma run_insert_or_assign_value v l :
  well_sorted l →
  ∃ r l', FlatTree.insert_or_assign_value key_of less v l = Ok (r, l') ∧ well_sorted l' ∧
    r.2 = is_none (view (key_of v) l) ∧ l' !! r.1 = Some v ∧
    ∀ k, view k l' = if has_key k v then Some v else view k l.
Proof.
  intros Hs. destruct (below_splits (key_of v) l Hs) as [n Hn].
  unfold FlatTree.insert_or_assign_value.
  rewrite (bind_run _ _ _ _ _ (run_lower_bound _ _ _ Hn)).
  rewrite (bind_run _ _ _ _ _ (run_beyond _ _ _ Hs Hn)).
  destruct (view (key_of v) l) as [x|] eqn:E; cbn [is_none].
  - pose proof (view_Some_at _ _ _ _ Hs Hn E) as Hx.
    rewrite (bind_run _ _ _ _ _ (run_assign_at l n x v Hx)).
    apply find_some in E as [_ Hk]. destruct (exchange_spec v l n x Hs Hx Hk) as [Hs' Hv].
    eexists _, _. split; [done|]. split; [done|]. split; [done|]. split; [|done].
    apply list_lookup_insert_eq. by eapply lookup_lt_Some.
  - rewrite (bind_run _ _ _ _ _ (run_vector_emplace l n v (proj1 Hn))).
    eexists _, _. split; [done|]. simpl. rewrite insert_position by apply Hn.
    rewrite (insert_at_split v l n) by done. split; [by apply ins_sorted|].
    split; [done|]. split; [done|]. intros k. rewrite view_ins by done. unfold view in *.
    rewrite find_app. simpl. destruct (has_key k v) eqn:Ev; [|by destruct (List.find (has_key k) l)].
    replace (List.find (has_key k) l) with (@None V); [done|]. symmetry. apply find_None.
    intros y Hy. rewrite (one_class vless v y Ev). exact (proj1 (find_None _ _) E y Hy).
Qed.
End lemmas.
