(* ===== verification/FlatTreeTheorems.v ===== *)
(** Properties of [flat_tree] and [flat_map]: searching, the effect of any sequence of
    operations on the element found under each key, inserting ranges, and [flat_map] as
    an implementation of finite maps. *)
From S2P Require Import Prelude StdAlgorithms FlatTree FlatTreeLemmas.
From Stdlib Require Import ZArith Lia Sorted.
From stdpp Require Import base tactics numbers strings gmap list.

Open Scope nat_scope.

Section tree.
Context {K V : Type} (key_of : V → K) (less : K → K → bool) `{!StrictWeakOrder less}.
Implicit Types (l : list V) (x v : V) (k : K).

#[local] Abbreviation vless := (FlatTree.value_compare key_of less).
#[local] Abbreviation well_sorted := (well_sorted key_of less).
#[local] Abbreviation view := (view key_of less).
#[local] Abbreviation has_key := (has_key key_of less).
#[local] Abbreviation ins := (ins key_of less).
#[local] Abbreviation ins_all := (ins_all key_of less).

(** ** Searching *)

(** The number of elements before the first one whose key is not less, and before the
    first one whose key is greater. *)
Definition rank k l : nat := length (base.filter (λ x, less (key_of x) k = true) l).
Definition rank_after k l : nat := length (base.filter (λ x, less k (key_of x) = false) l).

Lemma splits_count (p : V → bool) l n :
  splits p l n → length (base.filter (λ x, p x = true) l) = n.
Proof.
  revert n. induction l as [|x l IH]; intros n (Hn&Hlo&Hhi); [simpl in *; lia|].
  assert (∀ m, n = S m → splits p l m) as Htl.
  { intros m ->. split; [simpl in Hn; lia|].
    split; intros i y Hi Hy; [apply (Hlo (S i) y)|apply (Hhi (S i) y)]; (lia || done). }
  rewrite filter_cons. destruct n as [|n].
  - rewrite decide_False by by rewrite (Hhi 0 x ltac:(lia) eq_refl).
    apply IH. split; [lia|]. split; [lia|]. intros i y Hi Hy. apply (Hhi (S i) y); (lia || done).
  - rewrite decide_True by by apply (Hlo 0 x); [lia|]. simpl. f_equal. by apply IH, Htl.
Qed.

Lemma above_splits k l : well_sorted l → ∃ n, splits (λ v, negb (less k (key_of v))) l n.
Proof.
  intros Hs. apply splits_exists. induction Hs as [|x l Hl IH Hx]; constructor; [done|].
  eapply Forall_impl; [exact Hx|]. intros y Hxy Hy. apply negb_true_iff in Hy. apply negb_true_iff.
  apply (less_negtrans _ (key_of y)); [done|]. by apply less_asym.
Qed.

Lemma run_upper_bound k l :
  well_sorted l → FlatTree.upper_bound key_of less k l = Ok (rank_after k l, l).
Proof.
  intros Hs. destruct (above_splits k l Hs) as [n Hn].
  unfold FlatTree.upper_bound, mbind, M_bind, get, mret, M_ret.
  rewrite (partition_point_whole _ _ _ Hn). do 2 f_equal. rewrite <-(splits_count _ _ _ Hn).
  unfold rank_after. f_equal. apply list_filter_iff. intros x. by destruct (less k (key_of x)).
Qed.

(** The position behind the class of a key, from the one before it. *)
Lemma above_at k l n :
  well_sorted l → splits (λ v, less (key_of v) k) l n →
  splits (λ v, negb (less k (key_of v))) l (if is_none (view k l) then n else n + 1).
Proof.
  intros Hs Hn. rewrite (view_at key_of less k l n Hs Hn). destruct Hn as (Hn&Hlo&Hhi).
  assert (∀ i y, i < n → l !! i = Some y → negb (less k (key_of y)) = true) as Hbefore.
  { intros i y Hi Hy. apply negb_true_iff, less_asym, (Hlo i y); done. }
  destruct (l !! n) as [x|] eqn:Hx.
  - pose proof (lookup_lt_Some _ _ _ Hx) as Hlt.
    assert (∀ i y, n < i → l !! i = Some y → negb (less k (key_of y)) = false) as Hafter.
    { intros i y Hi Hy. apply negb_false_iff.
      apply (not_less_less less _ (key_of x)); [by apply (Hhi n x)|].
      exact (sorted_lookup _ l n i x y Hs Hi Hx Hy). }
    destruct (less k (key_of x)) eqn:E; simpl; (split; [lia|]; split; intros i y Hi Hy).
    + by apply (Hbefore i).
    + destruct (decide (i = n)) as [->|]; [|by apply (Hafter i); [lia|]].
      rewrite Hx in Hy. injection Hy as <-. by rewrite E.
    + destruct (decide (i = n)) as [->|]; [|by apply (Hbefore i); [lia|]].
      rewrite Hx in Hy. injection Hy as <-. by rewrite E.
    + by apply (Hafter i); [lia|].
  - apply lookup_ge_None in Hx. simpl. split; [lia|]. split; [done|].
    intros i y Hi Hy%lookup_lt_Some. lia.
Qed.

Lemma run_find k l n : well_sorted l → splits (λ v, less (key_of v) k) l n →
  FlatTree.find key_of less k l = Ok (if is_none (view k l) then length l else n, l).
Proof.
  intros Hs Hn. unfold FlatTree.find.
  rewrite (bind_run _ _ _ _ _ (run_equal_range key_of less k l n Hs Hn)). cbn [fst snd].
  destruct (is_none (view k l)); [by rewrite Nat.eqb_refl|].
  by rewrite (proj2 (Nat.eqb_neq n (n + 1))) by lia.
Qed.

Lemma run_contains k l : well_sorted l →
  FlatTree.contains key_of less k l = Ok (negb (is_none (view k l)), l).
Proof.
  intros Hs. destruct (below_splits key_of less k l Hs) as [n Hn]. unfold FlatTree.contains.
  rewrite (bind_run _ _ _ _ _ (run_lower_bound key_of less k l n Hn)).
  rewrite (bind_run _ _ _ _ _ (run_end l)), (view_at key_of less k l n Hs Hn).
  destruct (Nat.eqb_spec n (length l)) as [->|Hne]; [by rewrite lookup_ge_None_2|].
  destruct (lookup_lt_is_Some_2 l n) as [x Hx]; [pose proof (proj1 Hn); lia|].
  rewrite (bind_run _ _ _ _ _ (run_deref l n x Hx)), Hx. by destruct (less k (key_of x)).
Qed.

(** In a sorted body the searches agree with each other and with counting: the
    bounds are the numbers of smaller and of not greater keys, [equal_range] lies between
    them, [find] leads to the element with the key or to the end, and [contains] and
    [count] tell which. *)
Theorem searches_agree l k :
  well_sorted l →
  FlatTree.lower_bound key_of less k l = Ok (rank k l, l) ∧
  FlatTree.upper_bound key_of less k l = Ok (rank_after k l, l) ∧
  FlatTree.equal_range key_of less k l = Ok ((rank k l, rank_after k l), l) ∧
  match view k l with
  | Some x =>
    l !! rank k l = Some x ∧ rank_after k l = S (rank k l) ∧
    FlatTree.find key_of less k l = Ok (rank k l, l) ∧
    FlatTree.contains key_of less k l = Ok (true, l) ∧ FlatTree.count key_of less k l = Ok (1, l)
  | None =>
    rank_after k l = rank k l ∧ FlatTree.find key_of less k l = Ok (length l, l) ∧
    FlatTree.contains key_of less k l = Ok (false, l) ∧ FlatTree.count key_of less k l = Ok (0, l)
  end.
Proof.
  intros Hs. destruct (below_splits key_of less k l Hs) as [n Hn].
  assert (rank k l = n) as Hr by exact (splits_count _ _ _ Hn).
  assert (rank_after k l = if is_none (view k l) then n else n + 1) as Hra.
  { rewrite <-(splits_count _ _ _ (above_at k l n Hs Hn)). unfold rank_after. f_equal.
    apply list_filter_iff. intros x. by destruct (less k (key_of x)). }
  pose proof (run_equal_range key_of less k l n Hs Hn) as He. rewrite <-Hra in He.
  assert (FlatTree.count key_of less k l = Ok (rank_after k l - n, l)) as Hc.
  { unfold FlatTree.count. by rewrite (bind_run _ _ _ _ _ He). }
  rewrite Hr. split; [exact (run_lower_bound key_of less k l n Hn)|].
  split; [by apply run_upper_bound|]. split; [exact He|].
  pose proof (run_find k l n Hs Hn) as Hf. pose proof (run_contains k l Hs) as Hb.
  destruct (view k l) as [x|] eqn:E; simpl in *; rewrite Hra in Hc.
  - split; [by apply (view_Some_at key_of less k)|]. split; [lia|].
    split; [done|]. split; [done|]. rewrite Hc. do 2 f_equal. lia.
  - split; [done|]. split; [done|]. split; [done|]. rewrite Hc. do 2 f_equal. lia.
Qed.

(** ** Inserting *)

(** Inserting the elements of a sequence one by one, from the first to the last. *)
Definition insert_each (items : list V) : M (list V) unit :=
  for_each (λ v, _ ← FlatTree.insert key_of less v; mret tt) items.

Lemma run_insert v l : well_sorted l →
  ∃ n, FlatTree.insert key_of less v l = Ok ((n, is_none (view (key_of v) l)), ins v l) ∧
    (ins v l) !! n = Some (default v (view (key_of v) l)).
Proof.
  intros Hs. destruct (below_splits key_of less (key_of v) l Hs) as [n Hn]. exists n.
  split; [by apply run_emplace_key_args|]. destruct (view (key_of v) l) as [x|] eqn:E; simpl.
  - rewrite (ins_present key_of less v l x) by done. by apply (view_Some_at key_of less (key_of v)).
  - rewrite <-(insert_at_split key_of less v l n) by done. by apply insert_position, Hn.
Qed.

Lemma run_insert_each items l : well_sorted l → insert_each items l = Ok (tt, ins_all items l).
Proof.
  unfold insert_each. revert l. induction items as [|v items IH]; intros l Hs; [done|].
  cbn [for_each]. destruct (run_insert v l Hs) as (n&Hr&_).
  rewrite (bind_run _ _ _ tt (ins v l)); [by apply IH, ins_sorted|].
  by rewrite (bind_run _ _ _ _ _ Hr).
Qed.

(** The batch insertion, whatever the iterators, leaves what inserting the elements
    one after the other leaves, and so do the constructors and the assignment from a
    list, starting from nothing; a hint changes neither the tree nor the answer. *)
Theorem batch_insertion l items multipass hint v :
  well_sorted l → hint ≤ length l →
  FlatTree.insert_range key_of less multipass items l = insert_each items l ∧
  FlatTree.construct key_of less items l = insert_each items [] ∧
  FlatTree.assign_list key_of less items l = insert_each items [] ∧
  FlatTree.emplace_hint_key_args key_of less hint (key_of v) v l = FlatTree.insert key_of less v l.
Proof.
  intros Hs Hh. assert (well_sorted []) as Hnil by constructor.
  rewrite !run_insert_each by done. split; [by apply run_insert_range|].
  split; [apply (run_construct key_of less)|]. split; [apply (run_construct key_of less)|].
  by apply hint_irrelevant.
Qed.

(** ** Any sequence of operations *)

Inductive tree_op :=
  | OInsert (v : V) | OInsertHint (hint : nat) (v : V) | OInsertRange (multipass : bool) (vs : list V)
  | OInsertOrAssign (v : V) | OEraseKey (k : K) | OEraseFound (k : K) | OEraseIf (p : V → bool)
  | OClear | OAssign (vs : list V) | OReplace (vs : list V) | OExtractReplace.

(** [OEraseFound] is [it = find(k); if (it != end()) erase(it)], and [OExtractReplace]
    takes the vector out and puts it back. *)
Definition run_op `{!BuildConfig} (op : tree_op) : M (list V) unit :=
  match op with
  | OInsert v => _ ← FlatTree.insert key_of less v; mret tt
  | OInsertHint h v => _ ← FlatTree.insert_hint key_of less h v; mret tt
  | OInsertRange mp vs => FlatTree.insert_range key_of less mp vs
  | OInsertOrAssign v => _ ← FlatTree.insert_or_assign_value key_of less v; mret tt
  | OEraseKey k => _ ← FlatTree.erase_key key_of less k; mret tt
  | OEraseFound k =>
    it ← FlatTree.find key_of less k; e ← FlatTree.end_;
    if it =? e then mret tt else _ ← FlatTree.erase_at it; mret tt
  | OEraseIf p => _ ← FlatTree.EraseIf p; mret tt
  | OClear => FlatTree.clear
  | OAssign vs => FlatTree.assign_list key_of less vs
  | OReplace vs => FlatTree.replace key_of less vs
  | OExtractReplace => body ← FlatTree.extract; FlatTree.replace key_of less body
  end.

(** A hint is an iterator of the tree; the body given to [replace] is sorted. *)
Definition legal (op : tree_op) l : Prop :=
  match op with
  | OInsertHint h _ => h ≤ length l
  | OReplace vs => well_sorted vs
  | _ => True
  end.

(** What an operation does to the element found under each key: new elements are taken
    where there is none. *)
Definition add_new (vs : list V) (a : K → option V) : K → option V := λ k,
  match a k with Some x => Some x | None => view k vs end.
Definition op_spec (op : tree_op) (a : K → option V) : K → option V :=
  match op with
  | OInsert v | OInsertHint _ v => add_new [v] a
  | OInsertRange _ vs => add_new vs a
  | OInsertOrAssign v => λ k, if has_key k v then Some v else a k
  | OEraseKey k0 | OEraseFound k0 => λ k, if equivalent less k k0 then None else a k
  | OEraseIf p => λ k, match a k with Some x => if p x then None else Some x | None => None end
  | OClear => λ _, None
  | OAssign vs | OReplace vs => λ k, view k vs
  | OExtractReplace => a
  end.

Lemma replace_returns `{!BuildConfig} vs l :
  well_sorted vs → FlatTree.replace key_of less vs l = Ok (tt, vs).
Proof.
  intros Hs. apply (wp_ok_eq (FlatTree.replace key_of less vs)). unfold FlatTree.replace.
  apply wp_bind, wp_dcheck; [by intros _; apply (is_sorted_strict vless)|].
  apply wp_bind, wp_dcheck; [by intros _; apply (no_adjacent_sorted vless)|]. by apply wp_put.
Qed.

Lemma erase_found k l : well_sorted l →
  (it ← FlatTree.find key_of less k; e ← FlatTree.end_;
   if it =? e then mret tt else _ ← FlatTree.erase_at it; mret tt) l =
  Ok (tt, without key_of less k l).
Proof.
  intros Hs. destruct (below_splits key_of less k l Hs) as [n Hn].
  rewrite (bind_run _ _ _ _ _ (run_find k l n Hs Hn)), (bind_run _ _ _ _ _ (run_end l)).
  destruct (view k l) as [x|] eqn:E; simpl.
  - pose proof (view_Some_at key_of less k l n x Hs Hn E) as Hlt%lookup_lt_Some.
    rewrite (proj2 (Nat.eqb_neq n (length l))) by lia.
    rewrite (bind_run _ _ _ n (without key_of less k l)); [done|].
    unfold FlatTree.erase_at. rewrite (bind_run _ _ _ _ _ (run_end l)).
    rewrite (bind_run _ _ _ tt l) by by rewrite (proj2 (Nat.eqb_neq n (length l))) by lia.
    rewrite run_vector_erase by lia. by rewrite (without_present key_of less k l n x).
  - by rewrite Nat.eqb_refl, without_absent.
Qed.

Lemma run_op_spec `{!BuildConfig} op l :
  well_sorted l → legal op l →
  ∃ l', run_op op l = Ok (tt, l') ∧ well_sorted l' ∧
    ∀ k, view k l' = op_spec op (λ k, view k l) k.
Proof.
  intros Hs Hlegal. assert (well_sorted []) as Hnil by constructor.
  assert (∀ vs k, view k (ins_all vs l) = add_new vs (λ k, view k l) k) as Hnew.
  { intros vs k. rewrite view_ins_all by done. apply find_app. }
  destruct op as [v|h v|mp vs|v|k0|k0|p| |vs|vs|]; simpl in *.
  - destruct (run_insert v l Hs) as (n&Hr&_). rewrite (bind_run _ _ _ _ _ Hr).
    exists (ins v l). split; [done|]. split; [by apply ins_sorted|]. apply (Hnew [v]).
  - destruct (run_insert v l Hs) as (n&Hr&_). unfold FlatTree.insert_hint.
    rewrite (bind_run _ _ _ n (ins v l)).
    2:{ by rewrite (bind_run _ _ _ _ _ (eq_trans (hint_irrelevant key_of less h v l Hs Hlegal) Hr)). }
    exists (ins v l). split; [done|]. split; [by apply ins_sorted|]. apply (Hnew [v]).
  - exists (ins_all vs l). split; [by apply run_insert_range|].
    split; [by apply ins_all_sorted|]. apply Hnew.
  - destruct (run_insert_or_assign_value key_of less v l Hs) as (r&l'&Hr&Hs'&_&_&Hv).
    exists l'. by rewrite (bind_run _ _ _ _ _ Hr).
  - exists (without key_of less k0 l). rewrite (bind_run _ _ _ _ _ (run_erase_key key_of less k0 l Hs)).
    split; [done|]. split; [by apply filter_well_sorted|]. intros k. by apply view_without.
  - exists (without key_of less k0 l). split; [by apply erase_found|].
    split; [by apply filter_well_sorted|]. intros k. by apply view_without.
  - rewrite (bind_run _ _ _ _ _ (run_EraseIf p l)). eexists. split; [done|].
    split; [by apply filter_well_sorted|]. intros k. by apply view_filter.
  - by exists [].
  - exists (ins_all vs []). split; [by apply (run_construct key_of less)|].
    split; [by apply ins_all_sorted|]. intros k. by rewrite view_ins_all.
  - exists vs. split; [by apply replace_returns|done].
  - exists l. split; [|done]. rewrite (bind_run _ _ _ l []) by done. by apply replace_returns.
Qed.

Fixpoint run_ops `{!BuildConfig} (ops : list tree_op) : M (list V) unit :=
  match ops with
  | [] => mret tt
  | op :: ops' => _ ← run_op op; run_ops ops'
  end.
Fixpoint all_legal `{!BuildConfig} (ops : list tree_op) l : Prop :=
  match ops with
  | [] => True
  | op :: ops' => legal op l ∧ ∀ l', run_op op l = Ok (tt, l') → all_legal ops' l'
  end.
Definition ops_spec (ops : list tree_op) (a : K → option V) : K → option V :=
  foldl (λ a op, op_spec op a) a ops.

Lemma op_spec_proper op a b : (∀ k, a k = b k) → ∀ k, op_spec op a k = op_spec op b k.
Proof. intros Hab k. destruct op; simpl; unfold add_new; by rewrite ?Hab. Qed.

Lemma ops_spec_proper ops a b : (∀ k, a k = b k) → ∀ k, ops_spec ops a k = ops_spec ops b k.
Proof.
  unfold ops_spec. revert a b. induction ops as [|op ops IH]; intros a b Hab; [done|].
  apply IH. by apply op_spec_proper.
Qed.

(** C10. Any sequence of operations on an empty tree returns and leaves a sorted body
    without equivalent keys, in which each key finds what the sequence of abstract
    operations, that know nothing of positions and sorting, says; and this determines the
    body. *)
Theorem flat_tree_refines `{!BuildConfig} ops :
  all_legal ops [] →
  ∃ l, run_ops ops [] = Ok (tt, l) ∧ well_sorted l ∧
    (∀ k, view k l = ops_spec ops (λ _, None) k) ∧
    ∀ l', well_sorted l' → (∀ k, view k l' = ops_spec ops (λ _, None) k) → l' = l.
Proof.
  assert (∀ l, well_sorted l → all_legal ops l →
    ∃ l', run_ops ops l = Ok (tt, l') ∧ well_sorted l' ∧
      ∀ k, view k l' = ops_spec ops (λ k, view k l) k) as Hgen.
  { induction ops as [|op ops IH]; intros l Hs Hl; [by exists l|]. destruct Hl as [Hop Hl].
    destruct (run_op_spec op l Hs Hop) as (l1&Hr&Hs1&Hv1). simpl.
    rewrite (bind_run _ _ _ _ _ Hr). destruct (IH l1 Hs1 (Hl l1 Hr)) as (l'&Hr'&Hs'&Hv').
    exists l'. split; [done|]. split; [done|]. intros k. rewrite Hv'. by apply ops_spec_proper. }
  intros Hl. destruct (Hgen [] ltac:(constructor) Hl) as (l&Hr&Hs&Hv).
  exists l. split; [done|]. split; [done|]. split; [done|]. intros l' Hs' Hv'.
  apply (tree_view_ext key_of less); [done..|]. intros k. by rewrite Hv', Hv.
Qed.
End tree.

(** * flat_map as a finite map *)

Section map.
Context {K T : Type} `{Countable K} (less : K → K → bool) `{!StrictWeakOrder less}.
(** Keys that are not less either way are equal, as for [std::less]. *)
Context (less_total : ∀ x y, equivalent less x y = true → x = y).
Context (value_init : T).
Implicit Types (l : list (K * T)) (k : K) (t : T).

#[local] Abbreviation key_of := (pair_first (K := K) (T := T)).
#[local] Abbreviation well_sorted := (well_sorted key_of less).
#[local] Abbreviation view := (view key_of less).

Definition to_gmap l : gmap K T := list_to_map l.

Lemma has_key_eq k (x : K * T) : has_key key_of less k x = bool_decide (k = x.1).
Proof.
  unfold has_key, pair_first. case_bool_decide as E.
  - rewrite E. by apply equivalent_refl.
  - destruct (equivalent less k x.1) eqn:He; [|done]. by apply less_total in He.
Qed.

Lemma lookup_to_gmap k l : to_gmap l !! k = snd <$> view k l.
Proof.
  unfold to_gmap, FlatTreeLemmas.view. induction l as [|[k' t] l IH]; [done|].
  simpl. rewrite has_key_eq. case_bool_decide as E; simpl in E.
  - subst. by rewrite lookup_insert_eq.
  - by rewrite lookup_insert_ne.
Qed.

Lemma view_key k l x : view k l = Some x → x.1 = k.
Proof.
  intros [_ Hx]%find_some. rewrite has_key_eq in Hx. by apply bool_decide_eq_true in Hx.
Qed.

Lemma keys_NoDup l : well_sorted l → NoDup l.*1.
Proof.
  intros Hs. induction Hs as [|x l Hl IH Hx]; simpl; constructor; [|done].
  rewrite list_elem_of_fmap. intros (y&Hxy&Hy). rewrite Forall_forall in Hx.
  specialize (Hx y Hy). unfold FlatTree.value_compare, pair_first in Hx.
  by rewrite Hxy, (less_irrefl less) in Hx.
Qed.

(** The operations with their answers, on the container and on a map. *)
Inductive map_op :=
  | MInsertOrAssign k t | MInsertOrAssignHint (hint : nat) k t | MTryEmplace k t
  | MTryEmplaceHint (hint : nat) k t | MIndexAssign k t | MIndex k | MAt k | MErase k
  | MContains k | MSize | MAssignList (items : list (K * T)).
Inductive map_answer := AFlag (b : bool) | AValue (t : T) | ACount (n : nat) | ADone.

Definition run_map_op (op : map_op) : M (list (K * T)) map_answer :=
  match op with
  | MInsertOrAssign k t => r ← FlatMap.insert_or_assign less k t; mret (AFlag r.2)
  | MInsertOrAssignHint h k t => _ ← FlatMap.insert_or_assign_hint less h k t; mret ADone
  | MTryEmplace k t => r ← FlatMap.try_emplace less k t; mret (AFlag r.2)
  | MTryEmplaceHint h k t => _ ← FlatMap.try_emplace_hint less h k t; mret ADone
  | MIndexAssign k t =>
    it ← FlatMap.index less value_init k; _ ← FlatMap.assign_second it t; mret ADone
  | MIndex k =>
    it ← FlatMap.index less value_init k; x ← FlatTree.deref_at it; mret (AValue x.2)
  | MAt k => t ← FlatMap.at_ less k; mret (AValue t)
  | MErase k => n ← FlatTree.erase_key key_of less k; mret (ACount n)
  | MContains k => b ← FlatTree.contains key_of less k; mret (AFlag b)
  | MSize => n ← FlatTree.size; mret (ACount n)
  | MAssignList items => _ ← FlatMap.assign_list less items; mret ADone
  end.

Definition map_op_spec (op : map_op) (m : gmap K T) : outcome (map_answer * gmap K T) :=
  match op with
  | MInsertOrAssign k t => Ok (AFlag (is_none (m !! k)), <[k := t]> m)
  | MInsertOrAssignHint _ k t => Ok (ADone, <[k := t]> m)
  | MTryEmplace k t => Ok (AFlag (is_none (m !! k)), <[k := default t (m !! k)]> m)
  | MTryEmplaceHint _ k t => Ok (ADone, <[k := default t (m !! k)]> m)
  | MIndexAssign k t => Ok (ADone, <[k := t]> m)
  | MIndex k => Ok (AValue (default value_init (m !! k)), <[k := default value_init (m !! k)]> m)
  | MAt k =>
    match m !! k with
    | Some t => Ok (AValue t, m)
    | None => Fault (CheckFailed "found != tree::end()")
    end
  | MErase k => Ok (ACount (if is_none (m !! k) then 0 else 1), delete k m)
  | MContains k => Ok (AFlag (negb (is_none (m !! k))), m)
  | MSize => Ok (ACount (base.size m), m)
  | MAssignList items => Ok (ADone, list_to_map items)
  end.

Definition map_legal (op : map_op) l : Prop :=
  match op with
  | MInsertOrAssignHint h _ _ | MTryEmplaceHint h _ _ => h ≤ length l
  | _ => True
  end.

Lemma is_none_fmap {A B} (f : A → B) o : is_none (f <$> o) = is_none o.
Proof. by destruct o. Qed.

(** A body of which the views changed at one key only. *)
Lemma to_gmap_insert l l' k t :
  (∀ j, view j l' = if bool_decide (j = k) then Some (k, t) else view j l) →
  to_gmap l' = <[k := t]> (to_gmap l).
Proof.
  intros Hv. apply map_eq. intros j. rewrite lookup_to_gmap, Hv. case_bool_decide as E.
  - subst. by rewrite lookup_insert_eq.
  - by rewrite lookup_insert_ne, lookup_to_gmap.
Qed.

Lemma run_emplace k t l : well_sorted l →
  ∃ n l', FlatTree.emplace_key_args key_of less k (k, t) l = Ok ((n, is_none (to_gmap l !! k)), l') ∧
    well_sorted l' ∧ to_gmap l' = <[k := default t (to_gmap l !! k)]> (to_gmap l) ∧
    l' !! n = Some (k, default t (to_gmap l !! k)).
Proof.
  intros Hs. destruct (run_insert key_of less (k, t) l Hs) as (n&Hr&Hn).
  rewrite lookup_to_gmap, is_none_fmap. exists n, (ins key_of less (k, t) l).
  split; [exact Hr|]. split; [by apply ins_sorted|]. change (pair_first (k, t)) with k in Hn.
  rewrite Hn. split.
  - apply to_gmap_insert. intros j. rewrite view_ins by done.
    trans (match view j l with Some x => Some x | None => view j [(k, t)] end); [apply find_app|].
    unfold FlatTreeLemmas.view at 2. simpl. rewrite has_key_eq. simpl. case_bool_decide as E.
    + subst j. destruct (view k l) as [[k' t']|] eqn:Ev; [|done].
      by rewrite <-(view_key _ _ _ Ev).
    + by destruct (view j l).
  - f_equal. destruct (view k l) as [[k' t']|] eqn:Ev; [|done]. simpl.
    by rewrite <-(view_key _ _ _ Ev).
Qed.

Lemma run_assign_second l n k t0 t : well_sorted l → l !! n = Some (k, t0) →
  FlatMap.assign_second n t l = Ok (tt, <[n := (k, t)]> l) ∧ well_sorted (<[n := (k, t)]> l) ∧
  to_gmap (<[n := (k, t)]> l) = <[k := t]> (to_gmap l).
Proof.
  intros Hs Hn. destruct (exchange_spec key_of less (k, t) l n (k, t0) Hs Hn) as [Hs' Hv].
  { by rewrite has_key_eq, bool_decide_eq_true. }
  split; [|split; [done|]].
  - unfold FlatMap.assign_second. rewrite (bind_run _ _ _ _ _ (run_deref l n _ Hn)).
    by apply (run_assign_at l n (k, t0)).
  - apply to_gmap_insert. intros j. by rewrite Hv, has_key_eq.
Qed.

Lemma index_is_emplace k :
  ∀ l, FlatMap.index less value_init k l =
  (r ← FlatTree.emplace_key_args key_of less k (k, value_init); _ ← FlatTree.deref_at r.1; mret r.1) l.
Proof.
  intros l. unfold FlatMap.index, FlatTree.emplace_key_args, mbind, M_bind.
  destruct (FlatTree.lower_bound key_of less k l) as [[n l1]|]; [|done].
  destruct (FlatTree.beyond key_of less k n l1) as [[[] l2]|]; [|done|done].
  by destruct (FlatTree.unsafe_emplace n (k, value_init) l2) as [[p l3]|].
Qed.

Lemma run_index k l : well_sorted l →
  ∃ n l', FlatMap.index less value_init k l = Ok (n, l') ∧
    well_sorted l' ∧ to_gmap l' = <[k := default value_init (to_gmap l !! k)]> (to_gmap l) ∧
    l' !! n = Some (k, default value_init (to_gmap l !! k)).
Proof.
  intros Hs. destruct (run_emplace k value_init l Hs) as (n&l'&Hr&Hs'&Hm&Hn).
  exists n, l'. rewrite index_is_emplace, (bind_run _ _ _ _ _ Hr). cbn [fst].
  by rewrite (bind_run _ _ _ _ _ (run_deref l' n _ Hn)).
Qed.

Lemma run_at k l : well_sorted l →
  FlatMap.at_ less k l =
  match to_gmap l !! k with
  | Some t => Ok (t, l)
  | None => Fault (CheckFailed "found != tree::end()")
  end.
Proof.
  intros Hs. destruct (below_splits key_of less k l Hs) as [n Hn]. unfold FlatMap.at_.
  rewrite (bind_run _ _ _ _ _ (run_find key_of less k l n Hs Hn)), (bind_run _ _ _ _ _ (run_end l)).
  rewrite lookup_to_gmap. destruct (view k l) as [x|] eqn:E; simpl.
  - pose proof (view_Some_at key_of less k l n x Hs Hn E) as Hx.
    pose proof (lookup_lt_Some _ _ _ Hx) as Hlt.
    rewrite (proj2 (Nat.eqb_neq n (length l))) by lia.
    rewrite (bind_run _ _ _ tt l) by done. by rewrite (bind_run _ _ _ _ _ (run_deref l n x Hx)).
  - by rewrite Nat.eqb_refl.
Qed.

(** An insertion that overwrites, whichever way the pair got its place. *)
Lemma overwrite l n k t (m : gmap K T) t0 :
  well_sorted l → l !! n = Some (k, t0) → to_gmap l = <[k := t0]> m →
  ∃ l', FlatMap.assign_second n t l = Ok (tt, l') ∧ well_sorted l' ∧ to_gmap l' = <[k := t]> m.
Proof.
  intros Hs Hn Hm. destruct (run_assign_second l n k t0 t Hs Hn) as (Hr&Hs'&Hm').
  eexists. split; [exact Hr|]. split; [done|]. by rewrite Hm', Hm, insert_insert_eq.
Qed.

(** The part of [insert_or_assign] behind the insertion. *)
Lemma run_assign_old k t l : well_sorted l →
  ∃ n l1 l2, FlatTree.emplace_key_args key_of less k (k, t) l = Ok ((n, is_none (to_gmap l !! k)), l1) ∧
    (if negb (is_none (to_gmap l !! k)) then FlatMap.assign_second n t else mret tt) l1 = Ok (tt, l2) ∧
    well_sorted l2 ∧ to_gmap l2 = <[k := t]> (to_gmap l).
Proof.
  intros Hs. destruct (run_emplace k t l Hs) as (n&l'&Hr&Hs'&Hm&Hn).
  destruct (to_gmap l !! k) as [t0|] eqn:E; simpl in *.
  - destruct (overwrite l' n k t (to_gmap l) t0 Hs' Hn Hm) as (l2&Hr2&Hs2&Hm2).
    by exists n, l', l2.
  - by exists n, l', l'.
Qed.

Lemma run_map_op_refines op l : well_sorted l → map_legal op l →
  match map_op_spec op (to_gmap l) with
  | Ok (a, m') => ∃ l', run_map_op op l = Ok (a, l') ∧ well_sorted l' ∧ to_gmap l' = m'
  | Fault e => run_map_op op l = Fault e
  end.
Proof.
  intros Hs Hl. destruct op as [k t|h k t|k t|h k t|k t|k|k|k|k| |items]; simpl in *.
  - destruct (run_assign_old k t l Hs) as (n&l1&l2&Hr1&Hr2&Hs2&Hm2). exists l2.
    unfold FlatMap.insert_or_assign, mbind, M_bind. rewrite Hr1. simpl. by rewrite Hr2.
  - destruct (run_assign_old k t l Hs) as (n&l1&l2&Hr1&Hr2&Hs2&Hm2). exists l2.
    pose proof (hint_irrelevant key_of less h (k, t) l Hs Hl) as Hh.
    change (pair_first (k, t)) with k in Hh. rewrite Hr1 in Hh.
    unfold FlatMap.insert_or_assign_hint, mbind, M_bind. rewrite Hh. simpl. by rewrite Hr2.
  - destruct (run_emplace k t l Hs) as (n&l'&Hr&Hs'&Hm&_). exists l'.
    unfold FlatMap.try_emplace. by rewrite (bind_run _ _ _ _ _ Hr).
  - destruct (run_emplace k t l Hs) as (n&l'&Hr&Hs'&Hm&_). exists l'.
    pose proof (hint_irrelevant key_of less h (k, t) l Hs Hl) as Hh.
    change (pair_first (k, t)) with k in Hh. rewrite Hr in Hh.
    unfold FlatMap.try_emplace_hint, mbind, M_bind. by rewrite Hh.
  - destruct (run_index k l Hs) as (n&l1&Hr&Hs1&Hm1&Hn).
    destruct (overwrite l1 n k t (to_gmap l) _ Hs1 Hn Hm1) as (l2&Hr2&Hs2&Hm2). exists l2.
    by rewrite (bind_run _ _ _ _ _ Hr), (bind_run _ _ _ _ _ Hr2).
  - destruct (run_index k l Hs) as (n&l1&Hr&Hs1&Hm1&Hn). exists l1.
    by rewrite (bind_run _ _ _ _ _ Hr), (bind_run _ _ _ _ _ (run_deref l1 n _ Hn)).
  - unfold mbind, M_bind. rewrite (run_at k l Hs). by destruct (to_gmap l !! k); [exists l|].
  - exists (without key_of less k l). rewrite (bind_run _ _ _ _ _ (run_erase_key key_of less k l Hs)).
    rewrite lookup_to_gmap, is_none_fmap. split; [done|]. split; [by apply filter_well_sorted|].
    apply map_eq. intros j. rewrite lookup_to_gmap, view_without by done.
    change (equivalent less j k) with (has_key key_of less j (k, value_init)). rewrite has_key_eq.
    simpl. case_bool_decide as E.
    + subst. by rewrite lookup_delete_eq.
    + by rewrite lookup_delete_ne, lookup_to_gmap.
  - exists l. rewrite (bind_run _ _ _ _ _ (run_contains key_of less k l Hs)).
    by rewrite lookup_to_gmap, is_none_fmap.
  - exists l. split; [|done]. unfold to_gmap.
    rewrite map_size_list_to_map by by apply keys_NoDup. done.
  - exists (ins_all key_of less items []). assert (well_sorted []) as Hnil by constructor.
    unfold FlatMap.assign_list.
    rewrite (bind_run _ _ _ tt (ins_all key_of less items [])) by apply (run_construct key_of less).
    split; [done|]. split; [by apply ins_all_sorted|]. apply map_eq. intros k.
    rewrite lookup_to_gmap, view_ins_all by done. symmetry. apply lookup_to_gmap.
Qed.

(** A sequence of operations, with the answers. *)
Fixpoint run_seq {S Op A} (f : Op → M S A) (ops : list Op) : M S (list A) :=
  match ops with
  | [] => mret []
  | op :: ops' => a ← f op; rest ← run_seq f ops'; mret (a :: rest)
  end.
Fixpoint all_map_legal (ops : list map_op) l : Prop :=
  match ops with
  | [] => True
  | op :: ops' => map_legal op l ∧ ∀ a l', run_map_op op l = Ok (a, l') → all_map_legal ops' l'
  end.

(** C11. A [flat_map] implements finite maps: every sequence of its operations gives the
    answers the operations on a finite map give, fails the check of [at] exactly where
    the map has no such key, and leaves the pairs of that map in the order of the keys. *)
Theorem flat_map_refines_map ops :
  all_map_legal ops [] →
  match run_seq map_op_spec ops ∅ with
  | Ok (answers, m) =>
    ∃ l, run_seq run_map_op ops [] = Ok (answers, l) ∧ well_sorted l ∧ to_gmap l = m ∧
         l ≡ₚ map_to_list m
  | Fault e => run_seq run_map_op ops [] = Fault e
  end.
Proof.
  assert (∀ l, well_sorted l → all_map_legal ops l →
    match run_seq map_op_spec ops (to_gmap l) with
    | Ok (answers, m) =>
      ∃ l', run_seq run_map_op ops l = Ok (answers, l') ∧ well_sorted l' ∧ to_gmap l' = m
    | Fault e => run_seq run_map_op ops l = Fault e
    end) as Hgen.
  { induction ops as [|op ops IH]; intros l Hs Hl; [by exists l|]. destruct Hl as [Hop Hl].
    pose proof (run_map_op_refines op l Hs Hop) as H1. cbn [run_seq]. unfold mbind, M_bind.
    destruct (map_op_spec op (to_gmap l)) as [[a m1]|e]; [|by rewrite H1].
    destruct H1 as (l1&Hr1&Hs1&Hm1). rewrite Hr1. specialize (IH l1 Hs1 (Hl a l1 Hr1)).
    rewrite Hm1 in IH. destruct (run_seq map_op_spec ops m1) as [[as_ m2]|e]; [|by rewrite IH].
    destruct IH as (l2&Hr2&Hs2&Hm2). exists l2. by rewrite Hr2. }
  intros Hl. specialize (Hgen [] ltac:(constructor) Hl).
  change (to_gmap []) with (∅ : gmap K T) in Hgen.
  destruct (run_seq map_op_spec ops ∅) as [[as_ m]|e]; [|done].
  destruct Hgen as (l&Hr&Hs&Hm). exists l. split; [done|]. split; [done|]. split; [done|].
  rewrite <-Hm. symmetry. apply map_to_list_to_map. by apply keys_NoDup.
Qed.
End map.

(** * Checks and comparison *)

Section checks.
Context `{!BuildConfig} {K V : Type} `{EqDecision V} (key_of : V → K) (less : K → K → bool).
Context `{!StrictWeakOrder less}.
Implicit Types (l : list V).

#[local] Abbreviation vless := (FlatTree.value_compare key_of less).
#[local] Abbreviation well_sorted := (well_sorted key_of less).

(** Erasing at the end fails its check.  [replace] refuses a body that is not sorted
    or has equivalent keys in a checked build, and takes any body in an unchecked one;
    the comparison [==] of two sorted trees holds exactly when every key finds the same
    in both. *)
Theorem replace_and_compare l l' body :
  FlatTree.erase_at (length l) l = Fault (CheckFailed "position != impl_.body_.end()") ∧
  (RTC_DCHECK_IS_ON = true → well_sorted body ↔ FlatTree.replace key_of less body l = Ok (tt, body)) ∧
  (RTC_DCHECK_IS_ON = false → FlatTree.replace key_of less body l = Ok (tt, body)) ∧
  (well_sorted l → well_sorted l' →
   FlatTree.tree_eq l l' = true ↔ ∀ k, view key_of less k l = view key_of less k l').
Proof.
  split.
  { unfold FlatTree.erase_at. rewrite (bind_run _ _ _ _ _ (run_end l)). by rewrite Nat.eqb_refl. }
  split; [|split].
  - intros Hon. split; [by apply replace_returns|]. unfold FlatTree.replace, dcheck.
    rewrite Hon. intros (u1&s1&_&Hr)%bind_ok. apply bind_ok in Hr as (u2&s2&Hc&_).
    apply (no_adjacent_sorted vless). revert Hc. unfold check, FlatTree.equal_comp.
    by destruct (no_adjacent _ body).
  - intros Hoff. unfold FlatTree.replace, dcheck. by rewrite Hoff.
  - intros Hs Hs'. unfold FlatTree.tree_eq. rewrite bool_decide_eq_true.
    split; [by intros ->|]. by apply tree_view_ext.
Qed.
End checks.

(** * Witnesses *)

#[local] Abbreviation pairs := (pair_first (K := nat) (T := nat)).

Lemma searches_agree_witness :
  FlatTree.find pairs Nat.ltb 5 [(2, 20); (5, 50); (9, 90)] = Ok (1, [(2, 20); (5, 50); (9, 90)]).
Proof.
  pose proof (searches_agree pairs Nat.ltb [(2, 20); (5, 50); (9, 90)] 5) as H.
  destruct H as (_&_&_&H); [by repeat constructor|].
  destruct H as (_&_&H&_). exact H.
Defined.

Lemma batch_insertion_witness :
  FlatTree.insert_range pairs Nat.ltb true [(7, 1); (2, 2); (7, 3); (1, 4)] [(2, 20); (5, 50)] =
  Ok (tt, [(1, 4); (2, 20); (5, 50); (7, 1)]).
Proof.
  destruct (batch_insertion pairs Nat.ltb [(2, 20); (5, 50)] [(7, 1); (2, 2); (7, 3); (1, 4)]
    true 1 (3, 30)) as (H&_); [by repeat constructor|simpl; lia|].
  rewrite H. vm_compute. reflexivity.
Defined.

Lemma flat_tree_refines_witness :
  ∃ l, @run_ops nat (nat * nat) pairs Nat.ltb true
    [OInsert (3, 1); OInsertRange false [(5, 2); (1, 3); (3, 4)]; OEraseKey 3; OInsertHint 2 (3, 5)] []
    = Ok (tt, l) ∧ view pairs Nat.ltb 3 l = Some (3, 5).
Proof.
  destruct (@flat_tree_refines nat (nat * nat) pairs Nat.ltb _ true
    [OInsert (3, 1); OInsertRange false [(5, 2); (1, 3); (3, 4)]; OEraseKey 3; OInsertHint 2 (3, 5)])
    as (l&Hr&_&Hv&_).
  - simpl. split; [exact I|]. intros l1 [= <-]. split; [exact I|]. intros l2 [= <-].
    split; [exact I|]. intros l3 [= <-]. split; [simpl; lia|]. by intros l4 _.
  - exists l. split; [exact Hr|]. rewrite (Hv 3). reflexivity.
Defined.

Lemma flat_map_refines_map_witness :
  ∃ l, run_seq (run_map_op Nat.ltb 0) [MInsertOrAssign 4 40; MTryEmplace 4 41; MIndex 2; MAt 4] [] =
  Ok ([AFlag true; AFlag false; AValue 0; AValue 40], l).
Proof.
  pose proof (flat_map_refines_map Nat.ltb
    (λ x y H, match proj1 (equivalent_spec Nat.ltb x y) H with
              | conj H1 H2 => Nat.le_antisymm _ _ (proj1 (Nat.ltb_ge _ _) H2) (proj1 (Nat.ltb_ge _ _) H1)
              end) 0
    [MInsertOrAssign 4 40; MTryEmplace 4 41; MIndex 2; MAt 4]) as H.
  assert (all_map_legal Nat.ltb 0 [MInsertOrAssign 4 40; MTryEmplace 4 41; MIndex 2; MAt 4] []) as Hl.
  { simpl. repeat (split; [exact I|]; intros ??[= <- <-]). exact I. }
  specialize (H Hl). vm_compute in H. destruct H as (l&Hr&_). exists l. exact Hr.
Defined.

Lemma replace_and_compare_witness :
  @FlatTree.replace true nat (nat * nat) pairs Nat.ltb [(1, 1); (3, 1)] [] = Ok (tt, [(1, 1); (3, 1)]).
Proof.
  destruct (@replace_and_compare true nat (nat * nat) _ pairs Nat.ltb _ [] [] [(1, 1); (3, 1)])
    as (_&H&_&_).
  apply (H eq_refl). by repeat constructor.
Defined.
