(* ===== verification/SampleFilters.v ===== *)
(** Statistics over a moving window of samples (rtc_base/numerics): the maximum
    (moving_max_counter.h), a percentile (percentile_filter.h) and the median
    (moving_median_filter.h).

    Samples are integers.  [std::multiset] is a sorted list of nodes: an element stays where
    it is in memory while others come and go, so an iterator is the number of its node, or
    [None] for [end()].  A percentile is a [float]; products with it are rounded as the
    hardware rounds them ([round_float]). *)
From S2P Require Import Prelude NodeLists.
From Stdlib Require Import ZArith Lia.
From stdpp Require Import base tactics numbers strings list.
From coqutil Require Import Datatypes.RecordSetters.
Import TriangleBracketNotations.

Open Scope Z_scope.

(** * MovingMaxCounter *)

Module MovingMaxCounter.
Section counter.
Context `{BuildConfig}.

Record MovingMaxCounter := mkMovingMaxCounter {
  window_length_ms_ : Z;
  samples_ : list (Z * Z);
  last_call_time_ms_ : Z
}.
Abbreviation CM := (M MovingMaxCounter).

Definition construct (window_length_ms : Z) : CM unit :=
  put (mkMovingMaxCounter window_length_ms [] (- 2 ^ 63)).

Definition set_samples (l : list (Z * Z)) : CM unit := modify (λ c, c <| samples_ := l |>).

(** [new_time_ms - window_length_ms_] *)
Definition int64_minus (a b : Z) : CM Z :=
  if bool_decide (- 2 ^ 63 ≤ a - b < 2 ^ 63) then mret (a - b)
  else fail (UndefinedBehaviour "int64_t overflow").

(** An iterator is a position. *)
Definition RollWindow (new_time_ms : Z) : CM unit :=
  c ← get;
  _ ← dcheck (last_call_time_ms_ c <=? new_time_ms) "new_time_ms >= last_call_time_ms_";
  _ ← (if RTC_DCHECK_IS_ON then put (c <| last_call_time_ms_ := new_time_ms |>) else mret tt);
  window_begin_ms ← int64_minus new_time_ms (window_length_ms_ c);
  it ← while_ (length (samples_ c))
    (λ it, c ← get;
           mret (match samples_ c !! it with Some e => e.1 <? window_begin_ms | None => false end))
    (λ it, mret (S it)) 0%nat;
  set_samples (drop it (samples_ c)).

Definition Add (sample current_time_ms : Z) : CM unit :=
  _ ← RollWindow current_time_ms;
  c ← get;
  _ ← while_ (length (samples_ c))
    (λ _, c ← get; mret (match last (samples_ c) with Some e => e.2 <=? sample | None => false end))
    (λ _, c ← get; set_samples (take (length (samples_ c) - 1) (samples_ c))) tt;
  c ← get;
  if match last (samples_ c) with Some e => e.1 <? current_time_ms | None => true end
  then set_samples (samples_ c ++ [(current_time_ms, sample)])
  else mret tt.

Definition Max (current_time_ms : Z) : CM (option Z) :=
  _ ← RollWindow current_time_ms;
  c ← get;
  mret (snd <$> head (samples_ c)).

Definition Reset : CM unit := set_samples [].

End counter.
End MovingMaxCounter.

(** * [float]

    A [float] that is not negative is [mantissa * 2 ^ exponent], with a mantissa of at most
    24 bits.  The exponents that occur are in range: the products are below [2 ^ 64], and
    what is lost below the smallest exponent is less than one. *)
Record float := mkFloat { mantissa : Z; exponent : Z }.

(** Rounding to 24 bits, to the nearest, and to the even one of two that are as near. *)
Definition round_shift (m s : Z) : Z :=
  let q := m / 2 ^ s in
  let r := m mod 2 ^ s in
  if r <? 2 ^ (s - 1) then q
  else if 2 ^ (s - 1) <? r then q + 1
  else if Z.even q then q else q + 1.
Definition round_float (m e : Z) : float :=
  if m <? 2 ^ 24 then mkFloat m e
  else let s := Z.log2 m - 23 in mkFloat (round_shift m s) (e + s).

(** The conversion of a [size_t], the product of two numbers, and the conversion to an
    [int64_t], which drops the fraction. *)
Definition float_of (n : Z) : float := round_float n 0.
Definition float_mul (x y : float) : float :=
  round_float (mantissa x * mantissa y) (exponent x + exponent y).
Definition int_of_float (x : float) : Z :=
  if 0 <=? exponent x then mantissa x * 2 ^ exponent x else mantissa x / 2 ^ (- exponent x).

(** [x <= 1.0f] *)
Definition at_most_one (x : float) : bool :=
  if 0 <=? exponent x then mantissa x * 2 ^ exponent x <=? 1
  else mantissa x <=? 2 ^ (- exponent x).

(** * PercentileFilter *)

Module PercentileFilter.

Abbreviation node := (nat * (Z * unit))%type.

Record PercentileFilter := mkPercentileFilter {
  percentile_ : float;
  set_ : list node;
  percentile_it_ : iterator;
  percentile_index_ : Z;
  next_node : nat
}.
Abbreviation FM := (M PercentileFilter).

(** ** [std::multiset] *)

(** [insert(value)] goes behind the equal elements, [lower_bound] before them. *)
Fixpoint insert_upper (n : nat) (value : Z) (l : list node) : list node :=
  match l with
  | [] => [(n, (value, tt))]
  | (m, (v, u)) :: l' => if value <? v then (n, (value, tt)) :: l else (m, (v, u)) :: insert_upper n value l'
  end.
Definition set_insert (value : Z) : FM unit :=
  modify (λ f, f <| set_ := insert_upper (next_node f) value (set_ f) |> <| next_node := S (next_node f) |>).

Fixpoint lower_bound_in (value : Z) (l : list node) : iterator :=
  match l with
  | [] => None
  | (m, (v, _)) :: l' => if v <? value then lower_bound_in value l' else Some m
  end.
Definition lower_bound (value : Z) : FM iterator := f ← get; mret (lower_bound_in value (set_ f)).

(** [*it] *)
Definition value_at (it : iterator) : FM Z :=
  f ← get;
  match it with
  | None => fail (UndefinedBehaviour "end() dereferenced")
  | Some n =>
    match node_value n (set_ f) with
    | Some x => mret x.1
    | None => fail (UseAfterFree "element of set_")
    end
  end.

(** [erase(it)]: the iterator behind it *)
Definition set_erase (it : iterator) : FM iterator :=
  _ ← value_at it;
  n ← deref "it" it;
  f ← get;
  _ ← put (f <| set_ := without_node n (set_ f) |>);
  mret (default None (node_after n (set_ f))).

(** How many elements are before an iterator. *)
Fixpoint node_index (n : nat) (l : list node) : option nat :=
  match l with
  | [] => None
  | (m, _) :: l' => if decide (m = n) then Some 0%nat else S <$> node_index n l'
  end.
Definition index_of (it : iterator) : FM Z :=
  f ← get;
  match it with
  | None => mret (Z.of_nat (length (set_ f)))
  | Some n =>
    match node_index n (set_ f) with
    | Some i => mret (Z.of_nat i)
    | None => fail (UseAfterFree "element of set_")
    end
  end.

(** [std::advance(it, d)]: undefined outside of the sequence *)
Definition advance (it : iterator) (d : Z) : FM iterator :=
  i ← index_of it;
  f ← get;
  if bool_decide (0 ≤ i + d ≤ Z.of_nat (length (set_ f)))
  then mret (fst <$> set_ f !! Z.to_nat (i + d))
  else fail (UndefinedBehaviour "iterator out of range").

(** ** Operations *)

(** [RTC_CHECK_GE(percentile, 0.0f)] holds of every value of [float]. *)
Definition construct (percentile : float) : FM unit :=
  _ ← put (mkPercentileFilter percentile [] None 0 0);
  check (at_most_one percentile) "percentile <= 1.0f".

Definition UpdatePercentileIterator : FM unit :=
  f ← get;
  if bool_decide (set_ f = []) then mret tt
  else
    let index := int_of_float (float_mul (percentile_ f) (float_of (Z.of_nat (length (set_ f)) - 1))) in
    it ← advance (percentile_it_ f) (index - percentile_index_ f);
    _ ← modify (λ f, f <| percentile_it_ := it |>);
    modify (λ f, f <| percentile_index_ := index |>).

Definition Insert (value : Z) : FM unit :=
  _ ← set_insert value;
  f ← get;
  _ ← (if Nat.eqb (length (set_ f)) 1 then
         _ ← modify (λ f, f <| percentile_it_ := first_node (set_ f) |>);
         modify (λ f, f <| percentile_index_ := 0 |>)
       else
         v ← value_at (percentile_it_ f);
         if value <? v then modify (λ f, f <| percentile_index_ := percentile_index_ f + 1 |>) else mret tt);
  UpdatePercentileIterator.

Definition Erase (value : Z) : FM bool :=
  it ← lower_bound value;
  absent ← (if decide (it = None) then mret true else v ← value_at it; mret (negb (v =? value)));
  if absent : bool then mret false
  else
    f ← get;
    _ ← (if decide (it = percentile_it_ f) then
           next ← set_erase it;
           modify (λ f, f <| percentile_it_ := next |>)
         else
           _ ← set_erase it;
           v ← value_at (percentile_it_ f);
           if value <=? v then modify (λ f, f <| percentile_index_ := percentile_index_ f - 1 |>) else mret tt);
    _ ← UpdatePercentileIterator;
    mret true.

Definition GetPercentileValue : FM Z :=
  f ← get;
  if bool_decide (set_ f = []) then mret 0 else value_at (percentile_it_ f).

Definition Reset : FM unit :=
  modify (λ f, f <| set_ := [] |> <| percentile_it_ := None |> <| percentile_index_ := 0 |>).

End PercentileFilter.

(** * MovingMedianFilter *)

Module MovingMedianFilter.

Record MovingMedianFilter := mkMovingMedianFilter {
  percentile_filter_ : PercentileFilter.PercentileFilter;
  samples_ : list Z;
  samples_stored_ : Z;
  window_size_ : Z
}.
Abbreviation MM := (M MovingMedianFilter).

Definition on_filter {A} (m : PercentileFilter.FM A) : MM A := λ f,
  match m (percentile_filter_ f) with
  | Ok (a, p) => Ok (a, f <| percentile_filter_ := p |>)
  | Fault e => Fault e
  end.

Definition half : float := mkFloat 1 (-1).

Definition construct (window_size : Z) : MM unit :=
  f ← get;
  _ ← put (mkMovingMedianFilter (percentile_filter_ f) [] 0 window_size);
  _ ← on_filter (PercentileFilter.construct half);
  check (0 <? window_size) "window_size > 0".

Definition Insert (value : Z) : MM unit :=
  _ ← on_filter (PercentileFilter.Insert value);
  _ ← modify (λ f, f <| samples_ := samples_ f ++ [value] |>);
  _ ← modify (λ f, f <| samples_stored_ := wrap_u 64 (samples_stored_ f + 1) |>);
  f ← get;
  if window_size_ f <? samples_stored_ f then
    front ← match samples_ f with
            | x :: _ => mret x
            | [] => fail (UndefinedBehaviour "front() of an empty list")
            end;
    _ ← on_filter (PercentileFilter.Erase front);
    _ ← modify (λ f, f <| samples_ := tail (samples_ f) |>);
    modify (λ f, f <| samples_stored_ := wrap_u 64 (samples_stored_ f - 1) |>)
  else mret tt.

Definition GetFilteredValue : MM Z := on_filter PercentileFilter.GetPercentileValue.

Definition Reset : MM unit :=
  _ ← on_filter PercentileFilter.Reset;
  _ ← modify (λ f, f <| samples_ := [] |>);
  modify (λ f, f <| samples_stored_ := 0 |>).

Definition GetNumberOfSamplesStored : MM Z := f ← get; mret (samples_stored_ f).

End MovingMedianFilter.
