(* ===== verification/SampleFiltersTheorems.v ===== *)
(** The filters over a moving window compute what their names say. *)
From S2P Require Import Prelude NodeLists SampleFilters.
From Stdlib Require Import ZArith Lia Sorted.
From stdpp Require Import base tactics numbers strings sets list sorting.
From coqutil Require Import Datatypes.RecordSetters.
Import TriangleBracketNotations.

Open Scope Z_scope.

(** * The maximum of a window *)

Section moving_max.
Import MovingMaxCounter.
Context `{!BuildConfig}.
Implicit Types (l : list (Z * Z)) (b : Z).

(** The reference: the maximum of the samples with a time from [b] on. *)
Definition omax (x y : option Z) : option Z := union_with (λ a c, Some (Z.max a c)) x y.
Definition in_window b (e : Z * Z) : option Z := if b <=? e.1 then Some e.2 else None.
Fixpoint window_max b l : option Z :=
  match l with [] => None | e :: l' => omax (in_window b e) (window_max b l') end.

Lemma omax_assoc x y z : omax x (omax y z) = omax (omax x y) z.
Proof. destruct x, y, z; simpl; try done. by rewrite Z.max_assoc. Qed.
Lemma omax_none x : omax x None = x.
Proof. by destruct x. Qed.

Lemma window_max_app b l l' : window_max b (l ++ l') = omax (window_max b l) (window_max b l').
Proof. induction l as [|e l IH]; simpl; [by destruct (window_max b l')|]. by rewrite IH, omax_assoc. Qed.

(** A sample that is not greater than a later one does not count. *)
Lemma dominated b e e' : e.1 ≤ e'.1 → e.2 ≤ e'.2 → omax (in_window b e) (in_window b e') = in_window b e'.
Proof.
  intros Ht Hv. unfold in_window. destruct (Z.leb_spec b e.1), (Z.leb_spec b e'.1); simpl; try done; [|lia].
  f_equal. lia.
Qed.

(** Times grow and values fall along the deque. *)
Definition falling l : Prop := ∀ i j e e', l !! i = Some e → l !! j = Some e' → (i < j)%nat → e.1 < e'.1 ∧ e'.2 < e.2.

Lemma falling_app_l l l' : falling (l ++ l') → falling l.
Proof. intros Hf i j e e' Hi Hj. apply Hf; by apply lookup_app_l_Some. Qed.

Lemma falling_drop n l : falling l → falling (drop n l).
Proof. intros Hf i j e e'. rewrite !lookup_drop. intros Hi Hj Hij. apply (Hf (n + i) (n + j))%nat; [done|done|lia]. Qed.

Lemma falling_snoc l e : falling l → (∀ e', last l = Some e' → e'.1 < e.1 ∧ e.2 < e'.2) → falling (l ++ [e]).
Proof.
  intros Hf Hl i j x y Hi Hj Hij. pose proof (lookup_lt_Some _ _ _ Hj) as Hlen. rewrite length_app in Hlen. simpl in Hlen.
  rewrite lookup_app_l in Hi by lia. destruct (decide (j < length l)%nat) as [Hlt|Hge].
  - rewrite lookup_app_l in Hj by done. by apply (Hf i j).
  - assert (j = length l) as -> by lia. rewrite list_lookup_middle in Hj by done. simplify_eq.
    assert (i < length l)%nat as Hlt by lia. destruct (lookup_lt_is_Some_2 l (length l - 1)) as [z Hz]; [lia|].
    destruct (Hl z) as [H1 H2]; [by rewrite last_lookup, <-Nat.sub_1_r|].
    destruct (decide (i = length l - 1)%nat) as [->|]; [by simplify_eq|].
    destruct (Hf i (length l - 1)%nat x z Hi Hz) as [H3 H4]; lia.
Qed.

Lemma falling_max l e : falling (e :: l) → ∀ b, b ≤ e.1 → window_max b (e :: l) = Some e.2.
Proof.
  intros Hf b Hb. simpl. unfold in_window at 1. rewrite (proj2 (Z.leb_le _ _) Hb).
  assert (∀ x, window_max b l = Some x → x < e.2) as Hx.
  { assert (∀ e', e' ∈ l → e'.2 < e.2) as Hlt.
    { intros e' (i&Hi)%list_elem_of_lookup. destruct (Hf 0%nat (S i) e e'); [done|done|lia|done]. }
    clear Hf. induction l as [|y l IH]; [done|]. intros x. simpl. unfold in_window.
    pose proof (Hlt y ltac:(set_solver)). assert (∀ x, window_max b l = Some x → x < e.2) as IH' by (apply IH; set_solver).
    destruct (b <=? y.1), (window_max b l) as [z|]; simpl; intros ?; simplify_eq; try lia.
    - specialize (IH' z eq_refl). lia.
    - by apply IH'. }
  destruct (window_max b l) as [x|]; simpl; [|done]. specialize (Hx x eq_refl). f_equal. lia.
Qed.

(** ** The loops *)

Lemma run_roll_loop c b pre post :
  samples_ c = pre ++ post → Forall (λ e, e.1 < b) pre → (∀ e, head post = Some e → b ≤ e.1) →
  while_ (length (samples_ c))
    (λ it, c ← get; mret (match samples_ c !! it with Some e => e.1 <? b | None => false end))
    (λ it, mret (S it)) 0%nat c = Ok (length pre, c).
Proof.
  intros Hs Hpre Hpost. apply wp_ok_eq.
  apply (wp_while _ _ _ (λ n it c', c' = c ∧ (it + n = length pre)%nat) _ (length pre)).
  - done.
  - rewrite Hs, length_app. lia.
  - intros n it c' [-> Hn]. apply wp_bind, wp_get, wp_ret. rewrite Hs. destruct (decide (it < length pre)%nat) as [Hlt|Hge].
    + rewrite lookup_app_l by done. destruct (lookup_lt_is_Some_2 pre it Hlt) as [e He]. rewrite He.
      rewrite Forall_lookup in Hpre. rewrite (proj2 (Z.ltb_lt _ _) (Hpre it e He)).
      destruct n as [|n]; [lia|]. exists n. split; [done|]. apply wp_ret. split; [done|lia].
    + assert (it = length pre) as -> by lia. rewrite lookup_app_r, Nat.sub_diag by lia.
      destruct post as [|e post]; simpl; [done|]. rewrite (proj2 (Z.ltb_ge _ _) (Hpost e eq_refl)). done.
Qed.

Lemma split_times b l : falling l →
  ∃ pre post, l = pre ++ post ∧ Forall (λ e, e.1 < b) pre ∧ Forall (λ e, b ≤ e.1) post.
Proof.
  induction l as [|e l IH]; intros Hf; [by exists [], []|].
  destruct (decide (e.1 < b)) as [Hlt|Hge].
  - destruct IH as (pre&post&->&H1&H2); [exact (falling_drop 1 _ Hf)|]. exists (e :: pre), post. by split_and!; try constructor.
  - exists [], (e :: l). split_and!; [done|constructor|]. constructor; [lia|]. apply Forall_forall.
    intros e' (i&Hi)%list_elem_of_lookup. destruct (Hf 0%nat (S i) e e'); [done|done|lia|lia].
Qed.

Lemma window_max_none b l : Forall (λ e, e.1 < b) l → window_max b l = None.
Proof.
  induction 1 as [|e l He Hl IH]; [done|]. simpl. rewrite IH. unfold in_window.
  by rewrite (proj2 (Z.leb_gt _ _) He).
Qed.

(** The state between calls: the last one was at the time [now], and the samples so far
    are [hist]. *)
Record counting (W now : Z) (hist : list (Z * Z)) (c : MovingMaxCounter) : Prop := {
  ct_window : window_length_ms_ c = W;
  ct_last : last_call_time_ms_ c ≤ now;
  ct_falling : falling (samples_ c);
  ct_past : Forall (λ e, e.1 ≤ now) (samples_ c);
  ct_max : ∀ b, now - W ≤ b → window_max b (samples_ c) = window_max b hist
}.

Lemma RollWindow_run W now hist t c :
  counting W now hist c → now ≤ t → - 2 ^ 63 ≤ t - W < 2 ^ 63 →
  ∃ c', RollWindow t c = Ok (tt, c') ∧ counting W t hist c' ∧ Forall (λ e, t - W ≤ e.1) (samples_ c').
Proof.
  intros [Hw Hl Hf Hp Hm] Ht Hr. destruct (split_times (t - W) _ Hf) as (pre&post&Hs&Hpre&Hpost).
  unfold RollWindow. rewrite (bind_run _ _ _ c c) by done.
  rewrite (bind_run _ _ _ tt c) by (apply wp_ok_eq, wp_dcheck; [intros _; apply Z.leb_le; lia|done]).
  set (c1 := if RTC_DCHECK_IS_ON then c <| last_call_time_ms_ := t |> else c).
  rewrite (bind_run _ _ _ tt c1) by (unfold c1; by destruct RTC_DCHECK_IS_ON).
  assert (samples_ c1 = samples_ c) as Hs1 by (unfold c1; by destruct RTC_DCHECK_IS_ON).
  assert (window_length_ms_ c1 = W ∧ last_call_time_ms_ c1 ≤ t) as [Hw1 Hl1].
  { unfold c1. destruct RTC_DCHECK_IS_ON; [split; [done|change (t ≤ t); lia]|split; [done|lia]]. }
  rewrite Hw. rewrite (bind_run _ _ _ (t - W) c1) by (unfold int64_minus; by rewrite bool_decide_true by lia).
  rewrite <-Hs1. rewrite (bind_run _ _ _ _ _ (run_roll_loop c1 (t - W) pre post ltac:(by rewrite Hs1) Hpre
    ltac:(intros e He; destruct post; simplify_eq/=; by apply Forall_cons in Hpost as [? _]))).
  eexists. split; [done|]. rewrite Hs1, Hs, drop_app_length. split; [|done].
  rewrite Hs in Hf, Hp, Hm. split; try done.
  - change (falling post). rewrite <-(drop_app_length pre post). by apply falling_drop.
  - change (Forall (λ e, e.1 ≤ t) post). apply Forall_app in Hp as [_ Hp]. eapply Forall_impl; [exact Hp|]. simpl. lia.
  - intros b Hb. change (window_max b post = window_max b hist). rewrite <-Hm by lia. rewrite window_max_app.
    rewrite (window_max_none b pre); [by destruct (window_max b post)|].
    eapply Forall_impl; [exact Hpre|]. simpl. lia.
Qed.

(** The loop of [Add] takes samples off the end that the new one makes superfluous. *)
Lemma run_pop_loop v c :
  ∃ l l', samples_ c = l ++ l' ∧ Forall (λ e, e.2 ≤ v) l' ∧ (∀ e, last l = Some e → v < e.2) ∧
    while_ (length (samples_ c))
      (λ _, c ← get; mret (match last (samples_ c) with Some e => e.2 <=? v | None => false end))
      (λ _, c ← get; set_samples (take (length (samples_ c) - 1) (samples_ c))) tt c =
    Ok (tt, c <| samples_ := l |>).
Proof.
  remember (length (samples_ c)) as fuel eqn:Hfuel. revert c Hfuel.
  induction fuel as [|fuel IH]; intros c Hfuel; cbn [while_].
  - destruct (samples_ c) as [|e l] eqn:Hs; [|done]. exists [], []. split_and!; try done.
    rewrite (bind_run _ _ _ false c) by (unfold mbind, M_bind, get; by rewrite Hs). rewrite <-Hs. by destruct c.
  - destruct (samples_ c) as [|x xs] eqn:Hs using rev_ind; [done|]. clear IHxs.
    rewrite (bind_run _ _ _ (x.2 <=? v) c) by (unfold mbind, M_bind, get; by rewrite Hs, last_snoc).
    destruct (Z.leb_spec x.2 v) as [Hle|Hgt].
    + rewrite (bind_run _ _ _ tt (c <| samples_ := xs |>)).
      2:{ unfold mbind, M_bind, get, set_samples, modify. rewrite Hs, length_app, take_app_length' by (simpl; lia). done. }
      rewrite length_app in Hfuel. simpl in Hfuel.
      destruct (IH (c <| samples_ := xs |>)) as (l&l'&Hl&Hd&Hlast&Hrun); [change (fuel = length xs); lia|].
      change (xs = l ++ l') in Hl. exists l, (l' ++ [x]). split_and!; [by rewrite Hl, <-app_assoc| |done|].
      * apply Forall_app. by split; [|constructor].
      * rewrite Hrun. by destruct c.
    + exists (xs ++ [x]), []. split_and!; [by rewrite app_nil_r|done|intros e; rewrite last_snoc; intros; simplify_eq; lia|].
      rewrite <-Hs. by destruct c.
Qed.

Lemma window_max_dominated b l e : Forall (λ x, x.1 ≤ e.1 ∧ x.2 ≤ e.2) l →
  omax (window_max b l) (in_window b e) = in_window b e.
Proof.
  induction 1 as [|x l [H1 H2] Hl IH]; simpl; [by destruct (in_window b e)|]. rewrite <-omax_assoc, IH. by apply dominated.
Qed.

Lemma max_Add_run W now hist v t c :
  counting W now hist c → now ≤ t → - 2 ^ 63 ≤ t - W < 2 ^ 63 →
  ∃ c', Add v t c = Ok (tt, c') ∧ counting W t (hist ++ [(t, v)]) c' ∧
    (0 ≤ W → Forall (λ e, t - W ≤ e.1) (samples_ c')).
Proof.
  intros Hc Ht Hr. destruct (RollWindow_run W now hist t c Hc Ht Hr) as (c1&Hroll&[Hw Hl Hf Hp Hm]&Hin).
  unfold Add. rewrite (bind_run _ _ _ _ _ Hroll), (bind_run _ _ _ c1 c1) by done.
  destruct (run_pop_loop v c1) as (l&l'&Hs&Hle&Hlast&Hrun). rewrite (bind_run _ _ _ _ _ Hrun).
  set (c2 := c1 <| samples_ := l |>). rewrite (bind_run _ _ _ c2 c2) by done. change (samples_ c2) with l.
  rewrite Hs in Hf, Hp, Hm, Hin. apply Forall_app in Hp as [Hpl Hpl'], Hin as [Hinl _].
  apply falling_app_l in Hf.
  assert (Forall (λ x, x.1 ≤ t ∧ x.2 ≤ v) l') as Hdom.
  { rewrite Forall_forall in Hpl', Hle |- *. intros x Hx. split; [by apply Hpl'|by apply Hle]. }
  assert (∀ b, t - W ≤ b → omax (window_max b l) (in_window b (t, v)) = window_max b (hist ++ [(t, v)])) as Hmax.
  { intros b Hb. rewrite window_max_app, <-Hm by done. rewrite window_max_app. simpl. rewrite omax_none, <-omax_assoc.
    by rewrite (window_max_dominated b l' (t, v) Hdom). }
  destruct (last l) as [e|] eqn:El; [destruct (Z.ltb_spec e.1 t) as [Hlt|Hge]|].
  - eexists. split; [done|]. split.
    + split; try done.
      * change (falling (l ++ [(t, v)])). apply falling_snoc; [done|]. intros e' [= <-]%(eq_trans (eq_sym El)).
        split; [done|]. by apply Hlast.
      * change (Forall (λ e, e.1 ≤ t) (l ++ [(t, v)])). apply Forall_app. split; [done|]. by constructor; [simpl; lia|].
      * intros b Hb. change (window_max b (l ++ [(t, v)]) = window_max b (hist ++ [(t, v)])).
        rewrite <-Hmax by done. rewrite window_max_app. simpl. by rewrite omax_none.
    + intros HW. change (Forall (λ e, t - W ≤ e.1) (l ++ [(t, v)])). apply Forall_app. split; [done|]. by constructor; [simpl; lia|].
  - eexists. split; [done|]. split; [|done]. split; try done. intros b Hb.
    change (window_max b l = window_max b (hist ++ [(t, v)])). rewrite <-Hmax by done.
    apply last_Some in El as [l0 ->]. rewrite window_max_app. simpl. rewrite omax_none, <-omax_assoc. f_equal.
    assert (e.1 = t) as He by (apply Forall_app in Hpl as [_ Hpl]; apply Forall_cons in Hpl as [? _]; lia).
    pose proof (Hlast e eq_refl). unfold in_window. simpl. rewrite He. destruct (b <=? t); simpl; [f_equal; lia|done].
  - apply last_None in El as ->. eexists. split; [done|]. split.
    + split; try done.
      * change (falling [(t, v)]). intros [|i] [|j] x y ? ? ?; simplify_eq/=; lia.
      * change (Forall (λ e, e.1 ≤ t) [(t, v)]). by constructor; [simpl; lia|].
    + intros HW. change (Forall (λ e, t - W ≤ e.1) [(t, v)]). by constructor; [simpl; lia|].
Qed.

Lemma max_Max_run W now hist t c :
  counting W now hist c → now ≤ t → - 2 ^ 63 ≤ t - W < 2 ^ 63 →
  ∃ c', Max t c = Ok (window_max (t - W) hist, c') ∧ counting W t hist c' ∧
    Forall (λ e, t - W ≤ e.1) (samples_ c').
Proof.
  intros Hc Ht Hr. destruct (RollWindow_run W now hist t c Hc Ht Hr) as (c1&Hroll&Hc1&Hin).
  unfold Max. rewrite (bind_run _ _ _ _ _ Hroll). exists c1. split; [|done].
  unfold mbind, M_bind, get, mret, M_ret. rewrite <-(ct_max _ _ _ _ Hc1) by lia.
  pose proof (ct_falling _ _ _ _ Hc1) as Hf. destruct (samples_ c1) as [|e l]; [done|].
  apply Forall_cons in Hin as [He _]. by rewrite (falling_max l e Hf (t - W) He).
Qed.

Lemma falling_length l b t : falling l → Forall (λ e, b ≤ e.1 ≤ t) l → Z.of_nat (length l) ≤ Z.max 0 (t - b + 1).
Proof.
  revert b. induction l as [|e l IH]; intros b Hf Hb; [simpl; lia|]. apply Forall_cons in Hb as [He Hb].
  assert (Forall (λ x, e.1 + 1 ≤ x.1 ≤ t) l) as Hb'.
  { rewrite Forall_forall in Hb |- *. intros x Hx. specialize (Hb x Hx). apply list_elem_of_lookup in Hx as [i Hi].
    destruct (Hf 0%nat (S i) e x); [done|done|lia|lia]. }
  specialize (IH (e.1 + 1) (falling_drop 1 _ Hf) Hb'). simpl length. lia.
Qed.

(** ** Any sequence of calls *)

Inductive max_op := MAdd (sample time : Z) | MMax (time : Z) | MReset.

Fixpoint run_max_ops (ops : list max_op) : M MovingMaxCounter (list (option Z)) :=
  match ops with
  | [] => mret []
  | MAdd v t :: ops' => _ ← Add v t; run_max_ops ops'
  | MMax t :: ops' => m ← Max t; ms ← run_max_ops ops'; mret (m :: ms)
  | MReset :: ops' => _ ← Reset; run_max_ops ops'
  end.

(** The answers, from the list of all samples since the last [Reset]. *)
Fixpoint max_answers (W : Z) (hist : list (Z * Z)) (ops : list max_op) : list (option Z) :=
  match ops with
  | [] => []
  | MAdd v t :: ops' => max_answers W (hist ++ [(t, v)]) ops'
  | MMax t :: ops' => window_max (t - W) hist :: max_answers W hist ops'
  | MReset :: ops' => max_answers W [] ops'
  end.

(** Time does not go back, and the beginning of the window can be represented. *)
Fixpoint times_ok (W now : Z) (ops : list max_op) : Prop :=
  match ops with
  | [] => True
  | MAdd _ t :: ops' | MMax t :: ops' => now ≤ t ∧ - 2 ^ 63 ≤ t - W < 2 ^ 63 ∧ times_ok W t ops'
  | MReset :: ops' => times_ok W now ops'
  end.

Lemma max_Reset_run W now hist c : counting W now hist c →
  ∃ c', Reset c = Ok (tt, c') ∧ counting W now [] c' ∧ samples_ c' = [].
Proof.
  intros [Hw Hl Hf Hp Hm]. eexists. split; [done|]. split; [|done]. by split.
Qed.

(** What is stored fits into the window. *)
Definition stored_in_window (W : Z) (c : MovingMaxCounter) : Prop := Z.of_nat (length (samples_ c)) ≤ W + 1.

Lemma stored_bound W now hist c : counting W now hist c → 0 ≤ W → Forall (λ e, now - W ≤ e.1) (samples_ c) →
  stored_in_window W c.
Proof.
  intros [_ _ Hf Hp _] HW Hin. unfold stored_in_window.
  pose proof (falling_length (samples_ c) (now - W) now Hf) as Hlen.
  assert (Forall (λ e, now - W ≤ e.1 ≤ now) (samples_ c)) as Hall by (by apply Forall_and).
  specialize (Hlen Hall). lia.
Qed.

Lemma run_max_spec W ops : ∀ now hist c,
  counting W now hist c → (0 ≤ W → stored_in_window W c) → times_ok W now ops →
  ∃ c', run_max_ops ops c = Ok (max_answers W hist ops, c') ∧ (0 ≤ W → stored_in_window W c') ∧
    falling (samples_ c').
Proof.
  induction ops as [|[v t|t|] ops IH]; intros now hist c Hc Hst Hok; cbn [run_max_ops max_answers].
  - exists c. split; [done|]. split; [done|apply Hc].
  - destruct Hok as (Ht&Hr&Hok). destruct (max_Add_run W now hist v t c Hc Ht Hr) as (c1&H1&Hc1&Hin).
    rewrite (bind_run _ _ _ _ _ H1). apply (IH t); [done| |done]. intros HW. by eapply stored_bound; [| |apply Hin].
  - destruct Hok as (Ht&Hr&Hok). destruct (max_Max_run W now hist t c Hc Ht Hr) as (c1&H1&Hc1&Hin).
    rewrite (bind_run _ _ _ _ _ H1). destruct (IH t hist c1) as (c'&Hrun&Hend); [done| |done|].
    { intros HW. by eapply stored_bound. }
    exists c'. rewrite (bind_run _ _ _ _ _ Hrun). done.
  - destruct (max_Reset_run W now hist c Hc) as (c1&H1&Hc1&He). rewrite (bind_run _ _ _ _ _ H1).
    apply (IH now); [done| |done]. intros HW. unfold stored_in_window. rewrite He. simpl. lia.
Qed.
End moving_max.

(** * Rounding *)

Definition rank (p : float) (n : Z) : Z := int_of_float (float_mul p (float_of n)).

(** [m * 2 ^ e] is at most [n]. *)
Definition at_most (m e n : Z) : Prop := if 0 <=? e then m * 2 ^ e ≤ n else m ≤ n * 2 ^ (- e).

Lemma round_shift_cases m s : 0 ≤ m → 0 < s →
  round_shift m s = m / 2 ^ s ∨ (round_shift m s = m / 2 ^ s + 1 ∧ m / 2 ^ s * 2 ^ s < m).
Proof.
  intros Hm Hs. unfold round_shift. pose proof (Z.div_mod m (2 ^ s) ltac:(lia)) as Hdm.
  pose proof (Z.pow_pos_nonneg 2 (s - 1) ltac:(lia) ltac:(lia)).
  destruct (Z.ltb_spec (m mod 2 ^ s) (2 ^ (s - 1))); [by left|].
  destruct (Z.ltb_spec (2 ^ (s - 1)) (m mod 2 ^ s)); [right; lia|].
  destruct (Z.even (m / 2 ^ s)); [by left|right; lia].
Qed.

Lemma round_small m e : m < 2 ^ 24 → round_float m e = mkFloat m e.
Proof. intros Hm. unfold round_float. by rewrite (proj2 (Z.ltb_lt _ _) Hm). Qed.

Lemma int_of_small m e n : 0 ≤ m → 0 ≤ n → at_most m e n → 0 ≤ int_of_float (mkFloat m e) ≤ n.
Proof.
  intros Hm Hn. unfold at_most, int_of_float. cbn [mantissa exponent]. destruct (Z.leb_spec 0 e) as [He|He].
  - intros. pose proof (Z.pow_nonneg 2 e ltac:(lia)). nia.
  - intros Hle. assert (0 < 2 ^ (- e)) by (apply Z.pow_pos_nonneg; lia). split; [apply Z.div_pos; lia|].
    apply Z.div_le_upper_bound; lia.
Qed.

(** Rounding does not pass an integer of at most 24 bits. *)
Lemma round_at_most m e n : 0 ≤ m → 0 ≤ n ≤ 2 ^ 24 → at_most m e n →
  0 ≤ int_of_float (round_float m e) ≤ n.
Proof.
  intros Hm Hn Hle. destruct (Z.lt_ge_cases m (2 ^ 24)) as [Hsmall|Hbig].
  { rewrite round_small by done. apply int_of_small; [done|lia|done]. }
  unfold round_float. rewrite (proj2 (Z.ltb_ge _ _) Hbig). set (s := Z.log2 m - 23).
  assert (24 ≤ Z.log2 m) as Hlog by (apply Z.log2_le_pow2; lia). assert (0 < s) as Hs by lia.
  pose proof (Z.log2_spec m ltac:(lia)) as [Hlo Hhi].
  assert (m / 2 ^ s * 2 ^ s ≤ m) as Hq by (rewrite Z.mul_comm; apply Z.mul_div_le; lia).
  assert (2 ^ 23 ≤ m / 2 ^ s) as Hq23.
  { apply Z.div_le_lower_bound; [lia|]. rewrite <-Z.pow_add_r by lia. by replace (s + 23) with (Z.log2 m) by lia. }
  assert (0 < 2 ^ s) as Hps by lia.
  set (q := m / 2 ^ s) in *. pose proof (round_shift_cases m s Hm Hs) as Hr. fold q in Hr.
  (* the exponent is negative, apart from [2 ^ 24] itself *)
  apply int_of_small; [lia|lia|]. unfold at_most in *.
  destruct (Z.leb_spec 0 e) as [He|He].
  - assert (1 ≤ 2 ^ e) by (pose proof (Z.pow_pos_nonneg 2 e ltac:(lia) He); lia).
    assert (m = 2 ^ 24) as Hm24 by nia. assert (s = 1) as Hs1 by (unfold s; rewrite Hm24, Z.log2_pow2; lia).
    assert (e = 0) as He0.
    { destruct (Z.eq_dec e 0) as [|Hne]; [done|].
      assert (2 ^ 1 ≤ 2 ^ e) by (apply Z.pow_le_mono_r; lia). nia. }
    rewrite Hs1, He0, Hm24. change (2 ^ 24 ≤ n). lia.
  - destruct (Z.leb_spec 0 (e + s)) as [Hes|Hes].
    + assert (2 ^ s = 2 ^ (e + s) * 2 ^ (- e)) as Hpow by (rewrite <-Z.pow_add_r by lia; f_equal; lia).
      assert (0 < 2 ^ (- e)) by (apply Z.pow_pos_nonneg; lia).
      assert (0 < 2 ^ (e + s)) by (apply Z.pow_pos_nonneg; lia).
      assert (q * 2 ^ (e + s) ≤ n) as Hqn.
      { apply (Z.mul_le_mono_pos_r _ _ (2 ^ (- e))); [done|]. rewrite <-Z.mul_assoc, <-Hpow. lia. }
      destruct Hr as [->|[-> Hlt]]; [done|].
      assert (q * 2 ^ (e + s) < n) as Hqn'.
      { apply (Z.mul_lt_mono_pos_r (2 ^ (- e))); [done|]. rewrite <-Z.mul_assoc, <-Hpow. lia. }
      assert (e + s = 0) as E0.
      { destruct (Z.eq_dec (e + s) 0) as [|Hne]; [done|].
        assert (2 ^ 1 ≤ 2 ^ (e + s)) by (apply Z.pow_le_mono_r; lia). nia. }
      rewrite E0 in *. lia.
    + assert (2 ^ (- e) = 2 ^ (- (e + s)) * 2 ^ s) as Hpow by (rewrite <-Z.pow_add_r by lia; f_equal; lia).
      rewrite Hpow in Hle. set (k := 2 ^ (- (e + s))) in *.
      assert (q ≤ n * k) by (apply (Z.mul_le_mono_pos_r _ _ (2 ^ s)); [done|]; lia).
      destruct Hr as [->|[-> Hlt]]; [done|].
      assert (q < n * k); [|lia]. apply (Z.mul_lt_mono_pos_r (2 ^ s)); [done|]. lia.
Qed.

Lemma float_of_exact n : 0 ≤ n ≤ 2 ^ 24 →
  float_of n = mkFloat n 0 ∧ n < 2 ^ 24 ∨ float_of n = mkFloat (2 ^ 23) 1 ∧ n = 2 ^ 24.
Proof.
  intros Hn. destruct (Z.eq_dec n (2 ^ 24)) as [->|Hne]; [by right|]. left. split; [|lia]. apply round_small. lia.
Qed.

Lemma rank_bounds p n : 0 ≤ mantissa p → at_most_one p = true → 0 ≤ n ≤ 2 ^ 24 → 0 ≤ rank p n ≤ n.
Proof.
  intros Hm H1 Hn. unfold rank, float_mul. destruct p as [m e]. cbn [mantissa exponent] in *.
  assert (at_most m e 1) as Hone.
  { unfold at_most_one, at_most in *. cbn [mantissa exponent] in *. destruct (0 <=? e); apply Z.leb_le in H1; lia. }
  destruct (float_of_exact n Hn) as [[-> Hlt]|[-> ->]]; cbn [mantissa exponent]; apply round_at_most; try lia.
  - rewrite Z.add_0_r. unfold at_most in *. destruct (Z.leb_spec 0 e); nia.
  - unfold at_most in *. destruct (Z.leb_spec 0 e), (Z.leb_spec 0 (e + 1)); try lia.
    + rewrite Z.pow_add_r by lia. nia.
    + assert (e = -1) as -> by lia. simpl in *. lia.
    + assert (2 ^ (- e) = 2 ^ (- (e + 1)) * 2) as Hp.
      { rewrite <-(Z.pow_1_r 2) at 3. rewrite <-Z.pow_add_r by lia. f_equal. lia. }
      rewrite Hp in Hone. lia.
Qed.

Lemma rank_half n : 0 ≤ n ≤ 2 ^ 24 → rank MovingMedianFilter.half n = n / 2.
Proof.
  intros Hn. unfold rank, float_mul. destruct (float_of_exact n Hn) as [[-> Hlt]|[-> ->]]; [|done].
  cbn [mantissa exponent MovingMedianFilter.half]. rewrite Z.mul_1_l. rewrite round_small by done. done.
Qed.

(** * A percentile of a multiset *)

Section percentile.
Import PercentileFilter.
Implicit Types (l : list node) (f : PercentileFilter) (v : Z).

Definition values l : list Z := (λ e, e.2.1) <$> l.
Abbreviation ascending l := (StronglySorted Z.le (values l)).

Lemma values_app l1 l2 : values (l1 ++ l2) = values l1 ++ values l2.
Proof. apply fmap_app. Qed.

Lemma ascending_app l1 l2 :
  ascending (l1 ++ l2) ↔ ascending l1 ∧ ascending l2 ∧ ∀ x y, x ∈ values l1 → y ∈ values l2 → x ≤ y.
Proof.
  rewrite values_app, StronglySorted_app. naive_solver.
Qed.

(** ** The multiset *)

Lemma insert_upper_split n v l : ascending l →
  ∃ l1 l2, l = l1 ++ l2 ∧ insert_upper n v l = l1 ++ (n, (v, tt)) :: l2 ∧
    (∀ x, x ∈ values l1 → x ≤ v) ∧ (∀ x, x ∈ values l2 → v < x).
Proof.
  induction l as [|[m [w []]] l IH]; intros Ha.
  - exists [], []. split_and!; [done|done|..]; intros x Hx; by apply elem_of_nil in Hx.
  - simpl. apply StronglySorted_inv in Ha as [Ha Hall]. rewrite Forall_forall in Hall.
    destruct (Z.ltb_spec v w) as [Hlt|Hge].
    + exists [], ((m, (w, tt)) :: l). split_and!; [done|done|intros x Hx; by apply elem_of_nil in Hx|].
      intros x [->|Hx]%elem_of_cons; [done|]. specialize (Hall x Hx). simpl in Hall. lia.
    + destruct (IH Ha) as (l1&l2&->&->&H1&H2). exists ((m, (w, tt)) :: l1), l2. split_and!; [done|done| |done].
      intros x [->|Hx]%elem_of_cons; [done|by apply H1].
Qed.

Lemma lower_bound_split v l : ascending l →
  ∃ l1 l2, l = l1 ++ l2 ∧ lower_bound_in v l = first_node l2 ∧
    (∀ x, x ∈ values l1 → x < v) ∧ (∀ x, x ∈ values l2 → v ≤ x).
Proof.
  induction l as [|[m [w []]] l IH]; intros Ha.
  - exists [], []. split_and!; [done|done|..]; intros x Hx; by apply elem_of_nil in Hx.
  - simpl. apply StronglySorted_inv in Ha as [Ha Hall]. rewrite Forall_forall in Hall.
    destruct (Z.ltb_spec w v) as [Hlt|Hge].
    + destruct (IH Ha) as (l1&l2&->&->&H1&H2). exists ((m, (w, tt)) :: l1), l2. split_and!; [done|done| |done].
      intros x [->|Hx]%elem_of_cons; [done|by apply H1].
    + exists [], ((m, (w, tt)) :: l). split_and!; [done|done|intros x Hx; by apply elem_of_nil in Hx|].
      intros x [->|Hx]%elem_of_cons; [done|]. specialize (Hall x Hx). simpl in Hall. lia.
Qed.

Lemma node_index_at l i n x : NoDup l.*1 → l !! i = Some (n, x) → node_index n l = Some i.
Proof.
  revert i. induction l as [|[m y] l IH]; intros i Hnd Hi; [done|]. apply NoDup_cons in Hnd as [Hm Hnd].
  destruct i as [|i]; simpl in *; simplify_eq; [by rewrite decide_True|].
  rewrite decide_False; [by rewrite (IH i)|]. intros ->. apply Hm. apply list_elem_of_fmap.
  exists (n, x). split; [done|]. by eapply list_elem_of_lookup_2.
Qed.

(** The iterator at a position; the position behind the last element is the end. *)
Definition iter_at (i : nat) l : iterator := fst <$> l !! i.

Lemma index_of_run i f : NoDup (set_ f).*1 → (i ≤ length (set_ f))%nat →
  index_of (iter_at i (set_ f)) f = Ok (Z.of_nat i, f).
Proof.
  intros Hnd Hi. unfold index_of, iter_at, mbind, M_bind, get. destruct (set_ f !! i) as [[n x]|] eqn:E; simpl.
  - by rewrite (node_index_at _ _ _ _ Hnd E).
  - apply lookup_ge_None in E. assert (i = length (set_ f)) as -> by lia. done.
Qed.

Lemma value_at_run i f n v : NoDup (set_ f).*1 → set_ f !! i = Some (n, (v, tt)) →
  value_at (iter_at i (set_ f)) f = Ok (v, f).
Proof.
  intros Hnd Hi. unfold value_at, iter_at, mbind, M_bind, get. rewrite Hi. simpl.
  rewrite <-(take_drop_middle _ _ _ Hi). rewrite node_value_middle; [done|].
  rewrite <-(take_drop_middle _ _ _ Hi), fmap_app in Hnd. apply NoDup_app in Hnd as (_&Hnd&_). set_solver.
Qed.

(** [UpdatePercentileIterator] from a position that agrees with the index. *)
Lemma update_run f i :
  set_ f ≠ [] → NoDup (set_ f).*1 → (i ≤ length (set_ f))%nat → percentile_it_ f = iter_at i (set_ f) →
  percentile_index_ f = Z.of_nat i →
  let r := rank (percentile_ f) (Z.of_nat (length (set_ f)) - 1) in
  UpdatePercentileIterator f =
    if bool_decide (0 ≤ r ≤ Z.of_nat (length (set_ f)))
    then Ok (tt, f <| percentile_it_ := iter_at (Z.to_nat r) (set_ f) |> <| percentile_index_ := r |>)
    else Fault (UndefinedBehaviour "iterator out of range").
Proof.
  intros Hne Hnd Hi Hit Hidx r. unfold UpdatePercentileIterator. rewrite (bind_run _ _ _ f f) by done.
  rewrite bool_decide_false by done. fold (rank (percentile_ f) (Z.of_nat (length (set_ f)) - 1)). fold r.
  cbv zeta. unfold mbind at 1, M_bind at 1. unfold advance. rewrite Hit.
  rewrite (bind_run _ _ _ _ _ (index_of_run i f Hnd Hi)), (bind_run _ _ _ f f) by done.
  rewrite Hidx. replace (Z.of_nat i + (r - Z.of_nat i)) with r by lia.
  by case_bool_decide.
Qed.

Record filter_ok (p : float) f : Prop := {
  fo_p : percentile_ f = p;
  fo_nodes : NoDup (set_ f).*1;
  fo_fresh : Forall (λ n, (n < next_node f)%nat) (set_ f).*1;
  fo_sorted : ascending (set_ f);
  fo_at : set_ f ≠ [] →
    let r := rank p (Z.of_nat (length (set_ f)) - 1) in
    percentile_index_ f = r ∧ percentile_it_ f = iter_at (Z.to_nat r) (set_ f) ∧ 0 ≤ r < Z.of_nat (length (set_ f))
}.

Context (p : float) (p_nonneg : 0 ≤ mantissa p) (p_one : at_most_one p = true).

Lemma update_ok f i :
  percentile_ f = p → NoDup (set_ f).*1 → Forall (λ n, (n < next_node f)%nat) (set_ f).*1 → ascending (set_ f) →
  Z.of_nat (length (set_ f)) ≤ 2 ^ 24 + 1 →
  (set_ f ≠ [] → (i ≤ length (set_ f))%nat ∧ percentile_it_ f = iter_at i (set_ f) ∧ percentile_index_ f = Z.of_nat i) →
  ∃ f', UpdatePercentileIterator f = Ok (tt, f') ∧ filter_ok p f' ∧ set_ f' = set_ f.
Proof.
  intros Hp Hnd Hfr Hs Hlen Hat. destruct (set_ f) as [|e l] eqn:E.
  { exists f. split; [|split; [|done]].
    - unfold UpdatePercentileIterator, mbind, M_bind, get. by rewrite E.
    - split; rewrite ?E; done. }
  rewrite <-E in *. assert (set_ f ≠ []) as Hne by by rewrite E.
  destruct (Hat Hne) as (Hi&Hit&Hidx). rewrite (update_run f i Hne Hnd Hi Hit Hidx). rewrite Hp.
  assert (1 ≤ length (set_ f))%nat as Hpos by (rewrite E; simpl; lia).
  destruct (rank_bounds p (Z.of_nat (length (set_ f)) - 1) p_nonneg p_one ltac:(lia)) as [Hr1 Hr2].
  rewrite bool_decide_true by lia. eexists. split; [done|]. split; [|done].
  split; try done. intros _. cbv zeta. split_and!; [done|done|exact Hr1|].
  change (rank p (Z.of_nat (length (set_ f)) - 1) < Z.of_nat (length (set_ f))). lia.
Qed.

Lemma iter_at_app l1 l2 i : iter_at (length l1 + i) (l1 ++ l2) = iter_at i l2.
Proof. unfold iter_at. rewrite lookup_app_r by lia. do 2 f_equal. lia. Qed.

(** The position of an element after one more went in before or behind it. *)
Lemma iter_at_insert l1 x l2 i : (i < length (l1 ++ l2))%nat →
  iter_at i (l1 ++ l2) = iter_at (if decide (i < length l1)%nat then i else S i) (l1 ++ x :: l2).
Proof.
  intros Hi. unfold iter_at. case_decide as Hlt.
  - by rewrite !lookup_app_l.
  - rewrite !lookup_app_r by lia. replace (S i - length l1)%nat with (S (i - length l1)) by lia. done.
Qed.

(** Which side of a split an element is on, by its value. *)
Lemma side l1 l2 i n v : (l1 ++ l2) !! i = Some (n, (v, tt)) →
  if decide (i < length l1)%nat then v ∈ values l1 else v ∈ values l2.
Proof.
  intros Hi. case_decide as Hlt.
  - rewrite lookup_app_l in Hi by done. apply list_elem_of_fmap. exists (n, (v, tt)). split; [done|].
    by eapply list_elem_of_lookup_2.
  - rewrite lookup_app_r in Hi by lia. apply list_elem_of_fmap. exists (n, (v, tt)). split; [done|].
    by eapply list_elem_of_lookup_2.
Qed.

Lemma current_element f : filter_ok p f → set_ f ≠ [] →
  ∃ i n v, set_ f !! i = Some (n, (v, tt)) ∧ percentile_it_ f = iter_at i (set_ f) ∧
    percentile_index_ f = Z.of_nat i ∧ Z.of_nat i = rank p (Z.of_nat (length (set_ f)) - 1).
Proof.
  intros Hok Hne. destruct (fo_at _ _ Hok Hne) as (Hidx&Hit&Hr). set (r := rank p (Z.of_nat (length (set_ f)) - 1)) in *.
  destruct (lookup_lt_is_Some_2 (set_ f) (Z.to_nat r)) as [[n [v []]] Hi]; [lia|].
  exists (Z.to_nat r), n, v. split_and!; [done|done|lia|lia].
Qed.

Lemma set_inserted f v l1 l2 : filter_ok p f → set_ f = l1 ++ l2 →
  (∀ x, x ∈ values l1 → x ≤ v) → (∀ x, x ∈ values l2 → v < x) →
  let l := l1 ++ (next_node f, (v, tt)) :: l2 in
  NoDup l.*1 ∧ Forall (λ n, (n < S (next_node f))%nat) l.*1 ∧ ascending l ∧ values l ≡ₚ v :: values (set_ f).
Proof.
  intros [_ Hnd Hfr Hs _] Hl H1 H2 l. rewrite Hl in *.
  assert (l ≡ₚ (next_node f, (v, tt)) :: l1 ++ l2) as Hp by (unfold l; by rewrite Permutation_middle).
  rewrite Forall_forall in Hfr. split_and!.
  - rewrite Hp, fmap_cons. apply NoDup_cons. split; [|done]. intros Hin%Hfr. simpl in Hin. lia.
  - rewrite Hp, fmap_cons. constructor; [simpl; lia|]. apply Forall_forall. intros n Hn%Hfr. lia.
  - apply ascending_app in Hs as (Hs1&Hs2&Hs12). unfold l. apply ascending_app. split_and!; [done| |].
    + simpl. constructor; [done|]. apply Forall_forall. intros x Hx%H2. simpl. lia.
    + intros x y Hx [->|Hy]%elem_of_cons; [by apply H1|]. specialize (H1 x Hx). specialize (H2 y Hy). lia.
  - unfold values. by rewrite Hp.
Qed.

Lemma pf_Insert_run v f : filter_ok p f → Z.of_nat (length (set_ f)) ≤ 2 ^ 24 →
  ∃ f', Insert v f = Ok (tt, f') ∧ filter_ok p f' ∧ values (set_ f') ≡ₚ v :: values (set_ f).
Proof.
  intros Hok Hlen. destruct (insert_upper_split (next_node f) v (set_ f) (fo_sorted _ _ Hok)) as (l1&l2&Hl&Hins&H1&H2).
  destruct (set_inserted f v l1 l2 Hok Hl H1 H2) as (Hnd&Hfr&Hs&Hperm). rewrite <-Hins in *.
  set (l := insert_upper (next_node f) v (set_ f)) in *.
  assert (length l = S (length (set_ f))) as Hlen' by (rewrite Hins, Hl, !length_app; simpl; lia).
  set (f1 := f <| set_ := l |> <| next_node := S (next_node f) |>).
  assert (∀ f2 i, percentile_ f2 = p → set_ f2 = l → next_node f2 = S (next_node f) → (i ≤ length l)%nat →
    percentile_it_ f2 = iter_at i l → percentile_index_ f2 = Z.of_nat i →
    ∃ f', UpdatePercentileIterator f2 = Ok (tt, f') ∧ filter_ok p f' ∧ values (set_ f') ≡ₚ v :: values (set_ f)) as Hfin.
  { intros f2 i E1 E2 E3 E4 E5 E6. destruct (update_ok f2 i) as (f'&Hu&Hok'&Hs'); rewrite ?E2, ?E3; try done; [lia|].
    exists f'. by rewrite Hs', E2. }
  unfold Insert. rewrite (bind_run _ _ _ tt f1), (bind_run _ _ _ f1 f1) by done. change (set_ f1) with l.
  destruct (Nat.eqb_spec (length l) 1) as [E|E].
  - rewrite (bind_run _ _ _ tt (f1 <| percentile_it_ := first_node l |> <| percentile_index_ := 0 |>)) by done.
    apply (Hfin _ 0%nat); try done; [apply Hok|lia|]. destruct l as [|x []]; done.
  - assert (set_ f ≠ []) as Hne by (intros Hnil; rewrite Hnil in Hlen'; simpl in Hlen'; lia).
    destruct (current_element f Hok Hne) as (i&n&w&Hi&Hit&Hidx&_). pose proof (lookup_lt_Some _ _ _ Hi) as Hilt.
    rewrite Hl in Hi, Hilt. pose proof (side _ _ _ _ _ Hi) as Hside.
    set (j := if decide (i < length l1)%nat then i else S i).
    assert (percentile_it_ f1 = iter_at j l) as Hit1.
    { change (percentile_it_ f = iter_at j l). rewrite Hit, Hl, Hins. by apply iter_at_insert. }
    assert (l !! j = Some (n, (w, tt))) as Hj.
    { rewrite Hins. unfold j. case_decide as Hlt.
      - rewrite lookup_app_l in Hi |- * by done. done.
      - rewrite lookup_app_r in Hi |- * by lia. by replace (S i - length l1)%nat with (S (i - length l1)) by lia. }
    assert (value_at (percentile_it_ f1) f1 = Ok (w, f1)) as Hval by (rewrite Hit1; by apply (value_at_run j f1 n w)).
    assert (j ≤ length l)%nat as Hjl by (apply lookup_lt_Some in Hj; lia).
    unfold mbind at 1, M_bind at 1. rewrite (bind_run _ _ _ _ _ Hval).
    unfold j in *. case_decide as Hlt.
    + rewrite (proj2 (Z.ltb_ge _ _) (H1 w Hside)). by apply (Hfin f1 i); try done; apply Hok.
    + rewrite (proj2 (Z.ltb_lt _ _) (H2 w Hside)).
      apply (Hfin (f1 <| percentile_index_ := percentile_index_ f1 + 1 |>) (S i)); try done; [apply Hok|].
      change (percentile_index_ f + 1 = Z.of_nat (S i)). lia.
Qed.

Lemma set_erase_run f l1 n x l2 : NoDup (set_ f).*1 → set_ f = l1 ++ (n, x) :: l2 →
  set_erase (Some n) f = Ok (first_node l2, f <| set_ := l1 ++ l2 |>).
Proof.
  intros Hnd Hl. rewrite Hl, fmap_app, fmap_cons in Hnd. apply NoDup_app in Hnd as (_&Hn1&[Hn2 _]%NoDup_cons).
  assert (n ∉ l1.*1) as Hn by (intros Hin; by apply (Hn1 _ Hin); left). simpl in Hn2.
  unfold set_erase. rewrite (bind_run _ _ _ x.1 f).
  2:{ unfold value_at, mbind, M_bind, get. by rewrite Hl, node_value_middle. }
  rewrite (bind_run _ _ _ n f), (bind_run _ _ _ f f) by done.
  rewrite Hl, node_after_middle, without_middle by done. done.
Qed.

Lemma set_erased f l1 e l2 : filter_ok p f → set_ f = l1 ++ e :: l2 →
  NoDup (l1 ++ l2).*1 ∧ Forall (λ n, (n < next_node f)%nat) (l1 ++ l2).*1 ∧ ascending (l1 ++ l2).
Proof.
  intros [_ Hnd Hfr Hs _] Hl. rewrite Hl in *. assert (l1 ++ l2 `sublist_of` l1 ++ e :: l2) as Hsub.
  { apply sublist_app; [done|]. by apply sublist_cons. }
  split_and!.
  - eapply sublist_NoDup; [exact Hnd|]. by apply fmap_sublist.
  - rewrite fmap_app, fmap_cons, Forall_app in Hfr. rewrite fmap_app, Forall_app. destruct Hfr as [? [_ ?]%Forall_cons]. done.
  - apply ascending_app in Hs as (Hs1&Hs2&Hs12). apply StronglySorted_inv in Hs2 as [Hs2 _].
    apply ascending_app. split_and!; [done|done|]. intros x y Hx Hy. apply Hs12; [done|]. by right.
Qed.

Lemma value_at_middle f l1 n v l2 : NoDup (set_ f).*1 → set_ f = l1 ++ (n, (v, tt)) :: l2 →
  set_ f !! length l1 = Some (n, (v, tt)) ∧ value_at (Some n) f = Ok (v, f).
Proof.
  intros Hnd Hl. assert (set_ f !! length l1 = Some (n, (v, tt))) as Hat by (rewrite Hl; by apply list_lookup_middle).
  split; [done|]. pose proof (value_at_run _ _ _ _ Hnd Hat) as Hv. unfold iter_at in Hv. by rewrite Hat in Hv.
Qed.

(** The position of an element after another one went. *)
Lemma lookup_erased l1 x l2 i (e : node) : (l1 ++ x :: l2) !! i = Some e → i ≠ length l1 →
  (l1 ++ l2) !! (if decide (i < length l1)%nat then i else (i - 1)%nat) = Some e.
Proof.
  intros Hi Hne. case_decide as Hlt.
  - rewrite lookup_app_l in Hi |- * by done. done.
  - rewrite lookup_app_r in Hi |- * by lia. by replace (i - length l1)%nat with (S (i - 1 - length l1)) in Hi by lia.
Qed.

(** A value that is present is at its lower bound. *)
Lemma present_split v l : ascending l → v ∈ values l →
  ∃ n l1 l2, l = l1 ++ (n, (v, tt)) :: l2 ∧ lower_bound_in v l = Some n ∧
    (∀ x, x ∈ values l1 → x < v) ∧ (∀ x, x ∈ values l2 → v ≤ x).
Proof.
  intros Hs Hin. destruct (lower_bound_split v l Hs) as (l1&l2&->&Hlb&H1&H2).
  rewrite values_app, elem_of_app in Hin. destruct Hin as [Hin|Hin]; [specialize (H1 v Hin); lia|].
  destruct l2 as [|[n [w []]] l2]; [by apply elem_of_nil in Hin|]. pose proof (H2 w ltac:(by left)) as Hw.
  apply ascending_app in Hs as (_&[_ Hs]%StronglySorted_inv&_). rewrite Forall_forall in Hs.
  assert (w = v) as ->.
  { apply elem_of_cons in Hin as [->|Hin]; [done|]. specialize (Hs v Hin). simpl in *. lia. }
  exists n, l1, l2. split_and!; [done|done|done|]. intros x Hx. apply H2. by right.
Qed.

Lemma pf_Erase_absent v f : filter_ok p f → v ∉ values (set_ f) → Erase v f = Ok (false, f).
Proof.
  intros Hok Hout. destruct (lower_bound_split v (set_ f) (fo_sorted _ _ Hok)) as (l1&l2&Hl&Hlb&_).
  unfold Erase, lower_bound. rewrite (bind_run _ _ _ (first_node l2) f) by (unfold mbind, M_bind, get; by rewrite Hlb).
  rewrite (bind_run _ _ _ true f); [done|]. destruct l2 as [|[n [w []]] l2]; [done|]. rewrite decide_False by done.
  destruct (value_at_middle f l1 n w l2 (fo_nodes _ _ Hok) Hl) as [_ Hv]. change (first_node _) with (Some n).
  rewrite (bind_run _ _ _ _ _ Hv). destruct (Z.eqb_spec w v) as [->|]; [|done]. exfalso. apply Hout.
  rewrite Hl, values_app, elem_of_app. right. by left.
Qed.

(** The iterator and the index agree on position [i] of the elements [l], which are all that changed since [f]. *)
Definition stands_at f (f2 : PercentileFilter) l (i : nat) : Prop :=
  percentile_ f2 = percentile_ f ∧ next_node f2 = next_node f ∧ set_ f2 = l ∧
  (i ≤ length l)%nat ∧ percentile_it_ f2 = iter_at i l ∧ percentile_index_ f2 = Z.of_nat i.

(** Erasing the element the iterator stands on moves the iterator to the one behind it. *)
Lemma erase_current f l1 n v l2 : filter_ok p f → set_ f = l1 ++ (n, (v, tt)) :: l2 → percentile_it_ f = Some n →
  ∃ f2 i, (next ← set_erase (Some n); modify (λ f, f <| percentile_it_ := next |>)) f = Ok (tt, f2) ∧ stands_at f f2 (l1 ++ l2) i.
Proof.
  intros Hok Hl E. pose proof (fo_nodes _ _ Hok) as Hnd. destruct (value_at_middle f l1 n v l2 Hnd Hl) as [Hat _].
  destruct (current_element f Hok) as (i&m&w&Hi&Hit&Hidx&_); [intros Hnil; by rewrite Hnil in Hat|].
  rewrite Hit in E. unfold iter_at in E. rewrite Hi in E. injection E as ->. assert (i = length l1) as ->.
  { pose proof (node_index_at _ _ _ _ Hnd Hi). pose proof (node_index_at _ _ _ _ Hnd Hat). congruence. }
  eexists _, (length l1). rewrite (bind_run _ _ _ _ _ (set_erase_run f l1 n _ l2 Hnd Hl)). split; [done|].
  unfold stands_at. split_and!; [done|done|done|rewrite length_app; lia| |done].
  change (first_node l2 = iter_at (length l1) (l1 ++ l2)). rewrite <-(Nat.add_0_r (length l1)), iter_at_app. by destruct l2.
Qed.

(** Erasing another element leaves the iterator and corrects the index by the side the element was on. *)
Lemma erase_other f l1 n v l2 : filter_ok p f → set_ f = l1 ++ (n, (v, tt)) :: l2 → percentile_it_ f ≠ Some n →
  (∀ x, x ∈ values l1 → x < v) → (∀ x, x ∈ values l2 → v ≤ x) →
  ∃ f2 i, (_ ← set_erase (Some n); w ← value_at (percentile_it_ f);
           if v <=? w then modify (λ f, f <| percentile_index_ := percentile_index_ f - 1 |>) else mret tt) f
          = Ok (tt, f2) ∧ stands_at f f2 (l1 ++ l2) i.
Proof.
  intros Hok Hl E H1 H2. pose proof (fo_nodes _ _ Hok) as Hnd. destruct (value_at_middle f l1 n v l2 Hnd Hl) as [Hat _].
  destruct (current_element f Hok) as (i&m&w&Hi&Hit&Hidx&_); [intros Hnil; by rewrite Hnil in Hat|].
  assert (percentile_it_ f = Some m) as Hit' by (rewrite Hit; unfold iter_at; by rewrite Hi).
  assert (i ≠ length l1) as Hil by (intros ->; rewrite Hi in Hat; simplify_eq).
  pose proof Hi as Hj. rewrite Hl in Hj. apply lookup_erased in Hj; [|done].
  destruct (set_erased f l1 _ l2 Hok Hl) as (Hnd'&_&_). set (f1 := f <| set_ := l1 ++ l2 |>).
  set (j := if decide (i < length l1)%nat then i else (i - 1)%nat) in *.
  assert (percentile_it_ f = iter_at j (l1 ++ l2)) as Hitj by (unfold iter_at; by rewrite Hj).
  assert (value_at (percentile_it_ f) f1 = Ok (w, f1)) as Hval by (rewrite Hitj; by apply (value_at_run j f1 m w)).
  pose proof (side l1 l2 j m w Hj) as Hside. apply lookup_lt_Some in Hj.
  rewrite (bind_run _ _ _ _ _ (set_erase_run f l1 n _ l2 Hnd Hl)). fold f1. rewrite (bind_run _ _ _ _ _ Hval).
  unfold stands_at. destruct (decide (i < length l1)%nat) as [Hlt|Hlt].
  - subst j. rewrite decide_True in Hside by done. rewrite (proj2 (Z.leb_gt _ _)) by (by apply H1).
    exists f1, i. split_and!; try done. lia.
  - subst j. rewrite decide_False in Hside by lia. rewrite (proj2 (Z.leb_le _ _)) by (by apply H2).
    eexists _, (i - 1)%nat. split; [done|]. split_and!; try done; [lia|].
    change (percentile_index_ f - 1 = Z.of_nat (i - 1)). lia.
Qed.

Lemma pf_Erase_run v f : filter_ok p f → Z.of_nat (length (set_ f)) ≤ 2 ^ 24 + 1 →
  ∃ f', Erase v f = Ok (bool_decide (v ∈ values (set_ f)), f') ∧ filter_ok p f' ∧
    if decide (v ∈ values (set_ f)) then values (set_ f) ≡ₚ v :: values (set_ f') else f' = f.
Proof.
  intros Hok Hlen. destruct (decide (v ∈ values (set_ f))) as [Hin|Hout].
  2:{ exists f. rewrite bool_decide_false by done. split; [by apply pf_Erase_absent|done]. }
  rewrite bool_decide_true by done.
  destruct (present_split v (set_ f) (fo_sorted _ _ Hok) Hin) as (n&l1&l2&Hl&Hlb&H1&H2).
  destruct (value_at_middle f l1 n v l2 (fo_nodes _ _ Hok) Hl) as [_ Hv].
  unfold Erase, lower_bound. rewrite (bind_run _ _ _ (Some n) f) by (unfold mbind, M_bind, get; by rewrite Hlb).
  rewrite decide_False by done. rewrite (bind_run _ _ _ false f) by (rewrite (bind_run _ _ _ _ _ Hv), Z.eqb_refl; done).
  rewrite (bind_run _ _ _ f f) by done.
  destruct (set_erased f l1 _ l2 Hok Hl) as (Hnd&Hfr&Hs).
  assert (∃ f2 i, (if decide (Some n = percentile_it_ f) then
       next ← set_erase (Some n); modify (λ f, f <| percentile_it_ := next |>)
     else _ ← set_erase (Some n); w ← value_at (percentile_it_ f);
       if v <=? w then modify (λ f, f <| percentile_index_ := percentile_index_ f - 1 |>) else mret tt) f
     = Ok (tt, f2) ∧ stands_at f f2 (l1 ++ l2) i) as (f2&i&Hstep&Hp&Hnn&Hset&Hi).
  { case_decide as E; [by eapply erase_current|]. eapply erase_other; [done|done|congruence|done|done]. }
  rewrite (bind_run _ _ _ _ _ Hstep).
  destruct (update_ok f2 i) as (f'&Hu&Hok'&Hs'); rewrite ?Hset, ?Hnn; try done; [by rewrite Hp; apply Hok| |].
  { rewrite Hl, length_app in Hlen. rewrite length_app. simpl in Hlen. lia. }
  exists f'. rewrite (bind_run _ _ _ _ _ Hu). split_and!; [done|done|].
  rewrite Hs', Hset, Hl. unfold values. rewrite !fmap_app, fmap_cons. simpl. by rewrite Permutation_middle.
Qed.

Lemma pf_Get_run f : filter_ok p f →
  GetPercentileValue f = Ok (default 0 (values (set_ f) !! Z.to_nat (rank p (Z.of_nat (length (set_ f)) - 1))), f).
Proof.
  intros Hok. unfold GetPercentileValue. rewrite (bind_run _ _ _ f f) by done. case_bool_decide as E.
  - by rewrite E.
  - destruct (current_element f Hok E) as (i&n&v&Hi&Hit&_&Hr). rewrite Hit, (value_at_run i f n v (fo_nodes _ _ Hok) Hi).
    rewrite <-Hr, Nat2Z.id. unfold values. by rewrite list_lookup_fmap, Hi.
Qed.

Lemma pf_Reset_run f : filter_ok p f → ∃ f', Reset f = Ok (tt, f') ∧ filter_ok p f' ∧ set_ f' = [].
Proof.
  intros [Hp Hnd Hfr Hs _]. eexists. split; [done|]. split; [|done].
  split; [done|..]; change (set_ _) with (@nil node); [constructor|constructor|constructor|done].
Qed.

(** ** Any sequence of calls *)

(** The reference: the observations as they came in, sorted when the value is wanted. *)
Definition percentile_of (obs : list Z) : Z :=
  default 0 (merge_sort Z.le obs !! Z.to_nat (rank p (Z.of_nat (length obs) - 1))).
Fixpoint erase_one v (obs : list Z) : list Z :=
  match obs with [] => [] | x :: obs' => if x =? v then obs' else x :: erase_one v obs' end.

Lemma erase_one_perm v obs : v ∈ obs → obs ≡ₚ v :: erase_one v obs.
Proof.
  induction obs as [|x obs IH]; [by intros ?%elem_of_nil|]. intros Hv. simpl. destruct (Z.eqb_spec x v) as [->|Hne]; [done|].
  apply elem_of_cons in Hv as [->|Hv]; [done|]. rewrite (IH Hv) at 1. apply perm_swap.
Qed.

Lemma percentile_value f obs : filter_ok p f → values (set_ f) ≡ₚ obs →
  GetPercentileValue f = Ok (percentile_of obs, f).
Proof.
  intros Hok Hp. rewrite (pf_Get_run f Hok). unfold percentile_of.
  assert (values (set_ f) = merge_sort Z.le obs) as ->.
  { apply (StronglySorted_unique Z.le); [apply Hok|apply StronglySorted_merge_sort; apply _|]. by rewrite merge_sort_Permutation. }
  assert (length (set_ f) = length obs) as ->; [|done].
  rewrite <-Hp. unfold values. by rewrite length_fmap.
Qed.

Inductive percentile_op := PInsert (value : Z) | PErase (value : Z) | PGet | PReset.
Inductive percentile_answer := AErased (b : bool) | AValue (v : Z).

Fixpoint run_percentile_ops (ops : list percentile_op) : M PercentileFilter (list percentile_answer) :=
  match ops with
  | [] => mret []
  | PInsert v :: ops' => _ ← Insert v; run_percentile_ops ops'
  | PErase v :: ops' => b ← Erase v; rs ← run_percentile_ops ops'; mret (AErased b :: rs)
  | PGet :: ops' => v ← GetPercentileValue; rs ← run_percentile_ops ops'; mret (AValue v :: rs)
  | PReset :: ops' => _ ← Reset; run_percentile_ops ops'
  end.
Fixpoint percentile_answers (obs : list Z) (ops : list percentile_op) : list percentile_answer :=
  match ops with
  | [] => []
  | PInsert v :: ops' => percentile_answers (v :: obs) ops'
  | PErase v :: ops' => AErased (bool_decide (v ∈ obs)) :: percentile_answers (erase_one v obs) ops'
  | PGet :: ops' => AValue (percentile_of obs) :: percentile_answers obs ops'
  | PReset :: ops' => percentile_answers [] ops'
  end.

Lemma erase_one_absent v obs : v ∉ obs → erase_one v obs = obs.
Proof.
  induction obs as [|x obs IH]; intros Hv; [done|]. simpl. destruct (Z.eqb_spec x v) as [->|]; [set_solver|].
  f_equal. apply IH. set_solver.
Qed.

Lemma run_percentile_spec ops : ∀ obs f,
  filter_ok p f → values (set_ f) ≡ₚ obs → Z.of_nat (length obs + length ops) ≤ 2 ^ 24 + 1 →
  ∃ f', run_percentile_ops ops f = Ok (percentile_answers obs ops, f').
Proof.
  induction ops as [|[v|v| |] ops IH]; intros obs f Hok Hp Hlen; cbn [run_percentile_ops percentile_answers];
    [by exists f|..]; assert (length (set_ f) = length obs) as Hl by (rewrite <-Hp; unfold values; by rewrite length_fmap);
    cbn [length] in Hlen.
  - destruct (pf_Insert_run v f Hok ltac:(lia)) as (f1&H1&Hok1&Hp1). rewrite (bind_run _ _ _ _ _ H1).
    apply IH; [done|by rewrite Hp1, Hp|simpl; lia].
  - destruct (pf_Erase_run v f Hok ltac:(lia)) as (f1&H1&Hok1&Hp1). rewrite (bind_run _ _ _ _ _ H1).
    assert (bool_decide (v ∈ values (set_ f)) = bool_decide (v ∈ obs)) as -> by (apply bool_decide_ext; by rewrite Hp).
    destruct (IH (erase_one v obs) f1 Hok1) as [f' Hrun].
    + case_decide as Hv.
      * rewrite Hp in Hp1, Hv. rewrite (erase_one_perm v obs Hv) in Hp1. symmetry. by apply Permutation_cons_inv in Hp1.
      * subst f1. rewrite erase_one_absent; [done|]. by rewrite <-Hp.
    + assert (length (erase_one v obs) ≤ length obs)%nat; [|lia]. clear. induction obs as [|x obs IH]; simpl; [lia|].
      destruct (x =? v); simpl; lia.
    + exists f'. by rewrite (bind_run _ _ _ _ _ Hrun).
  - rewrite (bind_run _ _ _ _ _ (percentile_value f obs Hok Hp)). destruct (IH obs f Hok Hp ltac:(lia)) as [f' Hrun].
    exists f'. by rewrite (bind_run _ _ _ _ _ Hrun).
  - destruct (pf_Reset_run f Hok) as (f1&H1&Hok1&Hs1). rewrite (bind_run _ _ _ _ _ H1).
    apply IH; [done|by rewrite Hs1|simpl; lia].
Qed.

Lemma pf_construct_run f : ∃ f', construct p f = Ok (tt, f') ∧ filter_ok p f' ∧ set_ f' = [].
Proof.
  eexists. split; [unfold construct; rewrite (bind_run _ _ _ tt (mkPercentileFilter p [] None 0 0)) by done; by rewrite p_one|].
  split; [|done]. split; [done|constructor|constructor|constructor|done].
Qed.
End percentile.

(** * The median of a window *)

Section median.
Import MovingMedianFilter.
Implicit Types f : MovingMedianFilter.

(** The reference: the last [W] samples, the one in the middle of them. *)
Definition latest (W : Z) (hist : list Z) : list Z := drop (length hist - Z.to_nat W) hist.
Definition median (l : list Z) : Z := default 0 (merge_sort Z.le l !! ((length l - 1) / 2)%nat).

Inductive median_op := DInsert (value : Z) | DGet | DCount | DReset.

Fixpoint run_median_ops (ops : list median_op) : M MovingMedianFilter (list Z) :=
  match ops with
  | [] => mret []
  | DInsert v :: ops' => _ ← Insert v; run_median_ops ops'
  | DGet :: ops' => v ← GetFilteredValue; rs ← run_median_ops ops'; mret (v :: rs)
  | DCount :: ops' => n ← GetNumberOfSamplesStored; rs ← run_median_ops ops'; mret (n :: rs)
  | DReset :: ops' => _ ← Reset; run_median_ops ops'
  end.
Fixpoint median_answers (W : Z) (hist : list Z) (ops : list median_op) : list Z :=
  match ops with
  | [] => []
  | DInsert v :: ops' => median_answers W (hist ++ [v]) ops'
  | DGet :: ops' => median (latest W hist) :: median_answers W hist ops'
  | DCount :: ops' => Z.min W (Z.of_nat (length hist)) :: median_answers W hist ops'
  | DReset :: ops' => median_answers W [] ops'
  end.

Record median_ok (W : Z) (hist : list Z) f : Prop := {
  md_filter : filter_ok half (percentile_filter_ f);
  md_values : values (PercentileFilter.set_ (percentile_filter_ f)) ≡ₚ samples_ f;
  md_samples : samples_ f = latest W hist;
  md_stored : samples_stored_ f = Z.of_nat (length (samples_ f));
  md_window : window_size_ f = W
}.

Lemma half_ok : 0 ≤ mantissa half ∧ at_most_one half = true.
Proof. done. Qed.

Lemma latest_length W hist : 0 ≤ W → Z.of_nat (length (latest W hist)) = Z.min W (Z.of_nat (length hist)).
Proof. intros HW. unfold latest. rewrite length_drop. lia. Qed.

Lemma latest_snoc W hist v : 0 < W →
  latest W (hist ++ [v]) =
  if W <? Z.of_nat (length (latest W hist)) + 1 then tail (latest W hist ++ [v]) else latest W hist ++ [v].
Proof.
  intros HW. rewrite latest_length by lia. unfold latest. rewrite length_app. simpl.
  destruct (Z.ltb_spec W (Z.min W (Z.of_nat (length hist)) + 1)).
  - replace (length hist + 1 - Z.to_nat W)%nat with (S (length hist - Z.to_nat W)) by lia.
    set (k := (length hist - Z.to_nat W)%nat). rewrite <-(drop_app_le hist [v] k) by lia.
    rewrite <-Nat.add_1_r, <-drop_drop. by destruct (drop k (hist ++ [v])).
  - replace (length hist + 1 - Z.to_nat W)%nat with 0%nat by lia.
    replace (length hist - Z.to_nat W)%nat with 0%nat by lia. done.
Qed.

Lemma on_filter_run {A} (m : PercentileFilter.FM A) f a q :
  m (percentile_filter_ f) = Ok (a, q) → on_filter m f = Ok (a, f <| percentile_filter_ := q |>).
Proof. unfold on_filter. by intros ->. Qed.

Lemma filter_length W hist f : median_ok W hist f →
  length (PercentileFilter.set_ (percentile_filter_ f)) = length (samples_ f).
Proof. intros Hok. rewrite <-(md_values _ _ _ Hok). unfold values. by rewrite length_fmap. Qed.

Lemma md_Insert_run W hist v f : 0 < W ≤ 2 ^ 24 → median_ok W hist f →
  ∃ f', Insert v f = Ok (tt, f') ∧ median_ok W (hist ++ [v]) f'.
Proof.
  intros HW Hok. pose proof (filter_length _ _ _ Hok) as Hlen. destruct half_ok as [Hh1 Hh2].
  destruct Hok as [Hf Hv Hs Hst Hw]. pose proof (latest_length W hist ltac:(lia)) as Hll. rewrite <-Hs in Hll.
  destruct (pf_Insert_run half Hh1 Hh2 v _ Hf ltac:(lia)) as (q&Hq&Hqok&Hqv).
  unfold Insert. rewrite (bind_run _ _ _ _ _ (on_filter_run _ _ _ _ Hq)).
  set (f2 := f <| percentile_filter_ := q |> <| samples_ := samples_ f ++ [v] |> <| samples_stored_ := wrap_u 64 (samples_stored_ f + 1) |>).
  rewrite (bind_run _ _ _ tt (f <| percentile_filter_ := q |> <| samples_ := samples_ f ++ [v] |>)) by done.
  rewrite (bind_run _ _ _ tt f2) by done.
  assert (wrap_u 64 (samples_stored_ f + 1) = samples_stored_ f + 1) as Hwrap by (apply Z.mod_small; lia).
  rewrite (bind_run _ _ _ f2 f2) by done. change (window_size_ f2) with (window_size_ f).
  change (samples_stored_ f2) with (wrap_u 64 (samples_stored_ f + 1)). rewrite Hwrap. change (samples_ f2) with (samples_ f ++ [v]).
  pose proof (latest_snoc W hist v ltac:(lia)) as Hsn. rewrite <-Hs, <-Hst in Hsn. rewrite Hw.
  destruct (Z.ltb_spec W (samples_stored_ f + 1)) as [Hlt|Hge].
  2:{ exists f2. split; [done|]. split; [done| |done| |done].
      - change (values (PercentileFilter.set_ q) ≡ₚ samples_ f ++ [v]). rewrite Hqv, Hv. by rewrite Permutation_cons_append.
      - change (wrap_u 64 (samples_stored_ f + 1) = Z.of_nat (length (samples_ f ++ [v]))).
        rewrite Hwrap, length_app. simpl. lia. }
  destruct (samples_ f) as [|x xs] eqn:Exs; [simpl in *; lia|]. simpl in Hsn.
  rewrite (bind_run _ _ _ x f2) by done.
  assert (length (PercentileFilter.set_ q) = S (S (length xs))) as Hql.
  { assert (length (values (PercentileFilter.set_ q)) = S (S (length xs))) as <-; [|unfold values; by rewrite length_fmap].
    rewrite Hqv, Hv. done. }
  simpl in Hll, Hst, Hlen.
  destruct (pf_Erase_run half Hh1 Hh2 x q Hqok ltac:(lia)) as (q'&Hq'&Hqok'&Hqv').
  rewrite decide_True in Hqv' by (rewrite Hqv, Hv; set_solver).
  rewrite (bind_run _ _ _ _ _ (on_filter_run _ f2 _ _ Hq')).
  eexists. split; [unfold mbind, M_bind, modify; reflexivity|]. split; [done| | | |done].
  - change (values (PercentileFilter.set_ q') ≡ₚ xs ++ [v]). apply (Permutation_cons_inv (a := x)).
    rewrite <-Hqv', Hqv, Hv. by rewrite Permutation_cons_append, app_comm_cons.
  - done.
  - change (wrap_u 64 (wrap_u 64 (samples_stored_ f + 1) - 1) = Z.of_nat (length (xs ++ [v]))).
    rewrite Hwrap, length_app. simpl length.
    unfold wrap_u. rewrite Z.mod_small; lia.
Qed.

Lemma md_Get_run W hist f : 0 < W ≤ 2 ^ 24 → median_ok W hist f →
  GetFilteredValue f = Ok (median (latest W hist), f).
Proof.
  intros HW Hok. pose proof (filter_length _ _ _ Hok) as Hlen. destruct Hok as [Hf Hv Hs Hst Hw].
  pose proof (latest_length W hist ltac:(lia)) as Hll. rewrite <-Hs in *. unfold GetFilteredValue.
  rewrite (on_filter_run _ _ _ _ (percentile_value half _ _ Hf Hv)). do 2 f_equal; [|by destruct f].
  unfold percentile_of, median. destruct (samples_ f) as [|x xs] eqn:E; [done|]. do 2 f_equal.
  rewrite rank_half by (simpl in *; lia).
  replace (Z.of_nat (length (x :: xs)) - 1) with (Z.of_nat (length (x :: xs) - 1)) by (simpl; lia).
  change 2 with (Z.of_nat 2). by rewrite <-Nat2Z.inj_div, Nat2Z.id.
Qed.

Lemma run_median_spec W ops : 0 < W ≤ 2 ^ 24 → ∀ hist f, median_ok W hist f →
  ∃ f', run_median_ops ops f = Ok (median_answers W hist ops, f').
Proof.
  intros HW. induction ops as [|[v| | |] ops IH]; intros hist f Hok; cbn [run_median_ops median_answers].
  - by exists f.
  - destruct (md_Insert_run W hist v f HW Hok) as (f1&H1&Hok1). rewrite (bind_run _ _ _ _ _ H1). by apply IH.
  - rewrite (bind_run _ _ _ _ _ (md_Get_run W hist f HW Hok)). destruct (IH hist f Hok) as [f' Hr].
    exists f'. by rewrite (bind_run _ _ _ _ _ Hr).
  - rewrite (bind_run _ _ _ (samples_stored_ f) f) by done. destruct (IH hist f Hok) as [f' Hr].
    exists f'. rewrite (bind_run _ _ _ _ _ Hr). rewrite (md_stored _ _ _ Hok), (md_samples _ _ _ Hok), latest_length by lia. done.
  - destruct (pf_Reset_run half _ (md_filter _ _ _ Hok)) as (q&Hq&Hqok&Hqs). unfold Reset.
    rewrite (bind_run _ _ _ tt (f <| percentile_filter_ := q |> <| samples_ := [] |> <| samples_stored_ := 0 |>)).
    2:{ rewrite (bind_run _ _ _ _ _ (on_filter_run _ f _ _ Hq)). done. }
    apply IH. split; [done| |done|done|apply Hok].
    change (values (PercentileFilter.set_ q) ≡ₚ []). by rewrite Hqs.
Qed.
End median.

(** * The filters *)

(** C24. The moving maximum.  For every window length and every sequence of calls at times that
    do not go back, [Max] answers the maximum of all samples added since the last [Reset]
    whose time is in the window, or nothing if there is none, although most samples are
    thrown away; both loops end.  Along the deque the times grow and the values fall, and it
    never holds more samples than the window has milliseconds. *)
Theorem moving_max_is_max `{!BuildConfig} (W : Z) (ops : list max_op) (c0 : MovingMaxCounter.MovingMaxCounter) :
  times_ok W (- 2 ^ 63) ops →
  ∃ c, (_ ← MovingMaxCounter.construct W; run_max_ops ops) c0 = Ok (max_answers W [] ops, c) ∧
    falling (MovingMaxCounter.samples_ c) ∧
    (0 ≤ W → Z.of_nat (length (MovingMaxCounter.samples_ c)) ≤ W + 1).
Proof.
  intros Hok. set (c1 := MovingMaxCounter.mkMovingMaxCounter W [] (- 2 ^ 63)).
  destruct (run_max_spec W ops (- 2 ^ 63) [] c1) as (c&Hrun&Hst&Hf); [by split| |done|].
  { intros HW. unfold stored_in_window. simpl. lia. }
  exists c. rewrite (bind_run _ _ _ tt c1) by done. done.
Qed.

(** The percentile filter.  For every percentile between 0 and 1 and every sequence of at
    most 2 ^ 24 + 1 insertions, removals and resets, [Erase] tells whether the value was
    there and takes one of them out, and [GetPercentileValue] answers the element at the
    index [percentile * (size - 1)], rounded as floats are, of the sorted observations:
    the iterator and the index that are kept from call to call stay together. *)
Theorem percentile_filter_correct (p : float) (ops : list percentile_op) (f0 : PercentileFilter.PercentileFilter) :
  0 ≤ mantissa p → at_most_one p = true → Z.of_nat (length ops) ≤ 2 ^ 24 + 1 →
  (∃ f, (_ ← PercentileFilter.construct p; run_percentile_ops ops) f0 = Ok (percentile_answers p [] ops, f)) ∧
  ∀ n, 0 ≤ n ≤ 2 ^ 24 → 0 ≤ rank p n ≤ n.
Proof.
  intros Hm H1 Hlen. split; [|intros n Hn; by apply rank_bounds].
  destruct (pf_construct_run p H1 f0) as (f1&Hc&Hok&Hs). rewrite (bind_run _ _ _ _ _ Hc).
  apply (run_percentile_spec p Hm H1 ops [] f1 Hok); [by rewrite Hs|done].
Qed.

(** C25. The moving median.  For every window of up to 2 ^ 24 samples and every sequence of
    calls, [GetFilteredValue] answers the median (the lower one of two) of the latest samples
    since the last [Reset], as many as the window has, or 0 if there are none, and
    [GetNumberOfSamplesStored] how many these are. *)
Theorem moving_median_is_median (W : Z) (ops : list median_op) (f0 : MovingMedianFilter.MovingMedianFilter) :
  0 < W ≤ 2 ^ 24 →
  ∃ f, (_ ← MovingMedianFilter.construct W; run_median_ops ops) f0 = Ok (median_answers W [] ops, f).
Proof.
  intros HW. destruct (pf_construct_run MovingMedianFilter.half eq_refl (MovingMedianFilter.percentile_filter_ f0))
    as (q&Hq&Hqok&Hqs).
  rewrite (bind_run _ _ _ tt (MovingMedianFilter.mkMovingMedianFilter q [] 0 W)).
  - apply run_median_spec; [done|]. split; [done| |done|done|done]. simpl. by rewrite Hqs.
  - unfold MovingMedianFilter.construct. rewrite (bind_run _ _ _ f0 f0) by done.
    set (f1 := MovingMedianFilter.mkMovingMedianFilter (MovingMedianFilter.percentile_filter_ f0) [] 0 W).
    rewrite (bind_run _ _ _ tt f1) by done. rewrite (bind_run _ _ _ _ _ (on_filter_run _ f1 _ _ Hq)).
    by rewrite (proj2 (Z.ltb_lt _ _)) by lia.
Qed.

(** Beyond 2 ^ 24 elements a number of elements is rounded when it is converted to a
    [float], and may be rounded up: with the percentile 1 the iterator of a set of
    2 ^ 24 + 4 elements is set to the end, which [GetPercentileValue] dereferences. *)
Theorem percentile_past_end (f : PercentileFilter.PercentileFilter) (i : nat) :
  PercentileFilter.percentile_ f = mkFloat 1 0 →
  Z.of_nat (length (PercentileFilter.set_ f)) = 2 ^ 24 + 4 →
  NoDup (PercentileFilter.set_ f).*1 → (i ≤ length (PercentileFilter.set_ f))%nat →
  PercentileFilter.percentile_it_ f = iter_at i (PercentileFilter.set_ f) →
  PercentileFilter.percentile_index_ f = Z.of_nat i →
  ∃ f', PercentileFilter.UpdatePercentileIterator f = Ok (tt, f') ∧
    PercentileFilter.GetPercentileValue f' = Fault (UndefinedBehaviour "end() dereferenced").
Proof.
  intros Hp Hlen Hnd Hi Hit Hidx.
  assert (PercentileFilter.set_ f ≠ []) as Hne by (intros E; rewrite E in Hlen; simpl in Hlen; lia).
  pose proof (update_run f i Hne Hnd Hi Hit Hidx) as Hu. cbv zeta in Hu. rewrite Hp in Hu.
  replace (Z.of_nat (length (PercentileFilter.set_ f)) - 1) with (2 ^ 24 + 3) in Hu by lia.
  assert (rank (mkFloat 1 0) (2 ^ 24 + 3) = Z.of_nat (length (PercentileFilter.set_ f))) as Hr by (rewrite Hlen; by vm_compute).
  rewrite Hr, bool_decide_true, Nat2Z.id in Hu by lia. eexists. split; [exact Hu|].
  unfold PercentileFilter.GetPercentileValue. unfold mbind, M_bind, get. rewrite bool_decide_false by done.
  unfold PercentileFilter.value_at, mbind, M_bind, get.
  match goal with |- context [PercentileFilter.percentile_it_ ?x] =>
    change (PercentileFilter.percentile_it_ x) with (iter_at (length (PercentileFilter.set_ f)) (PercentileFilter.set_ f)) end.
  unfold iter_at. by rewrite lookup_ge_None_2 by lia.
Qed.

(** * Witnesses *)

#[local] Instance filters_checked : BuildConfig := true.

Definition sample_max_ops : list max_op :=
  [MAdd 5 0; MAdd 3 10; MAdd 4 20; MMax 50; MMax 110; MAdd 1 130; MMax 200; MReset; MMax 200].

Lemma moving_max_is_max_witness : ∃ c,
  run_max_ops sample_max_ops (MovingMaxCounter.mkMovingMaxCounter 100 [] (- 2 ^ 63)) =
    Ok ([Some 5; Some 4; Some 1; None], c) ∧ falling (MovingMaxCounter.samples_ c).
Proof.
  destruct (moving_max_is_max 100 sample_max_ops (MovingMaxCounter.mkMovingMaxCounter 0 [] 0)) as (c&Hr&Hf&_).
  - repeat (split; [lia|]). exact I.
  - exists c. split; [exact Hr|exact Hf].
Defined.

Lemma percentile_filter_correct_witness : ∃ f,
  run_percentile_ops [PInsert 7; PInsert 3; PInsert 9; PGet; PErase 3; PErase 4; PInsert 1; PInsert 8; PGet]
    (PercentileFilter.mkPercentileFilter (mkFloat 3 (-2)) [] None 0 0) =
  Ok ([AValue 7; AErased true; AErased false; AValue 8], f).
Proof.
  destruct (percentile_filter_correct (mkFloat 3 (-2))
    [PInsert 7; PInsert 3; PInsert 9; PGet; PErase 3; PErase 4; PInsert 1; PInsert 8; PGet]
    (PercentileFilter.mkPercentileFilter (mkFloat 0 0) [] None 0 0)) as [[f Hf] _]; [simpl; lia|reflexivity|simpl; lia|].
  exists f. exact Hf.
Defined.

Definition sample_median_ops : list median_op :=
  [DGet; DInsert 9; DInsert 1; DGet; DInsert 5; DGet; DInsert 7; DGet; DCount].

Lemma moving_median_is_median_witness : ∃ f,
  run_median_ops sample_median_ops (MovingMedianFilter.mkMovingMedianFilter
    (PercentileFilter.mkPercentileFilter MovingMedianFilter.half [] None 0 0) [] 0 3) = Ok ([0; 1; 5; 5; 3], f).
Proof.
  destruct (moving_median_is_median 3 sample_median_ops (MovingMedianFilter.mkMovingMedianFilter
    (PercentileFilter.mkPercentileFilter MovingMedianFilter.half [] None 0 0) [] 0 3)) as [f Hf]; [lia|].
  exists f. exact Hf.
Defined.
