(* ===== verification/IdMap.v ===== *)
(** base/containers/id_map.h: [IDMap], pointers by identifier, whose elements may be
    removed while iterators run over it.

    The identifiers are those of the default, [int32_t]; a value is a pointer to a [T], plain
    or smart, with [None] for null.  [data_] is a [std::unordered_map]: its elements are nodes
    in the order of an iteration.  Where a new element goes in this order is a parameter,
    [UnorderedMap]; an insertion may rehash the table and by that invalidate the iterators,
    which the model takes to happen always: [epoch] counts the insertions, and an iterator
    of an earlier epoch must not be used.  [removed_ids_] is a [flat_set] (FlatTree.v).

    Everything happens on one sequence, so that the checks of [sequence_checker_] hold.  The
    assignment operator of [Iterator] names members that do not exist, and cannot be used. *)
From S2P Require Import Prelude StdAlgorithms FlatTree NodeLists.
From Stdlib Require Import ZArith Lia.
From stdpp Require Import base tactics numbers strings gmap list.
From coqutil Require Import Datatypes.RecordSetters.
Import TriangleBracketNotations.

Open Scope Z_scope.

Abbreviation entry T := (nat * (Z * option T))%type.

(** Where a hash table puts a new element; all the others are still there, in any order. *)
Class UnorderedMap (T : Type) := place : list (entry T) → entry T → list (entry T).
Class UnorderedMapPlaces (T : Type) `{UnorderedMap T} : Prop :=
  place_perm : ∀ (l : list (entry T)) (e : entry T), place l e ≡ₚ e :: l.

Module IDMap.
Section IDMap.
Context `{BuildConfig} {T : Type} `{UnorderedMap T}.

Record IDMap := mkIDMap {
  iteration_depth_ : Z;
  removed_ids_ : list Z;
  next_id_ : Z;
  data_ : list (entry T);
  check_on_null_data_ : bool;
  next_node : nat;
  epoch : nat
}.

Abbreviation IM := (M IDMap).

Definition construct : IM unit := put (mkIDMap 0 [] 1 [] false 0 0).

(** The operators of [int], and of [int32_t]. *)
Definition int32 (z : Z) : IM Z :=
  if bool_decide (- 2 ^ 31 ≤ z < 2 ^ 31) then mret z else fail (UndefinedBehaviour "int overflow").

(** ** [HashTable] *)

(** [HashTable::iterator] *)
Record table_iterator := mkTableIterator { position : iterator; made : nat }.

Definition table_begin : IM table_iterator := s ← get; mret (mkTableIterator (first_node (data_ s)) (epoch s)).
Definition table_end : IM table_iterator := s ← get; mret (mkTableIterator None (epoch s)).

(** An iterator from before a rehash is of no use. *)
Definition usable (i : table_iterator) : IM unit :=
  s ← get;
  if decide (made i = epoch s) then mret tt else fail (UseAfterFree "iterator of data_ after a rehash").

Definition is_end (i : table_iterator) : IM bool :=
  _ ← usable i;
  mret (bool_decide (position i = None)).

(** [*i] *)
Definition entry_of (i : table_iterator) : IM (Z * option T) :=
  _ ← usable i;
  s ← get;
  match position i with
  | None => fail (UndefinedBehaviour "end() dereferenced")
  | Some n =>
    match node_value n (data_ s) with
    | Some x => mret x
    | None => fail (UseAfterFree "element of data_")
    end
  end.

(** [++i] *)
Definition increment (i : table_iterator) : IM table_iterator :=
  _ ← entry_of i;
  s ← get;
  n ← deref "i" (position i);
  mret (mkTableIterator (default None (node_after n (data_ s))) (made i)).

Fixpoint node_of (key : Z) (l : list (entry T)) : iterator :=
  match l with
  | [] => None
  | (n, (k, _)) :: l' => if k =? key then Some n else node_of key l'
  end.

Definition find (key : Z) : IM table_iterator :=
  s ← get;
  mret (mkTableIterator (node_of key (data_ s)) (epoch s)).

(** [data_.erase(i)], [data_.erase(key)], [data_.clear()] *)
Definition erase_at (i : table_iterator) : IM unit :=
  _ ← entry_of i;
  n ← deref "i" (position i);
  modify (λ s, s <| data_ ::= without_node n |>).
Definition erase_key (key : Z) : IM unit :=
  i ← find key;
  b ← is_end i;
  if b : bool then mret tt else erase_at i.
Definition clear_data : IM unit := modify (λ s, s <| data_ := [] |>).

(** [i->second = data] *)
Definition assign_second (i : table_iterator) (data : option T) : IM unit :=
  _ ← entry_of i;
  n ← deref "i" (position i);
  modify (λ s, s <| data_ ::= fmap (λ e : entry T, if decide (e.1 = n) then (e.1, (e.2.1, data)) else e) |>).

(** [data_[key]]: the element, made if there is none *)
Definition subscript (key : Z) : IM table_iterator :=
  i ← find key;
  b ← is_end i;
  if b : bool then
    s ← get;
    _ ← put (s <| data_ := place (data_ s) (next_node s, (key, None)) |>
               <| next_node := S (next_node s) |> <| epoch := S (epoch s) |>);
    mret (mkTableIterator (Some (next_node s)) (S (epoch s)))
  else mret i.

(** ** [removed_ids_] *)

Definition on_removed {A} (m : M (list Z) A) : IM A := λ s,
  match m (removed_ids_ s) with
  | Ok (a, r) => Ok (a, s <| removed_ids_ := r |>)
  | Fault e => Fault e
  end.

Definition IsRemoved (key : Z) : IM bool :=
  i ← on_removed (FlatTree.find key_identity Z.ltb key);
  e ← on_removed FlatTree.end_;
  mret (negb (Nat.eqb i e)).

(** ** Operations *)

Definition set_check_on_null_data (value : bool) : IM unit := modify (λ s, s <| check_on_null_data_ := value |>).

Definition check_data (data : option T) : IM unit :=
  s ← get;
  dcheck (negb (check_on_null_data_ s) || bool_decide (data ≠ None)) "!check_on_null_data_ || data".

Definition AddInternal (data : option T) : IM Z :=
  _ ← check_data data;
  s ← get;
  let this_id := next_id_ s in
  i ← find this_id;
  b ← is_end i;
  _ ← dcheck b "Inserting duplicate item";
  i ← subscript this_id;
  _ ← assign_second i data;
  next ← int32 (this_id + 1);
  _ ← modify (λ s, s <| next_id_ := next |>);
  mret this_id.
Definition Add (data : option T) : IM Z := AddInternal data.

Definition AddWithIDInternal (data : option T) (id : Z) : IM unit :=
  _ ← check_data data;
  r ← IsRemoved id;
  _ ← (if r : bool then _ ← on_removed (FlatTree.erase_key key_identity Z.ltb id); mret tt
       else i ← find id; b ← is_end i; dcheck b "Inserting duplicate item");
  i ← subscript id;
  assign_second i data.
Definition AddWithID (data : option T) (id : Z) : IM unit := AddWithIDInternal data id.

Definition Remove (id : Z) : IM unit :=
  i ← find id;
  b ← is_end i;
  b ← (if b : bool then mret true else IsRemoved id);
  if b : bool then dcheck false "Attempting to remove an item not in the list"
  else
    s ← get;
    if iteration_depth_ s =? 0 then erase_at i
    else _ ← on_removed (FlatTree.insert key_identity Z.ltb id); mret tt.

Definition Replace (id : Z) (new_data : option T) : IM (option T) :=
  _ ← check_data new_data;
  i ← find id;
  b ← is_end i;
  _ ← dcheck (negb b) "i != data_.end()";
  r ← IsRemoved id;
  _ ← dcheck (negb r) "!IsRemoved(id)";
  x ← entry_of i;
  _ ← assign_second i new_data;
  mret x.2.

(** [KeyIterator] turns the elements into their keys. *)
Definition Clear : IM unit :=
  s ← get;
  if iteration_depth_ s =? 0 then clear_data
  else on_removed (FlatTree.insert_range key_identity Z.ltb true (node_keys (data_ s))).

Definition size : IM Z :=
  s ← get;
  mret (wrap_u 64 (Z.of_nat (length (data_ s)) - Z.of_nat (length (removed_ids_ s)))).
Definition IsEmpty : IM bool := n ← size; mret (n =? 0).

Definition Lookup (id : Z) : IM (option T) :=
  i ← find id;
  b ← is_end i;
  if b : bool then mret None
  else
    x ← entry_of i;
    if decide (x.2 = None) then mret None
    else r ← IsRemoved id; mret (if r : bool then None else x.2).

Definition Compact : IM unit :=
  s ← get;
  _ ← dcheck (iteration_depth_ s =? 0) "0 == iteration_depth_";
  _ ← for_each erase_key (removed_ids_ s);
  on_removed FlatTree.clear.

(** ** [Iterator]

    [map_] is the map at hand, so that an iterator is its [iter_]. *)

Definition SkipRemovedEntries (iter : table_iterator) : IM table_iterator :=
  s ← get;
  while_ (length (data_ s))
    (λ iter, e ← is_end iter; if e : bool then mret false else x ← entry_of iter; IsRemoved x.1)
    increment iter.

Definition Init (iter : table_iterator) : IM table_iterator :=
  s ← get;
  depth ← int32 (iteration_depth_ s + 1);
  _ ← modify (λ s, s <| iteration_depth_ := depth |>);
  SkipRemovedEntries iter.

(** [Iterator(map)], [Iterator(iter)] and [~Iterator()] *)
Definition Iterator_construct : IM table_iterator := i ← table_begin; Init i.
Definition Iterator_copy (iter : table_iterator) : IM table_iterator := Init iter.
Definition Iterator_destruct : IM unit :=
  s ← get;
  _ ← dcheck (0 <? iteration_depth_ s) "0 < map_->iteration_depth_";
  depth ← int32 (iteration_depth_ s - 1);
  _ ← modify (λ s, s <| iteration_depth_ := depth |>);
  if depth =? 0 then Compact else mret tt.

Definition IsAtEnd (iter : table_iterator) : IM bool := is_end iter.
Definition GetCurrentKey (iter : table_iterator) : IM Z := x ← entry_of iter; mret x.1.
Definition GetCurrentValue (iter : table_iterator) : IM (option T) :=
  x ← entry_of iter;
  if decide (x.2 = None) then mret None
  else r ← IsRemoved x.1; mret (if r : bool then None else x.2).
Definition Advance (iter : table_iterator) : IM table_iterator :=
  iter ← increment iter;
  SkipRemovedEntries iter.

End IDMap.
Arguments IDMap T : clear implicits.
End IDMap.
