(* ===== verification/IdMapLemmas.v ===== *)
(** What each operation of [IDMap] does to the table, the marks and the elements that are
    not marked. *)
From S2P Require Import Prelude StdAlgorithms FlatTree FlatTreeLemmas FlatTreeTheorems NodeLists IdMap.
From Stdlib Require Import ZArith Lia.
From stdpp Require Import base tactics numbers strings gmap sets list.
From coqutil Require Import Datatypes.RecordSetters.
Import TriangleBracketNotations.
Import IDMap.

Open Scope Z_scope.

(** * Sets of identifiers *)

Abbreviation id_sorted := (well_sorted key_identity Z.ltb).

Lemma view_id k l : view key_identity Z.ltb k l = if bool_decide (k ∈ l) then Some k else None.
Proof.
  unfold view. induction l as [|x l IH]; [done|]. cbn [List.find]. rewrite IH.
  unfold has_key, equivalent, key_identity. destruct (decide (k = x)) as [->|Hne].
  - rewrite Z.ltb_irrefl. simpl. rewrite bool_decide_true by set_solver. done.
  - replace (negb (k <? x) && negb (x <? k)) with false by (destruct (Z.ltb_spec k x), (Z.ltb_spec x k); simpl; lia).
    repeat case_bool_decide; try done; set_solver.
Qed.

Lemma view_id_elem k l : is_none (view key_identity Z.ltb k l) = bool_decide (k ∉ l).
Proof. rewrite view_id. by repeat case_bool_decide. Qed.

Lemma same_view_elem l l' : (∀ k, view key_identity Z.ltb k l = view key_identity Z.ltb k l') → ∀ k, k ∈ l ↔ k ∈ l'.
Proof. intros Hv k. specialize (Hv k). rewrite !view_id in Hv. by repeat case_bool_decide. Qed.

Lemma elem_of_ins_id v l : id_sorted l → ∀ k, k ∈ ins key_identity Z.ltb v l ↔ k ∈ l ∨ k = v.
Proof.
  intros Hs k. rewrite (same_view_elem _ (l ++ [v])); [set_solver|]. intros. by apply view_ins; [apply _|].
Qed.

Lemma elem_of_ins_all_id vs l : id_sorted l → ∀ k, k ∈ ins_all key_identity Z.ltb vs l ↔ k ∈ l ∨ k ∈ vs.
Proof.
  intros Hs k. rewrite (same_view_elem _ (l ++ vs)); [set_solver|]. intros. by apply view_ins_all; [apply _|].
Qed.

Lemma elem_of_without_id v l k : k ∈ without key_identity Z.ltb v l ↔ k ∈ l ∧ k ≠ v.
Proof.
  unfold without. rewrite list_elem_of_filter. unfold has_key, equivalent, key_identity.
  destruct (Z.ltb_spec v k), (Z.ltb_spec k v); simpl; naive_solver lia.
Qed.

Lemma find_id k l : id_sorted l →
  ∃ n, FlatTree.find key_identity Z.ltb k l = Ok (n, l) ∧ bool_decide (k ∈ l) = negb (Nat.eqb n (length l)).
Proof.
  intros Hs. destruct (below_splits key_identity Z.ltb k l Hs) as [n Hn].
  eexists. split; [exact (run_find key_identity Z.ltb k l n Hs Hn)|]. rewrite view_id_elem. case_bool_decide as Hk; case_bool_decide; try done.
  - pose proof (view_Some_at key_identity Z.ltb k l n k Hs Hn) as Hat. rewrite view_id, bool_decide_true in Hat by done.
    specialize (Hat eq_refl). apply lookup_lt_Some in Hat. destruct (Nat.eqb_spec n (length l)); [lia|done].
  - by rewrite Nat.eqb_refl.
Qed.

Lemma id_sorted_NoDup l : id_sorted l → NoDup l.
Proof.
  intros Hs. induction Hs as [|x l Hl IH Hx]; constructor; [|done].
  intros Hin. rewrite Forall_forall in Hx. specialize (Hx x Hin). unfold FlatTree.value_compare, key_identity in Hx.
  lia.
Qed.

(** * The table *)

Section map.
Context `{!BuildConfig} {T : Type} `{!UnorderedMap T, !UnorderedMapPlaces T}.
Implicit Types (l : list (entry T)) (s : IDMap T) (k id : Z) (v d : option T) (it : table_iterator).

(** The nodes and keys of a table, without the values. *)
Definition shape l : list (nat * Z) := (λ e, (e.1, e.2.1)) <$> l.

Lemma shape_nodes l : (shape l).*1 = l.*1.
Proof. unfold shape. by rewrite <-list_fmap_compose. Qed.
Lemma shape_keys l : (shape l).*2 = node_keys l.
Proof. unfold shape, node_keys. by rewrite <-list_fmap_compose. Qed.


Lemma key_split k l nn : ordering_ok l nn → k ∈ node_keys l →
  ∃ l1 n v l2, l = l1 ++ (n, (k, v)) :: l2 ∧ (n ∉ l1.*1) ∧ (n ∉ l2.*1) ∧ (k ∉ node_keys l1) ∧ (k ∉ node_keys l2) ∧
    ordering_ok (l1 ++ l2) nn ∧ (n < nn)%nat.
Proof.
  intros Hok ([n [k' v]]&->&Hin)%list_elem_of_fmap. apply list_elem_of_split in Hin as (l1&l2&->).
  simpl. exists l1, n, v, l2. apply ordering_middle in Hok as (Hok&?&?&Hk&?).
  unfold node_keys in Hk. rewrite fmap_app in Hk. split_and!; try done; set_solver.
Qed.

Lemma node_of_absent k l : k ∉ node_keys l → node_of k l = None.
Proof.
  induction l as [|[n [k' v]] l IH]; simpl; intros Hk; [done|].
  destruct (Z.eqb_spec k' k) as [->|]; [set_solver|]. apply IH. set_solver.
Qed.

Lemma node_of_middle k n v l1 l2 : k ∉ node_keys l1 → node_of k (l1 ++ (n, (k, v)) :: l2) = Some n.
Proof.
  induction l1 as [|[m [k' v']] l1 IH]; simpl; intros Hk; [by rewrite Z.eqb_refl|].
  destruct (Z.eqb_spec k' k) as [->|]; [set_solver|]. apply IH. set_solver.
Qed.

Definition set_value (n : nat) d l : list (entry T) :=
  (λ e : entry T, if decide (e.1 = n) then (e.1, (e.2.1, d)) else e) <$> l.

Lemma set_value_absent n d l : n ∉ l.*1 → set_value n d l = l.
Proof.
  unfold set_value. induction l as [|[m x] l IH]; simpl; intros Hn; [done|].
  rewrite decide_False by set_solver. f_equal. apply IH. set_solver.
Qed.

Lemma set_value_middle n k v d l1 l2 : n ∉ l1.*1 → n ∉ l2.*1 →
  set_value n d (l1 ++ (n, (k, v)) :: l2) = l1 ++ (n, (k, d)) :: l2.
Proof.
  intros H1 H2. unfold set_value. rewrite fmap_app, fmap_cons. simpl. rewrite decide_True by done.
  f_equal; [|f_equal]; by apply set_value_absent.
Qed.

Lemma shape_set_value n d l : shape (set_value n d l) = shape l.
Proof.
  unfold shape, set_value. rewrite <-list_fmap_compose. apply list_fmap_ext.
  intros i [m [k v]] _. simpl. by case_decide.
Qed.

(** ** Elements that are not removed *)

Definition live s : gmap Z (option T) :=
  base.filter (λ kv, kv.1 ∉ removed_ids_ s) (list_to_map (data_ s).*2).

Record map_ok s : Prop := {
  mo_sorted : id_sorted (removed_ids_ s);
  mo_nodes : ordering_ok (data_ s) (next_node s);
  mo_removed : ∀ k, k ∈ removed_ids_ s → k ∈ node_keys (data_ s);
  mo_idle : iteration_depth_ s = 0 → removed_ids_ s = [];
  mo_depth : 0 ≤ iteration_depth_ s < 2 ^ 31
}.

Lemma live_Some s k v : NoDup (node_keys (data_ s)) →
  live s !! k = Some v ↔ (k, v) ∈ (data_ s).*2 ∧ (k ∉ removed_ids_ s).
Proof.
  intros Hnd. unfold live. rewrite map_lookup_filter_Some. simpl.
  rewrite <-elem_of_list_to_map; [done|]. by rewrite <-list_fmap_compose.
Qed.

Lemma live_eq s (m : gmap Z (option T)) : NoDup (node_keys (data_ s)) →
  (∀ k v, m !! k = Some v ↔ (k, v) ∈ (data_ s).*2 ∧ (k ∉ removed_ids_ s)) → live s = m.
Proof. intros Hnd Hm. apply map_eq. intros k. apply option_eq. intros v. by rewrite live_Some, Hm. Qed.

Lemma value_key k v l : (k, v) ∈ l.*2 → k ∈ node_keys l.
Proof.
  intros ([n x]&Hx&Hin)%list_elem_of_fmap. simpl in Hx. subst x. apply list_elem_of_fmap.
  by exists (n, (k, v)).
Qed.

Lemma key_value k l : k ∈ node_keys l → ∃ v, (k, v) ∈ l.*2.
Proof.
  intros ([n [k' v]]&->&Hin)%list_elem_of_fmap. exists v. apply list_elem_of_fmap. by exists (n, (k', v)).
Qed.

Lemma live_is_Some s k : NoDup (node_keys (data_ s)) →
  is_Some (live s !! k) ↔ k ∈ node_keys (data_ s) ∧ (k ∉ removed_ids_ s).
Proof.
  intros Hnd. split.
  - intros [v [Hv ?]%live_Some]; [|done]. split; [by eapply value_key|done].
  - intros [[v Hv]%key_value ?]. exists v. by apply live_Some.
Qed.

(** ** Steps of the table *)

Lemma is_end_run it s : made it = epoch s → is_end it s = Ok (bool_decide (position it = None), s).
Proof. intros He. unfold is_end, usable, mbind, M_bind, get. by rewrite decide_True. Qed.

Lemma is_end_now p s : is_end (mkTableIterator p (epoch s)) s = Ok (bool_decide (p = None), s).
Proof. by apply is_end_run. Qed.

Lemma entry_of_run n x l1 l2 s : data_ s = l1 ++ (n, x) :: l2 → n ∉ l1.*1 →
  entry_of (mkTableIterator (Some n) (epoch s)) s = Ok (x, s).
Proof.
  intros Hd Hn. unfold entry_of, usable, mbind, M_bind, get. simpl. rewrite decide_True by done. simpl.
  by rewrite Hd, node_value_middle.
Qed.

Lemma increment_run n x l1 l2 s : data_ s = l1 ++ (n, x) :: l2 → n ∉ l1.*1 →
  increment (mkTableIterator (Some n) (epoch s)) s = Ok (mkTableIterator (first_node l2) (epoch s), s).
Proof.
  intros Hd Hn. unfold increment. rewrite (bind_run _ _ _ _ _ (entry_of_run n x l1 l2 s Hd Hn)).
  unfold mbind, M_bind, get. simpl. by rewrite Hd, node_after_middle.
Qed.

Lemma erase_at_run n x l1 l2 s : data_ s = l1 ++ (n, x) :: l2 → n ∉ l1.*1 → n ∉ l2.*1 →
  erase_at (mkTableIterator (Some n) (epoch s)) s = Ok (tt, s <| data_ := l1 ++ l2 |>).
Proof.
  intros Hd H1 H2. unfold erase_at. rewrite (bind_run _ _ _ _ _ (entry_of_run n x l1 l2 s Hd H1)).
  destruct s; simpl in *; subst. unfold mbind, M_bind, modify. simpl. by rewrite without_middle.
Qed.

Lemma assign_second_run n k v d l1 l2 s : data_ s = l1 ++ (n, (k, v)) :: l2 → n ∉ l1.*1 → n ∉ l2.*1 →
  assign_second (mkTableIterator (Some n) (epoch s)) d s = Ok (tt, s <| data_ := l1 ++ (n, (k, d)) :: l2 |>).
Proof.
  intros Hd H1 H2. unfold assign_second. rewrite (bind_run _ _ _ _ _ (entry_of_run n _ l1 l2 s Hd H1)).
  destruct s; simpl in *; subst. unfold mbind, M_bind, modify. simpl. by rewrite <-(set_value_middle n k v d l1 l2).
Qed.

Lemma table_find_absent k s : k ∉ node_keys (data_ s) → find k s = Ok (mkTableIterator None (epoch s), s).
Proof. intros Hk. unfold find, mbind, M_bind, get, mret, M_ret. by rewrite node_of_absent. Qed.

Lemma table_find_middle k n v l1 l2 s : data_ s = l1 ++ (n, (k, v)) :: l2 → k ∉ node_keys l1 →
  find k s = Ok (mkTableIterator (Some n) (epoch s), s).
Proof. intros Hd Hk. unfold find, mbind, M_bind, get, mret, M_ret. by rewrite Hd, node_of_middle. Qed.

Lemma on_removed_run {A} (m : M (list Z) A) s a r :
  m (removed_ids_ s) = Ok (a, r) → on_removed m s = Ok (a, s <| removed_ids_ := r |>).
Proof. unfold on_removed. by intros ->. Qed.

Lemma same_removed s : s <| removed_ids_ := removed_ids_ s |> = s.
Proof. by destruct s. Qed.

Lemma IsRemoved_run k s : id_sorted (removed_ids_ s) →
  IsRemoved k s = Ok (bool_decide (k ∈ removed_ids_ s), s).
Proof.
  intros Hs. destruct (find_id k _ Hs) as (n&Hf&Hb). unfold IsRemoved.
  rewrite (bind_run _ _ _ _ _ (on_removed_run _ _ _ _ Hf)), same_removed.
  rewrite (bind_run _ _ _ _ _ (on_removed_run _ _ _ _ (run_end (removed_ids_ s)))), same_removed.
  by rewrite Hb.
Qed.

Lemma check_data_run d s : (RTC_DCHECK_IS_ON = true → check_on_null_data_ s = true → d ≠ None) →
  check_data d s = Ok (tt, s).
Proof.
  intros Hd. unfold check_data. rewrite (bind_run _ _ _ s s) by done. apply wp_ok_eq, wp_dcheck; [|done].
  intros Hon. destruct (check_on_null_data_ s); [|done]. simpl. by apply bool_decide_true, Hd.
Qed.

Lemma dcheck_run {S} b what (s : S) : (RTC_DCHECK_IS_ON = true → b = true) → dcheck b what s = Ok (tt, s).
Proof. intros Hb. by apply wp_ok_eq, wp_dcheck. Qed.

(** ** What an operation that inserts nothing leaves

    With iterators around the nodes stay; without, those that are not live are gone. *)
Record kept s s' (lv : gmap Z (option T)) : Prop := {
  kept_ok : map_ok s';
  kept_live : live s' = lv;
  kept_shape : shape (data_ s') =
    if iteration_depth_ s' =? 0 then base.filter (λ e, is_Some (lv !! e.2)) (shape (data_ s))
    else shape (data_ s);
  kept_epoch : epoch s' = epoch s;
  kept_next : next_id_ s' = next_id_ s;
  kept_null : check_on_null_data_ s' = check_on_null_data_ s
}.

Lemma filter_all {A} (P : A → Prop) `{!∀ x, Decision (P x)} (l : list A) :
  (∀ x, x ∈ l → P x) → base.filter P l = l.
Proof.
  induction l as [|x l IH]; intros Hl; [done|]. rewrite filter_cons, decide_True by set_solver.
  f_equal. apply IH. set_solver.
Qed.

Lemma filter_none {A} (P : A → Prop) `{!∀ x, Decision (P x)} (l : list A) :
  (∀ x, x ∈ l → ¬ P x) → base.filter P l = [].
Proof.
  induction l as [|x l IH]; intros Hl; [done|]. rewrite filter_cons, decide_False by set_solver.
  apply IH. set_solver.
Qed.

Lemma shape_key e l : e ∈ shape l → e.2 ∈ node_keys l.
Proof. intros He. rewrite <-shape_keys. by apply list_elem_of_fmap_2. Qed.

(** Enough for [kept_shape] when the nodes stay: all of them are live if there are no
    iterators. *)
Lemma shape_stays s : map_ok s →
  shape (data_ s) =
    if iteration_depth_ s =? 0 then base.filter (λ e, is_Some (live s !! e.2)) (shape (data_ s))
    else shape (data_ s).
Proof.
  intros Hok. destruct (Z.eqb_spec (iteration_depth_ s) 0) as [E|]; [|done].
  symmetry. apply filter_all. intros e He%shape_key. apply live_is_Some; [apply Hok|].
  rewrite (mo_idle _ Hok E). set_solver.
Qed.

Lemma kept_refl s : map_ok s → kept s s (live s).
Proof. intros Hok. split; try done. by apply shape_stays. Qed.

Lemma filter_same {A} (P Q : A → Prop) `{!∀ x, Decision (P x), !∀ x, Decision (Q x)} (l : list A) :
  (∀ x, x ∈ l → P x ↔ Q x) → base.filter P l = base.filter Q l.
Proof.
  induction l as [|x l IH]; intros Hl; [done|]. rewrite !filter_cons, IH by set_solver.
  specialize (Hl x ltac:(set_solver)). repeat case_decide; tauto.
Qed.

Definition swept (R : list Z) l : list (entry T) := base.filter (λ e, e.2.1 ∉ R) l.

Lemma shape_swept R l : shape (swept R l) = base.filter (λ e, e.2 ∉ R) (shape l).
Proof.
  unfold shape, swept. induction l as [|e l IH]; [done|]. rewrite fmap_cons, !filter_cons. simpl.
  destruct (decide (e.2.1 ∉ R)); simpl; by rewrite <-?IH.
Qed.

Lemma elem_of_swept R l k v : (k, v) ∈ (swept R l).*2 ↔ (k, v) ∈ l.*2 ∧ (k ∉ R).
Proof.
  unfold swept. rewrite !list_elem_of_fmap. split.
  - intros (e&He&[Hk Hin]%list_elem_of_filter). rewrite <-He in Hk. split; [by exists e|done].
  - intros [(e&He&Hin) Hk]. exists e. rewrite list_elem_of_filter, <-He. done.
Qed.

Lemma swept_ok R l nn : ordering_ok l nn → ordering_ok (swept R l) nn.
Proof.
  intros [H1 H2 H3]. unfold swept. split.
  - eapply sublist_NoDup; [exact H1|]. apply fmap_sublist, sublist_filter.
  - eapply sublist_NoDup; [exact H2|]. apply fmap_sublist, sublist_filter.
  - rewrite Forall_forall in H3 |- *. by intros e [_ He%H3]%list_elem_of_filter.
Qed.

(** The nodes of removed identifiers go. *)
Lemma sweep_kept R s s' :
  ordering_ok (data_ s) (next_node s) → (∀ k, k ∈ removed_ids_ s → k ∈ R) →
  data_ s' = swept R (data_ s) → removed_ids_ s' = [] → iteration_depth_ s' = 0 →
  epoch s' = epoch s → next_id_ s' = next_id_ s → check_on_null_data_ s' = check_on_null_data_ s →
  next_node s' = next_node s →
  kept s s' (base.filter (λ kv, kv.1 ∉ R) (live s)).
Proof.
  intros Hok HR Hd Hr Hdep He Hn Hc Hnn. pose proof (swept_ok R _ _ Hok) as Hok'. rewrite <-Hd in Hok'.
  assert (live s' = base.filter (λ kv, kv.1 ∉ R) (live s)) as Hl.
  { apply live_eq; [apply Hok'|]. intros k v.
    rewrite map_lookup_filter_Some, live_Some by apply Hok. rewrite Hd, Hr, elem_of_swept. simpl.
    split; [set_solver|]. intros [[? ?] ?]. split_and!; try done. by intros ?%HR. }
  split; try done.
  - split; [rewrite Hr; constructor|by rewrite Hnn|rewrite Hr; set_solver|by rewrite Hr|rewrite Hdep; lia].
  - rewrite Hdep, Hd, shape_swept. simpl. apply filter_same. intros e He'%shape_key. rewrite <-Hl, live_is_Some by apply Hok'.
    rewrite Hr, <-shape_keys, Hd, shape_swept. split; [|].
    + intros Hk. split; [|set_solver]. apply list_elem_of_fmap.
      apply list_elem_of_fmap in He' as ([n [k v]]&Hek&Hin). simpl in Hek. exists (n, e.2). split; [done|].
      apply list_elem_of_filter. split; [done|]. apply list_elem_of_fmap. exists (n, (k, v)). by rewrite Hek.
    + intros [(e'&Hee&[? _]%list_elem_of_filter)%list_elem_of_fmap _]. by rewrite Hee.
Qed.

Lemma swept_middle n k v l1 l2 :
  k ∉ node_keys l1 → k ∉ node_keys l2 → swept [k] (l1 ++ (n, (k, v)) :: l2) = l1 ++ l2.
Proof.
  intros H1 H2. unfold swept. rewrite filter_app, filter_cons, decide_False by set_solver.
  f_equal; apply filter_all; intros e He Hin; apply list_elem_of_singleton in Hin; subst;
    [apply H1|apply H2]; by apply (list_elem_of_fmap_2 (λ e : entry T, e.2.1)).
Qed.

Lemma filter_one k (m : gmap Z (option T)) : base.filter (λ kv, kv.1 ∉ [k]) m = delete k m.
Proof.
  apply map_eq. intros j. apply option_eq. intros v. rewrite map_lookup_filter_Some, lookup_delete_Some. set_solver.
Qed.

(** With iterators around identifiers are only marked. *)
Lemma mark_kept r lv s s' :
  map_ok s → id_sorted r → (∀ k, k ∈ r → k ∈ node_keys (data_ s)) →
  data_ s' = data_ s → removed_ids_ s' = r → iteration_depth_ s' ≠ 0 → 0 ≤ iteration_depth_ s' < 2 ^ 31 →
  epoch s' = epoch s → next_id_ s' = next_id_ s → check_on_null_data_ s' = check_on_null_data_ s →
  next_node s' = next_node s →
  (∀ k v, lv !! k = Some v ↔ (k, v) ∈ (data_ s).*2 ∧ (k ∉ r)) →
  kept s s' lv.
Proof.
  intros Hok Hr Hsub Hd Hr' Hdep Hrange He Hn Hc Hnn Hlv. split; try done.
  - split; rewrite ?Hr', ?Hd, ?Hnn; try done. apply Hok.
  - apply live_eq; rewrite Hd; [apply Hok|]. by rewrite Hr'.
  - rewrite Hd. by destruct (Z.eqb_spec (iteration_depth_ s') 0).
Qed.

Lemma idmap_Remove_run id s : map_ok s → is_Some (live s !! id) ∨ RTC_DCHECK_IS_ON = false →
  ∃ s', Remove id s = Ok (tt, s') ∧ kept s s' (delete id (live s)) ∧ iteration_depth_ s' = iteration_depth_ s.
Proof.
  intros Hok Hlive. unfold Remove.
  assert (live s !! id = None → RTC_DCHECK_IS_ON = false) as Hoff by (intros E; rewrite E in Hlive; by destruct Hlive as [[]|]).
  assert (live s !! id = None → ∃ s', dcheck false "Attempting to remove an item not in the list" s = Ok (tt, s') ∧
    kept s s' (delete id (live s)) ∧ iteration_depth_ s' = iteration_depth_ s) as Hnone.
  { intros E. exists s. rewrite delete_id by done. split; [|split; [by apply kept_refl|done]].
    apply dcheck_run. by rewrite Hoff. }
  destruct (decide (id ∈ node_keys (data_ s))) as [Hin|Hout].
  2:{ rewrite (bind_run _ _ _ _ _ (table_find_absent id s Hout)), (bind_run _ _ _ _ _ (is_end_now _ s)). simpl.
      apply Hnone. apply eq_None_not_Some. rewrite live_is_Some by apply Hok. tauto. }
  destruct (key_split _ _ _ (mo_nodes _ Hok) Hin) as (l1&n&v&l2&Hd&Hn1&Hn2&Hk1&Hk2&_).
  rewrite (bind_run _ _ _ _ _ (table_find_middle id n v l1 l2 s Hd Hk1)), (bind_run _ _ _ _ _ (is_end_now _ s)).
  rewrite bool_decide_false by done.
  rewrite (bind_run _ _ _ _ _ (IsRemoved_run id s (mo_sorted _ Hok))). case_bool_decide as Hr.
  { apply Hnone. apply eq_None_not_Some. rewrite live_is_Some by apply Hok. tauto. }
  rewrite (bind_run _ _ _ s s) by done. destruct (Z.eqb_spec (iteration_depth_ s) 0) as [E|E].
  - eexists. split; [exact (erase_at_run n _ l1 l2 s Hd Hn1 Hn2)|]. split; [|done].
    rewrite <-filter_one. apply sweep_kept; try done; [apply Hok|..].
    + rewrite (mo_idle _ Hok E). set_solver.
    + rewrite Hd. by rewrite swept_middle.
    + exact (mo_idle _ Hok E).
  - destruct (run_insert key_identity Z.ltb id (removed_ids_ s) (mo_sorted _ Hok)) as (p&Hi&_).
    rewrite (bind_run _ _ _ _ _ (on_removed_run _ _ _ _ Hi)). eexists. split; [done|].
    split; [|done]. apply (mark_kept (ins key_identity Z.ltb id (removed_ids_ s))); try done.
    + apply ins_sorted, Hok; apply _.
    + intros k [Hk| ->]%elem_of_ins_id; [by apply Hok|done|apply Hok].
    + apply Hok.
    + intros k v'. rewrite lookup_delete_Some, live_Some, elem_of_ins_id by apply Hok. naive_solver.
Qed.

(** An element gets another value, and is live again if it was marked. *)
Lemma value_kept n k v d l1 l2 s s' :
  map_ok s → data_ s = l1 ++ (n, (k, v)) :: l2 → data_ s' = l1 ++ (n, (k, d)) :: l2 →
  id_sorted (removed_ids_ s') → (∀ j, j ∈ removed_ids_ s' ↔ j ∈ removed_ids_ s ∧ j ≠ k) →
  iteration_depth_ s' = iteration_depth_ s →
  epoch s' = epoch s → next_id_ s' = next_id_ s → check_on_null_data_ s' = check_on_null_data_ s →
  next_node s' = next_node s →
  kept s s' (<[k := d]> (live s)).
Proof.
  intros Hok Hd Hd' Hsr Hr Hdep He Hn Hc Hnn.
  assert (shape (data_ s') = shape (data_ s)) as Hsh.
  { rewrite Hd, Hd'. unfold shape. by rewrite !fmap_app. }
  assert (node_keys (data_ s') = node_keys (data_ s)) as Hk by by rewrite <-!shape_keys, Hsh.
  pose proof (mo_nodes _ Hok) as Hnodes. pose proof Hnodes as Hmid. rewrite Hd in Hmid.
  apply ordering_middle in Hmid as (Hrest&Hn1&Hn2&Hkk&Hlt).
  assert (map_ok s') as Hok'.
  { split; [done| | | |by rewrite Hdep; apply Hok].
    - rewrite Hnn, Hd'. apply (ordering_ok_perm ((n, (k, d)) :: l1 ++ l2)); [apply Permutation_middle|].
      apply ordering_ok_cons. split_and!; try done. rewrite fmap_app. set_solver.
    - intros j [Hj _]%Hr. rewrite Hk. by apply Hok.
    - rewrite Hdep. intros E. pose proof (mo_idle _ Hok E) as Hnil. rewrite Hnil in Hr.
      destruct (removed_ids_ s') as [|j r']; [done|]. specialize (Hr j). set_solver. }
  assert (live s' = <[k := d]> (live s)) as Hl.
  { apply live_eq; [apply Hok'|]. intros j w. rewrite lookup_insert_Some, live_Some, Hd, Hd', Hr by apply Hok.
    rewrite !fmap_app, !fmap_cons, !elem_of_app, !elem_of_cons. simpl.
    assert ((k, w) ∈ l1.*2 → False) as Hf1 by (intros ?%value_key; apply Hkk; unfold node_keys in *; rewrite fmap_app; set_solver).
    assert ((k, w) ∈ l2.*2 → False) as Hf2 by (intros ?%value_key; apply Hkk; unfold node_keys in *; rewrite fmap_app; set_solver).
    destruct (decide (j = k)) as [->|Hne]; naive_solver. }
  split; try done. rewrite <-Hl, <-Hsh. by apply shape_stays.
Qed.

Lemma idmap_Replace_run id d s v :
  map_ok s → live s !! id = Some v → (RTC_DCHECK_IS_ON = true → check_on_null_data_ s = true → d ≠ None) →
  ∃ s', Replace id d s = Ok (v, s') ∧ kept s s' (<[id := d]> (live s)) ∧ iteration_depth_ s' = iteration_depth_ s.
Proof.
  intros Hok Hv Hd. pose proof Hv as Hv'. apply live_Some in Hv' as [Hin Hr]; [|apply Hok].
  destruct (key_split _ _ _ (mo_nodes _ Hok) (value_key _ _ _ Hin)) as (l1&n&v'&l2&Hdata&Hn1&Hn2&Hk1&Hk2&_).
  assert (v' = v) as ->.
  { rewrite Hdata, fmap_app, fmap_cons, elem_of_app, elem_of_cons in Hin. simpl in Hin.
    destruct Hin as [?%value_key|[?|?%value_key]]; [done|naive_solver|done]. }
  unfold Replace. rewrite (bind_run _ _ _ _ _ (check_data_run d s Hd)).
  rewrite (bind_run _ _ _ _ _ (table_find_middle id n v l1 l2 s Hdata Hk1)), (bind_run _ _ _ _ _ (is_end_now _ s)).
  rewrite bool_decide_false by done. rewrite (bind_run _ _ _ tt s) by by apply dcheck_run.
  rewrite (bind_run _ _ _ _ _ (IsRemoved_run id s (mo_sorted _ Hok))), bool_decide_false by done.
  rewrite (bind_run _ _ _ tt s) by by apply dcheck_run.
  rewrite (bind_run _ _ _ _ _ (entry_of_run n _ l1 l2 s Hdata Hn1)).
  rewrite (bind_run _ _ _ _ _ (assign_second_run n id v d l1 l2 s Hdata Hn1 Hn2)).
  eexists. split; [done|]. split; [|done]. apply (value_kept n id v d l1 l2); try done; [apply Hok|].
  intros j. change (j ∈ removed_ids_ s ↔ j ∈ removed_ids_ s ∧ j ≠ id). naive_solver.
Qed.

Lemma idmap_Clear_run s : map_ok s →
  ∃ s', Clear s = Ok (tt, s') ∧ kept s s' ∅ ∧ iteration_depth_ s' = iteration_depth_ s.
Proof.
  intros Hok. unfold Clear. rewrite (bind_run _ _ _ s s) by done.
  destruct (Z.eqb_spec (iteration_depth_ s) 0) as [E|E].
  - eexists. split; [done|]. split; [|done].
    replace (∅ : gmap Z (option T)) with (base.filter (λ kv : Z * option T, kv.1 ∉ node_keys (data_ s)) (live s)).
    + apply sweep_kept; try done; [apply Hok|apply Hok| |exact (mo_idle _ Hok E)].
      symmetry. apply filter_none. intros e He Hne. apply Hne.
      by apply (list_elem_of_fmap_2 (λ e : entry T, e.2.1)).
    + apply map_empty. intros k. apply eq_None_not_Some.
      intros [v [[Hv _]%live_Some Hne]%map_lookup_filter_Some]; [|apply Hok]. by eapply Hne, value_key.
  - pose proof (run_insert_range key_identity Z.ltb true (node_keys (data_ s)) _ (mo_sorted _ Hok)) as Hi.
    rewrite (on_removed_run _ _ _ _ Hi). eexists. split; [done|]. split; [|done].
    apply (mark_kept (ins_all key_identity Z.ltb (node_keys (data_ s)) (removed_ids_ s))); try done.
    + apply ins_all_sorted, Hok; apply _.
    + intros k [Hk|Hk]%elem_of_ins_all_id; [by apply Hok|done|apply Hok].
    + apply Hok.
    + intros k v. rewrite lookup_empty, elem_of_ins_all_id by apply Hok. split; [done|].
      intros [?%value_key Hn]. tauto.
Qed.

Lemma live_size s : map_ok s → (base.size (live s) + length (removed_ids_ s) = length (data_ s))%nat.
Proof.
  intros Hok. 
  assert (removed_ids_ s ++ (map_to_list (live s)).*1 ≡ₚ node_keys (data_ s)) as Hp.
  { apply NoDup_Permutation; [|apply Hok|].
    - apply NoDup_app. split_and!; [apply id_sorted_NoDup, Hok| |apply NoDup_fst_map_to_list].
      intros k Hk ([k' v]&->&Hin%elem_of_map_to_list)%list_elem_of_fmap. simpl in Hk.
      by apply live_Some in Hin as [_ ?]; [|apply Hok].
    - intros k. rewrite elem_of_app. split.
      + intros [Hk|([k' v]&->&Hin%elem_of_map_to_list)%list_elem_of_fmap]; [by apply Hok|].
        apply live_Some in Hin as [Hin%value_key _]; [done|apply Hok].
      + intros Hk. destruct (decide (k ∈ removed_ids_ s)); [by left|]. right.
        destruct (proj2 (live_is_Some s k (oo_keys _ _ (mo_nodes _ Hok)))) as [v Hv]; [done|].
        apply list_elem_of_fmap. exists (k, v). by rewrite elem_of_map_to_list. }
  apply Permutation_length in Hp. unfold node_keys in Hp. rewrite length_app, !length_fmap, length_map_to_list in Hp. lia.
Qed.

Lemma live_middle n k v l1 l2 s :
  map_ok s → data_ s = l1 ++ (n, (k, v)) :: l2 → live s !! k = if decide (k ∈ removed_ids_ s) then None else Some v.
Proof.
  intros Hok Hd. case_decide as Hr.
  - apply eq_None_not_Some. rewrite live_is_Some by apply Hok. tauto.
  - apply live_Some; [apply Hok|]. rewrite Hd, fmap_app, fmap_cons. set_solver.
Qed.

Lemma idmap_Lookup_run id s : map_ok s → Lookup id s = Ok (mjoin (live s !! id), s).
Proof.
  intros Hok. unfold Lookup. destruct (decide (id ∈ node_keys (data_ s))) as [Hin|Hout].
  - destruct (key_split _ _ _ (mo_nodes _ Hok) Hin) as (l1&n&v&l2&Hd&Hn1&_&Hk1&_).
    rewrite (bind_run _ _ _ _ _ (table_find_middle id n v l1 l2 s Hd Hk1)), (bind_run _ _ _ _ _ (is_end_now _ s)).
    rewrite bool_decide_false by done. rewrite (bind_run _ _ _ _ _ (entry_of_run n _ l1 l2 s Hd Hn1)). cbn [snd].
    rewrite (live_middle n id v l1 l2 s Hok Hd). destruct (decide (v = None)) as [->|Hv].
    + by case_decide.
    + rewrite (bind_run _ _ _ _ _ (IsRemoved_run id s (mo_sorted _ Hok))).
      by case_bool_decide; [rewrite decide_True|rewrite decide_False].
  - rewrite (bind_run _ _ _ _ _ (table_find_absent id s Hout)), (bind_run _ _ _ _ _ (is_end_now _ s)). simpl.
    replace (live s !! id) with (@None (option T)); [done|]. symmetry. apply eq_None_not_Some.
    rewrite live_is_Some by apply Hok. tauto.
Qed.

Lemma idmap_size_run s : map_ok s → Z.of_nat (base.size (live s)) < 2 ^ 64 →
  size s = Ok (Z.of_nat (base.size (live s)), s).
Proof.
  intros Hok Hlt. pose proof (live_size s Hok). unfold size, mbind, M_bind, get, mret, M_ret.
  replace (Z.of_nat (length (data_ s)) - Z.of_nat (length (removed_ids_ s))) with (Z.of_nat (base.size (live s))) by lia.
  unfold wrap_u. by rewrite Z.mod_small by lia.
Qed.

(** ** The end of an iteration *)

Lemma same_data s : s <| data_ := data_ s |> = s.
Proof. by destruct s. Qed.

Lemma erase_key_run k s nn : ordering_ok (data_ s) nn →
  erase_key k s = Ok (tt, s <| data_ := swept [k] (data_ s) |>).
Proof.
  intros Hok. unfold erase_key. destruct (decide (k ∈ node_keys (data_ s))) as [Hin|Hout].
  - destruct (key_split _ _ _ Hok Hin) as (l1&n&v&l2&Hd&Hn1&Hn2&Hk1&Hk2&_).
    rewrite (bind_run _ _ _ _ _ (table_find_middle k n v l1 l2 s Hd Hk1)), (bind_run _ _ _ _ _ (is_end_now _ s)).
    rewrite bool_decide_false by done. rewrite (erase_at_run n (k, v) l1 l2 s Hd Hn1 Hn2).
    by rewrite Hd, swept_middle.
  - rewrite (bind_run _ _ _ _ _ (table_find_absent k s Hout)), (bind_run _ _ _ _ _ (is_end_now _ s)).
    transitivity (Ok (tt, s)); [done|]. unfold swept. rewrite filter_all; [by rewrite same_data|].
    intros e He Hk. apply list_elem_of_singleton in Hk. apply Hout. rewrite <-Hk.
    by apply (list_elem_of_fmap_2 (λ e : entry T, e.2.1)).
Qed.

Lemma swept_cons k R l : swept R (swept [k] l) = swept (k :: R) l.
Proof. unfold swept. rewrite list_filter_filter. apply filter_same. set_solver. Qed.

Lemma erase_keys_run R s nn : ordering_ok (data_ s) nn →
  for_each erase_key R s = Ok (tt, s <| data_ := swept R (data_ s) |>).
Proof.
  revert s. induction R as [|k R IH]; intros s Hok.
  - transitivity (Ok (tt, s)); [done|]. unfold swept. rewrite filter_all by set_solver. by rewrite same_data.
  - cbn [for_each]. rewrite (bind_run _ _ _ _ _ (erase_key_run k s nn Hok)). rewrite IH by by apply swept_ok.
    rewrite <-(swept_cons k R (data_ s)). by destruct s.
Qed.

Lemma Iterator_destruct_run s : map_ok s → 0 < iteration_depth_ s →
  ∃ s', Iterator_destruct s = Ok (tt, s') ∧ kept s s' (live s) ∧
    iteration_depth_ s' = iteration_depth_ s - 1.
Proof.
  intros Hok Hpos. unfold Iterator_destruct. rewrite (bind_run _ _ _ s s) by done.
  rewrite (bind_run _ _ _ tt s) by (apply dcheck_run; intros _; by apply Z.ltb_lt).
  pose proof (mo_depth _ Hok) as Hrange.
  rewrite (bind_run _ _ _ (iteration_depth_ s - 1) s) by (unfold int32; rewrite bool_decide_true by lia; done).
  set (s1 := s <| iteration_depth_ := iteration_depth_ s - 1 |>). rewrite (bind_run _ _ _ tt s1) by done.
  destruct (Z.eqb_spec (iteration_depth_ s - 1) 0) as [E|E].
  - unfold Compact. rewrite (bind_run _ _ _ s1 s1) by done.
    rewrite (bind_run _ _ _ tt s1) by (apply dcheck_run; intros _; by apply Z.eqb_eq).
    assert (ordering_ok (data_ s1) (next_node s1)) as Hok1 by apply Hok.
    rewrite (bind_run _ _ _ _ _ (erase_keys_run (removed_ids_ s1) s1 _ Hok1)).
    eexists. split; [done|]. split; [|done].
    replace (live s) with (base.filter (λ kv : Z * option T, kv.1 ∉ removed_ids_ s) (live s)) at 1.
    + by apply sweep_kept; [apply Hok|..].
    + apply map_filter_id. intros k v [_ ?]%live_Some; [done|apply Hok].
  - eexists. split; [done|]. split; [|done].
    apply (mark_kept (removed_ids_ s)); try done; [apply Hok|apply Hok|change (0 ≤ iteration_depth_ s - 1 < 2 ^ 31); lia|].
    intros k v. by rewrite live_Some by apply Hok.
Qed.

(** ** Insertion *)

Record inserted s s' k d : Prop := {
  ins_ok : map_ok s';
  ins_live : live s' = <[k := d]> (live s);
  ins_keys : node_keys (data_ s') ≡ₚ k :: node_keys (data_ s);
  ins_epoch : epoch s' = S (epoch s);
  ins_null : check_on_null_data_ s' = check_on_null_data_ s;
  ins_depth : iteration_depth_ s' = iteration_depth_ s
}.

Lemma subscript_new k s : k ∉ node_keys (data_ s) →
  ∃ l1 l2 s1, l1 ++ l2 ≡ₚ data_ s ∧
    subscript k s = Ok (mkTableIterator (Some (next_node s)) (epoch s1), s1) ∧
    data_ s1 = l1 ++ (next_node s, (k, None)) :: l2 ∧ removed_ids_ s1 = removed_ids_ s ∧
    next_id_ s1 = next_id_ s ∧ iteration_depth_ s1 = iteration_depth_ s ∧
    check_on_null_data_ s1 = check_on_null_data_ s ∧
    next_node s1 = S (next_node s) ∧ epoch s1 = S (epoch s).
Proof.
  intros Hk. set (e := (next_node s, (k, @None T)) : entry T).
  assert (e ∈ place (data_ s) e) as (l1&l2&Hpl)%list_elem_of_split by (rewrite place_perm; set_solver).
  exists l1, l2, (s <| data_ := place (data_ s) e |> <| next_node := S (next_node s) |> <| epoch := S (epoch s) |>).
  split.
  - apply (Permutation_cons_inv (a := e)). by rewrite Permutation_middle, <-Hpl, place_perm.
  - split_and!; try done. unfold subscript.
    rewrite (bind_run _ _ _ _ _ (table_find_absent k s Hk)), (bind_run _ _ _ _ _ (is_end_now _ s)). done.
Qed.

(** A new element, wherever it goes, and then its value. *)
Lemma insert_new k d s : map_ok s → k ∉ node_keys (data_ s) →
  ∃ i s1 s', subscript k s = Ok (i, s1) ∧ assign_second i d s1 = Ok (tt, s') ∧ inserted s s' k d ∧
    next_id_ s' = next_id_ s.
Proof.
  intros Hok Hk. destruct (subscript_new k s Hk) as (l1&l2&s1&Hp&Hs1&Hd1&Hr1&Hn1&Hi1&Hc1&Hnn1&He1).
  pose proof (mo_nodes _ Hok) as Hnodes. apply (ordering_ok_perm _ _ _ (symmetry Hp)) in Hnodes.
  assert (Forall (λ n, (n < next_node s)%nat) (l1 ++ l2).*1) as Hfresh by (by apply Forall_fmap, Hnodes).
  assert (next_node s ∉ (l1 ++ l2).*1) as Hnew by (intros Hin; rewrite Forall_forall in Hfresh; apply Hfresh in Hin; lia).
  assert (k ∉ node_keys (l1 ++ l2)) as Hk' by (unfold node_keys in *; by rewrite Hp).
  rewrite fmap_app in Hnew.
  eexists _, s1, _. split; [exact Hs1|].
  split; [apply (assign_second_run _ k None d l1 l2); [done|set_solver..]|]. split; [|done].
  set (s' := s1 <| data_ := l1 ++ (next_node s, (k, d)) :: l2 |>).
  assert (data_ s' ≡ₚ (next_node s, (k, d)) :: data_ s) as Hd' by (rewrite <-Hp; by rewrite Permutation_middle).
  assert (map_ok s') as Hok'.
  { split; change (removed_ids_ s') with (removed_ids_ s1); change (next_node s') with (next_node s1);
      change (iteration_depth_ s') with (iteration_depth_ s1); rewrite ?Hr1, ?Hi1, ?Hnn1; try apply Hok.
    - eapply ordering_ok_perm; [symmetry; exact Hd'|]. apply ordering_ok_cons. destruct (mo_nodes _ Hok) as [N1 N2 N3].
      split_and!; [split; [done|done|eapply Forall_impl; [exact N3|simpl; lia]]| |done|lia].
      by rewrite <-Hp, fmap_app.
    - intros j Hj. unfold node_keys. rewrite Hd'. right. by apply Hok. }
  split; try done.
  - apply live_eq; [apply Hok'|]. intros j v. change (removed_ids_ s') with (removed_ids_ s1).
    rewrite lookup_insert_Some, live_Some, Hr1 by apply Hok. rewrite Hd', fmap_cons, elem_of_cons. simpl.
    assert (k ∉ removed_ids_ s) as Hkr by (intros ?%(mo_removed _ Hok); done).
    assert (∀ w, (k, w) ∈ (data_ s).*2 → False) as Hkv by (intros w ?%value_key; done).
    destruct (decide (j = k)) as [->|Hne]; naive_solver.
  - unfold node_keys. by rewrite Hd'.
Qed.

Lemma idmap_Add_run d s : map_ok s →
  next_id_ s ∉ node_keys (data_ s) → -2 ^ 31 ≤ next_id_ s < 2 ^ 31 - 1 →
  (RTC_DCHECK_IS_ON = true → check_on_null_data_ s = true → d ≠ None) →
  ∃ s', Add d s = Ok (next_id_ s, s') ∧ inserted s s' (next_id_ s) d ∧ next_id_ s' = next_id_ s + 1.
Proof.
  intros Hok Hk Hr Hd. destruct (insert_new (next_id_ s) d s Hok Hk) as (i&s1&s2&H1&H2&[I1 I2 I3 I4 I5 I6]&Hn).
  unfold Add, AddInternal. rewrite (bind_run _ _ _ _ _ (check_data_run d s Hd)), (bind_run _ _ _ s s) by done.
  cbv zeta. rewrite (bind_run _ _ _ _ _ (table_find_absent _ s Hk)), (bind_run _ _ _ _ _ (is_end_now _ s)).
  rewrite (bind_run _ _ _ tt s) by by apply dcheck_run.
  rewrite (bind_run _ _ _ _ _ H1), (bind_run _ _ _ _ _ H2).
  rewrite (bind_run _ _ _ (next_id_ s + 1) s2) by (unfold int32; rewrite bool_decide_true by lia; done).
  eexists. split; [done|]. split; [|done]. split; try done. destruct I1. by split.
Qed.

Lemma idmap_AddWithID_run d id s : map_ok s → live s !! id = None →
  (RTC_DCHECK_IS_ON = true → check_on_null_data_ s = true → d ≠ None) →
  ∃ s', AddWithID d id s = Ok (tt, s') ∧ next_id_ s' = next_id_ s ∧
    if decide (id ∈ node_keys (data_ s))
    then kept s s' (<[id := d]> (live s)) ∧ iteration_depth_ s' = iteration_depth_ s
    else inserted s s' id d.
Proof.
  intros Hok Hid Hd. unfold AddWithID, AddWithIDInternal. rewrite (bind_run _ _ _ _ _ (check_data_run d s Hd)).
  rewrite (bind_run _ _ _ _ _ (IsRemoved_run id s (mo_sorted _ Hok))). case_decide as Hin.
  - destruct (key_split _ _ _ (mo_nodes _ Hok) Hin) as (l1&n&v&l2&Hdata&Hn1&Hn2&Hk1&Hk2&_).
    assert (id ∈ removed_ids_ s) as Hr.
    { destruct (decide (id ∈ removed_ids_ s)) as [|Hnr]; [done|].
      rewrite (live_middle n id v l1 l2 s Hok Hdata), decide_False in Hid by done. done. }
    rewrite bool_decide_true by done.
    pose proof (run_erase_key key_identity Z.ltb id _ (mo_sorted _ Hok)) as He.
    set (s1 := s <| removed_ids_ := without key_identity Z.ltb id (removed_ids_ s) |>).
    rewrite (bind_run _ _ _ tt s1) by (by rewrite (bind_run _ _ _ _ _ (on_removed_run _ _ _ _ He))).
    assert (data_ s1 = l1 ++ (n, (id, v)) :: l2) as Hdata1 by exact Hdata.
    assert (subscript id s1 = Ok (mkTableIterator (Some n) (epoch s1), s1)) as Hsub.
    { unfold subscript. rewrite (bind_run _ _ _ _ _ (table_find_middle id n v l1 l2 s1 Hdata1 Hk1)).
      by rewrite (bind_run _ _ _ _ _ (is_end_now _ s1)). }
    rewrite (bind_run _ _ _ _ _ Hsub), (assign_second_run n id v d l1 l2 s1 Hdata1 Hn1 Hn2).
    eexists. split; [done|]. split; [done|]. split; [|done]. apply (value_kept n id v d l1 l2); try done.
    + apply filter_well_sorted, Hok; apply _.
    + intros j. apply elem_of_without_id.
  - rewrite bool_decide_false by (intros ?%(mo_removed _ Hok); done).
    destruct (insert_new id d s Hok Hin) as (i&s1&s2&H1&H2&Hins&Hn).
    rewrite (bind_run _ _ _ tt s).
    + rewrite (bind_run _ _ _ _ _ H1), H2. by exists s2.
    + rewrite (bind_run _ _ _ _ _ (table_find_absent _ s Hin)), (bind_run _ _ _ _ _ (is_end_now _ s)).
      by apply dcheck_run.
Qed.

(** ** Iterators *)

Fixpoint drop_while {A} (p : A → bool) (xs : list A) : list A :=
  match xs with [] => [] | x :: xs' => if p x then drop_while p xs' else xs end.

Definition marked s (e : entry T) : bool := bool_decide (e.2.1 ∈ removed_ids_ s).

Lemma SkipRemovedEntries_run l1 l2 s : map_ok s → data_ s = l1 ++ l2 →
  SkipRemovedEntries (mkTableIterator (first_node l2) (epoch s)) s =
  Ok (mkTableIterator (first_node (drop_while (marked s) l2)) (epoch s), s).
Proof.
  intros Hok Hd. unfold SkipRemovedEntries. rewrite (bind_run _ _ _ s s) by done.
  assert (length l2 ≤ length (data_ s))%nat as Hfuel by (rewrite Hd, length_app; lia).
  revert Hfuel. generalize (length (data_ s)) as fuel. revert l1 Hd.
  induction l2 as [|[n [k v]] l2 IH]; intros l1 Hd fuel Hfuel; destruct fuel as [|fuel]; simpl in Hfuel; try lia;
    cbn [while_].
  1, 2: rewrite (bind_run _ _ _ false s); [done|]; by rewrite (bind_run _ _ _ _ _ (is_end_now _ s)).
  pose proof (mo_nodes _ Hok) as Hnodes. rewrite Hd in Hnodes. apply ordering_middle in Hnodes as (_&Hn1&_).
  rewrite (bind_run _ _ _ (bool_decide (k ∈ removed_ids_ s)) s).
  2:{ rewrite (bind_run _ _ _ _ _ (is_end_now _ s)). cbn [first_node head fmap option_fmap option_map fst].
      rewrite bool_decide_false by done. change (first_node ((n, (k, v)) :: l2)) with (Some n).
      rewrite (bind_run _ _ _ _ _ (entry_of_run n _ l1 l2 s Hd Hn1)). apply IsRemoved_run, Hok. }
  cbn [drop_while]. unfold marked at 1. cbn [snd fst]. case_bool_decide; [|done].
  change (first_node ((n, (k, v)) :: l2)) with (Some n).
  rewrite (bind_run _ _ _ _ _ (increment_run n _ l1 l2 s Hd Hn1)).
  apply (IH (l1 ++ [(n, (k, v))])); [by rewrite Hd, <-app_assoc|lia].
Qed.
End map.
