(* ===== verification/IdMapTheorems.v ===== *)
(** The map by identifier is a finite map whose iterators stay in order while elements are
    removed; an iteration visits every element that stays, once. *)
From S2P Require Import Prelude StdAlgorithms FlatTree FlatTreeLemmas NodeLists IdMap IdMapLemmas.
From Stdlib Require Import ZArith Lia.
From stdpp Require Import base tactics numbers strings gmap sets list.
From coqutil Require Import Datatypes.RecordSetters.
Import TriangleBracketNotations.
Import IDMap.

Open Scope Z_scope.

(** * A program: a map and the iterators over it, by name *)

Record Program (T : Type) := mkProgram { map_of : IDMap T; iters : gmap nat table_iterator }.
Arguments mkProgram {T} _ _.
Arguments map_of {T} _.
Arguments iters {T} _.

Inductive id_op (T : Type) :=
  | IAdd (data : option T) | IAddWithID (data : option T) (id : Z) | IRemove (id : Z)
  | IReplace (id : Z) (data : option T) | IClear | ILookup (id : Z) | ISize | IIsEmpty | ICheckNull (value : bool)
  | IIterate (i : nat) | ICopy (i j : nat) | IDestroy (i : nat)
  | IAdvance (i : nat) | IIsAtEnd (i : nat) | IKey (i : nat) | IValue (i : nat).
Arguments IAdd {T} _.
Arguments IAddWithID {T} _ _.
Arguments IRemove {T} _.
Arguments IReplace {T} _ _.
Arguments IClear {T}.
Arguments ILookup {T} _.
Arguments ISize {T}.
Arguments IIsEmpty {T}.
Arguments ICheckNull {T} _.
Arguments IIterate {T} _.
Arguments ICopy {T} _ _.
Arguments IDestroy {T} _.
Arguments IAdvance {T} _.
Arguments IIsAtEnd {T} _.
Arguments IKey {T} _.
Arguments IValue {T} _.

Inductive id_result (T : Type) := RDone | RId (id : Z) | RPointer (p : option T) | RSize (n : Z) | RBool (b : bool).
Arguments RDone {T}.
Arguments RId {T} _.
Arguments RPointer {T} _.
Arguments RSize {T} _.
Arguments RBool {T} _.

Section program.
Context `{!BuildConfig} {T : Type} `{!UnorderedMap T, !UnorderedMapPlaces T}.
Implicit Types (s : IDMap T) (p : Program T) (it : table_iterator) (op : id_op T) (l : list (entry T)).

Definition on_map {A} (m : M (IDMap T) A) : M (Program T) A := λ p,
  match m (map_of p) with
  | Ok (a, s) => Ok (a, mkProgram s (iters p))
  | Fault e => Fault e
  end.
Definition iterator_named (i : nat) : M (Program T) table_iterator :=
  p ← get; deref "iterator" (iters p !! i).
Definition set_iterator (i : nat) it : M (Program T) unit :=
  modify (λ p, mkProgram (map_of p) (<[i := it]> (iters p))).

Definition run_id_op op : M (Program T) (id_result T) :=
  match op with
  | IAdd d => id ← on_map (Add d); mret (RId id)
  | IAddWithID d id => _ ← on_map (AddWithID d id); mret RDone
  | IRemove id => _ ← on_map (Remove id); mret RDone
  | IReplace id d => old ← on_map (Replace id d); mret (RPointer old)
  | IClear => _ ← on_map Clear; mret RDone
  | ILookup id => v ← on_map (Lookup id); mret (RPointer v)
  | ISize => n ← on_map size; mret (RSize n)
  | IIsEmpty => b ← on_map IsEmpty; mret (RBool b)
  | ICheckNull b => _ ← on_map (set_check_on_null_data b); mret RDone
  | IIterate i => it ← on_map Iterator_construct; _ ← set_iterator i it; mret RDone
  | ICopy i j => it ← iterator_named i; it ← on_map (Iterator_copy it); _ ← set_iterator j it; mret RDone
  | IDestroy i =>
    _ ← iterator_named i; _ ← on_map Iterator_destruct;
    _ ← modify (λ p, mkProgram (map_of p) (delete i (iters p))); mret RDone
  | IAdvance i => it ← iterator_named i; it ← on_map (Advance it); _ ← set_iterator i it; mret RDone
  | IIsAtEnd i => it ← iterator_named i; b ← on_map (IsAtEnd it); mret (RBool b)
  | IKey i => it ← iterator_named i; k ← on_map (GetCurrentKey it); mret (RId k)
  | IValue i => it ← iterator_named i; v ← on_map (GetCurrentValue it); mret (RPointer v)
  end.

(** * What it stands for

    The identifiers with their values; all identifiers in the order of an iteration, with
    those that iterators keep from being erased; and for each iterator the identifiers ahead
    of it, unless an insertion has made it unusable. *)
Record id_abs := mkAbs {
  a_order : list Z;
  a_live : gmap Z (option T);
  a_next : Z;
  a_null : bool;
  a_iters : gmap nat (option (list Z))
}.

Fixpoint keys_from (n : nat) (sh : list (nat * Z)) : list Z :=
  match sh with
  | [] => []
  | (m, k) :: sh' => if decide (m = n) then k :: sh'.*2 else keys_from n sh'
  end.
Definition ahead s it : option (list Z) :=
  if decide (made it = epoch s) then
    Some (match position it with Some n => keys_from n (shape (data_ s)) | None => [] end)
  else None.
Definition abs p : id_abs :=
  let s := map_of p in
  mkAbs (node_keys (data_ s)) (live s) (next_id_ s) (check_on_null_data_ s) (ahead s <$> iters p).

(** Without iterators the identifiers that were removed are gone. *)
Definition settle (a : id_abs) : id_abs :=
  if decide (a_iters a = ∅) then
    mkAbs (base.filter (λ k, is_Some (a_live a !! k)) (a_order a)) (a_live a) (a_next a) (a_null a) ∅
  else a.
Definition with_live lv (a : id_abs) : id_abs := mkAbs (a_order a) lv (a_next a) (a_null a) (a_iters a).
Definition with_iters its (a : id_abs) : id_abs := mkAbs (a_order a) (a_live a) (a_next a) (a_null a) its.

(** A new identifier goes anywhere in the order, and no iterator may be used any more. *)
Definition joins (k : Z) (d : option T) (a a' : id_abs) : Prop :=
  a_order a' ≡ₚ k :: a_order a ∧ a_live a' = <[k := d]> (a_live a) ∧ a_null a' = a_null a ∧
  a_iters a' = (λ _, None) <$> a_iters a.

(** The identifiers ahead, from the first one that is not removed. *)
Definition skip (a : id_abs) (ks : list Z) : list Z := drop_while (λ k, bool_decide (a_live a !! k = None)) ks.

Definition id_spec op (a : id_abs) (r : id_result T) (a' : id_abs) : Prop :=
  match op with
  | IAdd d => r = RId (a_next a) ∧ joins (a_next a) d a a' ∧ a_next a' = a_next a + 1
  | IAddWithID d id =>
    r = RDone ∧ if decide (id ∈ a_order a) then a' = with_live (<[id := d]> (a_live a)) a
                else joins id d a a' ∧ a_next a' = a_next a
  | IRemove id => r = RDone ∧ a' = settle (with_live (delete id (a_live a)) a)
  | IReplace id d => r = RPointer (mjoin (a_live a !! id)) ∧ a' = with_live (<[id := d]> (a_live a)) a
  | IClear => r = RDone ∧ a' = settle (with_live ∅ a)
  | ILookup id => r = RPointer (mjoin (a_live a !! id)) ∧ a' = a
  | ISize => r = RSize (Z.of_nat (base.size (a_live a))) ∧ a' = a
  | IIsEmpty => r = RBool (bool_decide (a_live a = ∅)) ∧ a' = a
  | ICheckNull b => r = RDone ∧ a' = mkAbs (a_order a) (a_live a) (a_next a) b (a_iters a)
  | IIterate i => r = RDone ∧ a' = with_iters (<[i := Some (skip a (a_order a))]> (a_iters a)) a
  | ICopy i j =>
    r = RDone ∧ ∃ ks, a_iters a !! i = Some (Some ks) ∧ a' = with_iters (<[j := Some (skip a ks)]> (a_iters a)) a
  | IDestroy i => r = RDone ∧ a' = settle (with_iters (delete i (a_iters a)) a)
  | IAdvance i =>
    r = RDone ∧ ∃ k ks, a_iters a !! i = Some (Some (k :: ks)) ∧
      a' = with_iters (<[i := Some (skip a ks)]> (a_iters a)) a
  | IIsAtEnd i => ∃ ks, a_iters a !! i = Some (Some ks) ∧ r = RBool (bool_decide (ks = [])) ∧ a' = a
  | IKey i => ∃ k ks, a_iters a !! i = Some (Some (k :: ks)) ∧ r = RId k ∧ a' = a
  | IValue i => ∃ k ks, a_iters a !! i = Some (Some (k :: ks)) ∧ r = RPointer (mjoin (a_live a !! k)) ∧ a' = a
  end.

(** What a program has to respect: identifiers are added once and removed once (the check
    of the latter is only in some builds), null only where it is allowed, the counters in
    their range, and iterators used only before the next insertion and before the end. *)
Definition data_allowed (a : id_abs) (d : option T) : Prop := a_null a = true → d ≠ None.
Definition id_legal op (a : id_abs) : Prop :=
  match op with
  | IAdd d => data_allowed a d ∧ (a_next a ∉ a_order a) ∧ - 2 ^ 31 ≤ a_next a < 2 ^ 31 - 1
  | IAddWithID d id => data_allowed a d ∧ a_live a !! id = None
  | IRemove id => is_Some (a_live a !! id) ∨ RTC_DCHECK_IS_ON = false
  | IReplace id d => data_allowed a d ∧ is_Some (a_live a !! id)
  | IIterate i => a_iters a !! i = None ∧ Z.of_nat (base.size (a_iters a)) < 2 ^ 31 - 1
  | ICopy i j =>
    (∃ ks, a_iters a !! i = Some (Some ks)) ∧ a_iters a !! j = None ∧
    Z.of_nat (base.size (a_iters a)) < 2 ^ 31 - 1
  | IDestroy i => is_Some (a_iters a !! i)
  | IAdvance i | IKey i | IValue i => ∃ k ks, a_iters a !! i = Some (Some (k :: ks))
  | IIsAtEnd i => ∃ ks, a_iters a !! i = Some (Some ks)
  | ISize | IIsEmpty => Z.of_nat (base.size (a_live a)) < 2 ^ 64
  | IClear | ILookup _ | ICheckNull _ => True
  end.

Record prog_ok p : Prop := {
  po_map : map_ok (map_of p);
  po_depth : iteration_depth_ (map_of p) = Z.of_nat (base.size (iters p));
  po_iters : ∀ i it, iters p !! i = Some it →
    (made it ≤ epoch (map_of p))%nat ∧
    (made it = epoch (map_of p) → ∀ n, position it = Some n → n ∈ (data_ (map_of p)).*1)
}.

(** ** Positions and what is ahead *)

Lemma keys_from_first l1 n x l2 : n ∉ l1.*1 →
  keys_from n (shape (l1 ++ (n, x) :: l2)) = node_keys ((n, x) :: l2).
Proof.
  induction l1 as [|[m y] l1 IH]; simpl; intros Hn.
  - rewrite decide_True by done. by rewrite <-shape_keys.
  - rewrite decide_False by set_solver. apply IH. set_solver.
Qed.

Lemma ahead_first s l1 l2 : map_ok s → data_ s = l1 ++ l2 →
  ahead s (mkTableIterator (first_node l2) (epoch s)) = Some (node_keys l2).
Proof.
  intros Hok Hd. unfold ahead. cbn [made position]. rewrite decide_True by done.
  destruct l2 as [|[n x] l2]; [done|]. cbn [first_node head fmap option_fmap option_map fst].
  rewrite Hd, keys_from_first; [done|]. pose proof (oo_nodes _ _ (mo_nodes _ Hok)) as Hnd.
  rewrite Hd, fmap_app in Hnd. apply NoDup_app in Hnd as (_&Hnd&_). set_solver.
Qed.

Lemma ahead_split p i it ks : prog_ok p → iters p !! i = Some it → ahead (map_of p) it = Some ks →
  ∃ l1 l2, data_ (map_of p) = l1 ++ l2 ∧ it = mkTableIterator (first_node l2) (epoch (map_of p)) ∧ ks = node_keys l2.
Proof.
  intros Hok Hit Ha. destruct (po_iters _ Hok i it Hit) as [_ Hpos]. destruct it as [[n|] e]; unfold ahead in Ha; simpl in *;
    case_decide as He; simplify_eq.
  - specialize (Hpos eq_refl n eq_refl). apply list_elem_of_fmap in Hpos as ([n' x]&->&Hin). simpl.
    apply list_elem_of_split in Hin as (l1&l2&Hd). exists l1, ((n', x) :: l2). split_and!; try done.
    pose proof (ahead_first _ _ _ (po_map _ Hok) Hd) as Hf. unfold ahead in Hf. simpl in Hf.
    rewrite decide_True in Hf by done. by injection Hf as ->.
  - exists (data_ (map_of p)), []. by rewrite app_nil_r.
Qed.

(** An iterator with a given number of identifiers ahead of it, as the abstraction has it. *)
Lemma iter_usable p i ks : prog_ok p → a_iters (abs p) !! i = Some (Some ks) →
  ∃ l1 l2, data_ (map_of p) = l1 ++ l2 ∧
    iters p !! i = Some (mkTableIterator (first_node l2) (epoch (map_of p))) ∧ ks = node_keys l2.
Proof.
  intros Hok Hi. unfold abs in Hi. simpl in Hi. rewrite lookup_fmap_Some in Hi. destruct Hi as (it&Ha&Hit).
  destruct (ahead_split p i it ks Hok Hit Ha) as (l1&l2&Hd&->&->). by exists l1, l2.
Qed.

Lemma drop_while_suffix {A} (q : A → bool) (xs : list A) : ∃ pre, xs = pre ++ drop_while q xs.
Proof.
  induction xs as [|x xs [pre IH]]; simpl; [by exists []|]. destruct (q x); [|by exists []].
  exists (x :: pre). by rewrite IH at 1.
Qed.

Lemma skip_keys p l1 l2 : prog_ok p → data_ (map_of p) = l1 ++ l2 →
  node_keys (drop_while (marked (map_of p)) l2) = skip (abs p) (node_keys l2).
Proof.
  intros Hok. revert l1. induction l2 as [|[n [k v]] l2 IH]; intros l1 Hd; [done|].
  unfold skip, marked. simpl. rewrite (live_middle n k v l1 l2 _ (po_map _ Hok) Hd).
  destruct (decide (k ∈ removed_ids_ (map_of p))).
  - rewrite !bool_decide_true by done. apply (IH (l1 ++ [(n, (k, v))])). by rewrite Hd, <-app_assoc.
  - by rewrite !bool_decide_false by done.
Qed.

(** ** Steps of the abstraction *)

Lemma no_iters p : a_iters (abs p) = ∅ ↔ iters p = ∅.
Proof. unfold abs. simpl. split; [apply fmap_empty_inv|intros ->; apply fmap_empty]. Qed.

Lemma abs_all_live p : prog_ok p → iters p = ∅ → ∀ k, k ∈ node_keys (data_ (map_of p)) → is_Some (live (map_of p) !! k).
Proof.
  intros Hok Hi k Hk. apply live_is_Some; [apply Hok|]. split; [done|].
  rewrite (mo_idle _ (po_map _ Hok)); [set_solver|]. by rewrite (po_depth _ Hok), Hi, map_size_empty.
Qed.

Lemma settle_grow p k d : prog_ok p →
  settle (with_live (<[k := d]> (a_live (abs p))) (abs p)) = with_live (<[k := d]> (a_live (abs p))) (abs p).
Proof.
  intros Hok. unfold settle. case_decide as Hi; [|done]. simpl in Hi.
  unfold with_live, abs. simpl. f_equal; [|by rewrite Hi].
  apply filter_all. intros j Hj. rewrite lookup_insert_is_Some. destruct (decide (k = j)); [by left|right].
  split; [done|]. apply abs_all_live; [done| |done]. by apply no_iters.
Qed.

Lemma keys_of_filter (lv : gmap Z (option T)) (sh : list (nat * Z)) :
  (base.filter (λ e, is_Some (lv !! e.2)) sh).*2 = base.filter (λ k, is_Some (lv !! k)) sh.*2.
Proof.
  induction sh as [|[n k] sh IH]; [done|]. rewrite fmap_cons, !filter_cons. cbn [snd].
  destruct (decide (is_Some (lv !! k))); rewrite <-IH; done.
Qed.

(** The part of the abstraction the map determines. *)
Lemma kept_abs p s lv its :
  prog_ok p → kept (map_of p) s lv → its ⊆ iters p → iteration_depth_ s = Z.of_nat (base.size its) →
  prog_ok (mkProgram s its) ∧
  abs (mkProgram s its) = settle (with_iters (ahead (map_of p) <$> its) (with_live lv (abs p))).
Proof.
  intros Hok [K1 K2 K3 K4 K5 K6] Hsub Hdep.
  assert (node_keys (data_ s) = if decide (its = ∅) then base.filter (λ k, is_Some (lv !! k)) (node_keys (data_ (map_of p)))
    else node_keys (data_ (map_of p))) as Hkeys.
  { rewrite <-!shape_keys, K3, Hdep. case_decide as Hi.
    - rewrite Hi, map_size_empty. apply keys_of_filter.
    - destruct (Z.eqb_spec (Z.of_nat (base.size its)) 0) as [E|]; [|done].
      exfalso. apply Hi, map_size_empty_iff. lia. }
  assert (its ≠ ∅ → shape (data_ s) = shape (data_ (map_of p))) as Hsh.
  { intros Hi. rewrite K3, Hdep. destruct (Z.eqb_spec (Z.of_nat (base.size its)) 0) as [E|]; [|done].
    exfalso. apply Hi, map_size_empty_iff. lia. }
  assert (∀ i it, its !! i = Some it → its ≠ ∅) as Hne by (intros i it Hit ->; by rewrite lookup_empty in Hit).
  split.
  - split; [done|done|]. cbn [map_of iters]. intros i it Hit. rewrite K4.
    destruct (po_iters _ Hok i it (lookup_weaken _ _ _ _ Hit Hsub)) as [H1 H2]. split; [done|].
    intros He n Hn. rewrite <-shape_nodes, (Hsh (Hne i it Hit)), shape_nodes. by apply H2.
  - assert (ahead s <$> its = ahead (map_of p) <$> its) as Hah.
    { apply map_fmap_ext. intros i it Hit. unfold ahead. by rewrite K4, (Hsh (Hne i it Hit)). }
    unfold abs at 1. cbn [map_of iters]. rewrite Hkeys, Hah, K2, K5, K6. unfold settle, with_iters, with_live. simpl.
    destruct (decide (its = ∅)) as [Hi|Hi].
    + rewrite decide_True by (rewrite Hi; apply fmap_empty). by rewrite Hi, fmap_empty.
    + rewrite decide_False by (by intros ?%fmap_empty_inv). done.
Qed.

Lemma inserted_abs p s k d :
  prog_ok p → inserted (map_of p) s k d →
  prog_ok (mkProgram s (iters p)) ∧ joins k d (abs p) (abs (mkProgram s (iters p))).
Proof.
  intros Hok [I1 I2 I3 I4 I5 I6]. split.
  - split; cbn [map_of iters]; [done|rewrite I6; apply Hok|]. intros i it Hit.
    destruct (po_iters _ Hok i it Hit) as [H1 _]. rewrite I4. split; lia.
  - split_and!; try done. unfold abs. simpl. rewrite <-map_fmap_compose. apply map_fmap_ext. intros i it Hit. simpl.
    destruct (po_iters _ Hok i it Hit) as [H1 _]. unfold ahead. rewrite decide_False by lia. done.
Qed.

Lemma on_map_run {A} (m : M (IDMap T) A) p a s :
  m (map_of p) = Ok (a, s) → on_map m p = Ok (a, mkProgram s (iters p)).
Proof. unfold on_map. by intros ->. Qed.

Lemma on_map_query {A} (m : M (IDMap T) A) p a :
  m (map_of p) = Ok (a, map_of p) → on_map m p = Ok (a, p).
Proof. intros Hm. rewrite (on_map_run _ _ _ _ Hm). by destruct p. Qed.

Lemma iterator_named_run i it p : iters p !! i = Some it → iterator_named i p = Ok (it, p).
Proof. intros Hi. unfold iterator_named, mbind, M_bind, get, deref. by rewrite Hi. Qed.

(** ** Every operation does what the abstraction says *)

Definition step_ok op p : Prop :=
  ∃ r p', run_id_op op p = Ok (r, p') ∧ prog_ok p' ∧ id_spec op (abs p) r (abs p').

Lemma step_kept {A} (m : M (IDMap T) A) (f : A → id_result T) p a s lv :
  prog_ok p → m (map_of p) = Ok (a, s) → kept (map_of p) s lv →
  iteration_depth_ s = iteration_depth_ (map_of p) →
  ∃ p', (x ← on_map m; mret (f x)) p = Ok (f a, p') ∧ prog_ok p' ∧ abs p' = settle (with_live lv (abs p)).
Proof.
  intros Hok Hm Hk Hd. exists (mkProgram s (iters p)). rewrite (bind_run _ _ _ _ _ (on_map_run _ _ _ _ Hm)).
  split; [done|]. apply (kept_abs p s lv (iters p) Hok Hk); [done|]. rewrite Hd. apply Hok.
Qed.

Lemma step_query {A} (m : M (IDMap T) A) (f : A → id_result T) p a :
  m (map_of p) = Ok (a, map_of p) → (x ← on_map m; mret (f x)) p = Ok (f a, p).
Proof. intros Hm. by rewrite (bind_run _ _ _ _ _ (on_map_query _ _ _ Hm)). Qed.

Lemma step_changes op p : prog_ok p → id_legal op (abs p) →
  match op with
  | IAdd _ | IAddWithID _ _ | IRemove _ | IReplace _ _ | IClear | ICheckNull _ => True
  | _ => False
  end → step_ok op p.
Proof.
  intros Hok Hleg. pose proof (po_map _ Hok) as Hm. destruct op as [d|d id|id|id d| |id| | |b|i|i j|i|i|i|i|i]; try done; intros _;
    unfold step_ok; cbn [run_id_op id_legal id_spec] in *.
  - destruct Hleg as (Hd&Hk&Hr). destruct (idmap_Add_run d (map_of p) Hm Hk Hr (λ _, Hd)) as (s&Hs&Hi&Hn).
    destruct (inserted_abs p s _ d Hok Hi) as [Hok' Hj]. eexists _, _.
    rewrite (bind_run _ _ _ _ _ (on_map_run _ _ _ _ Hs)). split; [done|]. by split.
  - destruct Hleg as [Hd Hid]. destruct (idmap_AddWithID_run d id (map_of p) Hm Hid (λ _, Hd)) as (s&Hs&Hn&Hcase).
    change (a_order (abs p)) with (node_keys (data_ (map_of p))). case_decide as Hin.
    + destruct Hcase as [Hk Hdep]. destruct (step_kept _ (λ _, RDone) p tt s _ Hok Hs Hk Hdep) as (p'&Hr&Hok'&Ha).
      eexists _, p'. split; [exact Hr|]. split; [done|]. split; [done|]. rewrite Ha. by apply settle_grow.
    + destruct (inserted_abs p s _ d Hok Hcase) as [Hok' Hj]. eexists _, _.
      rewrite (bind_run _ _ _ _ _ (on_map_run _ _ _ _ Hs)). split; [done|]. by split.
  - destruct (idmap_Remove_run id (map_of p) Hm Hleg) as (s&Hs&Hk&Hdep).
    destruct (step_kept _ (λ _, RDone) p tt s _ Hok Hs Hk Hdep) as (p'&Hr&Hok'&Ha).
    eexists _, p'. split; [exact Hr|]. by split.
  - destruct Hleg as [Hd [v Hv]]. destruct (idmap_Replace_run id d (map_of p) v Hm Hv (λ _, Hd)) as (s&Hs&Hk&Hdep).
    destruct (step_kept _ RPointer p v s _ Hok Hs Hk Hdep) as (p'&Hr&Hok'&Ha).
    eexists _, p'. split; [exact Hr|]. split; [done|]. rewrite Hv. split; [done|]. rewrite Ha. by apply settle_grow.
  - destruct (idmap_Clear_run (map_of p) Hm) as (s&Hs&Hk&Hdep).
    destruct (step_kept _ (λ _, RDone) p tt s _ Hok Hs Hk Hdep) as (p'&Hr&Hok'&Ha).
    eexists _, p'. split; [exact Hr|]. by split.
  - exists RDone, (mkProgram ((map_of p) <| check_on_null_data_ := b |>) (iters p)). split; [done|]. split; [|done].
    destruct Hok as [[] H2 H3]. by split.
Qed.

(** An iterator comes to stand at the first of [l2]. *)
Lemma place_iter p i l1 l2 depth :
  prog_ok p → data_ (map_of p) = l1 ++ l2 →
  let its := <[i := mkTableIterator (first_node l2) (epoch (map_of p))]> (iters p) in
  depth = Z.of_nat (base.size its) → depth < 2 ^ 31 →
  let p' := mkProgram ((map_of p) <| iteration_depth_ := depth |>) its in
  prog_ok p' ∧ abs p' = with_iters (<[i := Some (node_keys l2)]> (a_iters (abs p))) (abs p).
Proof.
  intros Hok Hd its Hdep Hlt p'.
  assert (base.size its ≠ 0%nat) as Hpos by (by intros ?%map_size_empty_inv%insert_non_empty).
  split.
  - split; [|done|].
    + destruct (po_map _ Hok) as [M1 M2 M3 M4 M5]. split; try done.
      * change (depth = 0 → removed_ids_ (map_of p) = []). lia.
      * change (0 ≤ depth < 2 ^ 31). lia.
    + intros j it. subst p' its. cbn [iters]. rewrite lookup_insert_Some. intros [[<- <-]|[_ Hit]].
      * split; [done|]. intros _ n Hn. change (n ∈ (data_ (map_of p)).*1). rewrite Hd, fmap_app.
        cbn [position] in Hn. destruct l2 as [|[m x] l2]; [done|]. injection Hn as ->. set_solver.
      * by apply (po_iters _ Hok j it).
  - unfold abs, with_iters. simpl. f_equal. subst its. rewrite fmap_insert. f_equal.
    apply (ahead_first (map_of p) l1 l2); [apply Hok|done].
Qed.

Lemma Init_run p l1 l2 : prog_ok p → data_ (map_of p) = l1 ++ l2 → Z.of_nat (base.size (iters p)) < 2 ^ 31 - 1 →
  Init (mkTableIterator (first_node l2) (epoch (map_of p))) (map_of p) =
  Ok (mkTableIterator (first_node (drop_while (marked (map_of p)) l2)) (epoch (map_of p)),
      (map_of p) <| iteration_depth_ := Z.of_nat (base.size (iters p)) + 1 |>).
Proof.
  intros Hok Hd Hlt. unfold Init. rewrite (bind_run _ _ _ (map_of p) (map_of p)) by done.
  rewrite (po_depth _ Hok). set (depth := Z.of_nat (base.size (iters p)) + 1).
  rewrite (bind_run _ _ _ depth (map_of p)) by (unfold int32; rewrite bool_decide_true by lia; done).
  set (s1 := (map_of p) <| iteration_depth_ := depth |>). rewrite (bind_run _ _ _ tt s1) by done.
  assert (map_ok s1) as Hok1.
  { destruct (po_map _ Hok) as [M1 M2 M3 M4 M5]. split; try done.
    - change (depth = 0 → removed_ids_ (map_of p) = []). lia.
    - change (0 ≤ depth < 2 ^ 31). lia. }
  exact (SkipRemovedEntries_run l1 l2 s1 Hok1 Hd).
Qed.

Lemma new_iter p i l1 l2 : prog_ok p → data_ (map_of p) = l1 ++ l2 → a_iters (abs p) !! i = None →
  Z.of_nat (base.size (iters p)) < 2 ^ 31 - 1 →
  ∃ p', (it ← on_map (Init (mkTableIterator (first_node l2) (epoch (map_of p))));
         _ ← set_iterator i it; mret (@RDone T)) p = Ok (RDone, p') ∧ prog_ok p' ∧
    abs p' = with_iters (<[i := Some (skip (abs p) (node_keys l2))]> (a_iters (abs p))) (abs p).
Proof.
  intros Hok Hd Hi Hlt. rewrite (bind_run _ _ _ _ _ (on_map_run _ _ _ _ (Init_run p l1 l2 Hok Hd Hlt))).
  destruct (drop_while_suffix (marked (map_of p)) l2) as [pre Hpre].
  rewrite <-(skip_keys p l1 l2 Hok Hd).
  assert (iters p !! i = None) as Hi' by (unfold abs in Hi; simpl in Hi; by rewrite lookup_fmap, fmap_None in Hi).
  eexists. split; [done|]. apply (place_iter p i (l1 ++ pre)); [done|by rewrite <-app_assoc, <-Hpre| |lia].
  cbn [iters]. rewrite map_size_insert_None by done. lia.
Qed.

Lemma Advance_run p l1 e l2 : prog_ok p → data_ (map_of p) = l1 ++ e :: l2 →
  Advance (mkTableIterator (first_node (e :: l2)) (epoch (map_of p))) (map_of p) =
  Ok (mkTableIterator (first_node (drop_while (marked (map_of p)) l2)) (epoch (map_of p)), map_of p).
Proof.
  intros Hok Hd. destruct e as [n x]. change (first_node ((n, x) :: l2)) with (Some n).
  pose proof (oo_nodes _ _ (mo_nodes _ (po_map _ Hok))) as Hnd. rewrite Hd, fmap_app in Hnd.
  apply NoDup_app in Hnd as (_&Hnd&_). unfold Advance.
  rewrite (bind_run _ _ _ _ _ (increment_run n x l1 l2 _ Hd ltac:(set_solver))).
  apply (SkipRemovedEntries_run (l1 ++ [(n, x)])); [apply Hok|by rewrite Hd, <-app_assoc].
Qed.

Lemma current_run p l1 n k v l2 : prog_ok p → data_ (map_of p) = l1 ++ (n, (k, v)) :: l2 →
  GetCurrentKey (mkTableIterator (Some n) (epoch (map_of p))) (map_of p) = Ok (k, map_of p) ∧
  GetCurrentValue (mkTableIterator (Some n) (epoch (map_of p))) (map_of p) =
    Ok (mjoin (live (map_of p) !! k), map_of p).
Proof.
  intros Hok Hd. pose proof (mo_nodes _ (po_map _ Hok)) as Hn. rewrite Hd in Hn.
  apply ordering_middle in Hn as (_&Hn1&_). pose proof (entry_of_run n _ l1 l2 _ Hd Hn1) as He.
  split; [unfold GetCurrentKey; by rewrite (bind_run _ _ _ _ _ He)|].
  unfold GetCurrentValue. rewrite (bind_run _ _ _ _ _ He). cbn [fst snd].
  rewrite (live_middle n k v l1 l2 _ (po_map _ Hok) Hd). destruct (decide (v = None)) as [->|Hv].
  - by case_decide.
  - rewrite (bind_run _ _ _ _ _ (IsRemoved_run k _ (mo_sorted _ (po_map _ Hok)))).
    by case_bool_decide; [rewrite decide_True|rewrite decide_False].
Qed.

Lemma keys_cons k ks l : k :: ks = node_keys l → ∃ n v l', l = (n, (k, v)) :: l' ∧ ks = node_keys l'.
Proof. destruct l as [|[n [k' v]] l]; [done|]. intros [= -> ->]. eauto. Qed.

Lemma step_iterators op p : prog_ok p → id_legal op (abs p) →
  match op with
  | IIterate _ | ICopy _ _ | IDestroy _ | IAdvance _ => True
  | _ => False
  end → step_ok op p.
Proof.
  intros Hok Hleg. assert (base.size (a_iters (abs p)) = base.size (iters p)) as Hsz by apply map_size_fmap.
  destruct op as [d|d id|id|id d| |id| | |b|i|i j|i|i|i|i|i]; try done; intros _;
    unfold step_ok; cbn [run_id_op id_legal id_spec] in *.
  - destruct Hleg as [Hi Hlt]. rewrite Hsz in Hlt.
    destruct (new_iter p i [] (data_ (map_of p)) Hok eq_refl Hi Hlt) as (p'&Hr&Hok'&Ha).
    exists RDone, p'. split; [exact Hr|]. split; [done|]. split; [done|exact Ha].
  - destruct Hleg as ([ks Hi]&Hj&Hlt). rewrite Hsz in Hlt.
    destruct (iter_usable p i ks Hok Hi) as (l1&l2&Hd&Hit&->).
    destruct (new_iter p j l1 l2 Hok Hd Hj Hlt) as (p'&Hr&Hok'&Ha).
    exists RDone, p'. rewrite (bind_run _ _ _ _ _ (iterator_named_run i _ p Hit)). split; [exact Hr|].
    split; [done|]. split; [done|]. by exists (node_keys l2).
  - destruct Hleg as [x Hi]. unfold abs in Hi. simpl in Hi. apply lookup_fmap_Some in Hi as (it&_&Hit).
    assert (base.size (iters p) = S (base.size (delete i (iters p)))) as Hs.
    { rewrite <-(insert_delete_id (iters p) i it Hit) at 1. apply map_size_insert_None, lookup_delete_eq. }
    destruct (Iterator_destruct_run (map_of p) (po_map _ Hok)) as (s&Hr&Hk&Hdep).
    { rewrite (po_depth _ Hok). lia. }
    rewrite (bind_run _ _ _ _ _ (iterator_named_run i _ p Hit)), (bind_run _ _ _ _ _ (on_map_run _ _ _ _ Hr)).
    destruct (kept_abs p s _ (delete i (iters p)) Hok Hk) as [Hok' Ha].
    { apply delete_subseteq. }
    { rewrite Hdep, (po_depth _ Hok). lia. }
    eexists RDone, _. split; [done|]. split; [exact Hok'|]. split; [done|]. etransitivity; [exact Ha|].
    f_equal. unfold abs, with_iters, with_live. simpl. f_equal. apply fmap_delete.
  - destruct Hleg as (k&ks&Hi). destruct (iter_usable p i _ Hok Hi) as (l1&l2&Hd&Hit&Hks).
    destruct (keys_cons _ _ _ Hks) as (n&v&l2'&->&->).
    rewrite (bind_run _ _ _ _ _ (iterator_named_run i _ p Hit)).
    rewrite (bind_run _ _ _ _ _ (on_map_run _ _ _ _ (Advance_run p l1 _ l2' Hok Hd))).
    destruct (drop_while_suffix (marked (map_of p)) l2') as [pre Hpre].
    assert (data_ (map_of p) = (l1 ++ (n, (k, v)) :: pre) ++ drop_while (marked (map_of p)) l2') as Hd'.
    { rewrite Hd, <-app_assoc. simpl. by rewrite <-Hpre. }
    pose proof (place_iter p i _ _ (iteration_depth_ (map_of p)) Hok Hd') as Hpl. cbv zeta in Hpl.
    assert (data_ (map_of p) = (l1 ++ [(n, (k, v))]) ++ l2') as Hd2 by by rewrite <-app_assoc.
    destruct Hpl as [Hok' Ha].
    { rewrite map_size_insert_Some by (by rewrite Hit). apply Hok. }
    { apply Hok. }
    replace ((map_of p) <| iteration_depth_ := iteration_depth_ (map_of p) |>) with (map_of p) in Hok', Ha by (by destruct (map_of p)).
    eexists RDone, _. split; [done|]. split; [exact Hok'|]. split; [done|].
    exists k, (node_keys l2'). split; [done|]. rewrite <-(skip_keys p _ l2' Hok Hd2). exact Ha.
Qed.

Lemma step_queries op p : prog_ok p → id_legal op (abs p) →
  match op with
  | ILookup _ | ISize | IIsEmpty | IIsAtEnd _ | IKey _ | IValue _ => True
  | _ => False
  end → step_ok op p.
Proof.
  intros Hok Hleg. pose proof (po_map _ Hok) as Hm.
  destruct op as [d|d id|id|id d| |id| | |b|i|i j|i|i|i|i|i]; try done; intros _;
    unfold step_ok; cbn [run_id_op id_legal id_spec] in *.
  - eexists _, p. rewrite (step_query _ RPointer p _ (idmap_Lookup_run id _ Hm)). done.
  - eexists _, p. rewrite (step_query _ RSize p _ (idmap_size_run _ Hm Hleg)). done.
  - eexists _, p. rewrite (step_query _ RBool p (Z.of_nat (base.size (live (map_of p))) =? 0)).
    + split; [done|]. split; [done|]. split; [|done]. f_equal. simpl.
      pose proof (map_size_empty_iff (live (map_of p))) as He.
      destruct (Z.eqb_spec (Z.of_nat (base.size (live (map_of p)))) 0); case_bool_decide as Hb; try done.
      * exfalso. apply Hb, He. lia.
      * exfalso. apply He in Hb. lia.
    + unfold IsEmpty. by rewrite (bind_run _ _ _ _ _ (idmap_size_run _ Hm Hleg)).
  - destruct Hleg as (ks&Hi). destruct (iter_usable p i _ Hok Hi) as (l1&l2&Hd&Hit&->).
    rewrite (bind_run _ _ _ _ _ (iterator_named_run i _ p Hit)).
    rewrite (step_query _ RBool p _ (is_end_now _ (map_of p))). eexists _, p. split; [done|]. split; [done|].
    exists (node_keys l2). split; [done|]. split; [|done]. f_equal. by destruct l2.
  - destruct Hleg as (k&ks&Hi). destruct (iter_usable p i _ Hok Hi) as (l1&l2&Hd&Hit&Hks).
    destruct (keys_cons _ _ _ Hks) as (n&v&l2'&->&->).
    rewrite (bind_run _ _ _ _ _ (iterator_named_run i _ p Hit)).
    change (first_node ((n, (k, v)) :: l2')) with (Some n).
    rewrite (step_query _ RId p _ (proj1 (current_run p l1 n k v l2' Hok Hd))).
    eexists _, p. split; [done|]. split; [done|]. by exists k, (node_keys l2').
  - destruct Hleg as (k&ks&Hi). destruct (iter_usable p i _ Hok Hi) as (l1&l2&Hd&Hit&Hks).
    destruct (keys_cons _ _ _ Hks) as (n&v&l2'&->&->).
    rewrite (bind_run _ _ _ _ _ (iterator_named_run i _ p Hit)).
    change (first_node ((n, (k, v)) :: l2')) with (Some n).
    rewrite (step_query _ RPointer p _ (proj2 (current_run p l1 n k v l2' Hok Hd))).
    eexists _, p. split; [done|]. split; [done|]. by exists k, (node_keys l2').
Qed.

Lemma id_step op p : prog_ok p → id_legal op (abs p) → step_ok op p.
Proof.
  intros Hok Hleg. destruct op; solve [by apply step_changes|by apply step_iterators|by apply step_queries].
Qed.

(** * Programs *)

Fixpoint run_id_ops (ops : list (id_op T)) : M (Program T) (list (id_result T)) :=
  match ops with
  | [] => mret []
  | op :: ops' => r ← run_id_op op; rs ← run_id_ops ops'; mret (r :: rs)
  end.
Fixpoint ids_legal (ops : list (id_op T)) p : Prop :=
  match ops with
  | [] => True
  | op :: ops' => id_legal op (abs p) ∧ ∀ r p', run_id_op op p = Ok (r, p') → ids_legal ops' p'
  end.
Fixpoint id_specs (ops : list (id_op T)) (a : id_abs) (rs : list (id_result T)) (a' : id_abs) : Prop :=
  match ops, rs with
  | [], [] => a' = a
  | op :: ops', r :: rs' => ∃ a1, id_spec op a r a1 ∧ id_specs ops' a1 rs' a'
  | _, _ => False
  end.

Definition empty_map : IDMap T := mkIDMap 0 [] 1 [] false 0 0.
Definition start : Program T := mkProgram empty_map ∅.

Lemma start_ok : prog_ok start.
Proof. split; [|done|done]. split; [constructor|split; constructor|set_solver|done|done]. Qed.

Lemma id_steps ops p : prog_ok p → ids_legal ops p →
  ∃ rs p', run_id_ops ops p = Ok (rs, p') ∧ prog_ok p' ∧ id_specs ops (abs p) rs (abs p').
Proof.
  revert p. induction ops as [|op ops IH]; intros p Hok Hl; [by exists [], p|].
  destruct Hl as [Hop Hl]. destruct (id_step op p Hok Hop) as (r&p1&Hr&Hok1&Hs).
  destruct (IH p1 Hok1 (Hl _ _ Hr)) as (rs&p'&Hrs&Hok'&Hss). exists (r :: rs), p'.
  cbn [run_id_ops id_specs]. rewrite (bind_run _ _ _ _ _ Hr), (bind_run _ _ _ _ _ Hrs). eauto.
Qed.

(** The identifiers a program that leaves them to [Add] uses are below the next one. *)
Definition ids_below (a : id_abs) : Prop := Forall (λ k, k < a_next a) (a_order a).

Lemma settle_below (a : id_abs) : ids_below a → ids_below (settle a).
Proof.
  unfold ids_below, settle. case_decide; [|done]. simpl. rewrite !Forall_forall.
  intros Hb k [_ Hk]%list_elem_of_filter. by apply Hb.
Qed.

Lemma spec_below op a r a' : (∀ d id, op ≠ IAddWithID d id) → id_spec op a r a' → ids_below a → ids_below a'.
Proof.
  intros Hop Hs Hb. destruct op; simpl in Hs;
    repeat match goal with H : ∃ _, _ |- _ => destruct H | H : _ ∧ _ |- _ => destruct H end; subst; try done;
    try (by apply settle_below).
  - match goal with Hj : joins _ _ _ _, Hn : a_next _ = _ |- _ => destruct Hj as (Hp&_); unfold ids_below in *; rewrite Hp, Hn end.
    constructor; [lia|]. eapply Forall_impl; [exact Hb|]. simpl. lia.
  - by destruct (Hop data id).
Qed.

(** C14. An [IDMap] is a finite map, whatever iterators are around.  Every program that keeps
    to the rules returns from every call with the answer of the map of identifiers that are
    not removed, and every iterator has ahead of it what the abstract program says: removing
    elements, replacing them and clearing the map disturb no iterator.  When the last
    iterator is gone the removed elements are erased.  If the program leaves the identifiers
    to [Add], the next one is always free. *)
Theorem id_map_refines ops s :
  ids_legal ops start →
  construct s = Ok (tt, map_of start) ∧
  ∃ rs p, run_id_ops ops start = Ok (rs, p) ∧ id_specs ops (mkAbs [] ∅ 1 false ∅) rs (abs p) ∧
    (iters p = ∅ → removed_ids_ (map_of p) = []) ∧
    ((∀ d id, IAddWithID d id ∉ ops) → next_id_ (map_of p) ∉ node_keys (data_ (map_of p))).
Proof.
  intros Hl. split; [done|]. destruct (id_steps ops start start_ok Hl) as (rs&p&Hr&Hok&Hs).
  assert (abs start = mkAbs [] ∅ 1 false ∅) as Ha.
  { unfold abs, start. simpl. by rewrite fmap_empty. }
  rewrite Ha in Hs. exists rs, p. split; [done|]. split; [done|]. split.
  - intros Hi. apply (mo_idle _ (po_map _ Hok)). by rewrite (po_depth _ Hok), Hi, map_size_empty.
  - intros Hno. assert (ids_below (abs p)) as Hb.
    { assert (ids_below (mkAbs [] ∅ 1 false ∅)) as Hb0 by constructor. clear Hr Hl Ha.
      revert rs Hs Hb0. generalize (mkAbs [] ∅ 1 false ∅) as a. induction ops as [|op ops IH]; intros a [|r rs] Hs Hb; try done.
      - by simpl in Hs; subst.
      - destruct Hs as (a1&H1&Hs). apply (IH ltac:(intros; set_solver) a1 rs Hs).
        apply (spec_below op a r a1); [|done|done]. intros d id ->. by apply (Hno d id); left. }
    intros Hin. unfold ids_below in Hb. rewrite Forall_forall in Hb. specialize (Hb _ Hin). simpl in Hb. lia.
Qed.

(** * Iterations *)

(** The identifier an iterator stands at. *)
Definition current (i : nat) p : option Z :=
  match run_id_op (IKey i) p with Ok (RId k, _) => Some k | _ => None end.

(** The identifiers an iterator comes to stand at, one after the other. *)
Definition moves (i : nat) op : bool :=
  match op with IIterate j | IAdvance j => bool_decide (i = j) | _ => false end.
Fixpoint visits (i : nat) (ops : list (id_op T)) p : list Z :=
  match ops with
  | [] => []
  | op :: ops' =>
    match run_id_op op p with
    | Ok (_, p') => (if moves i op then option_list (current i p') else []) ++ visits i ops' p'
    | Fault _ => []
    end
  end.
Definition advance_of (i : nat) op : bool := match op with IAdvance j => bool_decide (i = j) | _ => false end.
Fixpoint advances (i : nat) (ops : list (id_op T)) : nat :=
  match ops with [] => 0 | op :: ops' => (if advance_of i op then 1 else 0) + advances i ops' end.

(** The identifier is there all the time. *)
Fixpoint stays (k : Z) (ops : list (id_op T)) p : Prop :=
  is_Some (live (map_of p) !! k) ∧
  match ops with
  | [] => True
  | op :: ops' => ∀ r p', run_id_op op p = Ok (r, p') → stays k ops' p'
  end.

Lemma current_end s :
  GetCurrentKey (mkTableIterator (first_node ([] : list (entry T))) (epoch s)) s = Fault (UndefinedBehaviour "end() dereferenced").
Proof.
  unfold GetCurrentKey, entry_of, usable, mbind, M_bind, get. cbn [made]. by rewrite decide_True.
Qed.

Lemma current_head i p ks : prog_ok p → a_iters (abs p) !! i = Some (Some ks) → current i p = head ks.
Proof.
  intros Hok Hi. unfold current. destruct ks as [|k ks].
  - destruct (iter_usable p i _ Hok Hi) as (l1&[|e l2]&Hd&Hit&Hks); [|done]. cbn [run_id_op].
    rewrite (bind_run _ _ _ _ _ (iterator_named_run i _ p Hit)).
    unfold mbind, M_bind, on_map. by rewrite current_end.
  - destruct (id_step (IKey i) p Hok) as (r&p'&Hr&_&Hs); [by exists k, ks|]. rewrite Hr.
    destruct Hs as (k'&ks'&Hi'&->&_). by simplify_eq.
Qed.

Lemma settle_iters (a : id_abs) i x : a_iters a !! i = Some x → settle a = a.
Proof. intros Hi. unfold settle. rewrite decide_False; [done|]. intros E. by rewrite E, lookup_empty in Hi. Qed.

(** An iterator that is not used or destroyed stays where it is, or becomes unusable. *)
Lemma iter_frame op a r a' i x :
  id_spec op a r a' → id_legal op a → op ≠ IDestroy i → op ≠ IAdvance i → a_iters a !! i = Some x →
  a_iters a' !! i = Some x ∨ a_iters a' !! i = Some None.
Proof.
  intros Hs Hl Hd Ha Hi. destruct op; simpl in Hs, Hl;
    repeat match goal with H : ∃ _, _ |- _ => destruct H | H : _ ∧ _ |- _ => destruct H end; subst; eauto.
  - right. match goal with Hj : joins _ _ _ _ |- _ => destruct Hj as (_&_&_&->) end. by rewrite lookup_fmap, Hi.
  - case_decide; [by subst; left|]. right. match goal with Hj : joins _ _ _ _ ∧ _ |- _ => destruct Hj as [(_&_&_&->) _] end.
    by rewrite lookup_fmap, Hi.
  - left. by rewrite (settle_iters _ i x).
  - left. by rewrite (settle_iters _ i x).
  - left. simpl. rewrite lookup_insert_ne; [done|]. intros ->. congruence.
  - left. simpl. rewrite lookup_insert_ne; [done|]. intros ->. congruence.
  - left. assert (delete i0 (a_iters a) !! i = Some x) as Hx by (rewrite lookup_delete_ne by congruence; done).
    by rewrite (settle_iters _ i x).
  - left. simpl. rewrite lookup_insert_ne by congruence. done.
Qed.

Lemma drop_while_sublist {A} (q : A → bool) (xs : list A) : drop_while q xs `sublist_of` xs.
Proof.
  destruct (drop_while_suffix q xs) as [pre Hx]. rewrite Hx at 2. by apply sublist_inserts_l.
Qed.

Lemma drop_while_out {A} (q : A → bool) (xs : list A) x : x ∈ xs → q x = false → x ∈ drop_while q xs.
Proof.
  induction xs as [|y xs IH]; simpl; intros Hx Hq; [done|]. destruct (q y) eqn:E; [|done].
  apply elem_of_cons in Hx as [->|Hx]; [congruence|auto].
Qed.

Lemma advance_of_spec i op : advance_of i op = true ↔ op = IAdvance i.
Proof. destruct op; simpl; try done. rewrite bool_decide_eq_true. naive_solver. Qed.

Lemma advance_of_false i op : op ≠ IAdvance i → advance_of i op = false.
Proof. intros Hop. apply not_true_iff_false. by rewrite advance_of_spec. Qed.

(** An unusable iterator stays unusable, so that it does not move any more. *)
Lemma stale_walk i ops p :
  prog_ok p → ids_legal ops p → IDestroy i ∉ ops → a_iters (abs p) !! i = Some None →
  advances i ops = 0%nat ∧ ∀ rs p', run_id_ops ops p = Ok (rs, p') → a_iters (abs p') !! i = Some None.
Proof.
  revert p. induction ops as [|op ops IH]; intros p Hok Hl Hnd Hi.
  - split; [done|]. by intros rs p' [= _ <-].
  - destruct Hl as [Hop Hl]. destruct (id_step op p Hok Hop) as (r&p1&Hr&Hok1&Hs).
    assert (op ≠ IAdvance i) as Hna by (intros ->; destruct Hop as (k&ks&?); congruence).
    assert (op ≠ IDestroy i) as Hnd' by (intros ->; set_solver).
    assert (a_iters (abs p1) !! i = Some None) as Hi1 by (by destruct (iter_frame op _ _ _ i _ Hs Hop Hnd' Hna Hi)).
    destruct (IH p1 Hok1 (Hl _ _ Hr) ltac:(set_solver) Hi1) as [Ha Hend].
    cbn [advances]. rewrite (advance_of_false i op Hna), Ha. split; [done|]. intros rs p'. cbn [run_id_ops].
    rewrite (bind_run _ _ _ _ _ Hr). unfold mbind, M_bind. destruct (run_id_ops ops p1) as [[rs' p2]|] eqn:E; [|done].
    intros [= _ <-]. by apply (Hend rs').
Qed.

Lemma run_cons op ops p r p1 rs p' :
  run_id_op op p = Ok (r, p1) → run_id_ops (op :: ops) p = Ok (rs, p') →
  ∃ rs', run_id_ops ops p1 = Ok (rs', p').
Proof.
  intros Hr. cbn [run_id_ops]. rewrite (bind_run _ _ _ _ _ Hr). unfold mbind, M_bind.
  destruct (run_id_ops ops p1) as [[rs' p2]|]; [|done]. intros [= _ <-]. by exists rs'.
Qed.

(** From a usable iterator with [ks] ahead: it moves at most that often; and when it has
    come to the end, it stood at different ones of those behind the first, one for each move
    but the last, and at all of them that were there all the time. *)
Lemma walk i ops p ks :
  prog_ok p → ids_legal ops p → IDestroy i ∉ ops → a_iters (abs p) !! i = Some (Some ks) →
  (advances i ops ≤ length ks)%nat ∧
  ∀ rs p', run_id_ops ops p = Ok (rs, p') → a_iters (abs p') !! i = Some (Some []) →
    visits i ops p `sublist_of` tail ks ∧
    advances i ops = (length (visits i ops p) + if decide (ks = []) then 0 else 1)%nat ∧
    ∀ k, k ∈ tail ks → stays k ops p → k ∈ visits i ops p.
Proof.
  revert p ks. induction ops as [|op ops IH]; intros p ks Hok Hl Hnd Hi.
  { split; [simpl; lia|]. intros rs p' [= _ <-] Hi'. simplify_eq. split_and!; [done|done|]. simpl. set_solver. }
  destruct Hl as [Hop Hl]. destruct (id_step op p Hok Hop) as (r&p1&Hr&Hok1&Hs).
  assert (op ≠ IDestroy i) as Hnd1 by (intros ->; set_solver). assert (IDestroy i ∉ ops) as Hnd2 by set_solver.
  assert (∀ k, stays k (op :: ops) p → is_Some (live (map_of p) !! k) ∧ stays k ops p1) as Hst.
  { intros k [Hk Hk']. split; [done|]. by apply (Hk' r). }
  cbn [visits advances]. rewrite Hr. destruct (advance_of i op) eqn:Eop.
  - apply advance_of_spec in Eop as ->. destruct Hs as (->&k&ks0&Hi'&Ha). simplify_eq.
    assert (a_iters (abs p1) !! i = Some (Some (skip (abs p) ks0))) as Hi1 by (rewrite Ha; apply lookup_insert_eq).
    set (ks1 := skip (abs p) ks0) in *. assert (ks1 `sublist_of` ks0) as Hsub by apply drop_while_sublist.
    destruct (IH p1 ks1 Hok1 (Hl _ _ Hr) Hnd2 Hi1) as [Hadv Hend].
    split; [pose proof (sublist_length _ _ Hsub); simpl; lia|]. intros rs p' Hrun Hfin.
    destruct (run_cons _ _ _ _ _ _ _ Hr Hrun) as [rs' Hrun']. destruct (Hend rs' p' Hrun' Hfin) as (H1&H2&H3).
    cbn [moves]. rewrite bool_decide_true by done. rewrite (current_head i p1 ks1 Hok1 Hi1). simpl tail.
    split_and!.
    + etransitivity; [|exact Hsub]. destruct ks1 as [|k1 ks1]; simpl in *; [done|by apply sublist_skip].
    + rewrite H2. destruct ks1 as [|k1 ks1]; simpl; lia.
    + intros k' Hk' Hstay. destruct (Hst k' Hstay) as [[v Hv] Hstay'].
      assert (k' ∈ ks1) as Hin by (apply drop_while_out; [done|]; apply bool_decide_false; simpl; congruence).
      destruct ks1 as [|k1 ks1]; [set_solver|]. simpl. apply elem_of_cons in Hin as [->|Hin]; [by left|right].
      by apply H3.
  - assert (op ≠ IAdvance i) as Hna by (intros ->; by rewrite (proj2 (advance_of_spec i _) eq_refl) in Eop).
    assert (moves i op = false) as ->.
    { destruct op; try done; simpl in *. apply bool_decide_false. intros <-. destruct Hop as [Hop _]. congruence. }
    destruct (iter_frame op _ _ _ i _ Hs Hop Hnd1 Hna Hi) as [Hi1|Hi1].
    + destruct (IH p1 ks Hok1 (Hl _ _ Hr) Hnd2 Hi1) as [Hadv Hend]. split; [done|]. intros rs p' Hrun Hfin.
      destruct (run_cons _ _ _ _ _ _ _ Hr Hrun) as [rs' Hrun']. destruct (Hend rs' p' Hrun' Hfin) as (H1&H2&H3).
      split_and!; [done|done|]. intros k Hk Hstay. apply H3; [done|]. by apply Hst.
    + destruct (stale_walk i ops p1 Hok1 (Hl _ _ Hr) Hnd2 Hi1) as [Hadv Hend]. rewrite Hadv. split; [simpl; lia|].
      intros rs p' Hrun Hfin. destruct (run_cons _ _ _ _ _ _ _ Hr Hrun) as [rs' Hrun'].
      apply Hend in Hrun'. congruence.
Qed.

Lemma at_end_abs i p : prog_ok p → run_id_op (IIsAtEnd i) p = Ok (RBool true, p) →
  a_iters (abs p) !! i = Some (Some []).
Proof.
  intros Hok. cbn [run_id_op]. unfold mbind, M_bind, iterator_named, mbind, M_bind, get, deref.
  destruct (iters p !! i) as [it|] eqn:Hit; [|done]. unfold mret at 1, M_ret at 1.
  unfold mbind, M_bind, on_map, IsAtEnd, is_end, usable, mbind, M_bind, get.
  destruct (decide (made it = epoch (map_of p))) as [E|]; [|done]. unfold mret, M_ret. case_bool_decide as Hp; [|done].
  intros _. unfold abs. simpl. rewrite lookup_fmap, Hit. simpl. unfold ahead. by rewrite decide_True, Hp.
Qed.

(** C15. Iterations end and miss nothing.  Start an iterator and go on with any program that
    keeps to the rules, removing, replacing and adding elements again, with other iterators
    inside, but without destroying this one.  It can be advanced at most as often as there
    are elements.  Once it is at the end, it has stood at each identifier at most once, in
    the order of the table, and was advanced once for each; and it has stood at every
    identifier that was there all the time. *)
Theorem id_map_iteration i ops p :
  prog_ok p → ids_legal (IIterate i :: ops) p → IDestroy i ∉ ops →
  ∃ rs p', run_id_ops (IIterate i :: ops) p = Ok (rs, p') ∧ prog_ok p' ∧
    (advances i ops ≤ length (data_ (map_of p)))%nat ∧
    let vs := visits i (IIterate i :: ops) p in
    (run_id_op (IIsAtEnd i) p' = Ok (RBool true, p') →
     NoDup vs ∧ vs `sublist_of` node_keys (data_ (map_of p)) ∧ advances i ops = length vs ∧
     ∀ k, stays k (IIterate i :: ops) p → k ∈ vs).
Proof.
  intros Hok Hl Hnd. destruct (id_steps _ p Hok Hl) as (rs&p'&Hrun&Hok'&_). exists rs, p'.
  split; [done|]. split; [done|]. destruct Hl as [Hop Hl].
  destruct (id_step (IIterate i) p Hok Hop) as (r&p1&Hr&Hok1&[_ Ha]).
  set (ks := skip (abs p) (a_order (abs p))) in *.
  assert (a_iters (abs p1) !! i = Some (Some ks)) as Hi1 by (rewrite Ha; apply lookup_insert_eq).
  assert (ks `sublist_of` node_keys (data_ (map_of p))) as Hsub by apply drop_while_sublist.
  destruct (walk i ops p1 ks Hok1 (Hl _ _ Hr) Hnd Hi1) as [Hadv Hend].
  split.
  { apply sublist_length in Hsub. unfold node_keys in Hsub. rewrite length_fmap in Hsub. lia. }
  cbv zeta. cbn [visits moves]. rewrite Hr, bool_decide_true by done. rewrite (current_head i p1 ks Hok1 Hi1).
  intros Hatend. destruct (run_cons _ _ _ _ _ _ _ Hr Hrun) as [rs' Hrun'].
  assert (a_iters (abs p') !! i = Some (Some [])) as Hfin by by apply at_end_abs.
  destruct (Hend rs' p' Hrun' Hfin) as (H1&H2&H3).
  assert (option_list (head ks) ++ visits i ops p1 `sublist_of` ks) as Hvs.
  { destruct ks as [|k ks]; simpl in *; [done|by apply sublist_skip]. }
  split_and!.
  - eapply sublist_NoDup; [|etransitivity; [exact Hvs|exact Hsub]]. apply Hok.
  - by etransitivity.
  - rewrite H2. destruct ks as [|k ks]; simpl; lia.
  - intros k [[v Hv] Hst]. assert (k ∈ ks) as Hin.
    { apply drop_while_out; [|apply bool_decide_false; simpl; congruence]. simpl.
      apply live_Some in Hv as [Hv _]; [by eapply value_key|apply Hok]. }
    destruct ks as [|k1 ks]; [set_solver|]. simpl. apply elem_of_cons in Hin as [->|Hin]; [by left|right].
    apply H3; [done|]. by apply (Hst r).
Qed.
End program.

(** * Witnesses *)

#[local] Instance id_checked : BuildConfig := true.
#[local] Instance front_place : UnorderedMap nat := λ l e, e :: l.
#[local] Instance front_place_perm : UnorderedMapPlaces nat.
Proof. intros l e. reflexivity. Qed.

Ltac legal_next := intros ?r ?p' Hr; vm_compute in Hr; injection Hr as <- <-.

(** Two elements; one is removed while an iterator stands at the other. *)
Definition sample_ids : list (id_op nat) :=
  [IAdd (Some 10%nat); IAdd (Some 20%nat); IIterate 0; IRemove 1; IValue 0; ISize; IAdvance 0; IIsAtEnd 0;
   IDestroy 0; ILookup 2].

Lemma sample_ids_legal : ids_legal sample_ids start.
Proof.
  split; [split_and!; [done|by apply not_elem_of_nil|done|done]|legal_next].
  split; [split_and!; [done|apply (bool_decide_unpack _); by vm_compute|done|done]|legal_next].
  split; [done|legal_next]. split; [by left; vm_compute; eexists|legal_next].
  split; [by eexists _, _|legal_next]. split; [done|legal_next]. split; [by eexists _, _|legal_next].
  split; [by eexists|legal_next]. split; [by vm_compute; eexists|legal_next]. split; [done|legal_next]. done.
Qed.

Lemma id_map_refines_witness :
  ∃ rs p, run_id_ops sample_ids start = Ok (rs, p) ∧ removed_ids_ (map_of p) = [] ∧
    rs = [RId 1; RId 2; RDone; RDone; RPointer (Some 20%nat); RSize 1; RDone; RBool true; RDone;
          RPointer (Some 20%nat)].
Proof.
  destruct (id_map_refines sample_ids empty_map sample_ids_legal) as (_&rs&p&Hr&_&Hrem&_).
  exists rs, p. split; [exact Hr|]. vm_compute in Hr. injection Hr as <- <-. split; [by apply Hrem|reflexivity].
Defined.

Definition before_iteration : Program nat := mkProgram (mkIDMap 0 [] 3 [(1%nat, (2, Some 20%nat)); (0%nat, (1, Some 10%nat))] false 2 2) ∅.

Lemma before_iteration_ok : prog_ok before_iteration.
Proof.
  split; [|done|done]. split; [constructor| |set_solver|done|done].
  split; [apply (bool_decide_unpack _); by vm_compute..|]. by repeat constructor.
Qed.

Definition sample_iteration : list (id_op nat) := [IRemove 1; IAddWithID None 1; IAdvance 0; IAdvance 0].

Lemma sample_iteration_legal : ids_legal (IIterate 0 :: sample_iteration) before_iteration.
Proof.
  split; [done|legal_next]. split; [by left; vm_compute; eexists|legal_next].
  split; [done|legal_next]. split; [by eexists _, _|legal_next]. split; [by eexists _, _|legal_next]. done.
Qed.

Lemma id_map_iteration_witness :
  ∃ rs p', run_id_ops (IIterate 0 :: sample_iteration) before_iteration = Ok (rs, p') ∧
    NoDup (visits 0 (IIterate 0 :: sample_iteration) before_iteration) ∧
    2 ∈ visits 0 (IIterate 0 :: sample_iteration) before_iteration.
Proof.
  destruct (id_map_iteration 0 sample_iteration before_iteration before_iteration_ok sample_iteration_legal)
    as (rs&p'&Hr&_&_&Hend); [set_solver|].
  exists rs, p'. split; [exact Hr|]. vm_compute in Hr. injection Hr as <- <-.
  destruct Hend as (Hnd&_&_&Hst); [reflexivity|]. split; [exact Hnd|]. apply Hst.
  repeat (split; [vm_compute; by eexists|legal_next]). split; [vm_compute; by eexists|done].
Defined.
