(* ===== verification/IntrusiveHeap.v ===== *)
(** [base::IntrusiveHeap<T>] (base/containers/intrusive_heap.h): a max-heap in a
    vector whose elements know their position through a [HeapHandle].

    An element of the vector is an object of type [T], or what is left of it after
    its value was moved away ([None]): the model stops where such an element is
    compared or moved again.  Elements compare by a value of type [V] in them; how
    they store their handle is up to the accessor class (the template argument
    [HeapHandleAccessor]), with what the header demands of it as the laws
    [HeapHandleLaws].  [T] is a type that is moved, not copied.

    [kInvalidIndex], the index no vector reaches, is [None]. *)
From S2P Require Import Prelude.
From S2P Require Import StdAlgorithms.
From Stdlib Require Import ZArith Lia.
From stdpp Require Import base tactics numbers strings list.

Open Scope nat_scope.

(** * Handles *)

Definition HeapHandle : Type := option nat.

Definition IsValid (h : HeapHandle) : bool := match h with Some _ => true | None => false end.
Definition reset (_ : HeapHandle) : HeapHandle := None.

Definition handle_eq (lhs rhs : HeapHandle) : bool := bool_decide (lhs = rhs).
Definition handle_lt (lhs rhs : HeapHandle) : bool :=
  match lhs, rhs with
  | Some i, Some j => i <? j
  | Some _, None => true
  | None, _ => false
  end.
Definition handle_le (lhs rhs : HeapHandle) : bool := negb (handle_lt rhs lhs).

(** The handle after [HeapHandle(HeapHandle&& other)], and [other] after it. *)
Definition handle_move (other : HeapHandle) : HeapHandle * HeapHandle := (other, None).

(** [HeapHandleAccessor]: what the accessor does to an element. *)
Class HeapHandleAccess (T : Type) := {
  SetHandle : nat → T → T;
  ClearHandle : T → T;
  GetHandle : T → HeapHandle
}.

(** The contract of the accessor: it answers the most recently set handle or
    none, it answers none after clearing, and it leaves the value alone. *)
Class HeapHandleLaws {T V : Type} `{!HeapHandleAccess T} (payload : T → V) := {
  get_set : ∀ i x, GetHandle (SetHandle i x) = Some i ∨ GetHandle (SetHandle i x) = None;
  get_clear : ∀ x, GetHandle (ClearHandle x) = None;
  payload_set : ∀ i x, payload (SetHandle i x) = payload x;
  payload_clear : ∀ x, payload (ClearHandle x) = payload x
}.

(** ** WithHeapHandle

    An element with storage of its own: the value and, unless it was moved away,
    the cell [handle()] points to. *)
Record WithHeapHandle (V : Type) := mkElement { value : V; handle_ : option HeapHandle }.
Arguments mkElement {V} _ _.
Arguments value {V} _.
Arguments handle_ {V} _.

(** [WithHeapHandle(value)] *)
Definition with_handle {V} (v : V) : WithHeapHandle V := mkElement v (Some None).

#[export] Instance internal_handle_storage {V} : HeapHandleAccess (WithHeapHandle V) := {|
  SetHandle i x := mkElement (value x) (match handle_ x with Some _ => Some (Some i) | None => None end);
  ClearHandle x := mkElement (value x) (match handle_ x with Some h => Some (reset h) | None => None end);
  GetHandle x := match handle_ x with Some h => h | None => None end
|}.

#[export] Instance internal_handle_laws {V} : HeapHandleLaws (value (V := V)).
Proof. split; [intros i [? []]|intros [? []]|intros i []|intros []]; by auto. Qed.

(** * The heap *)

Module IntrusiveHeap.
Section IntrusiveHeap.
Context `{!BuildConfig} {T V : Type} `{!HeapHandleAccess T}.
Context (payload : T → V) (less : V → V → bool).

(** [impl_.heap_] *)
Definition heap : Type := list (option T).

#[local] Abbreviation HM := (M (list (option T))).

Definition size : HM nat := h ← get; mret (length h).
Definition empty : HM bool := h ← get; mret (length h =? 0).

(** The object at [heap_[i]]. *)
Definition element (i : nat) : HM T :=
  h ← get;
  match h !! i with
  | Some (Some x) => mret x
  | Some None => fail (UndefinedBehaviour "value moved away")
  | None => fail (UndefinedBehaviour "vector subscript out of range")
  end.

(** [heap_[i] = std::move(x)], and [std::move(heap_[i])] as the source of a move. *)
Definition assign (i : nat) (x : T) : HM unit :=
  h ← get;
  if i <? length h then put (<[i := Some x]> h)
  else fail (UndefinedBehaviour "vector subscript out of range").
Definition move_out (i : nat) : HM T :=
  x ← element i;
  _ ← modify (λ h, <[i := None]> h);
  mret x.

Definition push_back (x : T) : HM unit := modify (λ h, h ++ [Some x]).
Definition pop_back : HM unit :=
  h ← get;
  if length h =? 0 then fail (UndefinedBehaviour "pop_back of an empty vector")
  else put (take (length h - 1) h).

(** ** Index arithmetic *)

Definition ParentIndex (i : nat) : HM nat :=
  _ ← dcheck (negb (i =? 0)) "0u != i";
  mret ((i - 1) / 2).
Definition LeftIndex (i : nat) : nat := 2 * i + 1.

Definition GetLastIndex : HM nat :=
  n ← size;
  if n =? 0 then fail (UndefinedBehaviour "size_t below zero") else mret (n - 1).

(** ** Handles *)

Definition GetHeapHandle (i : nat) : HM HeapHandle :=
  h ← get;
  match h !! i with
  | Some (Some x) => mret (GetHandle x)
  | Some None => mret None
  | None => fail (UndefinedBehaviour "vector subscript out of range")
  end.

Definition CheckInvalidOrEqualTo (handle : HeapHandle) (index : nat) : HM unit :=
  match handle with
  | Some i => dcheck (index =? i) "index == handle.index()"
  | None => mret tt
  end.

Definition SetHeapHandle (i : nat) : HM unit :=
  x ← element i;
  _ ← assign i (SetHandle i x);
  g ← GetHeapHandle i;
  CheckInvalidOrEqualTo g i.

Definition ClearHeapHandle (i : nat) : HM unit :=
  x ← element i;
  _ ← assign i (ClearHandle x);
  g ← GetHeapHandle i;
  dcheck (negb (IsValid g)) "!GetHeapHandle(i).IsValid()".

(** ** Comparisons *)

Definition dcheck_position (i : nat) : HM unit :=
  n ← size; dcheck (i <? n) "i < size()".

Definition Less (i j : nat) : HM bool :=
  _ ← dcheck_position i;
  _ ← dcheck_position j;
  x ← element i;
  y ← element j;
  mret (less (payload x) (payload y)).

(** [Less(const T& element, size_type i)] and [Less(size_type i, const T& element)] *)
Definition Less_than_slot (e : T) (i : nat) : HM bool :=
  _ ← dcheck_position i;
  y ← element i;
  mret (less (payload e) (payload y)).
Definition Slot_less_than (i : nat) (e : T) : HM bool :=
  _ ← dcheck_position i;
  x ← element i;
  mret (less (payload x) (payload e)).

(** ** Holes *)

Definition MakeHole (pos : nat) : HM unit :=
  _ ← dcheck_position pos;
  ClearHeapHandle pos.

Definition FillHole (hole_pos : nat) (e : T) : HM unit :=
  n ← size;
  _ ← dcheck (hole_pos <=? n) "hole_pos <= size()";
  _ ← (if hole_pos =? n then push_back e else assign hole_pos e);
  SetHeapHandle hole_pos.

Definition MoveHole (new_hole_pos old_hole_pos : nat) : HM unit :=
  _ ← dcheck (negb (new_hole_pos =? old_hole_pos)) "new_hole_pos != old_hole_pos";
  _ ← dcheck_position new_hole_pos;
  n ← size;
  _ ← dcheck (old_hole_pos <=? n) "old_hole_pos <= size()";
  x ← move_out new_hole_pos;
  _ ← (if old_hole_pos =? n then push_back x else assign old_hole_pos x);
  SetHeapHandle old_hole_pos.

(** The loop of [MoveHoleUpAndFill], at most [fuel] times round. *)
Fixpoint move_up (fuel : nat) (e : T) (hole_pos : nat) : HM nat :=
  if hole_pos =? 0 then mret hole_pos
  else
    parent ← ParentIndex hole_pos;
    b ← Slot_less_than parent e;
    if negb b then mret hole_pos
    else
      match fuel with
      | O => fail (UndefinedBehaviour "loop bound of the model")
      | S fuel => _ ← MoveHole parent hole_pos; move_up fuel e parent
      end.

(** The tree is as deep as the logarithm of the number of its nodes. *)
Definition MoveHoleUpAndFill (hole_pos : nat) (e : T) : HM nat :=
  n ← size;
  _ ← dcheck (hole_pos <=? n) "hole_pos <= size()";
  hole_pos ← move_up (Nat.log2 (hole_pos + 1)) e hole_pos;
  _ ← FillHole hole_pos e;
  mret hole_pos.

(** The larger child of a hole in a heap of [n] elements, if the hole moves
    there. *)
Definition descend (kIsLeafElement : bool) (n : nat) (e : T) (hole_pos : nat) : HM (option nat) :=
  let left := LeftIndex hole_pos in
  if n <=? left then mret None
  else
    let right := left + 1 in
    b ← (if right <? n then Less left right else mret false);
    let largest := if b : bool then right else left in
    stop ← (if kIsLeafElement then mret false else b ← Less_than_slot e largest; mret (negb b));
    mret (if stop : bool then None else Some largest).

(** The loop of [MoveHoleDownAndFill]. *)
Fixpoint move_down (fuel : nat) (kIsLeafElement : bool) (n : nat) (e : T) (hole_pos : nat) : HM nat :=
  next ← descend kIsLeafElement n e hole_pos;
  match next with
  | None => mret hole_pos
  | Some largest =>
      match fuel with
      | O => fail (UndefinedBehaviour "loop bound of the model")
      | S fuel => _ ← MoveHole largest hole_pos; move_down fuel kIsLeafElement n e largest
      end
  end.

Definition MoveHoleDownAndFill (kIsLeafElement : bool) (hole_pos : nat) (e : T) : HM nat :=
  _ ← dcheck_position hole_pos;
  s ← size;
  n ← (if kIsLeafElement then GetLastIndex else mret s);
  _ ← dcheck (hole_pos <? n) "hole_pos < n";
  g ← GetHeapHandle hole_pos;
  _ ← dcheck (negb (IsValid g)) "!GetHeapHandle(hole_pos).IsValid()";
  hole_pos ← move_down (Nat.log2 n) kIsLeafElement n e hole_pos;
  if kIsLeafElement then MoveHoleUpAndFill hole_pos e
  else _ ← FillHole hole_pos e; mret hole_pos.

(** ** Operations

    An iterator is the position it points to. *)

Definition InsertImpl (e : T) : HM nat :=
  n ← size; MoveHoleUpAndFill n e.

Definition ReplaceImpl (pos : nat) (e : T) : HM nat :=
  _ ← MakeHole pos;
  b ← Less_than_slot e pos;
  if negb b then MoveHoleUpAndFill pos e else MoveHoleDownAndFill false pos e.

Definition ReplaceTopImpl (e : T) : HM nat :=
  _ ← MakeHole 0;
  MoveHoleDownAndFill false 0 e.

Definition insert (e : T) : HM nat := InsertImpl e.
Definition insert_range (items : list T) : HM unit :=
  for_each (λ e, _ ← insert e; mret tt) items.
Definition emplace (e : T) : HM nat := InsertImpl e.
Definition Replace (pos : nat) (e : T) : HM nat := ReplaceImpl pos e.
Definition ReplaceTop (e : T) : HM nat := ReplaceTopImpl e.

(** [take] and [erase] fill the hole with the last element. *)
Definition fill_with_last (pos : nat) : HM unit :=
  last ← GetLastIndex;
  _ ← (if negb (pos =? last) then
         _ ← MakeHole last;
         e ← move_out last;
         _ ← MoveHoleDownAndFill true pos e;
         mret tt
       else mret tt);
  pop_back.

Definition take_at (pos : nat) : HM T :=
  _ ← MakeHole pos;
  val ← move_out pos;
  _ ← fill_with_last pos;
  mret val.
Definition take_top : HM T := take_at 0.

Definition erase (pos : nat) : HM unit :=
  _ ← dcheck_position pos;
  _ ← MakeHole pos;
  fill_with_last pos.
Definition pop : HM unit := erase 0.

Definition Update (pos : nat) : HM nat :=
  _ ← dcheck_position pos;
  _ ← MakeHole pos;
  child_greater_eq_parent ←
    (if 0 <? pos then i ← ParentIndex pos; b ← Less pos i; mret (negb b) else mret false);
  e ← move_out pos;
  if child_greater_eq_parent : bool then MoveHoleUpAndFill pos e
  else MoveHoleDownAndFill false pos e.

Definition clear : HM unit :=
  n ← size;
  _ ← for_each ClearHeapHandle (seq 0 n);
  put [].

(** [vector::at] throws out of range, which ends a build without exceptions. *)
Definition at_ (pos : nat) : HM T :=
  n ← size;
  _ ← check (pos <? n) "std::vector::at";
  element pos.
Definition top : HM T := element 0.

(** Access through a handle.  [kInvalidIndex] lies beyond the end of the vector,
    where every use of an index stops. *)
Definition ToIndex (handle : HeapHandle) : HM nat :=
  match handle with
  | Some i => mret i
  | None => n ← size; mret (n + 1)
  end.
Definition at_handle (handle : HeapHandle) : HM T := i ← ToIndex handle; at_ i.
Definition erase_handle (handle : HeapHandle) : HM unit := i ← ToIndex handle; erase i.
Definition take_handle (handle : HeapHandle) : HM T := i ← ToIndex handle; take_at i.
Definition Replace_handle (handle : HeapHandle) (e : T) : HM nat := i ← ToIndex handle; Replace i e.
Definition Update_handle (handle : HeapHandle) : HM nat := i ← ToIndex handle; Update i.

(** [IntrusiveHeap(first, last)] and [operator=(initializer_list)] *)
Definition construct_range (items : list T) : HM unit :=
  _ ← put []; insert_range items.
Definition assign_list (items : list T) : HM unit :=
  _ ← clear; insert_range items.

(** The copies, of element types that can be copied. *)
Definition construct_copy (other : list (option T)) : HM unit :=
  _ ← put other;
  n ← size;
  for_each SetHeapHandle (seq 0 n).
Definition assign_copy (other : list (option T)) : HM unit :=
  _ ← clear;
  construct_copy other.

(** The moves and [swap]: this heap, and the other one as the result. *)
Definition assign_move (other : list (option T)) : HM (list (option T)) :=
  _ ← clear;
  _ ← put other;
  mret [].
Definition swap (other : list (option T)) : HM (list (option T)) :=
  h ← get;
  _ ← put other;
  mret h.

End IntrusiveHeap.
End IntrusiveHeap.
