(* ===== verification/IntrusiveHeapLemmas.v ===== *)
(** The algorithm of the heap: heaps with a hole in them, and how the hole moves. *)
From S2P Require Import Prelude StdAlgorithms IntrusiveHeap.
From Stdlib Require Import ZArith Lia.
From stdpp Require Import base tactics numbers strings list.

Open Scope nat_scope.
Import IntrusiveHeap.

(** * Positions in the tree *)

Definition parent (i : nat) : nat := (i - 1) / 2.

Lemma parent_lt i : 0 < i → parent i < i.
Proof. intros. unfold parent. apply Nat.Div0.div_lt_upper_bound. lia. Qed.

Lemma parent_iff i p : 0 < i → parent i = p ↔ i = 2 * p + 1 ∨ i = 2 * p + 2.
Proof.
  intros. unfold parent. pose proof (Nat.div_mod (i - 1) 2 ltac:(lia)).
  pose proof (Nat.mod_upper_bound (i - 1) 2 ltac:(lia)). lia.
Qed.

(** One level up, and down. *)
Lemma log2_parent i : 0 < i → Nat.log2 (i + 1) = S (Nat.log2 (parent i + 1)).
Proof.
  intros Hi. destruct (proj1 (parent_iff i (parent i) Hi) eq_refl) as [E|E].
  - replace (i + 1) with (2 * (parent i + 1)) by lia. apply Nat.log2_double. lia.
  - replace (i + 1) with (2 * (parent i + 1) + 1) by lia. apply Nat.log2_succ_double. lia.
Qed.

Section Heap.
Context `{!BuildConfig} {T V : Type} `{!HeapHandleAccess T}.
Context (payload : T → V) (less : V → V → bool).
Context `{!HeapHandleLaws payload} `{!StrictWeakOrder less}.
Implicit Types h : list (option T).

(** What a slot holds, and all values in the vector. *)
Definition view h (i : nat) : option V := h !! i ≫= λ s, payload <$> s.
Definition values h : list V := omap (λ s, payload <$> s) h.

(** The values besides the one at [p]. *)
Definition others h (p : nat) : list V := values (<[p := None]> h).

(** The handle of the element at [i] is [i], if it has one. *)
Definition handle_ok (i : nat) (x : T) : Prop := GetHandle x = Some i ∨ GetHandle x = None.

(** The value at [i] is not less than the one at [j]. *)
Definition ge_at h (i j : nat) : Prop :=
  ∀ x y, view h i = Some x → view h j = Some y → less x y = false.

(** A heap of [n] elements with a hole at [p]: everywhere else a parent is not
    less than its child, and the parent of the hole is not less than the children
    of the hole. *)
Record holed (n : nat) h (p : nat) : Prop := {
  holed_hole : p < n;
  holed_filled : ∀ i, i < n → i ≠ p → is_Some (view h i);
  holed_order : ∀ i, 0 < i < n → i ≠ p → parent i ≠ p → ge_at h (parent i) i;
  holed_bridge : ∀ c, 0 < p → 0 < c < n → parent c = p → ge_at h (parent p) c;
  holed_handles : ∀ i x, i < n → i ≠ p → h !! i = Some (Some x) → handle_ok i x
}.

(** A heap of [n] elements. *)
Record heap_ok (n : nat) h : Prop := {
  heap_filled : ∀ i, i < n → is_Some (view h i);
  heap_order : ∀ i, 0 < i < n → ge_at h (parent i) i;
  heap_handles : ∀ i x, i < n → h !! i = Some (Some x) → handle_ok i x
}.

(** The element for the hole is not less than the children of the hole; not
    greater than its parent. *)
Definition above h (n p : nat) (e : T) : Prop :=
  ∀ c y, 0 < c < n → parent c = p → view h c = Some y → less (payload e) y = false.
Definition below h (p : nat) (e : T) : Prop :=
  ∀ y, 0 < p → view h (parent p) = Some y → less y (payload e) = false.

(** The slots of a vector that is long enough, or about to be. *)
Definition long_enough (n : nat) h (p : nat) : Prop := n ≤ length h ∨ p = length h ∧ n = length h + 1.

(** * Steps *)

Lemma view_slot h i v : view h i = Some v → ∃ x, h !! i = Some (Some x) ∧ payload x = v.
Proof.
  unfold view. destruct (h !! i) as [[x|]|]; simpl; [|done..]. intros [= <-]. eauto.
Qed.

Lemma slot_view h i x : h !! i = Some (Some x) → view h i = Some (payload x).
Proof. unfold view. by intros ->. Qed.

Lemma view_ext h h' i : h !! i = h' !! i → view h i = view h' i.
Proof. unfold view. by intros ->. Qed.

Lemma wp_heap_size h (Q : nat → _ → Prop) : Q (length h) h → wp size Q h.
Proof. done. Qed.

Lemma wp_heap_element h i x (Q : T → _ → Prop) : h !! i = Some (Some x) → Q x h → wp (element i) Q h.
Proof. intros Hi HQ. unfold element. apply wp_bind, wp_get. by rewrite Hi. Qed.

Lemma wp_heap_assign h i x (Q : unit → _ → Prop) : i < length h → Q tt (<[i := Some x]> h) →
  wp (assign i x) Q h.
Proof.
  intros Hi HQ. unfold assign. apply wp_bind, wp_get. destruct (Nat.ltb_spec i (length h)); [done|lia].
Qed.

Lemma wp_move_out h i x (Q : T → _ → Prop) : h !! i = Some (Some x) → Q x (<[i := None]> h) →
  wp (move_out i) Q h.
Proof. intros Hi HQ. apply wp_bind, (wp_heap_element h i x); [done|]. by apply wp_bind, wp_modify. Qed.

Lemma wp_ParentIndex h i (Q : nat → _ → Prop) : 0 < i → Q (parent i) h → wp (ParentIndex i) Q h.
Proof.
  intros Hi HQ. apply wp_bind, wp_dcheck; [|done]. intros _. by destruct (Nat.eqb_spec i 0); [lia|].
Qed.

Lemma wp_GetLastIndex h (Q : nat → _ → Prop) : 0 < length h → Q (length h - 1) h → wp GetLastIndex Q h.
Proof.
  intros Hl HQ. apply wp_bind, wp_heap_size. by destruct (Nat.eqb_spec (length h) 0); [lia|].
Qed.

Lemma wp_dcheck_position h i (Q : unit → _ → Prop) : i < length h → Q tt h → wp (dcheck_position i) Q h.
Proof. intros Hi HQ. apply wp_bind, wp_heap_size, wp_dcheck; [|done]. intros _. by apply Nat.ltb_lt. Qed.

Lemma wp_GetHeapHandle h i s (Q : HeapHandle → _ → Prop) : h !! i = Some s →
  Q (match s with Some x => GetHandle x | None => None end) h → wp (GetHeapHandle i) Q h.
Proof. intros Hi HQ. unfold GetHeapHandle. apply wp_bind, wp_get. rewrite Hi. by destruct s. Qed.

Lemma wp_SetHeapHandle h i x (Q : unit → _ → Prop) : h !! i = Some (Some x) →
  Q tt (<[i := Some (SetHandle i x)]> h) → wp (SetHeapHandle i) Q h.
Proof.
  intros Hi HQ. pose proof (lookup_lt_Some _ _ _ Hi) as Hlt.
  apply wp_bind, (wp_heap_element h i x); [done|]. apply wp_bind, wp_heap_assign; [done|].
  apply wp_bind. eapply wp_GetHeapHandle; [by apply list_lookup_insert_eq|].
  destruct (get_set (payload := payload) i x) as [-> | ->]; [|done].
  apply wp_dcheck; [|done]. intros _. apply Nat.eqb_refl.
Qed.

Lemma wp_ClearHeapHandle h i x (Q : unit → _ → Prop) : h !! i = Some (Some x) →
  Q tt (<[i := Some (ClearHandle x)]> h) → wp (ClearHeapHandle i) Q h.
Proof.
  intros Hi HQ. pose proof (lookup_lt_Some _ _ _ Hi) as Hlt.
  apply wp_bind, (wp_heap_element h i x); [done|]. apply wp_bind, wp_heap_assign; [done|].
  apply wp_bind. eapply wp_GetHeapHandle; [by apply list_lookup_insert_eq|].
  cbn. rewrite (get_clear (payload := payload)). by apply wp_dcheck.
Qed.

Lemma wp_MakeHole h i x (Q : unit → _ → Prop) : h !! i = Some (Some x) →
  Q tt (<[i := Some (ClearHandle x)]> h) → wp (MakeHole i) Q h.
Proof.
  intros Hi HQ. apply wp_bind, wp_dcheck_position; [by eapply lookup_lt_Some|].
  by apply (wp_ClearHeapHandle h i x).
Qed.

(** Putting an element into the hole, which may be one past the end. *)
Definition fill h (p : nat) (x : T) : list (option T) :=
  if p =? length h then h ++ [Some (SetHandle p x)] else <[p := Some (SetHandle p x)]> h.

Lemma wp_FillHole h p e (Q : unit → _ → Prop) : p ≤ length h → Q tt (fill h p e) → wp (FillHole p e) Q h.
Proof.
  intros Hp HQ. apply wp_bind, wp_heap_size. apply wp_bind, wp_dcheck; [intros _; by apply Nat.leb_le|].
  unfold fill in HQ. apply wp_bind. destruct (Nat.eqb_spec p (length h)) as [->|Hne].
  - apply wp_modify, (wp_SetHeapHandle _ _ e); [by apply list_lookup_middle|].
    rewrite insert_app_r_alt, Nat.sub_diag by done. done.
  - apply wp_heap_assign; [lia|]. eapply wp_SetHeapHandle; [apply list_lookup_insert_eq; lia|].
    by rewrite list_insert_insert_eq.
Qed.

Lemma wp_MoveHole h q p x (Q : unit → _ → Prop) : q ≠ p → h !! q = Some (Some x) → p ≤ length h →
  Q tt (fill (<[q := None]> h) p x) → wp (MoveHole q p) Q h.
Proof.
  intros Hne Hq Hp HQ. pose proof (lookup_lt_Some _ _ _ Hq) as Hlt.
  apply wp_bind, wp_dcheck; [intros _; by destruct (Nat.eqb_spec q p)|].
  apply wp_bind, wp_dcheck_position; [done|]. apply wp_bind, wp_heap_size.
  apply wp_bind, wp_dcheck; [intros _; by apply Nat.leb_le|].
  apply wp_bind, (wp_move_out h q x); [done|]. unfold fill in HQ. rewrite length_insert in HQ.
  apply wp_bind. destruct (Nat.eqb_spec p (length h)) as [->|Hne'].
  - apply wp_modify, (wp_SetHeapHandle _ _ x).
    + rewrite lookup_app_r, length_insert, Nat.sub_diag by (by rewrite length_insert). done.
    + rewrite insert_app_r_alt, length_insert, Nat.sub_diag by (by rewrite length_insert). done.
  - apply wp_heap_assign; [rewrite length_insert; lia|].
    eapply wp_SetHeapHandle; [apply list_lookup_insert_eq; rewrite length_insert; lia|].
    by rewrite list_insert_insert_eq.
Qed.

Lemma fill_lookup h p x i : p ≤ length h →
  fill h p x !! i = if i =? p then Some (Some (SetHandle p x)) else h !! i.
Proof.
  intros Hp. unfold fill. destruct (Nat.eqb_spec p (length h)) as [->|Hne].
  - destruct (Nat.eqb_spec i (length h)) as [->|Hi]; [by rewrite list_lookup_middle|].
    destruct (Nat.lt_ge_cases i (length h)); [by rewrite lookup_app_l|].
    rewrite !(proj2 (lookup_ge_None _ _)); [done|lia|rewrite length_app; simpl; lia].
  - destruct (Nat.eqb_spec i p) as [->|Hi]; [apply list_lookup_insert_eq; lia|].
    by rewrite list_lookup_insert_ne.
Qed.

Lemma fill_length h p x : p ≤ length h → length (fill h p x) = Nat.max (length h) (p + 1).
Proof.
  intros Hp. unfold fill. destruct (Nat.eqb_spec p (length h)); rewrite ?length_app, ?length_insert; simpl; lia.
Qed.

(** * Values *)

Lemma values_insert h i s a : h !! i = Some s →
  option_list (payload <$> s) ++ values (<[i := a]> h) ≡ₚ option_list (payload <$> a) ++ values h.
Proof.
  intros Hi. pose proof (lookup_lt_Some _ _ _ Hi) as Hlt. unfold values.
  rewrite insert_take_drop by done. rewrite <-(take_drop_middle h i s Hi) at 3.
  rewrite !omap_app. destruct s, a; simpl; rewrite <-?Permutation_middle; try done. apply perm_swap.
Qed.

Lemma values_fill h p e : p ≤ length h → values (fill h p e) ≡ₚ payload e :: others h p.
Proof.
  intros Hp. unfold fill, others. destruct (Nat.eqb_spec p (length h)) as [->|Hne].
  - rewrite list_insert_ge by done. unfold values. rewrite omap_app. simpl.
    rewrite (payload_set (payload := payload)). symmetry. apply Permutation_cons_append.
  - assert (∃ s, h !! p = Some s) as [s Hs] by (apply lookup_lt_is_Some_2; lia).
    pose proof (values_insert (<[p := None]> h) p None (Some (SetHandle p e))) as Hv.
    simpl in Hv. rewrite (payload_set (payload := payload)) in Hv.
    rewrite list_insert_insert_eq in Hv. apply Hv. apply list_lookup_insert_eq. lia.
Qed.

Lemma others_move h q p x : q ≠ p → h !! q = Some (Some x) → p ≤ length h →
  others (fill (<[q := None]> h) p x) q ≡ₚ others h p.
Proof.
  intros Hne Hq Hp. pose proof (lookup_lt_Some _ _ _ Hq) as Hlt.
  unfold others at 1. rewrite list_insert_id.
  2:{ rewrite fill_lookup by (by rewrite length_insert). destruct (Nat.eqb_spec q p); [done|].
      by apply list_lookup_insert_eq. }
  rewrite values_fill by (by rewrite length_insert). unfold others.
  rewrite list_insert_insert_ne by done.
  pose proof (values_insert (<[p := None]> h) q (Some x) None) as Hv. simpl in Hv. apply Hv.
  by rewrite list_lookup_insert_ne.
Qed.

(** * Moving the hole *)

Lemma view_move h q p x i : q ≠ p → h !! q = Some (Some x) → p ≤ length h →
  view (fill (<[q := None]> h) p x) i =
  if i =? p then Some (payload x) else if i =? q then None else view h i.
Proof.
  intros Hne Hq Hp. pose proof (lookup_lt_Some _ _ _ Hq) as Hlt. unfold view.
  rewrite fill_lookup by (by rewrite length_insert). destruct (Nat.eqb_spec i p) as [->|Hi]; simpl.
  - by rewrite (payload_set (payload := payload)).
  - destruct (Nat.eqb_spec i q) as [->|Hi']; [by rewrite list_lookup_insert_eq|].
    by rewrite list_lookup_insert_ne.
Qed.

Lemma move_handles n h q p x : q ≠ p → h !! q = Some (Some x) → p ≤ length h →
  (∀ i x, i < n → i ≠ p → h !! i = Some (Some x) → handle_ok i x) →
  ∀ i y, i < n → i ≠ q → fill (<[q := None]> h) p x !! i = Some (Some y) → handle_ok i y.
Proof.
  intros Hne Hq Hp Hh i y Hi Hiq. rewrite fill_lookup by (by rewrite length_insert).
  destruct (Nat.eqb_spec i p) as [->|Hip].
  - intros [= <-]. by apply (get_set (payload := payload)).
  - rewrite list_lookup_insert_ne by done. by apply Hh.
Qed.

Lemma ge_trans a b c : less a b = false → less b c = false → less a c = false.
Proof. apply less_negtrans. Qed.

Lemma long_enough_move n h q p x : long_enough n h p → q < length h → p < n →
  let h' := fill (<[q := None]> h) p x in long_enough n h' q ∧ length h' = Nat.max (length h) n.
Proof.
  intros Hl Hq Hp h'. assert (p ≤ length h) by (destruct Hl; lia).
  assert (length h' = Nat.max (length h) (p + 1)) as E.
  { unfold h'. by rewrite fill_length, length_insert by (by rewrite length_insert). }
  rewrite E. unfold long_enough. rewrite E. destruct Hl as [|[-> ->]]; lia.
Qed.

(** Up: the parent of the hole is less than the element. *)
Lemma holed_up n h p x e : holed n h p → above h n p e → p ≤ length h → 0 < p →
  h !! parent p = Some (Some x) → less (payload x) (payload e) = true →
  let h' := fill (<[parent p := None]> h) p x in holed n h' (parent p) ∧ above h' n (parent p) e.
Proof.
  intros [Hpn Hf Ho Hb Hh] Ha Hp Hp0 Hx Hless h'.
  pose proof (parent_lt p Hp0) as Hpar. assert (parent p ≠ p) as Hne by lia.
  pose proof (view_move h (parent p) p x) as Hv. fold h' in Hv.
  assert (view h (parent p) = Some (payload x)) as Hvx by (by apply slot_view).
  split; [split|].
  - lia.
  - intros i Hi Hip. rewrite Hv by done. destruct (Nat.eqb_spec i p); [by eauto|].
    destruct (Nat.eqb_spec i (parent p)); [done|]. by apply Hf.
  - intros i Hi Hiq Hpi a b. rewrite !Hv by done.
    destruct (Nat.eqb_spec (parent i) (parent p)); [done|].
    destruct (Nat.eqb_spec i p); [by subst|]. destruct (Nat.eqb_spec i (parent p)); [done|].
    destruct (Nat.eqb_spec (parent i) p) as [E|]; [|by apply Ho].
    intros [= <-] Hb'. by apply (Hb i Hp0 Hi E).
  - intros c Hq0 Hc Hpc a b. rewrite !Hv by done. pose proof (parent_lt (parent p) Hq0).
    destruct (Nat.eqb_spec (parent (parent p)) p); [lia|].
    destruct (Nat.eqb_spec (parent (parent p)) (parent p)); [lia|].
    intros Ha'. assert (less a (payload x) = false) as Hax
      by (apply (Ho (parent p)); [lia|lia|lia|done|done]).
    destruct (Nat.eqb_spec c p) as [->|Hcp]; [by intros [= <-]|].
    destruct (Nat.eqb_spec c (parent p)); [done|]. intros Hb'.
    apply (ge_trans _ (payload x)); [done|]. apply (Ho c); [done|done|lia|by rewrite Hpc|done].
  - apply (move_handles n h (parent p) p x); try done.
  - intros c y Hc Hpc. rewrite Hv by done. apply less_asym in Hless.
    destruct (Nat.eqb_spec c p) as [->|Hcp]; [by intros [= <-]|].
    destruct (Nat.eqb_spec c (parent p)); [done|]. intros Hy.
    apply (ge_trans _ (payload x)); [done|]. apply (Ho c); [done|done|lia|by rewrite Hpc|done].
Qed.

(** Down: to the child [q], which is not less than the other one. *)
Lemma holed_down n h p q x : holed n h p → p ≤ length h → 0 < q < n → parent q = p →
  h !! q = Some (Some x) → (∀ c, 0 < c < n → parent c = p → ge_at h q c) →
  let h' := fill (<[q := None]> h) p x in holed n h' q ∧ view h' (parent q) = Some (payload x).
Proof.
  intros [Hpn Hf Ho Hb Hh] Hp Hq Hpq Hx Hlargest h'.
  pose proof (parent_lt q ltac:(lia)) as Hpar. assert (q ≠ p) as Hne by lia.
  pose proof (view_move h q p x) as Hv. fold h' in Hv.
  assert (view h q = Some (payload x)) as Hvx by (by apply slot_view).
  split; [split|].
  - lia.
  - intros i Hi Hiq. rewrite Hv by done. destruct (Nat.eqb_spec i p); [by eauto|].
    destruct (Nat.eqb_spec i q); [done|]. by apply Hf.
  - intros i Hi Hiq Hpi a b. rewrite !Hv by done.
    destruct (Nat.eqb_spec i q); [done|]. destruct (Nat.eqb_spec (parent i) q); [done|].
    destruct (Nat.eqb_spec (parent i) p) as [E|].
    + destruct (Nat.eqb_spec i p) as [->|]; [pose proof (parent_lt p); lia|].
      intros [= <-] Hb'. by apply (Hlargest i Hi E).
    + destruct (Nat.eqb_spec i p) as [->|]; [|by apply Ho].
      intros Ha' [= <-]. apply (Hb q); [lia|done|done|done|done].
  - intros c _ Hc Hpc a b. rewrite !Hv by done. rewrite Hpq, Nat.eqb_refl. intros [= <-].
    pose proof (parent_lt c ltac:(lia)).
    destruct (Nat.eqb_spec c p); [lia|]. destruct (Nat.eqb_spec c q); [lia|].
    intros Hb'. apply (Ho c); [done|done|lia|by rewrite Hpc|done].
  - by apply (move_handles n h q p x).
  - rewrite Hv by done. by rewrite Hpq, Nat.eqb_refl.
Qed.

(** The hole filled with an element that belongs there. *)
Lemma heap_filled_hole n h p e : holed n h p → above h n p e → below h p e → p ≤ length h →
  heap_ok n (fill h p e) ∧ view (fill h p e) p = Some (payload e).
Proof.
  intros [Hpn Hf Ho Hb Hh] Ha Hbl Hp.
  assert (∀ i, view (fill h p e) i = if i =? p then Some (payload e) else view h i) as Hv.
  { intros i. unfold view. rewrite fill_lookup by done. destruct (Nat.eqb_spec i p); [|done]. simpl.
    by rewrite (payload_set (payload := payload)). }
  split; [split|].
  - intros i Hi. rewrite Hv. destruct (Nat.eqb_spec i p); [by eauto|]. by apply Hf.
  - intros i Hi a b. rewrite !Hv. destruct (Nat.eqb_spec (parent i) p) as [E|].
    + destruct (Nat.eqb_spec i p) as [->|]; [pose proof (parent_lt p); lia|].
      intros [= <-]. by apply (Ha i).
    + destruct (Nat.eqb_spec i p) as [->|]; [|by apply Ho]. intros Ha' [= <-]. apply Hbl; [lia|done].
  - intros i x Hi. rewrite fill_lookup by done. destruct (Nat.eqb_spec i p) as [->|].
    + intros [= <-]. by apply (get_set (payload := payload)).
    + by apply Hh.
  - by rewrite Hv, Nat.eqb_refl.
Qed.

(** * Loops *)

Lemma wp_Less h i j x y (Q : bool → _ → Prop) : h !! i = Some (Some x) → h !! j = Some (Some y) →
  Q (less (payload x) (payload y)) h → wp (Less payload less i j) Q h.
Proof.
  intros Hi Hj HQ. apply wp_bind, wp_dcheck_position; [by eapply lookup_lt_Some|].
  apply wp_bind, wp_dcheck_position; [by eapply lookup_lt_Some|].
  apply wp_bind, (wp_heap_element h i x); [done|]. by apply wp_bind, (wp_heap_element h j y).
Qed.

Lemma wp_Less_than_slot h e i y (Q : bool → _ → Prop) : h !! i = Some (Some y) →
  Q (less (payload e) (payload y)) h → wp (Less_than_slot payload less e i) Q h.
Proof.
  intros Hi HQ. apply wp_bind, wp_dcheck_position; [by eapply lookup_lt_Some|].
  by apply wp_bind, (wp_heap_element h i y).
Qed.

Lemma wp_Slot_less_than h e i x (Q : bool → _ → Prop) : h !! i = Some (Some x) →
  Q (less (payload x) (payload e)) h → wp (Slot_less_than payload less i e) Q h.
Proof.
  intros Hi HQ. apply wp_bind, wp_dcheck_position; [by eapply lookup_lt_Some|].
  by apply wp_bind, (wp_heap_element h i x).
Qed.

(** What a loop keeps: the values besides the hole, and the slots past the heap. *)
Record keeps (n : nat) h (p : nat) h' (p' : nat) : Prop := {
  keeps_others : others h' p' ≡ₚ others h p;
  keeps_length : Nat.max (length h') n = Nat.max (length h) n;
  keeps_rest : ∀ j, n ≤ j → h' !! j = h !! j
}.

Lemma keeps_refl n h p : keeps n h p h p.
Proof. done. Qed.

Lemma keeps_trans n h p h1 p1 h2 p2 : keeps n h p h1 p1 → keeps n h1 p1 h2 p2 → keeps n h p h2 p2.
Proof.
  intros [Ho Hl Hr] [Ho' Hl' Hr']. split.
  - by rewrite Ho'.
  - lia.
  - intros j Hj. by rewrite Hr', Hr.
Qed.

Lemma keeps_move n h q p x : long_enough n h p → q < n → p < n → q ≠ p → h !! q = Some (Some x) →
  keeps n h p (fill (<[q := None]> h) p x) q.
Proof.
  intros Hl Hq Hp Hne Hx. assert (p ≤ length h) as Hp' by (destruct Hl; lia). split.
  - by apply others_move.
  - rewrite fill_length, length_insert by (by rewrite length_insert). lia.
  - intros j Hj. rewrite fill_lookup by (by rewrite length_insert).
    destruct (Nat.eqb_spec j p); [lia|]. apply list_lookup_insert_ne. lia.
Qed.

Lemma wp_move_up n e fuel : ∀ p h (Q : nat → _ → Prop),
  holed n h p → above h n p e → long_enough n h p → Nat.log2 (p + 1) ≤ fuel →
  (∀ p' h', holed n h' p' → above h' n p' e → below h' p' e → long_enough n h' p' →
     keeps n h p h' p' → Q p' h') →
  wp (move_up payload less fuel e p) Q h.
Proof.
  induction fuel as [|fuel IH]; intros p h Q Hh Ha Hl Hfuel HQ; simpl.
  all: destruct (Nat.eqb_spec p 0) as [->|Hp0];
    [apply wp_ret, HQ; try done; intros y ?; lia|].
  all: pose proof (parent_lt p ltac:(lia)) as Hpar; pose proof (holed_hole _ _ _ Hh) as Hpn.
  all: destruct (view_slot h (parent p)) with (v := default (payload e) (view h (parent p))) as (x&Hx&Hvx);
    [destruct (holed_filled _ _ _ Hh (parent p)) as [v ->]; [lia|lia|done]|].
  all: apply wp_bind, wp_ParentIndex; [lia|].
  all: apply wp_bind, (wp_Slot_less_than h e (parent p) x); [done|].
  all: destruct (less (payload x) (payload e)) eqn:Hless; simpl;
    [|apply wp_ret, HQ; try done; intros y _; rewrite (slot_view _ _ _ Hx); by intros [= <-]].
  - rewrite log2_parent in Hfuel by lia. lia.
  - assert (p ≤ length h) by (destruct Hl; lia).
    apply wp_bind, (wp_MoveHole h (parent p) p x); [lia|done|done|].
    destruct (holed_up n h p x e Hh Ha ltac:(lia) ltac:(lia) Hx Hless) as [Hh' Ha'].
    pose proof (long_enough_move n h (parent p) p x Hl ltac:(by eapply lookup_lt_Some) Hpn) as [Hl' _].
    apply (IH (parent p)); try done; [rewrite log2_parent in Hfuel by lia; lia|].
    intros p' h' ???? Hk. apply HQ; try done. eapply keeps_trans; [|exact Hk].
    apply keeps_move; [done|lia|lia|lia|done].
Qed.

Lemma wp_MoveHoleUpAndFill n h p e (Q : nat → _ → Prop) :
  holed n h p → above h n p e → long_enough n h p →
  (∀ i h', heap_ok n h' → i < n → view h' i = Some (payload e) → values h' ≡ₚ payload e :: others h p →
     length h' = Nat.max (length h) n → (∀ j, n ≤ j → h' !! j = h !! j) → Q i h') →
  wp (MoveHoleUpAndFill payload less p e) Q h.
Proof.
  intros Hh Ha Hl HQ. assert (p ≤ length h) by (pose proof (holed_hole _ _ _ Hh); destruct Hl; lia).
  apply wp_bind, wp_heap_size. apply wp_bind, wp_dcheck; [intros _; by apply Nat.leb_le|].
  apply wp_bind, (wp_move_up n e); try done. intros p' h' Hh' Ha' Hb' Hl' [Ho Hlen Hr].
  pose proof (holed_hole _ _ _ Hh') as Hpn. assert (p' ≤ length h') as Hp' by (destruct Hl'; lia).
  apply wp_bind, wp_FillHole; [done|]. apply wp_ret.
  destruct (heap_filled_hole n h' p' e Hh' Ha' Hb' Hp') as [Hok Hv]. apply HQ; try done.
  - rewrite values_fill by done. by rewrite Ho.
  - rewrite fill_length by done. destruct Hl' as [|[??]]; lia.
  - intros j Hj. rewrite fill_lookup by done. destruct (Nat.eqb_spec j p'); [lia|]. by apply Hr.
Qed.

Lemma wp_descend leaf n h p e (Q : option nat → _ → Prop) : holed n h p →
  (above h n p e → Q None h) →
  (∀ q x, 0 < q < n → parent q = p → h !! q = Some (Some x) →
     (∀ c, 0 < c < n → parent c = p → ge_at h q c) →
     (leaf = false → less (payload e) (payload x) = true) → Q (Some q) h) →
  wp (descend payload less leaf n e p) Q h.
Proof.
  intros Hh HN HS. unfold descend, LeftIndex.
  assert (∀ c, 0 < c < n → parent c = p ↔ c = 2 * p + 1 ∨ c = 2 * p + 2) as Hch
    by (intros; apply parent_iff; lia).
  destruct (Nat.leb_spec n (2 * p + 1)) as [Hn|Hn].
  { apply wp_ret, HN. intros c y Hc Hp. apply Hch in Hp; lia. }
  assert (∀ c, c = 2 * p + 1 ∨ c = 2 * p + 2 → c < n → ∃ x, h !! c = Some (Some x)) as Hsl.
  { intros c Hc Hcn. destruct (holed_filled _ _ _ Hh c) as [v Hv]; [done|lia|].
    destruct (view_slot _ _ _ Hv) as (x&?&_). eauto. }
  assert (∀ q x, h !! q = Some (Some x) → 0 < q < n → parent q = p →
    (∀ c, 0 < c < n → parent c = p → ge_at h q c) →
    wp (stop ← (if leaf then mret false else b ← Less_than_slot payload less e q; mret (negb b));
        mret (if stop : bool then None else Some q)) Q h) as Hend.
  { intros q x Hx Hq Hpq Hl. apply wp_bind. destruct leaf; [by apply wp_ret, wp_ret, (HS q x)|].
    apply wp_bind, (wp_Less_than_slot h e q x); [done|]. apply wp_ret.
    destruct (less (payload e) (payload x)) eqn:E; simpl; apply wp_ret; [by apply (HS q x)|].
    apply HN. intros c y Hc Hpc Hy. apply (ge_trans _ (payload x)); [done|].
    by apply (Hl c Hc Hpc); [apply slot_view|]. }
  destruct (Hsl (2 * p + 1)) as [x Hx]; [lia|lia|].
  destruct (Nat.ltb_spec (2 * p + 1 + 1) n) as [Hr|Hr].
  - destruct (Hsl (2 * p + 1 + 1)) as [y Hy]; [lia|lia|].
    apply wp_bind, (wp_Less h _ _ x y); [done|done|].
    destruct (less (payload x) (payload y)) eqn:E;
      [apply (Hend (2 * p + 1 + 1) y); [done|lia|apply Hch; lia|]
      |apply (Hend (2 * p + 1) x); [done|lia|apply Hch; lia|]];
      intros c Hc Hpc a b; apply Hch in Hpc; [|lia| |lia];
      rewrite (slot_view _ _ _ Hx) || rewrite (slot_view _ _ _ Hy); intros [= <-];
      destruct Hpc as [-> | ->]; replace (2 * p + 2) with (2 * p + 1 + 1) by lia;
      rewrite ?(slot_view _ _ _ Hx), ?(slot_view _ _ _ Hy); intros [= <-];
      first [done | by apply less_asym | apply (less_irrefl less)].
  - apply wp_bind, wp_ret. apply (Hend (2 * p + 1) x); [done|lia|apply Hch; lia|].
    intros c Hc Hpc a b. apply Hch in Hpc as [-> | ->]; [|lia|lia].
    rewrite (slot_view _ _ _ Hx). intros [= <-] [= <-]. apply (less_irrefl less).
Qed.

Lemma wp_move_down leaf n e fuel : ∀ p h (Q : nat → _ → Prop),
  holed n h p → n ≤ length h → (leaf = false → below h p e) → Nat.log2 n ≤ Nat.log2 (p + 1) + fuel →
  (∀ p' h', holed n h' p' → above h' n p' e → (leaf = false → below h' p' e) → n ≤ length h' →
     keeps n h p h' p' → Q p' h') →
  wp (move_down payload less fuel leaf n e p) Q h.
Proof.
  induction fuel as [|fuel IH]; intros p h Q Hh Hl Hbl Hfuel HQ; simpl;
    apply wp_bind, wp_descend; try done; try (intros Ha; by apply wp_ret, HQ);
    intros q x Hq Hpq Hx Hlargest Hless; pose proof (holed_hole _ _ _ Hh) as Hpn;
    pose proof (parent_lt q ltac:(lia)) as Hlt; pose proof (log2_parent q ltac:(lia)) as Hlog;
    rewrite Hpq in Hlog, Hlt; pose proof (Nat.log2_le_mono (q + 1) n ltac:(lia)); [lia|].
  apply wp_bind, (wp_MoveHole h q p x); [lia|done|lia|].
  destruct (holed_down n h p q x Hh ltac:(lia) Hq Hpq Hx Hlargest) as [Hh' Hv].
  assert (n ≤ length (fill (<[q := None]> h) p x)).
  { rewrite fill_length, length_insert; rewrite ?length_insert; lia. }
  apply (IH q); try done; [|lia|].
  - intros E y _. rewrite Hv. intros [= <-]. by apply less_asym, Hless.
  - intros p' h' ???? Hk. apply HQ; try done. eapply keeps_trans; [|exact Hk].
    apply keeps_move; [by left|lia|lia|lia|done].
Qed.

Lemma wp_MoveHoleDownAndFill (leaf : bool) n h p s e (Q : nat → _ → Prop) :
  holed n h p → length h = n + (if leaf then 1 else 0) → (leaf = false → below h p e) →
  h !! p = Some s → (∀ x, s = Some x → GetHandle x = None) →
  (∀ i h', heap_ok n h' → i < n → view h' i = Some (payload e) → values h' ≡ₚ payload e :: others h p →
     length h' = length h → (∀ j, n ≤ j → h' !! j = h !! j) → Q i h') →
  wp (MoveHoleDownAndFill payload less leaf p e) Q h.
Proof.
  intros Hh Hl Hbl Hs Hinv HQ. pose proof (holed_hole _ _ _ Hh) as Hpn.
  apply wp_bind, wp_dcheck_position; [lia|]. apply wp_bind, wp_heap_size. apply wp_bind.
  assert (wp (if leaf then GetLastIndex else mret (length h)) (λ k h', k = n ∧ h' = h) h) as Hn.
  { destruct leaf; [apply wp_GetLastIndex; [lia|split; [lia|done]]|apply wp_ret; split; [lia|done]]. }
  eapply wp_mono; [exact Hn|]. intros ? ? [-> ->]. clear Hn.
  apply wp_bind, wp_dcheck; [intros _; by apply Nat.ltb_lt|].
  apply wp_bind, (wp_GetHeapHandle h p s); [done|].
  apply wp_bind, wp_dcheck; [intros _; destruct s as [x|]; [by rewrite (Hinv x)|done]|].
  apply wp_bind, (wp_move_down leaf n e); [done|lia|done|lia|].
  intros p' h' Hh' Ha' Hb' Hl' [Ho Hlen Hr].
  assert (length h' = length h) as El by lia. pose proof (holed_hole _ _ _ Hh') as Hpn'.
  destruct leaf.
  - apply (wp_MoveHoleUpAndFill n); [done|done|by left|]. intros i h2 Hok Hi Hv Hvals Hlen2 Hr2.
    apply HQ; try done; [by rewrite Hvals, Ho|lia|]. intros j Hj. by rewrite Hr2, Hr.
  - apply wp_bind, wp_FillHole; [lia|]. apply wp_ret.
    destruct (heap_filled_hole n h' p' e Hh' Ha' (Hb' eq_refl) ltac:(lia)) as [Hok Hv].
    apply HQ; try done.
    + rewrite values_fill by lia. by rewrite Ho.
    + rewrite fill_length by lia. lia.
    + intros j Hj. rewrite fill_lookup by lia. destruct (Nat.eqb_spec j p'); [lia|]. by apply Hr.
Qed.
End Heap.
