(* ===== verification/IntrusiveHeapTheorems.v ===== *)
(** Properties of the heap: every operation keeps the order and the handles and
    changes the values as a multiset, and the elements come out in order. *)
From S2P Require Import Prelude StdAlgorithms IntrusiveHeap IntrusiveHeapLemmas.
From Stdlib Require Import ZArith Lia Sorting.Sorted.
From stdpp Require Import base tactics numbers strings list.

Open Scope nat_scope.
Import IntrusiveHeap.

Section Operations.
Context `{!BuildConfig} {T V : Type} `{!HeapHandleAccess T}.
Context (payload : T → V) (less : V → V → bool).
Context `{!HeapHandleLaws payload} `{!StrictWeakOrder less}.
Implicit Types h : list (option T).

#[local] Abbreviation values := (values payload).
#[local] Abbreviation view := (view payload).
#[local] Abbreviation others := (others payload).
#[local] Abbreviation heap_ok := (heap_ok payload less).
#[local] Abbreviation holed := (holed payload less).

(** A heap between two operations. *)
Definition good h : Prop := heap_ok (length h) h.

Lemma heap_slot n h i : heap_ok n h → i < n → ∃ x, h !! i = Some (Some x).
Proof. intros Hok Hi. destruct (heap_filled _ _ _ _ Hok i Hi) as [v (x&?&_)%view_slot]. eauto. Qed.

(** Making a hole in a heap, whatever is left in it. *)
Lemma holed_of_heap n h p x s : heap_ok n h → p < n → h !! p = Some (Some x) → holed n (<[p := s]> h) p.
Proof.
  intros [Hf Ho Hh] Hp Hx.
  assert (∀ i, i ≠ p → view (<[p := s]> h) i = view h i) as Hv
    by (intros i Hi; by apply view_ext, list_lookup_insert_ne).
  split.
  - done.
  - intros i Hi Hip. rewrite Hv by done. by apply Hf.
  - intros i Hi Hip Hpi a b. rewrite !Hv by done. by apply Ho.
  - intros c Hp0 Hc Hpc a b. pose proof (parent_lt p Hp0). pose proof (parent_lt c ltac:(lia)).
    rewrite !Hv by lia. intros Ha Hb. apply (ge_trans less _ (payload x)).
    + apply (Ho p); [lia|done|by apply slot_view].
    + apply (Ho c); [done|rewrite Hpc; by apply slot_view|done].
  - intros i y Hi Hip. rewrite list_lookup_insert_ne by done. by apply Hh.
Qed.

Lemma holed_rest n h h' p : (∀ i, i < n → h' !! i = h !! i) → holed n h p → holed n h' p.
Proof.
  intros E [Hp Hf Ho Hb Hh].
  assert (∀ i, i < n → view h' i = view h i) as Hv by (intros; by apply view_ext, E).
  assert (∀ i, 0 < i < n → parent i < n) as Hpar by (intros i Hi; pose proof (parent_lt i); lia).
  split.
  - done.
  - intros i Hi Hip. rewrite Hv by done. by apply Hf.
  - intros i Hi Hip Hpi a b. rewrite !Hv by (try apply Hpar; lia). by apply Ho.
  - intros c Hp0 Hc Hpc a b. rewrite !Hv by (try apply Hpar; lia). by apply Hb.
  - intros i x Hi Hip. rewrite E by done. by apply Hh.
Qed.

Lemma heap_ok_rest n h h' : (∀ i, i < n → h' !! i = h !! i) → heap_ok n h → heap_ok n h'.
Proof.
  intros E [Hf Ho Hh].
  assert (∀ i, i < n → view h' i = view h i) as Hv by (intros; by apply view_ext, E).
  split.
  - intros i Hi. rewrite Hv by done. by apply Hf.
  - intros i Hi a b. pose proof (parent_lt i). rewrite !Hv by lia. by apply Ho.
  - intros i x Hi. rewrite E by done. by apply Hh.
Qed.

Lemma heap_ok_le n m h : heap_ok n h → m ≤ n → heap_ok m h.
Proof.
  intros [Hf Ho Hh] Hm. split.
  - intros i Hi. apply Hf. lia.
  - intros i Hi. apply Ho. lia.
  - intros i x Hi. apply Hh. lia.
Qed.

Lemma values_others h p x : h !! p = Some (Some x) → values h ≡ₚ payload x :: others h p.
Proof. intros Hx. symmetry. apply (values_insert payload h p (Some x) None Hx). Qed.

Lemma others_insert h p s : others (<[p := s]> h) p = others h p.
Proof. unfold IntrusiveHeapLemmas.others. by rewrite list_insert_insert_eq. Qed.

(** * Insertion and replacement *)

(** What an operation that puts [e] into the heap ends with: [rest] are the other
    values, the result is the position of the element. *)
Definition placed (m : nat) (e : T) (rest : list V) (i : nat) h : Prop :=
  good h ∧ length h = m ∧ i < length h ∧ view h i = Some (payload e) ∧ values h ≡ₚ payload e :: rest.

Lemma wp_InsertImpl h e : good h → wp (InsertImpl payload less e) (placed (length h + 1) e (values h)) h.
Proof.
  intros [Hf Ho Hh]. apply wp_bind, wp_heap_size.
  apply (wp_MoveHoleUpAndFill payload less (length h + 1)).
  - split.
    + lia.
    + intros i Hi Hip. apply Hf. lia.
    + intros i Hi Hip Hpi. apply Ho. lia.
    + intros c Hp0 Hc Hpc. pose proof (parent_lt c). lia.
    + intros i x Hi Hip. apply Hh. lia.
  - intros c y Hc Hpc. pose proof (parent_lt c). lia.
  - by right.
  - intros i h' Hok Hi Hv Hvals Hl _. assert (length h' = length h + 1) as El by lia.
    unfold placed, good. rewrite El. split_and!; try done. rewrite Hvals.
    unfold IntrusiveHeapLemmas.others. by rewrite list_insert_ge.
Qed.

(** The two directions from a hole at [p] in a heap where [x] was. *)
Lemma wp_up_from h p x s e : good h → h !! p = Some (Some x) → less (payload e) (payload x) = false →
  wp (MoveHoleUpAndFill payload less p e) (placed (length h) e (others h p)) (<[p := s]> h).
Proof.
  intros Hok Hx Hge. pose proof (lookup_lt_Some _ _ _ Hx) as Hp.
  apply (wp_MoveHoleUpAndFill payload less (length h)).
  - by apply (holed_of_heap _ h p x).
  - intros c y Hc Hpc. pose proof (parent_lt c ltac:(lia)).
    rewrite (view_ext payload _ h) by (apply list_lookup_insert_ne; lia). intros Hy.
    apply (ge_trans less _ (payload x)); [done|].
    apply (heap_order _ _ _ _ Hok c); [done|rewrite Hpc; by apply slot_view|done].
  - left. by rewrite length_insert.
  - intros i h' Hok' Hi Hv Hvals Hl _. rewrite length_insert in Hl. rewrite others_insert in Hvals.
    assert (length h' = length h) as El by lia. unfold placed, good. rewrite El. by split_and!.
Qed.

Lemma wp_down_from h p x s e : good h → h !! p = Some (Some x) →
  (∀ y, s = Some y → GetHandle y = None) →
  (∀ y, 0 < p → view h (parent p) = Some y → less y (payload e) = false) →
  wp (MoveHoleDownAndFill payload less false p e) (placed (length h) e (others h p)) (<[p := s]> h).
Proof.
  intros Hok Hx Hs Hbl. pose proof (lookup_lt_Some _ _ _ Hx) as Hp.
  apply (wp_MoveHoleDownAndFill payload less false (length h) _ p s).
  - by apply (holed_of_heap _ h p x).
  - rewrite length_insert. lia.
  - intros _ y Hp0. pose proof (parent_lt p Hp0).
    rewrite (view_ext payload _ h) by (apply list_lookup_insert_ne; lia). by apply Hbl.
  - by apply list_lookup_insert_eq.
  - done.
  - intros i h' Hok' Hi Hv Hvals Hl _. rewrite length_insert in Hl. rewrite others_insert in Hvals.
    unfold placed, good. rewrite Hl. by split_and!.
Qed.

Lemma below_of_less h p x e : good h → h !! p = Some (Some x) → less (payload e) (payload x) = true →
  ∀ y, 0 < p → view h (parent p) = Some y → less y (payload e) = false.
Proof.
  intros Hok Hx Hless y Hp0 Hy. pose proof (lookup_lt_Some _ _ _ Hx) as Hp.
  apply (ge_trans less _ (payload x)); [|by apply less_asym].
  apply (heap_order _ _ _ _ Hok p); [lia|done|by apply slot_view].
Qed.

Lemma wp_ReplaceImpl h p x e : good h → h !! p = Some (Some x) →
  wp (ReplaceImpl payload less p e) (placed (length h) e (others h p)) h.
Proof.
  intros Hok Hx. pose proof (lookup_lt_Some _ _ _ Hx) as Hp.
  apply wp_bind, (wp_MakeHole payload h p x); [done|].
  apply wp_bind. eapply wp_Less_than_slot; [by apply list_lookup_insert_eq|].
  rewrite (payload_clear (payload := payload)).
  destruct (less (payload e) (payload x)) eqn:E; simpl.
  - apply (wp_down_from h p x); [done|done| |by apply (below_of_less h p x)].
    intros y [= <-]. apply (get_clear (payload := payload)).
  - by apply (wp_up_from h p x).
Qed.

Lemma wp_ReplaceTopImpl h x e : good h → h !! 0 = Some (Some x) →
  wp (ReplaceTopImpl payload less e) (placed (length h) e (others h 0)) h.
Proof.
  intros Hok Hx. apply wp_bind, (wp_MakeHole payload h 0 x); [done|].
  apply (wp_down_from h 0 x); [done|done| |intros; lia].
  intros y [= <-]. apply (get_clear (payload := payload)).
Qed.

(** [Update] of the element at [p] after its value has changed to that of [e]. *)
Lemma wp_Update h p x e : good h → h !! p = Some (Some x) →
  wp (Update payload less p) (placed (length h) e (others h p)) (<[p := Some e]> h).
Proof.
  intros Hok Hx. pose proof (lookup_lt_Some _ _ _ Hx) as Hp.
  apply wp_bind, wp_dcheck_position; [by rewrite length_insert|].
  apply wp_bind, (wp_MakeHole payload _ p e); [by apply list_lookup_insert_eq|].
  rewrite list_insert_insert_eq. set (h1 := <[p := Some (ClearHandle e)]> h).
  assert (h1 !! p = Some (Some (ClearHandle e))) as Hp1 by (by apply list_lookup_insert_eq).
  assert (∀ i h', placed (length h) (ClearHandle e) (others h p) i h' →
    placed (length h) e (others h p) i h') as Hpl.
  { unfold placed. intros i h'. by rewrite (payload_clear (payload := payload)). }
  assert (∀ b : bool, (b = true → 0 < p ∧ ∀ y, view h (parent p) = Some y → less (payload e) y = false) →
    (b = false → ∀ y, 0 < p → view h (parent p) = Some y → less y (payload e) = false) →
    wp (x ← move_out p; if b then MoveHoleUpAndFill payload less p x
        else MoveHoleDownAndFill payload less false p x)
       (placed (length h) e (others h p)) h1) as Hgo.
  { intros b Hup Hdown. apply wp_bind, (wp_move_out h1 p (ClearHandle e)); [done|].
    unfold h1. rewrite list_insert_insert_eq. eapply wp_mono; [|intros i h'; apply Hpl].
    destruct b.
    - destruct (Hup eq_refl) as [Hp0 Hge]. pose proof (parent_lt p Hp0).
      destruct (heap_slot (length h) h (parent p) Hok ltac:(lia)) as [y Hy].
      apply (wp_MoveHoleUpAndFill payload less (length h)).
      + by apply (holed_of_heap _ h p x).
      + intros c z Hc Hpc. pose proof (parent_lt c ltac:(lia)).
        rewrite (view_ext payload _ h) by (apply list_lookup_insert_ne; lia). intros Hz.
        rewrite (payload_clear (payload := payload)). apply (ge_trans less _ (payload y)).
        { by apply Hge, slot_view. }
        apply (holed_bridge _ _ _ _ _ (holed_of_heap (length h) h p x None Hok Hp Hx) c); try done;
          rewrite (view_ext payload _ h) by (apply list_lookup_insert_ne; lia); [by apply slot_view|done].
      + left. by rewrite length_insert.
      + intros i h' Hok' Hi Hv Hvals Hl _. rewrite length_insert in Hl. rewrite others_insert in Hvals.
        assert (length h' = length h) as El by lia. unfold placed, good. rewrite El. by split_and!.
    - apply (wp_down_from h p x); [done|done|done|].
      intros y Hp0 Hy. rewrite (payload_clear (payload := payload)). by apply Hdown. }
  apply wp_bind. destruct (Nat.ltb_spec 0 p) as [Hp0|Hp0].
  - pose proof (parent_lt p Hp0). destruct (heap_slot (length h) h (parent p) Hok ltac:(lia)) as [y Hy].
    apply wp_bind, wp_ParentIndex; [done|].
    apply wp_bind, (wp_Less payload less h1 p (parent p) (ClearHandle e) y);
      [done|unfold h1; by rewrite list_lookup_insert_ne by lia|].
    rewrite (payload_clear (payload := payload)). apply wp_ret, Hgo; intros Hb.
    + split; [done|]. intros z. rewrite (slot_view _ _ _ _ Hy). intros [= <-]. by apply negb_true_iff.
    + intros z _. rewrite (slot_view _ _ _ _ Hy). intros [= <-]. apply less_asym. by apply negb_false_iff.
  - apply wp_ret. apply (Hgo false); [done|]. intros _ y. lia.
Qed.

(** * Removal *)

Lemma values_pop h : h !! (length h - 1) = Some None → values (take (length h - 1) h) = values h.
Proof.
  intros Hn. pose proof (lookup_lt_Some _ _ _ Hn).
  rewrite <-(take_drop_middle h _ _ Hn) at 3. unfold IntrusiveHeapLemmas.values.
  rewrite omap_app. simpl. rewrite drop_ge by lia. by rewrite app_nil_r.
Qed.

Lemma wp_heap_pop_back h (Q : unit → _ → Prop) : 0 < length h → Q tt (take (length h - 1) h) → wp pop_back Q h.
Proof.
  intros Hl HQ. apply wp_bind, wp_get. by destruct (Nat.eqb_spec (length h) 0); [lia|].
Qed.

(** What an operation that takes the element of [p] out of [h] ends with. *)
Definition removed h (p : nat) h' : Prop :=
  good h' ∧ length h' = length h - 1 ∧ values h' ≡ₚ others h p.

Lemma removed_pop h h1 p : heap_ok (length h - 1) h1 → length h1 = length h →
  h1 !! (length h - 1) = Some None → values h1 ≡ₚ others h p → removed h p (take (length h - 1) h1).
Proof.
  intros Hok Hl Hn Hv. pose proof (lookup_lt_Some _ _ _ Hn).
  assert (length (take (length h - 1) h1) = length h - 1) as E by (rewrite length_take; lia).
  unfold removed, good. rewrite E. split_and!; [|done|].
  - apply (heap_ok_rest _ h1); [|done]. intros i Hi. by apply lookup_take_lt.
  - rewrite <-Hl in *. by rewrite values_pop.
Qed.

Lemma wp_fill_with_last h p x s (Q : unit → _ → Prop) : good h → h !! p = Some (Some x) →
  (∀ y, s = Some y → GetHandle y = None) →
  (∀ h', removed h p h' → Q tt h') → wp (fill_with_last payload less p) Q (<[p := s]> h).
Proof.
  intros Hok Hx Hs HQ. pose proof (lookup_lt_Some _ _ _ Hx) as Hp.
  apply wp_bind, wp_GetLastIndex; rewrite length_insert; [lia|].
  set (last := length h - 1). apply wp_bind.
  destruct (Nat.eqb_spec p last) as [Heq|Hne]; simpl.
  - apply wp_ret, wp_heap_pop_back; rewrite length_insert; [lia|].
    replace (take (length h - 1) (<[p := s]> h)) with (take (length h - 1) (<[p := None]> h))
      by (rewrite !take_insert_ge; [done|lia|lia]).
    apply HQ, removed_pop; [|by rewrite length_insert|subst p; by apply list_lookup_insert_eq|done].
    apply (heap_ok_rest _ h); [|apply (heap_ok_le (length h)); [done|lia]].
    intros i Hi. apply list_lookup_insert_ne. unfold last in *. lia.
  - destruct (heap_slot (length h) h last Hok ltac:(unfold last; lia)) as [y Hy].
    apply wp_bind, (wp_MakeHole payload _ last y); [by rewrite list_lookup_insert_ne|].
    apply wp_bind, (wp_move_out _ last (ClearHandle y));
      [apply list_lookup_insert_eq; rewrite length_insert; unfold last; lia|].
    rewrite list_insert_insert_eq. set (h1 := <[last := None]> (<[p := s]> h)).
    assert (length h1 = length h) as Hl1 by (unfold h1; by rewrite !length_insert).
    apply wp_bind, (wp_MoveHoleDownAndFill payload less true last _ p s).
    + apply (holed_rest _ (<[p := s]> h)).
      { intros i Hi. apply list_lookup_insert_ne. lia. }
      apply (holed_of_heap _ h p x); [apply (heap_ok_le (length h)); [done|]| |done]; unfold last in *; lia.
    + rewrite Hl1. unfold last. lia.
    + done.
    + unfold h1. rewrite list_lookup_insert_ne by done. by apply list_lookup_insert_eq.
    + done.
    + intros i h' Hok' Hi Hv Hvals Hl Hrest. rewrite Hl1 in Hl. apply wp_ret, wp_heap_pop_back; [lia|].
      rewrite Hl. apply HQ, removed_pop; [done|done| |].
      * fold last. rewrite Hrest by done. apply list_lookup_insert_eq. rewrite length_insert. unfold last. lia.
      * rewrite Hvals, (payload_clear (payload := payload)). unfold h1.
        unfold IntrusiveHeapLemmas.others. rewrite (list_insert_insert_ne _ p last) by done.
        rewrite list_insert_insert_eq. symmetry.
        apply (values_others (<[p := None]> h) last y). by rewrite list_lookup_insert_ne.
Qed.

Lemma wp_take_at h p x (Q : T → _ → Prop) : good h → h !! p = Some (Some x) →
  (∀ h', removed h p h' → Q (ClearHandle x) h') → wp (take_at payload less p) Q h.
Proof.
  intros Hok Hx HQ. pose proof (lookup_lt_Some _ _ _ Hx).
  apply wp_bind, (wp_MakeHole payload h p x); [done|].
  apply wp_bind, (wp_move_out _ p (ClearHandle x)); [by apply list_lookup_insert_eq|].
  rewrite list_insert_insert_eq. apply wp_bind, (wp_fill_with_last h p x); [done..|].
  intros h' Hr. by apply wp_ret, HQ.
Qed.

Lemma wp_erase h p x (Q : unit → _ → Prop) : good h → h !! p = Some (Some x) →
  (∀ h', removed h p h' → Q tt h') → wp (erase payload less p) Q h.
Proof.
  intros Hok Hx HQ. apply wp_bind, wp_dcheck_position; [by eapply lookup_lt_Some|].
  apply wp_bind, (wp_MakeHole payload h p x); [done|].
  apply (wp_fill_with_last h p x); [done|done| |done].
  intros y [= <-]. apply (get_clear (payload := payload)).
Qed.

(** [clear] clears the handle of every element before it drops them. *)
Lemma wp_clear_handles n : ∀ k h (Q : unit → _ → Prop), (∀ i, k ≤ i < k + n → ∃ x, h !! i = Some (Some x)) →
  (∀ h', length h' = length h → Q tt h') → wp (for_each ClearHeapHandle (seq k n)) Q h.
Proof.
  induction n as [|n IH]; intros k h Q Hf HQ; simpl; [by apply HQ|].
  destruct (Hf k ltac:(lia)) as [x Hx]. pose proof (lookup_lt_Some _ _ _ Hx).
  apply wp_bind, (wp_ClearHeapHandle payload h k x); [done|]. apply IH.
  - intros i Hi. rewrite list_lookup_insert_ne by lia. apply Hf. lia.
  - intros h' Hl. apply HQ. by rewrite Hl, length_insert.
Qed.

Lemma wp_heap_clear h (Q : unit → _ → Prop) : good h → Q tt [] → wp clear Q h.
Proof.
  intros Hok HQ. apply wp_bind, wp_heap_size. apply wp_bind, wp_clear_handles; [|done].
  intros i Hi. apply (heap_slot (length h)); [done|lia].
Qed.

Lemma good_nil : good [].
Proof. split; intros; simpl in *; lia. Qed.

Lemma wp_heap_insert_range items : ∀ h (Q : unit → _ → Prop), good h →
  (∀ h', good h' → values h' ≡ₚ map payload items ++ values h → Q tt h') →
  wp (insert_range payload less items) Q h.
Proof.
  induction items as [|e items IH]; intros h Q Hok HQ; simpl; [by apply HQ|].
  apply wp_bind. apply wp_bind. eapply wp_mono; [by apply wp_InsertImpl|].
  intros i h' (Hok'&_&_&_&Hv). apply wp_ret, IH; [done|].
  intros h'' Hok'' Hv''. apply HQ; [done|]. rewrite Hv'', Hv. by rewrite <-Permutation_middle.
Qed.

(** * The top *)

Lemma top_is_max h i x y : good h → view h 0 = Some x → view h i = Some y → less x y = false.
Proof.
  intros Hok Hx. revert y. induction (lt_wf i) as [i _ IH]. intros y Hy.
  destruct (decide (i = 0)) as [->|Hi]; [rewrite Hx in Hy; injection Hy as ->; by apply less_irrefl|].
  pose proof (parent_lt i ltac:(lia)) as Hpar.
  assert (i < length h) as Hlt by (destruct (view_slot payload _ _ _ Hy) as (?&?%lookup_lt_Some&_); lia).
  destruct (heap_filled _ _ _ _ Hok (parent i) ltac:(lia)) as [z Hz].
  apply (ge_trans less _ z); [by apply (IH (parent i))|].
  by apply (heap_order _ _ _ _ Hok i); [lia|..].
Qed.

Lemma elem_values h v : v ∈ values h → ∃ i, view h i = Some v.
Proof.
  unfold IntrusiveHeapLemmas.values. rewrite list_elem_of_omap. intros (s&Hs&Hv).
  apply list_elem_of_lookup in Hs as [i Hi]. exists i. unfold IntrusiveHeapLemmas.view. by rewrite Hi.
Qed.

(** * Copies *)

Lemma good_length h : good h → length (values h) = length h.
Proof.
  intros Hok. assert (∀ s, s ∈ h → is_Some s) as Hall.
  { intros s [i Hi]%list_elem_of_lookup. pose proof (lookup_lt_Some _ _ _ Hi).
    destruct (heap_slot _ h i Hok ltac:(done)) as [x Hx]. rewrite Hx in Hi. injection Hi as <-. eauto. }
  clear Hok. unfold IntrusiveHeapLemmas.values. induction h as [|s h IH]; [done|]. simpl.
  destruct (Hall s) as [x ->]; [by left|]. simpl. f_equal. apply IH. intros s' Hs'. apply Hall. by right.
Qed.

Lemma wp_set_handles n : ∀ k h (Q : unit → _ → Prop), (∀ i, k ≤ i < k + n → ∃ x, h !! i = Some (Some x)) →
  (∀ h', map (fmap payload) h' = map (fmap payload) h →
     (∀ i, ¬ k ≤ i < k + n → h' !! i = h !! i) →
     (∀ i x, k ≤ i < k + n → h' !! i = Some (Some x) → handle_ok i x) → Q tt h') →
  wp (for_each SetHeapHandle (seq k n)) Q h.
Proof.
  induction n as [|n IH]; intros k h Q Hf HQ; simpl; [apply HQ; [done|done|lia]|].
  destruct (Hf k ltac:(lia)) as [x Hx]. pose proof (lookup_lt_Some _ _ _ Hx).
  apply wp_bind, (wp_SetHeapHandle payload h k x); [done|]. apply IH.
  { intros i Hi. rewrite list_lookup_insert_ne by lia. apply Hf. lia. }
  intros h' Hmap Hout Hin. apply HQ.
  - rewrite Hmap. rewrite list_fmap_insert. apply list_insert_id. rewrite list_lookup_fmap, Hx. simpl.
    by rewrite (payload_set (payload := payload)).
  - intros i Hi. rewrite Hout by lia. apply list_lookup_insert_ne. lia.
  - intros i y Hi Hy. destruct (decide (i = k)) as [->|Hne]; [|apply Hin; [lia|done]].
    rewrite Hout, list_lookup_insert_eq in Hy by (done || lia). injection Hy as <-.
    by apply (get_set (payload := payload)).
Qed.

Lemma view_map h i : view h i = (map (fmap payload) h !! i) ≫= id.
Proof. unfold IntrusiveHeapLemmas.view. rewrite list_lookup_fmap. by destruct (h !! i). Qed.

Lemma values_map h : values h = omap id (map (fmap payload) h).
Proof.
  unfold IntrusiveHeapLemmas.values. induction h as [|[x|] h IH]; simpl; [done| |done]. by f_equal.
Qed.

Lemma wp_construct_copy h other (Q : unit → _ → Prop) : good other →
  (∀ h', good h' → values h' = values other → Q tt h') → wp (construct_copy other) Q h.
Proof.
  intros Hok HQ. apply wp_bind, wp_put. apply wp_bind, wp_heap_size. apply wp_set_handles.
  { intros i Hi. apply (heap_slot (length other)); [done|lia]. }
  intros h' Hmap Hout Hin. assert (length h' = length other) as El.
  { apply (f_equal length) in Hmap. by rewrite !length_map in Hmap. }
  assert (∀ i, view h' i = view other i) as Hv by (intros i; by rewrite !view_map, Hmap).
  apply HQ; [|by rewrite !values_map, Hmap]. unfold good. rewrite El. destruct Hok as [Hf Ho Hh]. split.
  - intros i Hi. rewrite Hv. by apply Hf.
  - intros i Hi a b. rewrite !Hv. by apply Ho.
  - intros i x Hi. apply Hin. lia.
Qed.

(** * Handles and draining *)

Lemma handle_index h i j x : good h → h !! i = Some (Some x) → GetHandle x = Some j → j = i.
Proof.
  intros Hok Hi Hg. pose proof (lookup_lt_Some _ _ _ Hi).
  destruct (heap_handles _ _ _ _ Hok i x ltac:(done) Hi) as [E|E]; congruence.
Qed.

Lemma wp_heap_at h i x (Q : T → _ → Prop) : h !! i = Some (Some x) → Q x h → wp (at_ i) Q h.
Proof.
  intros Hi HQ. apply wp_bind, wp_heap_size. apply wp_bind, wp_check.
  { by eapply Nat.ltb_lt, lookup_lt_Some. }
  by apply (wp_heap_element h i x).
Qed.

(** Taking the elements out one by one, as a client that empties the heap does. *)
Fixpoint drain (n : nat) : M (list (option T)) (list T) :=
  match n with
  | O => mret []
  | S n => x ← take_top payload less; xs ← drain n; mret (x :: xs)
  end.

Lemma wp_drain n : ∀ h (Q : list T → _ → Prop), good h → length h = n →
  (∀ xs, map payload xs ≡ₚ values h → StronglySorted (λ a b, less a b = false) (map payload xs) → Q xs []) →
  wp (drain n) Q h.
Proof.
  induction n as [|n IH]; intros h Q Hok Hl HQ; simpl.
  - apply nil_length_inv in Hl as ->. apply wp_ret, HQ; [done|constructor].
  - destruct (heap_slot _ h 0 Hok ltac:(lia)) as [x Hx].
    apply wp_bind, (wp_take_at h 0 x); [done|done|]. intros h' (Hok'&Hl'&Hv').
    apply wp_bind, IH; [done|lia|]. intros xs Hp Hs. apply wp_ret, HQ; simpl;
      rewrite (payload_clear (payload := payload)).
    + by rewrite Hp, Hv', (values_others h 0 x).
    + constructor; [done|]. apply Forall_forall. intros v Hin.
      assert (v ∈ values h) as Hvh.
      { rewrite (values_others h 0 x) by done. apply list_elem_of_further. by rewrite <-Hv', <-Hp. }
      apply elem_values in Hvh as [i Hi]. apply (top_is_max h i); [done|by apply slot_view|done].
Qed.

(** C8. The heap as a multiset with a maximum.  From a heap in order every
    operation finishes, its loops within the depth of the tree, and leaves a heap
    in order whose elements know their positions: insertion adds the value (and
    answers where it is), a range adds its values, replacement exchanges one, as
    [Update] does after an element was given a new value in place; taking and
    erasing remove exactly the element pointed to, which no longer has a handle;
    [clear] leaves nothing; a copy has the same values. *)
Theorem heap_operations h : good h →
  (∀ e, wp (insert payload less e) (placed (length h + 1) e (values h)) h) ∧
  (∀ items, wp (insert_range payload less items)
     (λ _ h', good h' ∧ values h' ≡ₚ map payload items ++ values h) h) ∧
  (∀ p x e, h !! p = Some (Some x) →
     wp (Replace payload less p e) (placed (length h) e (others h p)) h ∧
     wp (Update payload less p) (placed (length h) e (others h p)) (<[p := Some e]> h) ∧
     wp (take_at payload less p) (λ y h', y = ClearHandle x ∧ GetHandle y = None ∧ removed h p h') h ∧
     wp (erase payload less p) (λ _ h', removed h p h') h ∧
     values h ≡ₚ payload x :: others h p) ∧
  wp clear (λ _ h', h' = []) h ∧
  (∀ h0, good h0 → wp (assign_copy h) (λ _ h', good h' ∧ values h' = values h) h0).
Proof.
  intros Hok. split_and!.
  - intros e. by apply wp_InsertImpl.
  - intros items. by apply wp_heap_insert_range.
  - intros p x e Hx. split_and!.
    + by apply (wp_ReplaceImpl h p x).
    + by apply (wp_Update h p x).
    + apply (wp_take_at h p x); [done|done|]. intros h' Hr. split_and!; [done| |done].
      apply (get_clear (payload := payload)).
    + by apply (wp_erase h p x).
    + by apply values_others.
  - by apply wp_heap_clear.
  - intros h0 Hok0. apply wp_bind, wp_heap_clear; [done|]. by apply wp_construct_copy.
Qed.

(** C31. A heap is a priority queue.  The top of a heap in order is not less than
    any of its elements, [take_top] takes it, [pop] drops it and [ReplaceTop] puts
    an element in its place; a handle of an element leads
    [at], [erase] and [take] to that element, wherever it has moved; and taking
    the elements out of a heap built from any sequence yields a permutation of it
    in descending order and an empty heap. *)
Theorem heap_is_priority_queue h items : good h →
  (∀ x, h !! 0 = Some (Some x) →
     (∀ v, v ∈ values h → less (payload x) v = false) ∧
     wp top (λ y h', y = x ∧ h' = h) h ∧
     wp (take_top payload less) (λ y h', y = ClearHandle x ∧ removed h 0 h') h ∧
     wp (pop payload less) (λ _ h', removed h 0 h') h ∧
     (∀ e, wp (ReplaceTop payload less e) (placed (length h) e (others h 0)) h)) ∧
  (∀ i j x, h !! i = Some (Some x) → GetHandle x = Some j →
     wp (at_handle (Some j)) (λ y h', y = x ∧ h' = h) h ∧
     wp (erase_handle payload less (Some j)) (λ _ h', removed h i h') h ∧
     wp (take_handle payload less (Some j)) (λ y h', y = ClearHandle x ∧ removed h i h') h) ∧
  wp (_ ← construct_range payload less items; drain (length items))
     (λ xs h', h' = [] ∧ map payload xs ≡ₚ map payload items ∧
        StronglySorted (λ a b, less a b = false) (map payload xs)) h.
Proof.
  intros Hok. split_and!.
  - intros x Hx. split_and!.
    + intros v [i Hi]%elem_values. apply (top_is_max h i); [done|by apply slot_view|done].
    + by apply (wp_heap_element h 0 x).
    + by apply (wp_take_at h 0 x).
    + by apply (wp_erase h 0 x).
    + intros e. by apply (wp_ReplaceTopImpl h x).
  - intros i j x Hx Hj. rewrite (handle_index h i j x Hok Hx Hj). split_and!;
      apply wp_bind, wp_ret.
    + by apply (wp_heap_at h i x).
    + by apply (wp_erase h i x).
    + by apply (wp_take_at h i x).
  - apply wp_bind, wp_bind, wp_put, wp_heap_insert_range; [apply good_nil|]. intros h' Hok' Hv.
    rewrite app_nil_r in Hv. apply wp_drain; [done| |].
    + rewrite <-(length_map payload items), <-Hv. symmetry. by apply good_length.
    + intros xs Hp Hs. split_and!; [done| |done]. by rewrite Hp.
Qed.
End Operations.

(** * Witnesses *)

#[local] Instance heap_checked : BuildConfig := true.

(** The heap of 5, 1 and 4. *)
Definition sample : list (option (WithHeapHandle nat)) :=
  [Some (mkElement 5 (Some (Some 0))); Some (mkElement 1 (Some (Some 1))); Some (mkElement 4 (Some (Some 2)))].

Lemma sample_good : good value Nat.ltb sample.
Proof.
  split.
  - intros i Hi. do 3 (destruct i as [|i]; [by eexists|]). simpl in Hi. lia.
  - intros i Hi x y. do 3 (destruct i as [|i]; [vm_compute; naive_solver lia|]). simpl in Hi. lia.
  - intros i x Hi. do 3 (destruct i as [|i]; [intros [= <-]; by left|]). simpl in Hi. lia.
Qed.

Lemma heap_operations_witness :
  wp (insert value Nat.ltb (with_handle 7)) (λ i h', i = 0 ∧ h' !! 0 = Some (Some (mkElement 7 (Some (Some 0))))) sample ∧
  wp (insert value Nat.ltb (with_handle 7)) (placed value Nat.ltb 4 (with_handle 7) [5; 1; 4]) sample ∧
  wp (erase value Nat.ltb 0) (λ _ h', removed value Nat.ltb sample 0 h') sample.
Proof.
  destruct (heap_operations value Nat.ltb sample sample_good) as (Hins & _ & Hat & _).
  split_and!; [by vm_compute|exact (Hins (with_handle 7))|].
  destruct (Hat 0 (mkElement 5 (Some (Some 0))) (with_handle 7) eq_refl) as (_&_&_&He&_). exact He.
Defined.

Lemma heap_is_priority_queue_witness :
  wp (_ ← construct_range value Nat.ltb (map with_handle [3; 1; 4; 1; 5]); drain value Nat.ltb 5)
     (λ xs h', map value xs = [5; 4; 3; 1; 1] ∧ h' = []) sample ∧
  wp (_ ← construct_range value Nat.ltb (map with_handle [3; 1; 4; 1; 5]); drain value Nat.ltb 5)
     (λ xs h', h' = [] ∧ map value xs ≡ₚ [3; 1; 4; 1; 5] ∧
        StronglySorted (λ a b, (a <? b) = false) (map value xs)) sample.
Proof.
  split; [by vm_compute|].
  destruct (heap_is_priority_queue value Nat.ltb sample (map with_handle [3; 1; 4; 1; 5]) sample_good)
    as (_&_&Hd). exact Hd.
Defined.
