(* ===== verification/Managed.v ===== *)
(** The managed side's data (SpitfireRtc.cpp): its enumerations and their casts
    from and to the native ones, managed strings and their marshalling, the
    option and information classes, and the text [AddServerConfig] builds. *)
From S2P Require Import Prelude ApiTypes PortAllocator WebRtcApi ConductorState Conductor Observers.
From Stdlib Require Import ZArith Lia.
From stdpp Require Import base tactics numbers strings gmap list.

Open Scope Z_scope.

(** * Enumerations

    A managed enumeration is an integer; [static_cast] keeps the integer, so a
    cast answers [None] where the target has no name for it. *)

Module DataChannelState.
Inductive t := Connecting | Open | Closing | Closed.
Definition to_Z (s : t) : Z :=
  match s with Connecting => 0 | Open => 1 | Closing => 2 | Closed => 3 end.
Definition values : list t := [Connecting; Open; Closing; Closed].
Definition of_Z (z : Z) : option t := list_find (λ s, to_Z s = z) values ≫= λ p, Some p.2.
End DataChannelState.

Module RtcLogVerbosity.
Inductive t := Verbose | Info | Warning | Error | None.
Definition to_Z (v : t) : Z :=
  match v with Verbose => 0 | Info => 1 | Warning => 2 | Error => 3 | None => 4 end.
End RtcLogVerbosity.

Module ManagedIceConnectionState.
Inductive t :=
  | New | Checking | Connected | Completed | Failed | Disconnected | Closed | ConnectionMax.
Definition to_Z (s : t) : Z :=
  match s with
  | New => 0 | Checking => 1 | Connected => 2 | Completed => 3 | Failed => 4
  | Disconnected => 5 | Closed => 6 | ConnectionMax => 7
  end.
Definition values : list t :=
  [New; Checking; Connected; Completed; Failed; Disconnected; Closed; ConnectionMax].
Definition of_Z (z : Z) : option t := list_find (λ s, to_Z s = z) values ≫= λ p, Some p.2.
End ManagedIceConnectionState.

Module ManagedIceGatheringState.
Inductive t := New | Gathering | Complete.
Definition to_Z (s : t) : Z := match s with New => 0 | Gathering => 1 | Complete => 2 end.
Definition values : list t := [New; Gathering; Complete].
Definition of_Z (z : Z) : option t := list_find (λ s, to_Z s = z) values ≫= λ p, Some p.2.
End ManagedIceGatheringState.

Inductive SdpTypes := SdpAnswer | SdpOffer.
Inductive ServerType := Stun | Turn.

(** [static_cast<rtc::LoggingSeverity>(verbosity)] *)
Definition severities : list LoggingSeverity := [LS_VERBOSE; LS_INFO; LS_WARNING; LS_ERROR; LS_NONE].
Definition log_severity (v : RtcLogVerbosity.t) : option LoggingSeverity :=
  list_find (λ s, LoggingSeverity_to_Z s = RtcLogVerbosity.to_Z v) severities ≫= λ p, Some p.2.

(** The three [static_cast]s of the event handlers. *)
Definition cast_DataState (s : DataChannelInterface.DataState) : option DataChannelState.t :=
  DataChannelState.of_Z (DataChannelInterface.DataState_to_Z s).
Definition cast_IceConnectionState (s : IceConnectionState) : option ManagedIceConnectionState.t :=
  ManagedIceConnectionState.of_Z (IceConnectionState_to_Z s).
Definition cast_IceGatheringState (s : IceGatheringState) : option ManagedIceGatheringState.t :=
  ManagedIceGatheringState.of_Z (IceGatheringState_to_Z s).

(** * Strings

    A managed string is a sequence of UTF-16 code units; a [String^] may also be
    null.  How [marshal_as] and [gcnew String(const char* )] convert is up to the
    system's code page. *)

Definition mstring := list Z.

Class Interop := {
  marshal : mstring → string;
  unmarshal : string → mstring
}.

Definition units (s : string) : mstring :=
  (λ a, Z.of_nat (Ascii.nat_of_ascii a)) <$> String.list_ascii_of_string s.

(** Every Windows code page agrees with ASCII. *)
Definition is_ascii (s : string) : bool :=
  forallb (λ a, (Ascii.nat_of_ascii a <? 128)%nat) (String.list_ascii_of_string s).

Class InteropLaws `{Interop} : Prop := {
  marshal_ascii : ∀ s, is_ascii s = true → marshal (units s) = s;
  unmarshal_ascii : ∀ s, is_ascii s = true → unmarshal s = units s
}.

(** [marshal_as<std::string>(s)] throws on a null reference. *)
Definition marshal_as `{Interop} {S} (s : option mstring) : M S string :=
  match s with
  | Some u => mret (marshal u)
  | None => fail (ArgumentException "_from_obj")
  end.

(** [From(value, default_value)] and [From(value)] *)
Definition From_default `{Interop} (value : option mstring) (default_value : string) : string :=
  match value with Some u => marshal u | None => default_value end.
Definition From `{Interop} (value : option mstring) : option string := marshal <$> value.

Definition IsNullOrEmpty (s : option mstring) : bool :=
  match s with Some (_ :: _) => false | _ => true end.

(** [Char.IsWhiteSpace] *)
Definition white_space (u : Z) : bool :=
  ((9 <=? u) && (u <=? 13)) || (u =? 32) || (u =? 133) || (u =? 160) || (u =? 5760) ||
  ((8192 <=? u) && (u <=? 8202)) || (u =? 8232) || (u =? 8233) || (u =? 8239) ||
  (u =? 8287) || (u =? 12288).

Definition IsNullOrWhiteSpace (s : option mstring) : bool :=
  match s with Some u => forallb white_space u | None => true end.

(** * Option and information classes *)

Record ServerConfig := mkServerConfig {
  Type_ : ServerType;
  Host : option mstring;
  Port : Z;
  Username : option mstring;
  Password : option mstring
}.

Record DataChannelOptions := mkDataChannelOptions {
  Label : option mstring;
  opt_Reliable : bool;
  opt_Ordered : bool;
  opt_MaxRetransmitTime : option Z;
  opt_MaxRetransmits : option Z;
  opt_Protocol : option mstring;
  opt_Negotiated : bool;
  Id : Z
}.

(** The member initialisers of [DataChannelOptions]. *)
Definition default_DataChannelOptions : DataChannelOptions :=
  mkDataChannelOptions None false true None None None false (-1).

Record DataChannelInfo := mkDataChannelInfo {
  CurrentBuffer : Z;
  BytesSent : Z;
  BytesReceived : Z;
  Reliable : bool;
  Ordered : bool;
  Negotiated : bool;
  MessagesSent : Z;
  MessagesReceived : Z;
  MaxRetransmits : Z;
  MaxRetransmitTime : Z;
  Protocol : option mstring;
  State : option DataChannelState.t
}.

(** * The text of a server address *)

(** The digits [printf("%u")] writes, most significant first. *)
Fixpoint decimal_digits (fuel : nat) (n : Z) : list Ascii.ascii :=
  let digit := Ascii.ascii_of_nat (48 + Z.to_nat (n mod 10)) in
  match fuel with
  | O => [digit]
  | S f => if n <? 10 then [digit] else decimal_digits f (n / 10) ++ [digit]
  end.

(** An [unsigned short] has at most five digits. *)
Definition decimal (n : Z) : string := String.string_of_list_ascii (decimal_digits 4 n).

(** [sprintf_s(uri, "%hs:%hs:%u", type, host, port)] *)
Definition server_uri (type host : string) (port : Z) : string :=
  (type +:+ ":" +:+ host +:+ ":" +:+ decimal port)%string.

(** [sprintf_s] into [char uri[256]]: what does not fit, with its terminating
    NUL, goes to the invalid parameter handler. *)
Definition sprintf_s {S} (size : nat) (text : string) : M S string :=
  if (String.length text <? size)%nat then mret text
  else fail (InvalidParameter "sprintf_s").
