(* ===== verification/SpitfireRtc.v ===== *)
(** [SpitfireRtc] (SpitfireRtc.cpp), the managed class around [RtcConductor]:
    construction and disposal with the garbage collector handles, every public
    operation, and the handlers that turn the conductor's callbacks into managed
    events.

    The state [MSys] has the managed object, the native system it drives, the
    handles the garbage collector treats as roots, the events raised so far and
    the process-wide logging set-up. *)
From S2P Require Import Prelude ApiTypes PortAllocator WebRtcApi ConductorState Conductor Observers.
From S2P Require Import ConductorLemmas System Managed.
From Stdlib Require Import ZArith Lia.
From stdpp Require Import base tactics relations numbers strings gmap list.
From coqutil Require Import Datatypes.RecordSetters.
Import TriangleBracketNotations.

Open Scope Z_scope.

(** * Events and handlers *)

(** The managed events of the class and what they carry. *)
Inductive ManagedEvent :=
  | OnSuccessOffer (sdp : mstring) (type : SdpTypes)
  | OnSuccessAnswer (sdp : mstring) (type : SdpTypes)
  | OnFailureEvent (error : mstring)
  | OnMessageEvent (label : mstring) (data : list Z) (length : Z) (isBinary : bool)
  | OnIceCandidateEvent (SdpMid : mstring) (SdpIndex : Z) (Sdp : mstring)
  | OnIceStateChange (msg : option ManagedIceConnectionState.t)
  | OnIceGatheringStateChange (msg : option ManagedIceGatheringState.t)
  | OnDataChannelStateChange (label : mstring) (state : option DataChannelState.t)
  | OnBufferAmountChange (label : mstring)
      (previous_buffer_amount current_buffer_amount bytes_sent bytes_received : Z).

(** The private handlers; a delegate is one of them on this object. *)
Inductive handler :=
  | H_OnSuccess | H_OnFailure | H_OnMessage | H_OnIceCandidate | H_OnDataChannelState
  | H_OnIceState | H_OnIceGatheringState | H_OnBufferAmountChange.

(** [Marshal::GetFunctionPointerForDelegate]: one pointer per delegate. *)
Definition function_pointer (h : handler) : nat :=
  match h with
  | H_OnSuccess => 1 | H_OnFailure => 2 | H_OnMessage => 3 | H_OnIceCandidate => 4
  | H_OnDataChannelState => 5 | H_OnIceState => 6 | H_OnIceGatheringState => 7
  | H_OnBufferAmountChange => 8
  end.

Definition handlers : list handler :=
  [H_OnSuccess; H_OnFailure; H_OnMessage; H_OnIceCandidate; H_OnDataChannelState;
   H_OnIceState; H_OnIceGatheringState; H_OnBufferAmountChange].

Definition pointed_handler (p : nat) : option handler :=
  list_find (λ h, function_pointer h = p) handlers ≫= λ r, Some r.2.

(** * State *)

(** The members of [SpitfireRtc].  [conductor_] is the conductor's address; the
    handles are numbers of the collector's table. *)
Record SpitfireRtc := mkSpitfireRtc {
  conductor_ : option nat;
  disposed_ : bool;
  min_port_ : Z;
  max_port_ : Z;
  on_success_handle_ : option nat;
  on_failure_handle_ : option nat;
  on_message_handle_ : option nat;
  on_ice_candidate_handle_ : option nat;
  on_data_channel_state_change_handle_ : option nat;
  on_buffer_amount_change_handle_ : option nat;
  on_ice_state_change_handle_ : option nat;
  on_ice_gathering_state_change_handle_ : option nat
}.

(** Process-wide logging: the function-local static sink and the streams that
    were added. *)
Record Logging := mkLogging {
  sink : option (string * Z * Z);
  streams : list (option LoggingSeverity)
}.

Record MSys (W : Type) := mkMSys {
  rtc_ : SpitfireRtc;
  native : Sys W;
  gc_handles : gmap nat handler;
  next_handle : nat;
  raised : list ManagedEvent;
  logging : Logging
}.
Arguments mkMSys {W} _ _ _ _ _ _.
Arguments rtc_ {W} _.
Arguments native {W} _.
Arguments gc_handles {W} _.
Arguments next_handle {W} _.
Arguments raised {W} _.
Arguments logging {W} _.

Section Managed.
Context {W : Type} `{!WebRtc W} `{!BuildConfig} `{!Interop}.
#[local] Abbreviation MM := (M (MSys W)).

Definition this {A} (f : SpitfireRtc → A) : MM A := s ← get; mret (f (rtc_ s)).
Definition set_this (f : SpitfireRtc → SpitfireRtc) : MM unit :=
  modify (λ s, mkMSys (f (rtc_ s)) (native s) (gc_handles s) (next_handle s) (raised s) (logging s)).
Definition set_native (n : Sys W) : MM unit :=
  modify (λ s, mkMSys (rtc_ s) n (gc_handles s) (next_handle s) (raised s) (logging s)).

(** Raising an event runs the subscribers, if any. *)
Definition raise (e : ManagedEvent) : MM unit :=
  modify (λ s, mkMSys (rtc_ s) (native s) (gc_handles s) (next_handle s) (raised s ++ [e])
                      (logging s)).

(** * Handlers of the native callbacks *)

Definition _OnSuccess (type sdp : mstring) : MM unit :=
  if bool_decide (type = units "offer") then raise (OnSuccessOffer sdp SdpOffer)
  else if bool_decide (type = units "answer") then raise (OnSuccessAnswer sdp SdpAnswer)
  else mret tt.

Definition _OnFailure (error : mstring) : MM unit := raise (OnFailureEvent error).

Definition _OnMessage (label : mstring) (data : list Z) (size : Z) (is_binary : bool) : MM unit :=
  raise (OnMessageEvent label data size is_binary).

Definition _OnIceCandidate (sdp_mid : mstring) (sdp_mline_index : Z) (sdp : mstring) : MM unit :=
  raise (OnIceCandidateEvent sdp_mid sdp_mline_index sdp).

Definition _OnIceState (state : IceConnectionState) : MM unit :=
  raise (OnIceStateChange (cast_IceConnectionState state)).

Definition _OnIceGatheringState (state : IceGatheringState) : MM unit :=
  raise (OnIceGatheringStateChange (cast_IceGatheringState state)).

Definition _OnBufferAmountChange (label : mstring) (previous current sent received : Z) : MM unit :=
  raise (OnBufferAmountChange label previous current sent received).

Definition _OnDataChannelState (label : mstring) (state : DataChannelInterface.DataState) :
    MM unit :=
  raise (OnDataChannelStateChange label (cast_DataState state)).

(** A native call through a function pointer: the thunk converts [const char*]
    to managed strings and runs the handler.  Calling a pointer with the
    arguments of another signature is undefined. *)
Definition dispatch (c : Call) : MM unit :=
  match c with
  | CNative p e =>
    match pointed_handler p, e with
    | Some H_OnSuccess, NOnSuccess type sdp => _OnSuccess (unmarshal type) (unmarshal sdp)
    | Some H_OnFailure, NOnFailure error => _OnFailure (unmarshal error)
    | Some H_OnMessage, NOnMessage label data size b => _OnMessage (unmarshal label) data size b
    | Some H_OnIceCandidate, NOnIceCandidate mid i sdp =>
      _OnIceCandidate (unmarshal mid) i (unmarshal sdp)
    | Some H_OnDataChannelState, NOnDataChannelState label st =>
      _OnDataChannelState (unmarshal label) st
    | Some H_OnIceState, NOnIceStateChange st => _OnIceState st
    | Some H_OnIceGatheringState, NOnIceGatheringState st => _OnIceGatheringState st
    | Some H_OnBufferAmountChange, NOnBufferAmount label p c s r =>
      _OnBufferAmountChange (unmarshal label) p c s r
    | _, _ => fail (InvalidParameter "callback signature")
    end
  | _ => mret tt
  end.

(** Running native code: the callbacks it invokes arrive here, in order. *)
Definition run_native {A} (m : M (Sys W) A) : MM A :=
  s ← get;
  '(a, n) ← on_local (native s) m;
  _ ← set_native n;
  _ ← for_each dispatch (drop (length (trace (native s))) (trace n));
  mret a.

(** [RTC_DCHECK(conductor_)] *)
Definition check_conductor : MM unit :=
  c ← this conductor_;
  dcheck (bool_decide (is_Some c)) "conductor_".

(** [conductor_->...] *)
Definition conductor_call {A} (m : M (Sys W) A) : MM A :=
  c ← this conductor_;
  _ ← deref "conductor_" c;
  run_native m.

(** * Construction and disposal *)

(** [GCHandle::Alloc] *)
Definition GCHandle_Alloc (h : handler) : MM nat :=
  s ← get;
  _ ← put (mkMSys (rtc_ s) (native s) (<[next_handle s := h]> (gc_handles s))
                  (S (next_handle s)) (raised s) (logging s));
  mret (next_handle s).

(** [FreeGCHandle] on the member [h]; freeing a handle twice throws. *)
Definition FreeGCHandle (h : SpitfireRtc → option nat) (clear : SpitfireRtc → SpitfireRtc) :
    MM unit :=
  v ← this h;
  match v with
  | None => mret tt
  | Some n =>
    s ← get;
    match gc_handles s !! n with
    | None => fail (ArgumentException "GCHandle is not allocated")
    | Some _ =>
      _ ← put (mkMSys (rtc_ s) (native s) (delete n (gc_handles s)) (next_handle s)
                      (raised s) (logging s));
      set_this clear
    end
  end.

(** The macro [B]: delegate, handle, function pointer. *)
Definition bind_callback (slot : callback_slot) (h : handler)
    (store : option nat → SpitfireRtc → SpitfireRtc) : MM unit :=
  n ← GCHandle_Alloc h;
  _ ← set_this (store (Some n));
  conductor_call (install slot (Some (function_pointer h))).

(** [assert] is controlled by [NDEBUG]; the project's builds never define
    [DCHECK_ALWAYS_ON], so [NDEBUG] alone also decides [RTC_DCHECK_IS_ON] (checks.h). *)
Definition Initialize (min_port max_port : Z) : MM unit :=
  c ← this conductor_;
  _ ← dcheck (bool_decide (c = None)) "!conductor_";
  _ ← run_native RtcConductor_new;
  _ ← set_this (λ t, t <| conductor_ := Some 0%nat |>);
  _ ← set_this (λ t, t <| min_port_ := min_port |>);
  _ ← set_this (λ t, t <| max_port_ := max_port |>);
  _ ← bind_callback SOnSuccess H_OnSuccess (λ v t, t <| on_success_handle_ := v |>);
  _ ← bind_callback SOnFailure H_OnFailure (λ v t, t <| on_failure_handle_ := v |>);
  _ ← bind_callback SOnMessage H_OnMessage (λ v t, t <| on_message_handle_ := v |>);
  _ ← bind_callback SOnIceCandidate H_OnIceCandidate
        (λ v t, t <| on_ice_candidate_handle_ := v |>);
  _ ← bind_callback SOnDataChannelStateChange H_OnDataChannelState
        (λ v t, t <| on_data_channel_state_change_handle_ := v |>);
  _ ← bind_callback SOnIceStateChange H_OnIceState
        (λ v t, t <| on_ice_state_change_handle_ := v |>);
  _ ← bind_callback SOnIceGatheringStateChange H_OnIceGatheringState
        (λ v t, t <| on_ice_gathering_state_change_handle_ := v |>);
  bind_callback SOnBufferAmountChange H_OnBufferAmountChange
        (λ v t, t <| on_buffer_amount_change_handle_ := v |>).

(** The two constructors. *)
Definition SpitfireRtc_new : MM unit := Initialize 1025 65535.
Definition SpitfireRtc_new_ports (min_port max_port : Z) : MM unit :=
  Initialize min_port max_port.

(** [!SpitfireRtc]: the finalizer. *)
Definition SpitfireRtc_finalize : MM unit :=
  c ← this conductor_;
  match c with
  | None => mret tt
  | Some _ =>
    _ ← set_this (λ t, t <| conductor_ := None |>);
    run_native RtcConductor_delete
  end.

(** [~SpitfireRtc]: Dispose. *)
Definition SpitfireRtc_dispose : MM unit :=
  d ← this disposed_;
  if (d : bool) then mret tt
  else
    _ ← FreeGCHandle on_success_handle_ (λ t, t <| on_success_handle_ := None |>);
    _ ← FreeGCHandle on_failure_handle_ (λ t, t <| on_failure_handle_ := None |>);
    _ ← FreeGCHandle on_message_handle_ (λ t, t <| on_message_handle_ := None |>);
    _ ← FreeGCHandle on_ice_candidate_handle_ (λ t, t <| on_ice_candidate_handle_ := None |>);
    _ ← FreeGCHandle on_data_channel_state_change_handle_
          (λ t, t <| on_data_channel_state_change_handle_ := None |>);
    _ ← FreeGCHandle on_buffer_amount_change_handle_
          (λ t, t <| on_buffer_amount_change_handle_ := None |>);
    _ ← FreeGCHandle on_ice_state_change_handle_
          (λ t, t <| on_ice_state_change_handle_ := None |>);
    _ ← FreeGCHandle on_ice_gathering_state_change_handle_
          (λ t, t <| on_ice_gathering_state_change_handle_ := None |>);
    _ ← SpitfireRtc_finalize;
    set_this (λ t, t <| disposed_ := true |>).

(** * Operations *)

(** [EnableLogging]: the sink is made by the first call that gets this far. *)
Definition EnableLogging (verbosity : RtcLogVerbosity.t) (log_directory : option mstring)
    (max_log_size max_number_of_splits : Z) : MM unit :=
  directory ← marshal_as log_directory;
  if bool_decide (directory = EmptyString) then mret tt
  else
    modify (λ s, mkMSys (rtc_ s) (native s) (gc_handles s) (next_handle s) (raised s)
      (mkLogging
        (match sink (logging s) with
         | Some k => Some k
         | None => Some (directory, max_log_size, max_number_of_splits)
         end)
        (streams (logging s) ++ [log_severity verbosity]))).

Definition SInitializePeerConnection : MM bool :=
  _ ← check_conductor;
  mn ← this min_port_;
  mx ← this max_port_;
  conductor_call (InitializePeerConnection mn mx).

Definition SCreateOffer : MM unit :=
  _ ← check_conductor;
  conductor_call CreateOffer.

Definition SProcessMessages (delay : Z) : MM bool :=
  _ ← check_conductor;
  conductor_call (ProcessMessages delay).

Definition SetOfferReply (type sdp : option mstring) : MM unit :=
  _ ← dcheck (bool_decide (is_Some type) && bool_decide (is_Some sdp)) "type && sdp";
  _ ← check_conductor;
  t ← marshal_as type;
  d ← marshal_as sdp;
  conductor_call (OnOfferReply t d).

Definition SetOfferRequest (sdp : option mstring) : MM unit :=
  _ ← dcheck (bool_decide (is_Some sdp)) "sdp";
  _ ← check_conductor;
  d ← marshal_as sdp;
  conductor_call (OnOfferRequest d).

Definition SAddIceCandidate (sdp_mid : option mstring) (sdp_mlineindex : Z)
    (sdp : option mstring) : MM bool :=
  _ ← dcheck (bool_decide (is_Some sdp_mid) && bool_decide (is_Some sdp)) "sdp_mid && sdp";
  _ ← check_conductor;
  m ← marshal_as sdp_mid;
  d ← marshal_as sdp;
  conductor_call (AddIceCandidate m sdp_mlineindex d).

Definition SAddServerConfig (config : option ServerConfig) : MM unit :=
  _ ← check_conductor;
  match config with
  | None => fail (ArgumentException "Missing mandatory argument")
  | Some config =>
    if IsNullOrEmpty (Host config) then fail (ArgumentException "Missing mandatory host argument")
    else
      uri ← sprintf_s 256
              (server_uri (match Type_ config with Stun => "stun" | Turn => "turn" end)
                          (c_str (From_default (Host config) "")) (Port config));
      conductor_call (AddServerConfig uri (From_default (Username config) "")
                                      (From_default (Password config) ""))
  end.

(** The [DataChannelInit] that [CreateDataChannel] fills in. *)
Definition channel_init (options : DataChannelOptions) : DataChannelInit := {|
  dci_id := Id options;
  dci_maxRetransmits := opt_MaxRetransmits options;
  dci_maxRetransmitTime := opt_MaxRetransmitTime options;
  dci_negotiated := opt_Negotiated options;
  dci_ordered := opt_Ordered options;
  dci_protocol := if IsNullOrWhiteSpace (opt_Protocol options) then ""
                  else From_default (opt_Protocol options) "";
  dci_reliable := opt_Reliable options
|}.

Definition SCreateDataChannel (options : option DataChannelOptions) : MM unit :=
  _ ← dcheck (bool_decide (is_Some options)) "dataChannelOptions";
  _ ← check_conductor;
  options ← deref "dataChannelOptions" options;
  label ← marshal_as (Label options);
  conductor_call (CreateDataChannel label (channel_init options)).

Definition DataChannelSendText (label text : option mstring) : MM unit :=
  _ ← dcheck (bool_decide (is_Some label)) "label";
  _ ← dcheck (bool_decide (is_Some text)) "text";
  _ ← check_conductor;
  l ← marshal_as label;
  t ← marshal_as text;
  conductor_call (SendToDataChannel l (DataBuffer_of_text t)).

(** [Byte* array_data]: the bytes from the pointer on. *)
Definition DataChannelSendData (label : option mstring) (array_data : option (list Z))
    (length : Z) : MM unit :=
  _ ← dcheck (bool_decide (is_Some label) && bool_decide (is_Some array_data))
             "label && array_data";
  _ ← check_conductor;
  l ← marshal_as label;
  data ← deref "array_data" array_data;
  _ ← check (length <=? Z.of_nat (List.length data)) "read past the array";
  conductor_call (SendToDataChannel l (mkDataBuffer (take (Z.to_nat length) data) true)).

Definition managed_info (info : RtcDataChannelInfo) : DataChannelInfo := {|
  CurrentBuffer := currentBuffer info;
  BytesSent := bytesSent info;
  BytesReceived := bytesReceived info;
  Reliable := reliable info;
  Ordered := ordered info;
  Negotiated := negotiated info;
  MessagesSent := messagesSent info;
  MessagesReceived := messagesReceived info;
  MaxRetransmits := maxRetransmits info;
  MaxRetransmitTime := maxRetransmitTime info;
  Protocol := if bool_decide (protocol info = EmptyString) then None
              else Some (unmarshal (c_str (protocol info)));
  State := cast_DataState (state info)
|}.

Definition SGetDataChannelInfo (label : option mstring) : MM (option DataChannelInfo) :=
  _ ← dcheck (bool_decide (is_Some label)) "label";
  _ ← check_conductor;
  l ← marshal_as label;
  info ← conductor_call (GetDataChannelInfo l);
  mret (managed_info <$> info).

Definition SGetDataChannelState (label : option mstring) : MM (option DataChannelState.t) :=
  _ ← dcheck (bool_decide (is_Some label)) "label";
  _ ← check_conductor;
  l ← marshal_as label;
  st ← conductor_call (GetDataChannelState l);
  mret (cast_DataState (default DataChannelInterface.kClosed st)).

Definition SCloseDataChannel (label : option mstring) : MM unit :=
  _ ← dcheck (bool_decide (is_Some label)) "label";
  _ ← check_conductor;
  l ← marshal_as label;
  conductor_call (CloseDataChannel l).

End Managed.
