(* ===== verification/CallbackTyping.v ===== *)
(** The callbacks of a conductor that [SpitfireRtc] set up: every operation and
    every library callback invokes the function pointers only with the arguments
    their handlers expect, and never changes them. *)
From S2P Require Import Prelude ApiTypes PortAllocator WebRtcApi ConductorState Conductor Observers.
From S2P Require Import ConductorLemmas System Managed SpitfireRtc.
From Stdlib Require Import ZArith Lia.
From stdpp Require Import base tactics relations numbers strings gmap list.
From coqutil Require Import Datatypes.RecordSetters.
Import TriangleBracketNotations.

Open Scope Z_scope.

(** The eight members as [Initialize] leaves them. *)
Record wired (c : RtcConductor) : Prop := {
  wired_success : on_success_ c = Some (function_pointer H_OnSuccess);
  wired_failure : on_failure_ c = Some (function_pointer H_OnFailure);
  wired_message : on_message_ c = Some (function_pointer H_OnMessage);
  wired_candidate : on_ice_candidate_ c = Some (function_pointer H_OnIceCandidate);
  wired_channel : on_data_channel_state_change_ c = Some (function_pointer H_OnDataChannelState);
  wired_ice : on_ice_state_change_ c = Some (function_pointer H_OnIceState);
  wired_gathering : on_ice_gathering_state_change_ c = Some (function_pointer H_OnIceGatheringState);
  wired_buffer : on_buffer_amount_change_ c = Some (function_pointer H_OnBufferAmountChange)
}.

(** The managed event a native callback stands for, by the kind of the event
    alone (the pointer does not enter). *)
Definition event_of `{Interop} (c : Call) : list ManagedEvent :=
  match c with
  | CNative _ e =>
    match e with
    | NOnSuccess type sdp =>
      if bool_decide (unmarshal type = units "offer") then [OnSuccessOffer (unmarshal sdp) SdpOffer]
      else if bool_decide (unmarshal type = units "answer")
      then [OnSuccessAnswer (unmarshal sdp) SdpAnswer] else []
    | NOnFailure error => [OnFailureEvent (unmarshal error)]
    | NOnIceCandidate mid i sdp => [OnIceCandidateEvent (unmarshal mid) i (unmarshal sdp)]
    | NOnMessage label data size b => [OnMessageEvent (unmarshal label) data size b]
    | NOnIceStateChange st => [OnIceStateChange (cast_IceConnectionState st)]
    | NOnIceGatheringState st => [OnIceGatheringStateChange (cast_IceGatheringState st)]
    | NOnDataChannelState label st =>
      [OnDataChannelStateChange (unmarshal label) (cast_DataState st)]
    | NOnBufferAmount label p c s r => [OnBufferAmountChange (unmarshal label) p c s r]
    end
  | _ => []
  end.

(** A call through a pointer fits the handler behind it. *)
Definition well_typed (c : Call) : bool :=
  match c with
  | CNative p e =>
    match pointed_handler p, e with
    | Some H_OnSuccess, NOnSuccess _ _ | Some H_OnFailure, NOnFailure _
    | Some H_OnMessage, NOnMessage _ _ _ _ | Some H_OnIceCandidate, NOnIceCandidate _ _ _
    | Some H_OnDataChannelState, NOnDataChannelState _ _
    | Some H_OnIceState, NOnIceStateChange _
    | Some H_OnIceGatheringState, NOnIceGatheringState _
    | Some H_OnBufferAmountChange, NOnBufferAmount _ _ _ _ _ => true
    | _, _ => false
    end
  | _ => true
  end.

Section Typing.
Context {W : Type} `{!WebRtc W} `{!BuildConfig}.
Implicit Types s : Sys W.

(** Native code that keeps to the wiring. *)
Definition typed {A} (m : M (Sys W) A) : Prop := ∀ s, wired (conductor s) →
  wlp m (λ _ s', wired (conductor s') ∧
    ∃ d, trace s' = trace s ++ d ∧ forallb well_typed d = true) s.

(** Accesses to the members only. *)
Definition keeps_callbacks (f : RtcConductor → RtcConductor) : Prop :=
  ∀ c, wired c → wired (f c).

Lemma typed_ret {A} (a : A) : typed (mret a).
Proof. intros s Hw. split; [done|]. exists []. by rewrite app_nil_r. Qed.

Lemma typed_bind {A B} (m : M (Sys W) A) (f : A → M (Sys W) B) :
  typed m → (∀ a, typed (f a)) → typed (m ≫= f).
Proof.
  intros Hm Hf s Hw. apply wlp_bind. specialize (Hm s Hw). unfold wlp in *.
  destruct (m s) as [[a s1]|]; [|done]. destruct Hm as [Hw1 (d1&Ht1&Hd1)].
  specialize (Hf a s1 Hw1). unfold wlp in Hf. destruct (f a s1) as [[b s2]|]; [|done].
  destruct Hf as [Hw2 (d2&Ht2&Hd2)]. split; [done|]. exists (d1 ++ d2).
  rewrite Ht2, Ht1, app_assoc, forallb_app. by rewrite Hd1, Hd2.
Qed.

(** Reading a member of a wired conductor. *)
Lemma typed_self_bind {A B} (f : RtcConductor → A) (k : A → M (Sys W) B) :
  (∀ c, wired c → typed (k (f c))) → typed (self f ≫= k).
Proof. intros Hk s Hw. apply wlp_bind. by apply (Hk (conductor s)). Qed.

Lemma typed_self {A} (f : RtcConductor → A) : typed (self (W := W) f).
Proof. intros s Hw. split; [done|]. exists []. by rewrite app_nil_r. Qed.

Lemma typed_upd f : keeps_callbacks f → typed (upd f).
Proof. intros Hf s Hw. split; [by apply Hf|]. exists []. by rewrite app_nil_r. Qed.

Lemma typed_alloc : typed alloc.
Proof. intros s Hw. split; [done|]. exists []. by rewrite app_nil_r. Qed.

Lemma typed_emit c : well_typed c = true → typed (emit c).
Proof. intros Hc s Hw. split; [done|]. exists [c]. simpl. by rewrite Hc. Qed.

Lemma typed_call c : well_typed c = true → typed (call c).
Proof. intros Hc s Hw. split; [done|]. exists [c]. simpl. by rewrite Hc. Qed.

Lemma typed_call_r {A} c (f : W → A * W) : well_typed c = true → typed (call_r c f).
Proof.
  intros Hc s Hw. unfold call_r, wlp, mbind, M_bind, get.
  destruct (f (world s)) as [a w]. split; [done|]. exists [c]. simpl. by rewrite Hc.
Qed.

Lemma typed_read {A} (f : W → A) : typed (read f).
Proof. intros s Hw. split; [done|]. exists []. by rewrite app_nil_r. Qed.

Lemma typed_fail {A} e : typed (A := A) (fail e).
Proof. done. Qed.

Lemma typed_deref {A} what (p : option A) : typed (deref what p).
Proof. destruct p; [apply typed_ret|apply typed_fail]. Qed.

Lemma typed_check b what : typed (check b what).
Proof. destruct b; [apply typed_ret|apply typed_fail]. Qed.

Lemma typed_dcheck b what : typed (dcheck b what).
Proof. unfold dcheck. destruct RTC_DCHECK_IS_ON; [apply typed_check|apply typed_ret]. Qed.

Lemma typed_invoke p e : well_typed (CNative p e) = true → typed (invoke (Some p) e).
Proof. apply typed_emit. Qed.

Lemma typed_for_each {A} (f : A → M (Sys W) unit) l : (∀ a, typed (f a)) → typed (for_each f l).
Proof.
  intros Hf. induction l as [|a l IH]; simpl; [apply typed_ret|]. by apply typed_bind.
Qed.

Lemma typed_on_local {L A} (l : L) (m : M L A) : typed (on_local l m).
Proof.
  intros s Hw. unfold wlp, on_local. destruct (m l) as [[a l']|]; [|done].
  split; [done|]. exists []. by rewrite app_nil_r.
Qed.

End Typing.

(** Keeping the members is seen by evaluation. *)
Ltac callbacks_kept := intros ? []; split; done.

(** One step of typing native code. *)
Ltac typed_step :=
  lazymatch goal with
  | |- typed (mbind _ (self _)) =>
    apply typed_self_bind; let c := fresh "c" in let Hc := fresh "Hw" in intros c Hc;
    try (rewrite (wired_success _ Hc)); try (rewrite (wired_failure _ Hc));
    try (rewrite (wired_message _ Hc)); try (rewrite (wired_candidate _ Hc));
    try (rewrite (wired_channel _ Hc)); try (rewrite (wired_ice _ Hc));
    try (rewrite (wired_gathering _ Hc)); try (rewrite (wired_buffer _ Hc))
  | |- typed (mbind _ _) => apply typed_bind; [|let a := fresh "a" in intros a]
  | |- typed (mret _) => apply typed_ret
  | |- typed (self _) => apply typed_self
  | |- typed (upd _) => apply typed_upd; callbacks_kept
  | |- typed alloc => apply typed_alloc
  | |- typed (emit _) => apply typed_emit; reflexivity
  | |- typed (call _) => apply typed_call; reflexivity
  | |- typed (call_r _ _) => apply typed_call_r; reflexivity
  | |- typed (read _) => apply typed_read
  | |- typed (fail _) => apply typed_fail
  | |- typed (deref _ _) => apply typed_deref
  | |- typed (check _ _) => apply typed_check
  | |- typed (dcheck _ _) => apply typed_dcheck
  | |- typed (invoke _ _) => apply typed_invoke; reflexivity
  | |- typed (for_each _ _) => apply typed_for_each; let a := fresh "a" in intros a
  | |- typed (on_local _ _) => apply typed_on_local
  | |- typed (match ?x with _ => _ end) => destruct x
  | |- typed (if ?x then _ else _) => destruct x
  end.
Ltac type_it := repeat (typed_step; cbn beta).

Section Operations.
Context {W : Type} `{!WebRtc W} `{!BuildConfig}.

Lemma typed_DeletePeerConnection : typed (W := W) DeletePeerConnection.
Proof.
  unfold DeletePeerConnection, close_and_reset_peer_observer, release_factory,
    data_observers_clear, data_observers_elements, unregister_element, UnregisterObserver,
    DataChannelObserver_delete, QuitThread. type_it.
Qed.

Lemma typed_RtcConductor_delete : typed (W := W) RtcConductor_delete.
Proof. unfold RtcConductor_delete. type_it. apply typed_DeletePeerConnection. Qed.

Lemma typed_new_allocator config : typed (W := W) (new_allocator config).
Proof.
  intros s Hw. unfold new_allocator, wlp, mbind, M_bind, get, put, mret, M_ret.
  destruct (BasicPortAllocator_new _ _ _ _ _). split; [done|]. exists []. by rewrite app_nil_r.
Qed.

Lemma typed_start_thread get set ss name failure :
  (∀ t, keeps_callbacks (set t)) → typed (W := W) (start_thread get set ss name failure).
Proof. intros Hs. unfold start_thread. type_it. apply typed_upd, Hs. Qed.

Lemma typed_InitializePeerConnection mn mx : typed (W := W) (InitializePeerConnection mn mx).
Proof.
  unfold InitializePeerConnection, initialize_with_factory, CreatePeerConnection, peer_connection.
  type_it; try apply typed_DeletePeerConnection; try apply typed_new_allocator;
    apply typed_start_thread; intros t; callbacks_kept.
Qed.

(** Everything but the assignment of callbacks. *)
Lemma typed_run o :
  match o with OInstall _ _ => False | _ => True end → typed (W := W) (run o).
Proof.
  intros Ho. destruct o as [| | | | | | | | | | | | | |e|l e|d|m| |]; try done; simpl;
    unfold AddServerConfig, CreateOffer, OnOfferReply, OnOfferRequest, AddIceCandidate,
      ProcessMessages, CreateDataChannel, CloseDataChannel, GetDataChannelInfo,
      GetDataChannelState, SendToDataChannel, DataChannelObserver_new,
      RegisterObserver, UnregisterObserver, DataChannelObserver_delete,
      CreateSessionDescriptionObserver_OnSuccess, CreateSessionDescriptionObserver_OnFailure,
      SetSessionDescriptionObserver_OnSuccess, SetSessionDescriptionObserver_OnFailure,
      read_desc, peer_connection;
    type_it; try apply typed_DeletePeerConnection; try apply typed_InitializePeerConnection.
  - destruct e; simpl; unfold PeerConnectionObserver_OnDataChannel, HandleDataChannel,
      DataChannelObserver_new, RegisterObserver, PeerConnectionObserver_OnIceConnectionChange,
      PeerConnectionObserver_OnIceGatheringChange, PeerConnectionObserver_OnIceCandidate,
      HandleIceCandidate; type_it.
  - destruct e; simpl; unfold DataChannelObserver_OnStateChange, DataChannelObserver_OnMessage,
      DataChannelObserver_OnBufferedAmountChange; type_it.
Qed.

End Operations.
