(* ===== verification/SpitfireSystem.v ===== *)
(** [SpitfireRtc] as a state machine: its operations and the library's callbacks
    as events, the invariant of reachable states, and how the managed object
    refines the conductor's state machine. *)
From S2P Require Import Prelude ApiTypes PortAllocator WebRtcApi ConductorState Conductor Observers.
From S2P Require Import ConductorLemmas System SystemLemmas SystemTheorems Managed SpitfireRtc.
From S2P Require Import CallbackTyping.
From Stdlib Require Import ZArith Lia.
From stdpp Require Import base tactics relations numbers strings gmap list.
From coqutil Require Import Datatypes.RecordSetters.
Import TriangleBracketNotations.

Open Scope Z_scope.

Inductive mop :=
  | MInitializePeerConnection
  | MCreateOffer
  | MProcessMessages (delay : Z)
  | MSetOfferReply (type sdp : option mstring)
  | MSetOfferRequest (sdp : option mstring)
  | MAddIceCandidate (sdp_mid : option mstring) (sdp_mlineindex : Z) (sdp : option mstring)
  | MAddServerConfig (config : option ServerConfig)
  | MCreateDataChannel (options : option DataChannelOptions)
  | MDataChannelSendText (label text : option mstring)
  | MDataChannelSendData (label : option mstring) (array_data : option (list Z)) (length : Z)
  | MGetDataChannelInfo (label : option mstring)
  | MGetDataChannelState (label : option mstring)
  | MCloseDataChannel (label : option mstring)
  | MEnableLogging (verbosity : RtcLogVerbosity.t) (dir : option mstring) (size splits : Z)
  | MDispose
  | MFinalize
  | MLibrary (o : op).

(** The events the library causes. *)
Definition library_op (o : op) : bool :=
  match o with
  | EPeer _ | EChannel _ _ | ESdpSuccess _ | ESdpFailure _ | ESetSdpSuccess
  | ESetSdpFailure _ => true
  | _ => false
  end.

(** The managed object before its constructor ran. *)
Definition blank_rtc : SpitfireRtc :=
  mkSpitfireRtc None false 0 0 None None None None None None None None.

(** The handles [Initialize] allocates, in its order. *)
Definition all_handles : gmap nat handler :=
  list_to_map [(0, H_OnSuccess); (1, H_OnFailure); (2, H_OnMessage); (3, H_OnIceCandidate);
    (4, H_OnDataChannelState); (5, H_OnIceState); (6, H_OnIceGatheringState);
    (7, H_OnBufferAmountChange)]%nat.

Section System.
Context {W : Type} `{!WebRtc W} `{!UnorderedMapLaws W} `{!BuildConfig}
        `{!Interop}.
Implicit Types s : MSys W.

Definition drop_result {A} (m : M (MSys W) A) : M (MSys W) unit := _ ← m; mret tt.

Definition mrun (o : mop) : M (MSys W) unit :=
  match o with
  | MInitializePeerConnection => drop_result SInitializePeerConnection
  | MCreateOffer => SCreateOffer
  | MProcessMessages d => drop_result (SProcessMessages d)
  | MSetOfferReply t d => SetOfferReply t d
  | MSetOfferRequest d => SetOfferRequest d
  | MAddIceCandidate m i d => drop_result (SAddIceCandidate m i d)
  | MAddServerConfig c => SAddServerConfig c
  | MCreateDataChannel o => SCreateDataChannel o
  | MDataChannelSendText l t => DataChannelSendText l t
  | MDataChannelSendData l d n => DataChannelSendData l d n
  | MGetDataChannelInfo l => drop_result (SGetDataChannelInfo l)
  | MGetDataChannelState l => drop_result (SGetDataChannelState l)
  | MCloseDataChannel l => SCloseDataChannel l
  | MEnableLogging v d n k => EnableLogging v d n k
  | MDispose => SpitfireRtc_dispose
  | MFinalize => SpitfireRtc_finalize
  | MLibrary o => run_native (run o)
  end.

(** The collector runs the finalizer of an object no root leads to; the
    delegates behind the handles lead to the object.  The library calls back
    only into a conductor that exists. *)
Definition menabled (o : mop) s : Prop :=
  match o with
  | MFinalize => gc_handles s = ∅
  | MLibrary o => library_op o = true ∧ enabled o (native s) ∧ is_Some (conductor_ (rtc_ s))
  | _ => True
  end.

Inductive mstep : MSys W → MSys W → Prop :=
  | mstep_op o s s' : menabled o s → mrun o s = Ok (tt, s') → mstep s s'
  | mstep_world s w' :
      mstep s (mkMSys (rtc_ s) (mkSys (conductor (native s)) w' (trace (native s))
                 (next_addr (native s))) (gc_handles s) (next_handle s) (raised s) (logging s)).

Definition blank_managed (w : W) (na : nat) : MSys W :=
  mkMSys blank_rtc (mkSys blank_conductor w [] na) ∅ 0 [] (mkLogging None []).

Definition minitial s : Prop :=
  ∃ w na mn mx, in_u 16 mn ∧ in_u 16 mx ∧
    SpitfireRtc_new_ports mn mx (blank_managed w na) = Ok (tt, s).

Definition mreachable s : Prop := ∃ s0, minitial s0 ∧ rtc mstep s0 s.

(** * The invariant *)

(** A live object: the conductor is there and each of its handles is in the
    collector's table. *)
Definition alive s : Prop :=
  ∃ mn mx, rtc_ s = mkSpitfireRtc (Some 0%nat) false mn mx (Some 0%nat) (Some 1%nat)
    (Some 2%nat) (Some 3%nat) (Some 4%nat) (Some 7%nat) (Some 5%nat) (Some 6%nat) ∧ in_u 16 mn ∧ in_u 16 mx ∧
  gc_handles s = all_handles.

(** A disposed one: no conductor and no handle is left. *)
Definition gone s : Prop :=
  ∃ mn mx, rtc_ s = mkSpitfireRtc None true mn mx None None None None None None None None ∧
  gc_handles s = ∅ ∧ phase_of (conductor (native s)) = Deleted.

Record minv s : Prop := {
  mi_native : reachable (native s);
  mi_wired : wired (conductor (native s));
  mi_typed : forallb well_typed (trace (native s)) = true;
  mi_raised : raised s = trace (native s) ≫= event_of;
  mi_life : alive s ∨ gone s
}.

(** ** Rules *)

(** The effect of native code on the managed state. *)
Definition after_native s (n : Sys W) (d : list Call) : MSys W :=
  mkMSys (rtc_ s) n (gc_handles s) (next_handle s) (raised s ++ (d ≫= event_of)) (logging s).

Lemma wp_dispatch c Q s :
  well_typed c = true → Q tt (after_native s (native s) [c]) → wp (dispatch c) Q s.
Proof.
  destruct s as [r n g k e lg]. unfold after_native. simpl. rewrite app_nil_r.
  destruct c; simpl; try (intros _; by rewrite app_nil_r).
  destruct (pointed_handler callback) as [[]|], e0; try done; intros _.
  simpl. unfold _OnSuccess.
  do 2 (case_bool_decide; [done|]). by rewrite app_nil_r.
Qed.

Lemma wp_dispatch_all d Q s :
  forallb well_typed d = true → Q tt (after_native s (native s) d) → wp (for_each dispatch d) Q s.
Proof.
  revert s. induction d as [|c d IH]; intros s; simpl.
  - intros _. destruct s; unfold after_native; simpl. by rewrite app_nil_r.
  - intros [Hc Hd]%andb_true_iff HQ. wp_run. apply wp_dispatch; [done|]. apply IH; [done|].
    unfold after_native in *. simpl in *. by rewrite app_nil_r, <-app_assoc.
Qed.

(** Native code that keeps to the wiring, when it returns. *)
Lemma run_native_ok {A} (m : M (Sys W) A) s a s' :
  typed m → wired (conductor (native s)) → run_native m s = Ok (a, s') →
  ∃ n d, m (native s) = Ok (a, n) ∧ trace n = trace (native s) ++ d ∧
    forallb well_typed d = true ∧ wired (conductor n) ∧ s' = after_native s n d.
Proof.
  intros Ht Hw. unfold run_native, mbind, M_bind, get, on_local, set_native, modify.
  specialize (Ht _ Hw). unfold wlp in Ht. destruct (m (native s)) as [[a' n]|]; [|done].
  destruct Ht as [Hw' (d&Htr&Hd)]. simpl. rewrite Htr, drop_app_length.
  match goal with |- context [for_each dispatch d ?x] =>
    destruct (wp_ok_inv (for_each dispatch d) (λ _ s', s' = after_native x n d) x)
      as ([]&s1&->&->) end.
  { by apply wp_dispatch_all. }
  unfold after_native; simpl. intros [= <- <-]. by exists n, d.
Qed.

Lemma wp_run_native {A} (m : M (Sys W) A) Q s :
  typed m → wired (conductor (native s)) →
  wp m (λ a n, ∀ d, trace n = trace (native s) ++ d → forallb well_typed d = true →
          wired (conductor n) → Q a (after_native s n d)) (native s) →
  wp (run_native m) Q s.
Proof.
  intros Ht Hw Hm. unfold run_native. wp_run. apply wp_on_local.
  specialize (Ht _ Hw). unfold wp, wlp in Hm, Ht |- *.
  destruct (m (native s)) as [[a n]|]; [|done]. destruct Ht as [Hw' (d&Htr&Hd)].
  specialize (Hm d Htr Hd Hw').
  change (wp (_ ← set_native n;
              _ ← for_each dispatch (drop (length (trace (native s))) (trace n)); mret a) Q s).
  unfold set_native. wp_run. rewrite Htr, drop_app_length. by apply wp_dispatch_all.
Qed.

(** ** Construction *)

(** The native half of a new object, after its [n]-th callback was bound. *)
Lemma reachable_step (n : Sys W) o n' :
  reachable n → enabled o n → run o n = Ok (tt, n') → reachable n'.
Proof.
  intros (n0&Hinit&Hn) Hen Hrun. exists n0. split; [done|].
  eapply rtc_r; [exact Hn|]. by eapply step_op.
Qed.

(** The conductor's members after one more assignment. *)
Definition installed (slot : callback_slot) (h : handler) (n : Sys W) : Sys W :=
  match install slot (Some (function_pointer h)) n with Ok (_, n') => n' | Fault _ => n end.

Lemma reachable_installed slot h n : reachable n → reachable (installed slot h n).
Proof. intros Hn. by eapply (reachable_step n (OInstall slot (Some (function_pointer h)))). Qed.

Definition new_conductor (w : W) (na : nat) : Sys W :=
  match RtcConductor_new (mkSys blank_conductor w [] na) with
  | Ok (_, n) => n
  | Fault _ => mkSys blank_conductor w [] na
  end.

Lemma reachable_new w na : reachable (new_conductor w na).
Proof. exists (new_conductor w na). split; [by exists w, na|apply rtc_refl]. Qed.

(** The eight assignments of [Initialize], in its order. *)
Definition wired_conductor (w : W) (na : nat) : Sys W :=
  installed SOnBufferAmountChange H_OnBufferAmountChange $
  installed SOnIceGatheringStateChange H_OnIceGatheringState $
  installed SOnIceStateChange H_OnIceState $
  installed SOnDataChannelStateChange H_OnDataChannelState $
  installed SOnIceCandidate H_OnIceCandidate $ installed SOnMessage H_OnMessage $
  installed SOnFailure H_OnFailure $ installed SOnSuccess H_OnSuccess $ new_conductor w na.

Lemma minitial_inv s : minitial s → minv s.
Proof.
  intros (w&na&mn&mx&Hmn&Hmx&Hnew).
  assert (s = mkMSys (mkSpitfireRtc (Some 0%nat) false mn mx (Some 0%nat) (Some 1%nat)
      (Some 2%nat) (Some 3%nat) (Some 4%nat) (Some 7%nat) (Some 5%nat) (Some 6%nat))
    (wired_conductor w na) all_handles 8 [] (mkLogging None [])) as ->.
  { unfold SpitfireRtc_new_ports, Initialize, dcheck in Hnew.
    unfold mbind, M_bind, this, get, mret, M_ret in Hnew. simpl in Hnew.
    destruct RTC_DCHECK_IS_ON; vm_compute in Hnew; injection Hnew as <-; by vm_compute. }
  split; simpl; [|by split|done|done|].
  - unfold wired_conductor. do 8 apply reachable_installed. apply reachable_new.
  - left. by exists mn, mx.
Qed.

(** ** Steps *)

(** Code that only looks: it leaves the state alone when it returns. *)
Definition looks {A} (m : M (MSys W) A) : Prop := ∀ s, wlp m (λ _ s', s' = s) s.

Lemma wlp_looks_bind {A B} (m : M (MSys W) A) (f : A → M (MSys W) B) Q s :
  looks m → (∀ a, wlp (f a) Q s) → wlp (m ≫= f) Q s.
Proof.
  intros Hm Hf. apply wlp_bind. specialize (Hm s). unfold wlp in *.
  destruct (m s) as [[a s']|]; [|done]. subst. apply Hf.
Qed.

Lemma looks_dcheck b what : looks (dcheck b what).
Proof. intros s. unfold dcheck, check. by destruct RTC_DCHECK_IS_ON, b. Qed.
Lemma looks_check b what : looks (check b what).
Proof. intros s. by destruct b. Qed.
Lemma looks_this {A} (f : SpitfireRtc → A) : looks (this f).
Proof. done. Qed.
Lemma looks_marshal_as u : looks (marshal_as u).
Proof. intros s. by destruct u. Qed.
Lemma looks_deref {A} what (p : option A) : looks (deref what p).
Proof. intros s. by destruct p. Qed.
Lemma looks_sprintf_s n t : looks (sprintf_s n t).
Proof. intros s. unfold sprintf_s. by destruct (String.length t <? n)%nat. Qed.
Lemma looks_check_conductor : looks check_conductor.
Proof. intros s. unfold check_conductor. apply wlp_looks_bind; [done|]. intros; apply looks_dcheck. Qed.

(** The managed object after its conductor made a step. *)
Lemma minv_native o n d s :
  minv s → enabled o (native s) → run o (native s) = Ok (tt, n) →
  trace n = trace (native s) ++ d → forallb well_typed d = true → wired (conductor n) →
  alive s → minv (after_native s n d).
Proof.
  intros [Hr Hw Ht He Hl] Hen Hrun Htr Hd Hwn Ha. split; simpl.
  - by eapply reachable_step.
  - done.
  - rewrite Htr, forallb_app. by rewrite Ht, Hd.
  - by rewrite Htr, bind_app, He.
  - by left.
Qed.

Lemma alive_conductor s : minv s → is_Some (conductor_ (rtc_ s)) → alive s.
Proof. intros Hi [c Hc]. destruct (mi_life _ Hi) as [|(mn&mx&Hs&_)]; [done|]. by rewrite Hs in Hc. Qed.

(** [m] does what the event [o] does. *)
Definition implements {A} (o : op) (m : M (Sys W) A) : Prop :=
  ∀ n b n', m n = Ok (b, n') → run o n = Ok (tt, n').

Lemma wlp_run_native {A} (m : M (Sys W) A) o s :
  minv s → alive s → typed m → enabled o (native s) → implements o m →
  wlp (run_native m) (λ _ s', minv s') s.
Proof.
  intros Hi Ha Ht Hen Him. unfold wlp. destruct (run_native m s) as [[a s']|] eqn:Hr; [|done].
  apply run_native_ok in Hr as (n&d&Hm&Htr&Hd&Hw&->); [|done|apply Hi].
  eapply minv_native; eauto.
Qed.

Lemma wlp_conductor_call {A} (m : M (Sys W) A) o s :
  minv s → typed m → enabled o (native s) → implements o m →
  wlp (conductor_call m) (λ _ s', minv s') s.
Proof.
  intros Hi Ht Hen Him. unfold conductor_call. apply wlp_bind. simpl.
  change (wlp (_ ← deref "conductor_" (conductor_ (rtc_ s)); run_native m) (λ _ s', minv s') s).
  destruct (conductor_ (rtc_ s)) as [c|] eqn:Hc; [|done].
  apply wlp_bind. simpl. apply (wlp_run_native m o); try done.
  apply alive_conductor; [done|]. by rewrite Hc.
Qed.

Lemma wlp_drop_result {A} (m : M (MSys W) A) (P : MSys W → Prop) s :
  wlp m (λ _ s', P s') s → wlp (drop_result m) (λ _ s', P s') s.
Proof. intros Hm. unfold drop_result. by apply wlp_bind. Qed.

Lemma wlp_result {A B} (m : M (MSys W) A) (f : A → B) (P : MSys W → Prop) s :
  wlp m (λ _ s', P s') s → wlp (a ← m; mret (f a)) (λ _ s', P s') s.
Proof. intros Hm. by apply wlp_bind. Qed.

Lemma implements_run o : implements o (run o).
Proof. intros n [] n'. done. Qed.

Lemma implements_result {A} o (m : M (Sys W) A) :
  run o = (_ ← m; mret tt) → implements o m.
Proof. intros Hr n b n' Hm. rewrite Hr. unfold mbind, M_bind. by rewrite Hm. Qed.

(** Code whose result is dropped is typed like the event. *)
Lemma typed_result {A} (m : M (Sys W) A) : typed (_ ← m; mret tt) → typed m.
Proof.
  intros Ht n Hw. specialize (Ht n Hw). unfold wlp, mbind, M_bind in *.
  by destruct (m n) as [[a n']|].
Qed.

End System.

(** Looking steps, up to the call of the conductor. *)
Ltac look :=
  repeat (lazymatch goal with
          | |- wlp (mbind _ (conductor_call _)) _ _ => fail
          | |- wlp (mbind _ _) _ _ => apply wlp_looks_bind
          end;
    [first [apply looks_dcheck | apply looks_check | apply looks_this | apply looks_marshal_as
           | apply looks_deref | apply looks_sprintf_s | apply looks_check_conductor]
    |let a := fresh "a" in intros a]).

(** A call of the conductor that is the event [o], without and with a result. *)
Ltac forward o :=
  apply (wlp_conductor_call _ o); [done|by apply (typed_run o)|done|apply (implements_run o)].
Ltac forward_result o :=
  apply (wlp_conductor_call _ o);
    [done|by apply typed_result, (typed_run o)|done|by apply (implements_result o)].

Section Steps.
Context {W : Type} `{!WebRtc W} `{!UnorderedMapLaws W} `{!BuildConfig}
        `{!Interop}.
Implicit Types s : MSys W.

(** The operations that go through to the conductor. *)
Lemma mrun_forwards o s :
  match o with MEnableLogging _ _ _ _ | MDispose | MFinalize | MLibrary _ => False | _ => True end →
  minv s → wlp (mrun o) (λ _ s', minv s') s.
Proof.
  intros Ho Hi. destruct o; try done; simpl; try apply wlp_drop_result;
    unfold SInitializePeerConnection, SCreateOffer, SProcessMessages, SetOfferReply,
      SetOfferRequest, SAddIceCandidate, SAddServerConfig, SCreateDataChannel,
      DataChannelSendText, DataChannelSendData, SGetDataChannelInfo, SGetDataChannelState,
      SCloseDataChannel; look.
  - forward_result (OInitializePeerConnection a0 a1).
  - forward OCreateOffer.
  - forward_result (OProcessMessages delay).
  - forward (OOnOfferReply a1 a2).
  - forward (OOnOfferRequest a1).
  - forward_result (OAddIceCandidate a1 sdp_mlineindex a2).
  - destruct config as [config|]; [|done]. destruct (IsNullOrEmpty (Host config)); [done|]. look.
    forward (OAddServerConfig a0 (From_default (Username config) "")
               (From_default (Password config) "")).
  - forward (OCreateDataChannel a2 (channel_init a1)).
  - forward (OSendToDataChannel a2 (DataBuffer_of_text a3)).
  - forward (OSendToDataChannel a1 (mkDataBuffer (take (Z.to_nat length) a2) true)).
  - apply wlp_result. forward_result (OGetDataChannelInfo a1).
  - apply wlp_result. forward_result (OGetDataChannelState a1).
  - forward (OCloseDataChannel a1).
Qed.

(** ** Disposal *)

Lemma wp_FreeGCHandle h clear k hd Q s :
  h (rtc_ s) = Some k → gc_handles s !! k = Some hd →
  Q tt (mkMSys (clear (rtc_ s)) (native s) (delete k (gc_handles s)) (next_handle s)
               (raised s) (logging s)) →
  wp (FreeGCHandle h clear) Q s.
Proof.
  intros Hh Hk HQ. unfold FreeGCHandle, this. wp_run. rewrite Hh. wp_run. rewrite Hk.
  unfold set_this. by wp_run.
Qed.

(** The destructor of the conductor is [DeletePeerConnection]. *)
Lemma wp_RtcConductor_delete (n : Sys W) :
  inv n → wp RtcConductor_delete (λ _ n', run ODeletePeerConnection n = Ok (tt, n') ∧
    phase_of (conductor n') = Deleted ∧ registry (conductor n') = ∅) n.
Proof.
  intros Hi. unfold RtcConductor_delete. wp_run.
  destruct (wp_ok_inv DeletePeerConnection (λ _ n',
    ∃ l l' b w', n' = mkSys (deleted_conductor (conductor n)) w'
      (trace n ++ delete_calls (conductor n) l l' b) (next_addr n)) n)
    as ([]&n'&Hr&l&l'&b&w'&Hn').
  { apply wp_DeletePeerConnection; [apply Hi|]. intros. by repeat eexists. }
  apply (wp_ok _ _ _ _ _ Hr). subst. sys_run. split_and!; [exact Hr| |]; simpl.
  - apply phase_deleted_conductor.
  - by destruct (conductor n).
Qed.

(** Evaluates the members of the object. *)
Ltac reduce_state :=
  lazymatch goal with |- wp _ _ (mkMSys ?r _ _ _ _ _) =>
    let r' := eval vm_compute in r in change r with r' end;
  cbn [native gc_handles next_handle raised logging].

(** What disposing leaves. *)
Definition disposed_from s (s' : MSys W) : Prop :=
  gone s' ∧ registry (conductor (native s')) = ∅ ∧ logging s' = logging s ∧
  run ODeletePeerConnection (native s) = Ok (tt, native s').

Lemma wp_dispose_alive s :
  minv s → alive s →
  wp SpitfireRtc_dispose (λ _ s', minv s' ∧ disposed_from s s') s.
Proof.
  intros Hi (mn&mx&Hs&Hmn&Hmx&Hg). destruct s as [r n g k e lg]; simpl in *; subst.
  destruct Hi as [Hr Hw Ht He _]. simpl in Hr, Hw, Ht, He.
  unfold SpitfireRtc_dispose, this. wp_run. cbn [disposed_ rtc_].
  do 8 (wp_run; eapply wp_FreeGCHandle; [reflexivity|vm_compute; reflexivity|]; reduce_state).
  wp_run. unfold SpitfireRtc_finalize, this, set_this. wp_run. cbn.
  wp_run. apply wp_run_native; [apply typed_RtcConductor_delete|done|]. cbn [native].
  eapply wp_mono; [apply wp_RtcConductor_delete, reachable_inv; done|].
  intros [] n' (Hrun&Hph&Hreg) d Htr Hd Hwn. wp_run. unfold after_native. cbn.
  assert (reachable n') as Hr'
    by (by apply (reachable_step n ODeletePeerConnection)).
  split; [split; cbn; try done|].
  - rewrite Htr, forallb_app. by rewrite Hd, Ht.
  - by rewrite Htr, bind_app, <-He.
  - right. by exists mn, mx.
  - split_and!; cbn; try done. by exists mn, mx.
Qed.

Lemma mrun_inv o s :
  minv s → menabled o s → wlp (mrun o) (λ _ s', minv s') s.
Proof.
  intros Hi Hen. destruct o as [| | | | | | | | | | | | | | | |o];
    try (by apply mrun_forwards).
  - simpl. unfold EnableLogging. look. case_bool_decide; [done|].
    destruct Hi as [? ? ? ? [(mn&mx&?)|(mn&mx&?)]]; split; try done;
      [left|right]; by exists mn, mx.
  - destruct (mi_life _ Hi) as [Ha|(mn&mx&Hs&Hg)].
    + apply wp_wlp. eapply wp_mono; [by apply wp_dispose_alive|]. by intros ? ? [].
    + destruct s; simpl in *; by subst.
  - destruct (mi_life _ Hi) as [(mn&mx&_&_&_&Hg)|(mn&mx&Hs&Hg)].
    + simpl in Hen. rewrite Hen in Hg. apply (f_equal (lookup 0%nat)) in Hg.
      vm_compute in Hg. discriminate.
    + destruct s; simpl in *; by subst.
  - destruct Hen as (Hlib&Hen&Hc). simpl. apply (wlp_run_native _ o); try done.
    + by apply alive_conductor.
    + apply typed_run. by destruct o.
    + apply implements_run.
Qed.

Lemma mreachable_inv s : mreachable s → minv s.
Proof.
  intros (s0&Hinit&Hs). apply minitial_inv in Hinit.
  induction Hs as [|s1 s2 s3 Hstep _ IH]; [done|]. apply IH.
  destruct Hstep as [o s1 s2 Hen Hrun|s1 w'].
  - exact (wlp_ok _ _ _ _ _ (mrun_inv o s1 Hinit Hen) Hrun).
  - destruct Hinit as [Hr ? ? ? Hl]. split; try done. destruct Hr as (n0&Hn0&Hn).
    exists n0. split; [done|]. eapply rtc_r; [exact Hn|]. apply step_world.
Qed.

End Steps.
