(* ===== verification/SpitfireTheorems.v ===== *)
(** Properties of the managed class [SpitfireRtc]: how it refines the conductor,
    what reaches its subscribers, disposal, and its own argument handling. *)
From S2P Require Import Prelude ApiTypes PortAllocator WebRtcApi ConductorState Conductor Observers.
From S2P Require Import ConductorLemmas System SystemLemmas SampleLibrary SystemTheorems.
From S2P Require Import ConductorTheorems Managed SpitfireRtc CallbackTyping SpitfireSystem.
From Stdlib Require Import ZArith Lia.
From stdpp Require Import base tactics relations numbers strings gmap list.
From coqutil Require Import Datatypes.RecordSetters.
Import TriangleBracketNotations.

Open Scope Z_scope.

(** * The managed object as a whole *)

(** What the program is to hear of an event of the library: the one managed event it
    stands for, with states converted to the managed state of the same number,
    descriptions under offer or answer by their type, and native strings converted.  The
    function pointers do not enter. *)
Definition announced {W : Type} `{!WebRtc W, !Interop} (o : op) (n : Sys W) : list ManagedEvent :=
  let w := world n in
  match o with
  | EPeer (OnIceConnectionChange st) => [OnIceStateChange (cast_IceConnectionState st)]
  | EPeer (OnIceGatheringChange st) => [OnIceGatheringStateChange (cast_IceGatheringState st)]
  | EPeer (OnIceCandidate (Some k)) =>
    match ic_ToString w k with
    | Some sdp => [OnIceCandidateEvent (unmarshal (c_str (ic_sdp_mid w k)))
                     (wrap_s 32 (ic_sdp_mline_index w k)) (unmarshal (c_str sdp))]
    | None => []
    end
  | EChannel l e =>
    match registry (conductor n) !! l with
    | None => []
    | Some c =>
      let label := unmarshal (c_str (dc_label w c)) in
      match e with
      | OnStateChange => [OnDataChannelStateChange label (cast_DataState (dc_state w c))]
      | OnMessage b => [OnMessageEvent label (db_data b) (wrap_u 32 (DataBuffer_size b)) (db_binary b)]
      | OnBufferedAmountChange k =>
        [OnBufferAmountChange label k (dc_buffered_amount w c) (dc_bytes_sent w c)
           (dc_bytes_received w c)]
      end
    end
  | ESdpSuccess (Some d) =>
    match peer_observer_ (conductor n) ≫= peer_connection_ with
    | None => []
    | Some p =>
      let w := api_void (CSetLocalDescription p (set_session_observer_ (conductor n)) d) w in
      let type := unmarshal (c_str (sd_type w d)) in
      let sdp := unmarshal (c_str (default "" (sd_ToString w d))) in
      if bool_decide (type = units "offer") then [OnSuccessOffer sdp SdpOffer]
      else if bool_decide (type = units "answer") then [OnSuccessAnswer sdp SdpAnswer] else []
    end
  | ESdpFailure m => [OnFailureEvent (unmarshal (c_str m))]
  | _ => []
  end.

Section Announcements.
Context {W : Type} `{!WebRtc W} `{!UnorderedMapLaws W} `{!BuildConfig} `{!Interop}.
Implicit Types n : Sys W.

(** The calls [d] a run added stand for the events [es]. *)
Definition tells n (es : list ManagedEvent) (n' : Sys W) : Prop :=
  ∃ d, trace n' = trace n ++ d ∧ d ≫= event_of = es.

Lemma tells_nothing n : tells n [] n.
Proof. exists []. by rewrite app_nil_r. Qed.

Lemma tells_call n c es w na :
  event_of c = es → tells n es (mkSys (conductor n) w (trace n ++ [c]) na).
Proof. intros <-. exists [c]. split; [done|]. simpl. by rewrite app_nil_r. Qed.

Lemma channel_event_tells l e n :
  inv n → wired (conductor n) → is_Some (data_observers_ (conductor n) !! l) →
  wp (run (EChannel l e)) (λ _ n', tells n (announced (EChannel l e) n) n') n.
Proof.
  intros Hi Hw [o Ho]. unfold announced, run. sys_run. rewrite Ho.
  destruct (observer_cases l n Hi) as [[Hn _]|(o'&c&Ho'&Hc&->)]; [congruence|].
  rewrite Ho in Ho'. injection Ho' as <-.
  destruct e; simpl; unfold DataChannelObserver_OnStateChange, DataChannelObserver_OnMessage,
    DataChannelObserver_OnBufferedAmountChange; rewrite Hc; sys_run;
    rewrite ?(wired_channel _ Hw), ?(wired_message _ Hw), ?(wired_buffer _ Hw); sys_run;
    by apply tells_call.
Qed.

Lemma peer_event_tells e n :
  inv n → wired (conductor n) → enabled (EPeer e) n →
  wp (run (EPeer e)) (λ _ n', tells n (announced (EPeer e) n) n') n.
Proof.
  intros Hi Hw [Hph He]. destruct e; try (sys_run; apply tells_nothing); simpl.
  - destruct He as [c ->]. unfold PeerConnectionObserver_OnDataChannel. sys_run.
    apply wp_HandleDataChannel; intros _; [apply tells_nothing|]. by eexists.
  - unfold PeerConnectionObserver_OnIceConnectionChange. sys_run. rewrite (wired_ice _ Hw).
    by apply tells_call.
  - unfold PeerConnectionObserver_OnIceGatheringChange. sys_run. rewrite (wired_gathering _ Hw).
    by apply tells_call.
  - destruct He as [k ->]. unfold PeerConnectionObserver_OnIceCandidate, HandleIceCandidate. sys_run.
    rewrite (wired_candidate _ Hw). sys_run. destruct (ic_ToString (world n) k); sys_run;
      [by apply tells_call|apply tells_nothing].
Qed.

Lemma description_tells d n :
  wired (conductor n) → description_stop (Some d) n = None →
  wp (run (ESdpSuccess (Some d))) (λ _ n', tells n (announced (ESdpSuccess (Some d)) n) n') n.
Proof.
  intros Hw Hs. unfold announced, run, CreateSessionDescriptionObserver_OnSuccess.
  unfold description_stop in Hs. sys_run.
  destruct (peer_observer_ (conductor n)) as [po|] eqn:Hpo; [|done].
  eapply wp_peer_connection; [exact Hpo|]. simpl.
  destruct (peer_connection_ po) as [p|]; [|sys_run; apply tells_nothing].
  destruct (sd_alive _ d) eqn:Ha; [|done]. sys_run. apply wp_read_desc; [done|]. sys_run.
  rewrite (wired_success _ Hw). apply wp_bind, wp_read_desc; [done|]. sys_run.
  eexists [_; _]. rewrite <-app_assoc. split; [done|]. simpl. by rewrite app_nil_r.
Qed.

Lemma library_event_tells o n :
  library_op o = true → inv n → wired (conductor n) → enabled o n → stop o n = None →
  wp (run o) (λ _ n', tells n (announced o n) n') n.
Proof.
  intros Hl Hi Hw Hen Hs. destruct o as [| | | | | | | | | | | | | |e|l e|d|m| |]; try done.
  - by apply peer_event_tells.
  - by apply channel_event_tells.
  - destruct Hen as [d' ->]. by apply description_tells.
  - cbn [run]. unfold CreateSessionDescriptionObserver_OnFailure. sys_run.
    rewrite (wired_failure _ Hw). by apply tells_call.
  - apply tells_nothing.
  - apply tells_nothing.
Qed.

Lemma run_native_fault {A} (m : M (Sys W) A) (s : MSys W) e :
  m (native s) = Fault e → run_native m s = Fault e.
Proof. intros Hm. unfold run_native, mbind, M_bind, get, on_local. by rewrite Hm. Qed.
End Announcements.

(** C5. Events arrive: whenever the library makes something happen on a [SpitfireRtc] (a
    state change, a candidate, a message, a description, a failure), in any state a
    program can bring it to, its callbacks run to their end and raise exactly the managed
    event that stands for it ([announced]), unless the native code stops for one of the
    reasons of [stop]: then that fault is what happens.  So nothing was lost before
    either: the managed events raised so far are those of the native callbacks made so
    far, in order, each of which went through the pointer of its own signature; and the
    conductor is in a reachable state of its own state machine. *)
Theorem events_arrive {W : Type} `{!WebRtc W, !UnorderedMapLaws W}
    `{!BuildConfig, !Interop} (o : op) (s : MSys W) :
  mreachable s → menabled (MLibrary o) s →
  match stop o (native s) with
  | Some e => mrun (MLibrary o) s = Fault e
  | None => ∃ s', mrun (MLibrary o) s = Ok (tt, s') ∧
              raised s' = raised s ++ announced o (native s)
  end ∧
  reachable (native s) ∧
  (∀ p e, CNative p e ∈ trace (native s) → well_typed (CNative p e) = true) ∧
  raised s = trace (native s) ≫= event_of.
Proof.
  intros Hr (Hl&Hen&_). destruct (mreachable_inv s Hr) as [Hn Hw Ht He _].
  split_and!; try done.
  - apply reachable_inv in Hn. cbn [mrun]. destruct (stop o (native s)) as [e|] eqn:Hs.
    { apply run_native_fault, run_stops; [by destruct o|done..]. }
    destruct (wp_ok_inv (run_native (run o)) (λ _ s', raised s' = raised s ++ announced o (native s)) s)
      as ([]&s'&?&?); [|by eauto].
    apply wp_run_native; [apply typed_run; by destruct o|done|].
    eapply wp_mono; [by apply library_event_tells|]. intros [] n' (d&Htr&Hd) d' Htr' _ _.
    rewrite Htr in Htr'. apply app_inv_head in Htr' as <-. simpl. by rewrite Hd.
  - intros p e Hin. rewrite forallb_forall in Ht. by apply Ht, list_elem_of_In.
Qed.

(** C6. Callbacks are type safe.  The function pointers are untyped addresses on the native
    side; yet in every state a program can bring a [SpitfireRtc] to, each of the eight
    members of the conductor points at the handler of its own signature.  Whatever the
    program or the library does next to the conductor leaves them so, and invokes them only
    with arguments of that signature; and the handlers take every such call without a fault
    and raise the events it stands for. *)
Theorem callbacks_type_sound {W : Type} `{!WebRtc W, !UnorderedMapLaws W}
    `{!BuildConfig, !Interop} (s : MSys W) (o : op) (n : Sys W) :
  mreachable s →
  match o with OInstall _ _ => False | _ => True end → run o (native s) = Ok (tt, n) →
  wired (conductor (native s)) ∧ wired (conductor n) ∧
  ∃ d s', trace n = trace (native s) ++ d ∧ forallb well_typed d = true ∧
    for_each dispatch d s = Ok (tt, s') ∧ raised s' = raised s ++ (d ≫= event_of).
Proof.
  intros Hr Ho Hrun. destruct (mreachable_inv s Hr) as [_ Hw _ _ _].
  destruct (wlp_ok _ _ _ _ _ (typed_run o Ho (native s) Hw) Hrun) as [Hw' (d&Htr&Hd)].
  split; [done|]. split; [done|]. exists d.
  destruct (wp_ok_inv _ _ _ (wp_dispatch_all d (λ _ s', s' = after_native s (native s) d) s Hd eq_refl)) as ([]&s'&Hs'&->).
  by exists (after_native s (native s) d).
Qed.

(** C30. Disposal: [Dispose] on a live object returns; it frees the eight handles,
    deletes the conductor (so that its peer connection is closed and no channel is
    left) and nothing refers to either any more; disposing or finalizing again
    changes nothing.  Before that the handles keep the object reachable for the
    garbage collector, so that its finalizer never runs on its own. *)
Theorem dispose_releases {W : Type} `{!WebRtc W, !UnorderedMapLaws W}
    `{!BuildConfig, !Interop} (s : MSys W) :
  mreachable s → disposed_ (rtc_ s) = false →
  gc_handles s = all_handles ∧ ¬ menabled MFinalize s ∧
  ∃ s', SpitfireRtc_dispose s = Ok (tt, s') ∧
    gc_handles s' = ∅ ∧ conductor_ (rtc_ s') = None ∧ disposed_ (rtc_ s') = true ∧
    phase_of (conductor (native s')) = Deleted ∧ registry (conductor (native s')) = ∅ ∧
    SpitfireRtc_dispose s' = Ok (tt, s') ∧ SpitfireRtc_finalize s' = Ok (tt, s').
Proof.
  intros Hr Hd. pose proof (mreachable_inv s Hr) as Hi.
  destruct (mi_life _ Hi) as [Ha|(mn&mx&Hs&_)]; [|by rewrite Hs in Hd].
  pose proof Ha as (mn&mx&_&_&_&Hg). split; [done|]. split.
  - simpl. rewrite Hg. intros E. apply (f_equal (lookup 0%nat)) in E. vm_compute in E. discriminate.
  - destruct (wp_ok_inv _ _ _ (wp_dispose_alive s Hi Ha))
      as ([]&s'&He&_&(mn'&mx'&Hs'&Hg'&Hph)&Hreg&_).
    exists s'. rewrite Hs'. split_and!; try done; destruct s'; simpl in *; by subst.
Qed.

(** The operations that use the conductor. *)
Definition needs_conductor (o : mop) : bool :=
  match o with MEnableLogging _ _ _ _ | MDispose | MFinalize | MLibrary _ => false | _ => true end.

Section Disposed.
Context {W : Type} `{!WebRtc W} `{!BuildConfig} `{!Interop}.
Implicit Types s : MSys W.

Lemma faults_conductor_call {A} (m : M (Sys W) A) s :
  conductor_ (rtc_ s) = None → faults (conductor_call m) s.
Proof. intros Hc. unfold conductor_call, this, faults, mbind, M_bind. simpl. by rewrite Hc. Qed.

Lemma faults_drop_result {A} (m : M (MSys W) A) s : faults m s → faults (drop_result m) s.
Proof. apply faults_bind. Qed.

(** Looking first and then calling the conductor faults too. *)
Lemma faults_looks_bind {A B} (m : M (MSys W) A) (f : A → M (MSys W) B) s :
  looks m → (∀ a, faults (f a) s) → faults (m ≫= f) s.
Proof.
  intros Hm Hf. specialize (Hm s). unfold faults, wlp, mbind, M_bind in *.
  destruct (m s) as [[a s']|]; [|done]. subst. apply Hf.
Qed.
End Disposed.

Ltac look_faults :=
  repeat (lazymatch goal with
          | |- faults (mbind _ (conductor_call _)) _ => fail
          | |- faults (mbind _ _) _ => apply faults_looks_bind
          end;
    [first [apply looks_dcheck | apply looks_check | apply looks_this | apply looks_marshal_as
           | apply looks_deref | apply looks_sprintf_s | apply looks_check_conductor]
    |let a := fresh "a" in intros a]).

(** C35. Use after disposal: every operation of a disposed [SpitfireRtc] that needs
    the conductor stops with a fault (a failed check or a null dereference), in
    debug and release builds; none of them silently succeeds. *)
Theorem use_after_dispose {W : Type} `{!WebRtc W, !UnorderedMapLaws W}
    `{!BuildConfig, !Interop} (o : mop) (s : MSys W) :
  mreachable s → disposed_ (rtc_ s) = true →
  needs_conductor o = true → faults (mrun o) s.
Proof.
  intros Hr Hd Ho. pose proof (mreachable_inv s Hr) as Hi.
  destruct (mi_life _ Hi) as [(mn&mx&Hs&_)|(mn&mx&Hs&_)]; [by rewrite Hs in Hd|].
  assert (conductor_ (rtc_ s) = None) as Hc by (by rewrite Hs).
  destruct o; try done; simpl; try apply faults_drop_result;
    unfold SInitializePeerConnection, SCreateOffer, SProcessMessages, SetOfferReply,
      SetOfferRequest, SAddIceCandidate, SAddServerConfig, SCreateDataChannel,
      DataChannelSendText, DataChannelSendData, SGetDataChannelInfo, SGetDataChannelState,
      SCloseDataChannel; look_faults;
    try (first [by apply faults_conductor_call | by apply faults_bind, faults_conductor_call]).
  destruct config as [config|]; [|done]. destruct (IsNullOrEmpty (Host config)); [done|].
  look_faults. by apply faults_conductor_call.
Qed.

(** * Enumerations *)

(** The enumerations of the two sides agree: every native state is cast to the
    managed state of the same name, and every verbosity to the severity of the
    same name. *)
Theorem casts_agree :
  (cast_DataState <$> [DataChannelInterface.kConnecting; DataChannelInterface.kOpen;
                       DataChannelInterface.kClosing; DataChannelInterface.kClosed]) =
    [Some DataChannelState.Connecting; Some DataChannelState.Open;
     Some DataChannelState.Closing; Some DataChannelState.Closed] ∧
  (cast_IceGatheringState <$> [kIceGatheringNew; kIceGatheringGathering; kIceGatheringComplete]) =
    [Some ManagedIceGatheringState.New; Some ManagedIceGatheringState.Gathering;
     Some ManagedIceGatheringState.Complete] ∧
  (cast_IceConnectionState <$> [kIceConnectionNew; kIceConnectionChecking;
     kIceConnectionConnected; kIceConnectionCompleted; kIceConnectionFailed;
     kIceConnectionDisconnected; kIceConnectionClosed; kIceConnectionMax]) =
    Some <$> ManagedIceConnectionState.values ∧
  (log_severity <$> [RtcLogVerbosity.Verbose; RtcLogVerbosity.Info; RtcLogVerbosity.Warning;
                     RtcLogVerbosity.Error; RtcLogVerbosity.None]) =
    [Some LS_VERBOSE; Some LS_INFO; Some LS_WARNING; Some LS_ERROR; Some LS_NONE].
Proof. by vm_compute. Qed.

(** ** Calls on a live object *)

Section Live.
Context {W : Type} `{!WebRtc W} `{!BuildConfig} `{!Interop}.
Implicit Types s : MSys W.

Lemma check_conductor_alive c {A} (f : unit → M (MSys W) A) s :
  conductor_ (rtc_ s) = Some c → (check_conductor ≫= f) s = f tt s.
Proof.
  intros Hc. destruct (wp_ok_inv check_conductor (λ _ s', s' = s) s) as ([]&s'&He&->).
  - unfold check_conductor, this. wp_run. apply wp_dcheck; [by rewrite Hc|done].
  - unfold mbind at 1, M_bind. by rewrite He.
Qed.

Lemma wp_conductor_call {A} (m : M (Sys W) A) Q s :
  is_Some (conductor_ (rtc_ s)) → typed m → wired (conductor (native s)) →
  wp m (λ a n, ∀ d, trace n = trace (native s) ++ d → forallb well_typed d = true →
          wired (conductor n) → Q a (after_native s n d)) (native s) →
  wp (conductor_call m) Q s.
Proof.
  intros [c Hc] Ht Hw Hm. unfold conductor_call, this. wp_run. by apply wp_run_native.
Qed.
End Live.

(** * Server addresses *)

(** The address [AddServerConfig] builds for a configuration. *)
Definition config_uri `{!Interop} (c : ServerConfig) : string :=
  server_uri (match Type_ c with Stun => "stun" | Turn => "turn" end)
    (c_str (From_default (Host c) "")) (Port c).

(** The server it hands to the conductor. *)
Definition config_server `{!Interop} (c : ServerConfig) : IceServer :=
  default_IceServer <| uri := config_uri c |>
    <| username := From_default (Username c) "" |> <| password := From_default (Password c) "" |>.

(** C39. [AddServerConfig] on a live object: a missing configuration or host is an
    argument exception; an address of 256 characters or more stops the process
    in the secure C runtime; every other configuration appends exactly one
    server, with the address, and with empty credentials where none are given. *)
Theorem add_server_config_cases {W : Type} `{!WebRtc W, !UnorderedMapLaws W}
    `{!BuildConfig, !Interop} (config : option ServerConfig) (s : MSys W) :
  mreachable s → disposed_ (rtc_ s) = false →
  match config with
  | None => SAddServerConfig config s = Fault (ArgumentException "Missing mandatory argument")
  | Some c =>
    if IsNullOrEmpty (Host c)
    then SAddServerConfig config s = Fault (ArgumentException "Missing mandatory host argument")
    else if (256 <=? String.length (config_uri c))%nat
    then SAddServerConfig config s = Fault (InvalidParameter "sprintf_s")
    else ∃ s', SAddServerConfig config s = Ok (tt, s') ∧
      servers_ (conductor (native s')) = servers_ (conductor (native s)) ++ [config_server c] ∧
      trace (native s') = trace (native s) ∧ raised s' = raised s
  end.
Proof.
  intros Hr Hd. pose proof (mreachable_inv s Hr) as Hi.
  destruct (mi_life _ Hi) as [(mn&mx&Hs&_)|(mn&mx&Hs&_)]; [|by rewrite Hs in Hd].
  pose proof (mi_wired _ Hi) as Hw.
  assert (conductor_ (rtc_ s) = Some 0%nat) as Hc by (by rewrite Hs).
  unfold SAddServerConfig. rewrite (check_conductor_alive 0) by done.
  destruct config as [c|]; [|done].
  destruct (IsNullOrEmpty (Host c)); [done|]. fold (config_uri c). unfold sprintf_s.
  destruct (Nat.leb_spec 256 (String.length (config_uri c))) as [Hlong|Hshort].
  - rewrite (proj2 (Nat.ltb_ge _ _) Hlong). done.
  - rewrite (proj2 (Nat.ltb_lt _ _) Hshort).
    match goal with |- ∃ s', _ ∧ @?Q s' =>
      destruct (wp_ok_inv (conductor_call (AddServerConfig (config_uri c)
        (From_default (Username c) "") (From_default (Password c) ""))) (λ _ s', Q s') s)
        as ([]&s'&Hok&HQ); [|by exists s'] end.
    apply wp_conductor_call; [by rewrite Hc|by apply (typed_run (OAddServerConfig _ _ _))|done|].
    unfold AddServerConfig. sys_run. intros d Hd' _ _. simpl in Hd'.
    assert (d = []) as -> by (rewrite <-(app_nil_r (trace (native s))) in Hd' at 1;
      by apply app_inv_head in Hd'). simpl.
    split_and!; [|done|by rewrite app_nil_r]. by destruct (conductor (native s)).
Qed.

(** The number a sequence of digits stands for. *)
Definition digits_value (l : list Ascii.ascii) : Z :=
  foldl (λ acc a, acc * 10 + (Z.of_nat (Ascii.nat_of_ascii a) - 48)) 0 l.

Lemma digit_code n : Z.of_nat (Ascii.nat_of_ascii (Ascii.ascii_of_nat (48 + Z.to_nat (n mod 10)))) =
  48 + n mod 10.
Proof.
  pose proof (Z.mod_pos_bound n 10 ltac:(lia)).
  rewrite Ascii.nat_ascii_embedding by lia. lia.
Qed.

Lemma digits_value_app l a :
  digits_value (l ++ [a]) = digits_value l * 10 + (Z.of_nat (Ascii.nat_of_ascii a) - 48).
Proof. unfold digits_value. by rewrite foldl_app. Qed.

(** Printing is exact for numbers with at most [fuel + 1] digits. *)
Lemma digits_value_decimal fuel n :
  0 ≤ n < 10 ^ (Z.of_nat fuel + 1) → digits_value (decimal_digits fuel n) = n.
Proof.
  revert n. induction fuel as [|fuel IH]; intros n Hn; cbn [decimal_digits].
  - unfold digits_value. cbn [foldl]. rewrite digit_code, Z.mod_small; simpl in *; lia.
  - destruct (Z.ltb_spec n 10) as [Hlt|Hge].
    + unfold digits_value. cbn [foldl]. rewrite digit_code, Z.mod_small; lia.
    + rewrite digits_value_app, digit_code, IH.
      * pose proof (Z.div_mod n 10). lia.
      * split; [apply Z.div_pos; lia|]. apply Z.div_lt_upper_bound; [lia|].
        replace (Z.of_nat (S fuel) + 1) with (Z.succ (Z.of_nat fuel + 1)) in Hn by lia.
        rewrite Z.pow_succ_r in Hn by lia. lia.
Qed.

Definition colon : Ascii.ascii := Ascii.ascii_of_nat 58.

Lemma digits_no_colon fuel n : colon ∉ decimal_digits fuel n.
Proof.
  assert (∀ n, colon ≠ Ascii.ascii_of_nat (48 + Z.to_nat (n mod 10))) as Hd.
  { intros m E. apply (f_equal (λ a, Z.of_nat (Ascii.nat_of_ascii a))) in E.
    rewrite digit_code in E. change (Z.of_nat (Ascii.nat_of_ascii colon)) with 58 in E.
    pose proof (Z.mod_pos_bound m 10 ltac:(lia)). lia. }
  revert n. induction fuel as [|fuel IH]; intros n; cbn [decimal_digits].
  - rewrite list_elem_of_singleton. apply Hd.
  - destruct (n <? 10); rewrite ?elem_of_app, !list_elem_of_singleton; [apply Hd|].
    intros [Hin|E]; [by eapply IH|by eapply Hd].
Qed.

(** A list is cut in one way only where its last colon is. *)
Lemma cut_last (h h' p p' : list Ascii.ascii) :
  h ++ colon :: p = h' ++ colon :: p' → colon ∉ p → colon ∉ p' → h = h' ∧ p = p'.
Proof.
  revert h'. induction h as [|a h IH]; intros [|b h'] E Hp Hp'; simplify_eq/=; try done.
  - exfalso. apply Hp. set_solver.
  - exfalso. apply Hp'. set_solver.
  - by destruct (IH h') as [-> ->].
Qed.

Lemma list_ascii_app s t :
  String.list_ascii_of_string (s +:+ t) =
  String.list_ascii_of_string s ++ String.list_ascii_of_string t.
Proof. induction s as [|a s IH]; simpl; [done|]. by f_equal. Qed.

Lemma server_uri_list t h p :
  String.list_ascii_of_string (server_uri t h p) =
  (String.list_ascii_of_string t ++ colon :: String.list_ascii_of_string h) ++
  colon :: decimal_digits 4 p.
Proof.
  unfold server_uri, decimal. rewrite !list_ascii_app, String.list_ascii_of_string_of_list_ascii.
  rewrite <-app_assoc. done.
Qed.

(** An address determines the server: two servers (STUN or TURN, any host
    text, any 16-bit port) with the same address are of the same type, on the same
    host and the same port; the port is printed exactly. *)
Theorem server_uri_injective (t t' : ServerType) (h h' : string) (p p' : Z) :
  let name t := match t with Stun => "stun" | Turn => "turn" end in
  in_u 16 p → in_u 16 p' →
  server_uri (name t) h p = server_uri (name t') h' p' → t = t' ∧ h = h' ∧ p = p'.
Proof.
  intros name [Hp0 Hp] [Hp0' Hp'] E. apply (f_equal String.list_ascii_of_string) in E.
  rewrite !server_uri_list in E. change (2 ^ 16) with 65536 in *.
  apply cut_last in E as [E Ed]; [|apply digits_no_colon..].
  assert (p = p') as ->.
  { rewrite <-(digits_value_decimal 4 p), <-(digits_value_decimal 4 p') by (simpl; lia).
    by rewrite Ed. }
  assert (t = t' ∧ String.list_ascii_of_string h = String.list_ascii_of_string h') as [-> Eh].
  { by destruct t, t'; simpl in E; injection E. }
  split_and!; [done| |done].
  by rewrite <-(String.string_of_list_ascii_of_string h), Eh,
    String.string_of_list_ascii_of_string.
Qed.

(** * Queries *)

(** [GetDataChannelState] on a live object, for a label in ASCII, answers the
    managed state of the channel that is open under that label, and Closed when
    there is none; it changes nothing and raises nothing. *)
Theorem managed_channel_state {W : Type} `{!WebRtc W, !UnorderedMapLaws W}
    `{!BuildConfig} `{!Interop, !InteropLaws} (l : string) (s : MSys W) :
  mreachable s → disposed_ (rtc_ s) = false → is_ascii l = true →
  SGetDataChannelState (Some (units l)) s =
    Ok (match registry (conductor (native s)) !! l with
        | Some c => cast_DataState (dc_state (world (native s)) c)
        | None => Some DataChannelState.Closed
        end, s).
Proof.
  intros Hr Hd Hl. pose proof (mreachable_inv s Hr) as Hi.
  destruct (mi_life _ Hi) as [(mn&mx&Hs&_)|(mn&mx&Hs&_)]; [|by rewrite Hs in Hd].
  assert (is_Some (conductor_ (rtc_ s))) as Hc by (by rewrite Hs).
  match goal with |- _ = Ok (?r, _) =>
    destruct (wp_ok_inv (SGetDataChannelState (Some (units l))) (λ a s', a = r ∧ s' = s) s)
      as (a&s'&Hok&->&->); [|done] end.
  unfold SGetDataChannelState, marshal_as, check_conductor, this. wp_run.
  apply wp_dcheck; [by destruct Hc as [? ->]|]. wp_run.
  rewrite marshal_ascii by done. apply wp_conductor_call; [done| |apply Hi|].
  { by apply typed_result, (typed_run (OGetDataChannelState l)). }
  unfold wp. rewrite GetDataChannelState_registry by (apply reachable_inv, Hi).
  intros d Htr _ _. assert (d = []) as ->.
  { rewrite <-(app_nil_r (trace (native s))) in Htr at 1. by apply app_inv_head in Htr. }
  wp_run. split.
  - by destruct (registry (conductor (native s)) !! l).
  - unfold after_native. simpl. rewrite app_nil_r. by destruct s.
Qed.

(** * Witnesses *)

(** Conversions of a Western code page. *)
#[local] Instance latin1 : Interop := {|
  marshal := λ u, String.string_of_list_ascii ((λ z, Ascii.ascii_of_nat (Z.to_nat z)) <$> u);
  unmarshal := units
|}.

#[local] Instance latin1_laws : InteropLaws.
Proof.
  split; [|done]. intros s _. simpl. unfold units.
  rewrite <-(String.string_of_list_ascii_of_string s) at 2. f_equal.
  induction (String.list_ascii_of_string s) as [|a l IH]; [done|]. simpl. f_equal; [|exact IH].
  by rewrite Nat2Z.id, Ascii.ascii_nat_embedding.
Qed.

#[local] Existing Instance debug_build.

Fixpoint mexec (os : list mop) (s : MSys sample) : option (MSys sample) :=
  match os with
  | [] => Some s
  | o :: os' => match mrun o s with Ok (_, s') => mexec os' s' | Fault _ => None end
  end.

(** Operations that are always enabled. *)
Definition program_op (o : mop) : bool :=
  match o with MFinalize | MLibrary _ => false | _ => true end.

Definition managed_run (os : list mop) : option (MSys sample) :=
  match SpitfireRtc_new_ports 1025 65535 (blank_managed (sample_world true) 0) with
  | Ok (_, s) => mexec os s
  | Fault _ => None
  end.

Lemma mexec_steps os s s' :
  forallb program_op os = true → mexec os s = Some s' → rtc mstep s s'.
Proof.
  revert s. induction os as [|o os IH]; simpl; intros s; [by intros _ [= ->]|].
  intros [Ho Hos]%andb_true_iff. destruct (mrun o s) as [[[] s1]|] eqn:Hr; [|done].
  intros Hex. eapply rtc_l; [|by apply IH]. eapply (mstep_op o); [|done]. by destruct o.
Qed.

Lemma managed_run_reachable os s :
  forallb program_op os = true → managed_run os = Some s → mreachable s.
Proof.
  intros Hos. unfold managed_run.
  destruct (SpitfireRtc_new_ports _ _ _) as [[[] s0]|] eqn:Hn; [|done].
  intros Hex. exists s0. split; [|by eapply mexec_steps].
  exists (sample_world true), 0%nat, 1025, 65535.
  split; [split; lia|]. split; [split; lia|]. exact Hn.
Qed.

Definition stun_config : ServerConfig :=
  mkServerConfig Stun (Some (units "stun.example.org")) 3478 None None.

Definition chat_options : DataChannelOptions :=
  mkDataChannelOptions (Some (units "chat")) false true None None None false (-1).

Definition session : list mop :=
  [MAddServerConfig (Some stun_config); MInitializePeerConnection;
   MCreateDataChannel (Some chat_options); MCreateOffer].

Definition session_end : MSys sample :=
  default (blank_managed (sample_world true) 0) (managed_run session).

Lemma session_end_reachable : mreachable session_end.
Proof.
  apply (managed_run_reachable session); [reflexivity|vm_compute; reflexivity].
Qed.

(** A message arrives on the channel of the session. *)
Lemma events_arrive_witness : ∃ s',
  mrun (MLibrary (EChannel "chat" (OnMessage (DataBuffer_of_text "hi")))) session_end = Ok (tt, s') ∧
  raised s' = raised session_end ++ [OnMessageEvent (units "chat") [104; 105] 2 false].
Proof.
  destruct (events_arrive (EChannel "chat" (OnMessage (DataBuffer_of_text "hi"))) session_end
    session_end_reachable) as [(s'&Hs&Hr) _].
  - split; [reflexivity|]. split; [eexists; vm_compute; reflexivity|]. eexists. vm_compute. reflexivity.
  - exists s'. split; [exact Hs|]. rewrite Hr. vm_compute. reflexivity.
Defined.

Lemma callbacks_type_sound_witness : ∃ d s',
  forallb well_typed d = true ∧ for_each dispatch d session_end = Ok (tt, s') ∧
  raised s' = raised session_end ++ [OnFailureEvent (units "no audio")].
Proof.
  destruct (callbacks_type_sound session_end (ESdpFailure "no audio")
    (match run (ESdpFailure "no audio") (native session_end) with
     | Ok (_, n) => n | Fault _ => native session_end end)
    session_end_reachable I) as (_&_&d&s'&Ht&Hd&Hs&He); [vm_compute; reflexivity|].
  exists d, s'. split; [exact Hd|]. split; [exact Hs|]. rewrite He. f_equal.
  assert (d = [CNative (function_pointer H_OnFailure) (NOnFailure "no audio")]) as ->; [|vm_compute; reflexivity].
  apply (app_inv_head (trace (native session_end))). rewrite <-Ht. vm_compute. reflexivity.
Defined.

Lemma dispose_releases_witness : ∃ s',
  SpitfireRtc_dispose session_end = Ok (tt, s') ∧ gc_handles s' = ∅ ∧
  conductor_ (rtc_ s') = None.
Proof.
  destruct (dispose_releases session_end session_end_reachable)
    as (_&_&s'&Hd&Hg&Hc&_); [vm_compute; reflexivity|].
  exists s'. split; [exact Hd|]. split; [exact Hg|exact Hc].
Defined.

Definition disposed_end : MSys sample :=
  default (blank_managed (sample_world true) 0) (managed_run (session ++ [MDispose])).

Lemma use_after_dispose_witness : faults (mrun MCreateOffer) disposed_end.
Proof.
  apply use_after_dispose; [|vm_compute; reflexivity|reflexivity].
  apply (managed_run_reachable (session ++ [MDispose])); [reflexivity|vm_compute; reflexivity].
Defined.

Lemma add_server_config_cases_witness :
  config_uri stun_config = "stun:stun.example.org:3478" ∧
  ∃ s', SAddServerConfig (Some stun_config) session_end = Ok (tt, s').
Proof.
  split; [vm_compute; reflexivity|].
  assert (disposed_ (rtc_ session_end) = false) as Hd by (vm_compute; reflexivity).
  destruct (add_server_config_cases (Some stun_config) session_end
    session_end_reachable Hd) as (s'&Hs&_). exists s'. exact Hs.
Defined.

Lemma server_uri_injective_witness :
  server_uri "turn" "a:b" 80 = "turn:a:b:80" ∧ (Turn = Turn ∧ "a:b" = "a:b" ∧ 80 = 80).
Proof.
  split; [vm_compute; reflexivity|].
  apply (server_uri_injective Turn Turn "a:b" "a:b" 80 80); [split; lia..|reflexivity].
Defined.

Lemma managed_channel_state_witness :
  SGetDataChannelState (Some (units "nobody")) session_end =
    Ok (Some DataChannelState.Closed, session_end).
Proof.
  assert (disposed_ (rtc_ session_end) = false) as Hd by (vm_compute; reflexivity).
  rewrite (managed_channel_state "nobody" session_end session_end_reachable Hd
    eq_refl).
  assert (registry (conductor (native session_end)) !! "nobody" = @None chan) as E
    by (vm_compute; reflexivity).
  rewrite E. reflexivity.
Defined.
